(** * rhashmap: a Robin Hood hash map (rmind/rhashmap)

    A shallow embedding of [src/fastdiv.h], [src/utils.h], [src/siphash.c]
    and [src/rhashmap.c], followed by the properties of the specification
    that were checked against it.

    Conventions.  C unsigned integers are [Z] with the wrap-around written
    out ([u8], [u16], [u32], [u64]).  [void *] values are [Z], [NULL] is 0.
    A key is the list of the bytes it points to; a bucket's key pointer is
    an [option], [None] being [NULL]. *)

From stdpp Require Import base list.
From Stdlib Require Import ZArith Lia Strings.Byte.
Import ListNotations.
Local Open Scope Z_scope.

(** ** Machine integers *)

Definition u8 (x : Z) : Z := x mod 2 ^ 8.
Definition u16 (x : Z) : Z := x mod 2 ^ 16.
Definition u32 (x : Z) : Z := x mod 2 ^ 32.
Definition u64 (x : Z) : Z := x mod 2 ^ 64.

Definition UINT_MAX : Z := 2 ^ 32 - 1.

(** [MIN] and [MAX] of utils.h. *)
Definition MIN (x y : Z) : Z := if x <? y then x else y.
Definition MAX (x y : Z) : Z := if x >? y then x else y.

(** ** utils.h: find last set bit

    [fls(int x)] is [x ? 32 - __builtin_clz(x) : 0].  The argument is given
    here as the 32-bit pattern of [x]; [__builtin_clz] counts the leading
    zero bits of a non-zero 32-bit word. *)

Definition builtin_clz (x : Z) : Z := 31 - Z.log2 x.

Definition fls (x : Z) : Z :=
  if x =? 0 then 0 else 32 - builtin_clz x.

(** ** fastdiv.h *)

Definition fast_div32_init (div : Z) : Z :=
  let l := fls (u32 (div - 1)) in
  let mt := u64 (2 ^ 32 * u64 (Z.shiftl 1 l - div)) in
  let s1 := if l >? 1 then 1 else u8 l in
  let s2 := if l =? 0 then 0 else u8 (l - 1) in
  Z.lor (Z.lor (u64 (Z.shiftl (u64 (mt / div + 1)) 32))
               (u32 (Z.shiftl (u32 s1) 8)))
        s2.

Definition fast_div32 (v div divinfo : Z) : Z :=
  let m := u32 (Z.shiftr divinfo 32) in
  let s1 := Z.shiftr (Z.land divinfo 65280) 8 in
  let s2 := Z.land divinfo 255 in
  let t := u32 (Z.shiftr (u64 (v * m)) 32) in
  Z.shiftr (u32 (t + Z.shiftr (u32 (v - t)) s1)) s2.

Definition fast_rem32 (v div divinfo : Z) : Z :=
  u32 (v - u32 (div * fast_div32 v div divinfo)).

(** The fields packed by [fast_div32_init]: multiplier and the two shifts. *)
Definition fd_l (d : Z) : Z := fls (u32 (d - 1)).
Definition fd_m (d : Z) : Z := (2 ^ 32 * (2 ^ fd_l d - d)) / d + 1.
Definition fd_s1 (d : Z) : Z := if fd_l d >? 1 then 1 else fd_l d.
Definition fd_s2 (d : Z) : Z := if fd_l d =? 0 then 0 else fd_l d - 1.

(** ** siphash.c: HalfSipHash-2-4

    [in] is the list of the bytes the pointer refers to; a byte past its
    end reads as 0.  The result is assembled by [U32TO8_LE] into the
    [uint32_t] that is returned, which on a little-endian host is [b]. *)

Definition byte_val (b : byte) : Z := Z.of_N (Byte.to_N b).

Definition byte_at (p : list byte) (i : nat) : Z := byte_val (nth i p x00).

Definition ROTL (x b : Z) : Z :=
  u32 (Z.lor (Z.shiftl x b) (Z.shiftr x (32 - b))).

Definition U8TO32_LE (p : list byte) : Z :=
  Z.lor (Z.lor (Z.lor (byte_at p 0) (Z.shiftl (byte_at p 1) 8))
               (Z.shiftl (byte_at p 2) 16))
        (Z.shiftl (byte_at p 3) 24).

Definition SIPROUND (v : Z * Z * Z * Z) : Z * Z * Z * Z :=
  let '(v0, v1, v2, v3) := v in
  let v0 := u32 (v0 + v1) in
  let v1 := ROTL v1 5 in
  let v1 := Z.lxor v1 v0 in
  let v0 := ROTL v0 16 in
  let v2 := u32 (v2 + v3) in
  let v3 := ROTL v3 8 in
  let v3 := Z.lxor v3 v2 in
  let v0 := u32 (v0 + v3) in
  let v3 := ROTL v3 7 in
  let v3 := Z.lxor v3 v0 in
  let v2 := u32 (v2 + v1) in
  let v1 := ROTL v1 13 in
  let v1 := Z.lxor v1 v2 in
  let v2 := ROTL v2 16 in
  (v0, v1, v2, v3).

Definition cROUNDS (v : Z * Z * Z * Z) := SIPROUND (SIPROUND v).
Definition dROUNDS (v : Z * Z * Z * Z) :=
  SIPROUND (SIPROUND (SIPROUND (SIPROUND v))).

(** The loop [for (; in != end; in += 4)] over [nwords] whole words; it
    returns the state and the advanced pointer. *)
Fixpoint sip_compress (nwords : nat) (p : list byte) (v : Z * Z * Z * Z)
  : (Z * Z * Z * Z) * list byte :=
  match nwords with
  | O => (v, p)
  | S n =>
      let '(v0, v1, v2, v3) := v in
      let m := U8TO32_LE p in
      let v3 := Z.lxor v3 m in
      let '(v0, v1, v2, v3) := cROUNDS (v0, v1, v2, v3) in
      let v0 := Z.lxor v0 m in
      sip_compress n (drop 4 p) (v0, v1, v2, v3)
  end.

Definition halfsiphash (input : list byte) (inlen : Z) (k : Z) : Z :=
  let nwords := Z.to_nat (inlen / 4) in
  let left := Z.land inlen 3 in
  let k0 := u32 k in
  let k1 := u32 (Z.shiftr k 32) in
  let b := u32 (Z.shiftl (u32 inlen) 24) in
  let v3 := Z.lxor 1952801890 k1 in
  let v2 := Z.lxor 1819895653 k0 in
  let v1 := Z.lxor 0 k1 in
  let v0 := Z.lxor 0 k0 in
  let '(v0, v1, v2, v3, p) := sip_compress nwords input (v0, v1, v2, v3) in
  let b := if left =? 3 then Z.lor b (Z.shiftl (byte_at p 2) 16) else b in
  let b := if (left =? 3) || (left =? 2)
           then Z.lor b (Z.shiftl (byte_at p 1) 8) else b in
  let b := if (left =? 3) || (left =? 2) || (left =? 1)
           then Z.lor b (byte_at p 0) else b in
  let v3 := Z.lxor v3 b in
  let '(v0, v1, v2, v3) := cROUNDS (v0, v1, v2, v3) in
  let v0 := Z.lxor v0 b in
  let v2 := Z.lxor v2 255 in
  let '(v0, v1, v2, v3) := dROUNDS (v0, v1, v2, v3) in
  u32 (Z.lxor v1 v3).

(** ** The environment: [malloc]/[calloc] and [random]

    The coming outcomes of the allocator ([true]: the block is returned,
    [false]: [NULL]) and the coming results of [random()].  When a list is
    used up every further allocation succeeds and [random()] gives 0. *)

Record world : Type := mkWorld {
  allocs : list bool;
  rands : list Z
}.

Definition alloc (w : world) : bool * world :=
  match allocs w with
  | [] => (true, w)
  | ok :: rest => (ok, mkWorld rest (rands w))
  end.

(** [random()] returns a [long] in [0, 2^31 - 1]. *)
Definition random (w : world) : Z * world :=
  match rands w with
  | [] => (0, w)
  | r :: rest => (r mod 2 ^ 31, mkWorld (allocs w) rest)
  end.

(** How a call of the model ends. *)
Inductive result (A : Type) : Type :=
| Done (a : A)      (* the call returns *)
| NullCompare       (* [memcmp] is handed the [NULL] key of an empty bucket *)
| DivByZero         (* [fast_div32_init(0)] divides by zero *)
| Unfinished.       (* the insertion probe went once round the array *)

Arguments Done {A} a.
Arguments NullCompare {A}.
Arguments DivByZero {A}.
Arguments Unfinished {A}.

Definition bind {A B : Type} (r : result A) (f : A -> result B) : result B :=
  match r with
  | Done a => f a
  | NullCompare => NullCompare
  | DivByZero => DivByZero
  | Unfinished => Unfinished
  end.

Notation "'let*' x '<-' r 'in' k" := (bind r (fun x => k))
  (at level 10, x pattern, r at level 100, k at level 200).

(** ** rhashmap.c: the data *)

Definition NULL : Z := 0.

Definition RHM_NOCOPY : Z := 1.
Definition RHM_NONCRYPTO : Z := 2.
Definition RHM_WALK_BEGIN : Z := 0.

Definition MAX_GROWTH_STEP : Z := 1024 * 1024.

(** The two macros work on an [unsigned]: the product wraps at 2^32. *)
Definition APPROX_85_PERCENT (x : Z) : Z := Z.shiftr (u32 (x * 870)) 10.
Definition APPROX_40_PERCENT (x : Z) : Z := Z.shiftr (u32 (x * 409)) 10.

(** [rh_bucket_t]: [hash] is a 32-bit field, [psl] and [len] are 16-bit
    fields. *)
Record rh_bucket_t : Type := mkBucket {
  b_key : option (list byte);
  b_val : Z;
  b_hash : Z;
  b_psl : Z;
  b_len : Z
}.

(** A bucket as [calloc] and [memset(.., 0, ..)] leave it. *)
Definition zero_bucket : rh_bucket_t := mkBucket None NULL 0 0 0.

(** [struct rhashmap].  [hm_buckets] is the array [buckets] points to; it is
    [init_bucket] exactly when [size] is 1, and [[]] for the [NULL] of a
    fresh [calloc]. *)
Record rhashmap : Type := mkHmap {
  hm_size : Z;
  hm_nitems : Z;
  hm_flags : Z;
  hm_minsize : Z;
  hm_divinfo : Z;
  hm_buckets : list rh_bucket_t;
  hm_hashkey : Z
}.

Definition set_buckets (hmap : rhashmap) (bs : list rh_bucket_t) : rhashmap :=
  mkHmap (hm_size hmap) (hm_nitems hmap) (hm_flags hmap) (hm_minsize hmap)
         (hm_divinfo hmap) bs (hm_hashkey hmap).

Definition set_nitems (hmap : rhashmap) (n : Z) : rhashmap :=
  mkHmap (hm_size hmap) n (hm_flags hmap) (hm_minsize hmap)
         (hm_divinfo hmap) (hm_buckets hmap) (hm_hashkey hmap).

(** [&buckets[i]] read and written.  An index outside the array does not
    occur in a table whose array has [size] buckets; the model reads a zero
    bucket there and ignores the write. *)
Definition bucket_ref (bs : list rh_bucket_t) (i : Z) : rh_bucket_t :=
  default zero_bucket (bs !! Z.to_nat i).

Definition bucket_set (bs : list rh_bucket_t) (i : Z) (b : rh_bucket_t)
  : list rh_bucket_t :=
  <[Z.to_nat i := b]> bs.

Definition set_psl (b : rh_bucket_t) (p : Z) : rh_bucket_t :=
  mkBucket (b_key b) (b_val b) (b_hash b) p (b_len b).

(** [bucket->key = NULL; bucket->len = 0;] *)
Definition clear_bucket (b : rh_bucket_t) : rh_bucket_t :=
  mkBucket None (b_val b) (b_hash b) (b_psl b) 0.

Fixpoint bytes_eqb (a b : list byte) : bool :=
  match a, b with
  | [], [] => true
  | x :: a', y :: b' => Byte.eqb x y && bytes_eqb a' b'
  | _, _ => false
  end.

(** [memcmp(p, q, n) == 0] *)
Definition memcmp_eq (p q : list byte) (n : Z) : bool :=
  bytes_eqb (take (Z.to_nat n) p) (take (Z.to_nat n) q).

(** The test [bucket->hash == hash && bucket->len == len &&
    memcmp(bucket->key, key, len) == 0] of the three probes. *)
Definition bucket_match (bucket : rh_bucket_t) (hash : Z) (key : list byte)
    (len : Z) : result bool :=
  if (b_hash bucket =? hash) && (b_len bucket =? len) then
    match b_key bucket with
    | None => NullCompare
    | Some bkey => Done (memcmp_eq bkey key len)
    end
  else Done false.

(** * The engine *)

Section Engine.

(** [murmurhash3] is declared in utils.h; its body is not part of the
    sources at hand. *)
Variable murmurhash3 : list byte -> Z -> Z -> Z.

Definition compute_hash (hmap : rhashmap) (key : list byte) (len : Z) : Z :=
  if negb (Z.land (hm_flags hmap) RHM_NONCRYPTO =? 0) then
    u32 (murmurhash3 key len (u32 (hm_hashkey hmap)))
  else halfsiphash key len (hm_hashkey hmap).

(** [fast_rem32(v, hmap->size, hmap->divinfo)] *)
Definition slot (hmap : rhashmap) (v : Z) : Z :=
  fast_rem32 v (hm_size hmap) (hm_divinfo hmap).

Definition validate_psl_p (hmap : rhashmap) (bucket : rh_bucket_t) (i : Z)
  : bool :=
  let base_i := slot hmap (b_hash bucket) in
  let diff := if base_i >? i then u32 (u32 (hm_size hmap - base_i) + i)
              else u32 (i - base_i) in
  match b_key bucket with
  | None => true
  | Some _ => diff =? b_psl bucket
  end.

(** ** rhashmap_get *)

Fixpoint get_probe (fuel : nat) (hmap : rhashmap) (key : list byte)
    (len hash n i : Z) : result Z :=
  match fuel with
  | O => Unfinished
  | S fuel' =>
      let bucket := bucket_ref (hm_buckets hmap) i in
      let* m <- bucket_match bucket hash key len in
      if m then Done (b_val bucket)
      else
        match b_key bucket with
        | None => Done NULL
        | Some _ =>
            if n >? b_psl bucket then Done NULL
            else get_probe fuel' hmap key len hash (u32 (n + 1))
                           (slot hmap (u32 (i + 1)))
        end
  end.

(** [n] grows by one per step and a 16-bit [psl] is below 2^16, so the
    probe returns within 2^16 + 1 steps. *)
Definition probe_fuel : nat := Z.to_nat (2 ^ 16 + 1).

Definition rhashmap_get (hmap : rhashmap) (key : list byte) (len : Z)
  : result Z :=
  let hash := compute_hash hmap key len in
  get_probe probe_fuel hmap key len hash 0 (slot hmap hash).

(** ** rhashmap_insert *)

Fixpoint insert_probe (fuel : nat) (hmap : rhashmap) (key : list byte)
    (len hash val : Z) (bs : list rh_bucket_t) (entry : rh_bucket_t) (i : Z)
  : result (rhashmap * Z) :=
  match fuel with
  | O => Unfinished
  | S fuel' =>
      let bucket := bucket_ref bs i in
      match b_key bucket with
      | Some _ =>
          let* m <- bucket_match bucket hash key len in
          if m then
            (* Duplicate key: return the current value. *)
            Done (set_buckets hmap bs, b_val bucket)
          else
            let '(entry, bs) :=
              if b_psl entry >? b_psl bucket
              then (bucket, bucket_set bs i entry)
              else (entry, bs) in
            let entry := set_psl entry (u16 (b_psl entry + 1)) in
            insert_probe fuel' hmap key len hash val bs entry
                         (slot hmap (u32 (i + 1)))
      | None =>
          (* Found a free bucket: insert the entry. *)
          Done (set_nitems (set_buckets hmap (bucket_set bs i entry))
                           (u32 (hm_nitems hmap + 1)), val)
      end
  end.

Definition rhashmap_insert (w : world) (hmap : rhashmap) (key : list byte)
    (len val : Z) : result (world * rhashmap * Z) :=
  let hash := compute_hash hmap key len in
  let setup : world * option (list byte) :=
    if Z.land (hm_flags hmap) RHM_NOCOPY =? 0 then
      let '(ok, w') := alloc w in
      (w', if ok then Some (take (Z.to_nat len) key) else None)
    else (w, Some key) in
  let '(w', ekey) := setup in
  match ekey with
  | None => Done (w', hmap, NULL)
  | Some _ =>
      let entry := mkBucket ekey val hash 0 (u16 len) in
      let* (hmap', ret) <- insert_probe (Z.to_nat (hm_size hmap)) hmap key len
                                    hash val (hm_buckets hmap) entry
                                    (slot hmap hash) in
      Done (w', hmap', ret)
  end.

(** ** rhashmap_resize *)

(** The loop over the old array: every occupied bucket is re-inserted, the
    value [rhashmap_insert] returns is not looked at. *)
Fixpoint rehash (w : world) (hmap : rhashmap) (old : list rh_bucket_t)
  : result (world * rhashmap) :=
  match old with
  | [] => Done (w, hmap)
  | bucket :: rest =>
      match b_key bucket with
      | None => rehash w hmap rest
      | Some bkey =>
          let* (w', hmap', _) <- rhashmap_insert w hmap bkey (b_len bucket)
                                             (b_val bucket) in
          rehash w' hmap' rest
      end
  end.

Definition rhashmap_resize (w : world) (hmap : rhashmap) (newsize : Z)
  : result (world * rhashmap * Z) :=
  let oldsize := hm_size hmap in
  (* [memset(&hmap->init_bucket, ..)] also clears the old array when that
     is [init_bucket] *)
  let oldbuckets :=
    if (newsize =? 1) && (oldsize =? 1) then [zero_bucket]
    else hm_buckets hmap in
  let allocated : world * option (list rh_bucket_t) :=
    if newsize =? 1 then (w, Some [zero_bucket])
    else if newsize >? UINT_MAX then (w, None)
    else
      let '(ok, w') := alloc w in
      (w', if ok then Some (replicate (Z.to_nat newsize) zero_bucket)
           else None) in
  let '(w1, newbuckets) := allocated in
  match newbuckets with
  | None => Done (w1, hmap, -1)
  | Some bs =>
      if u32 newsize =? 0 then DivByZero
      else
        let '(r1, w2) := random w1 in
        let '(r2, w3) := random w2 in
        let hmap' :=
          mkHmap (u32 newsize) 0 (hm_flags hmap) (hm_minsize hmap)
                 (fast_div32_init (u32 newsize)) bs
                 (Z.lxor (hm_hashkey hmap) (Z.lor r1 (Z.shiftl r2 32))) in
        let* (w4, hmap'') <- rehash w3 hmap' (take (Z.to_nat oldsize) oldbuckets) in
        Done (w4, hmap'', 0)
  end.

(** ** rhashmap_put *)

Definition grow_size (hmap : rhashmap) : Z :=
  let grow_limit := u32 (hm_size hmap + MAX_GROWTH_STEP) in
  MIN (u32 (Z.shiftl (hm_size hmap) 1)) grow_limit.

Definition rhashmap_put (w : world) (hmap : rhashmap) (key : list byte)
    (len val : Z) : result (world * rhashmap * Z) :=
  let threshold := APPROX_85_PERCENT (hm_size hmap) in
  if hm_nitems hmap >? threshold then
    let* (w', hmap', rc) <- rhashmap_resize w hmap (grow_size hmap) in
    if negb (rc =? 0) then Done (w', hmap', NULL)
    else rhashmap_insert w' hmap' key len val
  else rhashmap_insert w hmap key len val.

(** ** rhashmap_del *)

(** The probe of [rhashmap_del]: the index of the bucket that holds the
    key, or [None] where the function returns [NULL]. *)
Fixpoint del_probe (fuel : nat) (hmap : rhashmap) (key : list byte)
    (len hash n i : Z) : result (option Z) :=
  match fuel with
  | O => Unfinished
  | S fuel' =>
      let bucket := bucket_ref (hm_buckets hmap) i in
      match b_key bucket with
      | None => Done None
      | Some _ =>
          if n >? b_psl bucket then Done None
          else
            let* m <- bucket_match bucket hash key len in
            if m then Done (Some i)
            else del_probe fuel' hmap key len hash (u32 (n + 1))
                           (slot hmap (u32 (i + 1)))
      end
  end.

(** The backward shift, [i] being the index of [bucket]. *)
Fixpoint del_shift (fuel : nat) (hmap : rhashmap) (bs : list rh_bucket_t)
    (i : Z) : result (list rh_bucket_t) :=
  match fuel with
  | O => Unfinished
  | S fuel' =>
      let bs := bucket_set bs i (clear_bucket (bucket_ref bs i)) in
      let i' := slot hmap (u32 (i + 1)) in
      let nbucket := bucket_ref bs i' in
      match b_key nbucket with
      | None => Done bs
      | Some _ =>
          if b_psl nbucket =? 0 then Done bs
          else
            let nbucket := set_psl nbucket (u16 (b_psl nbucket - 1)) in
            let bs := bucket_set bs i' nbucket in
            let bs := bucket_set bs i nbucket in
            del_shift fuel' hmap bs i'
      end
  end.

(** Every step of the shift but the last lowers the [psl] of an occupied
    bucket by one, so the sum of these bounds the number of steps. *)
Definition occupied_psl (b : rh_bucket_t) : nat :=
  match b_key b with
  | None => O
  | Some _ => Z.to_nat (b_psl b)
  end.

Definition shift_fuel (bs : list rh_bucket_t) : nat :=
  S (sum_list_with occupied_psl bs).

Definition shrink_size (hmap : rhashmap) : Z :=
  MAX (Z.shiftr (hm_size hmap) 1) (hm_minsize hmap).

Definition rhashmap_del (w : world) (hmap : rhashmap) (key : list byte)
    (len : Z) : result (world * rhashmap * Z) :=
  let threshold := APPROX_40_PERCENT (hm_size hmap) in
  let hash := compute_hash hmap key len in
  let* found <- del_probe probe_fuel hmap key len hash 0 (slot hmap hash) in
  match found with
  | None => Done (w, hmap, NULL)
  | Some i =>
      let val := b_val (bucket_ref (hm_buckets hmap) i) in
      let hmap := set_nitems hmap (u32 (hm_nitems hmap - 1)) in
      let* bs <- del_shift (shift_fuel (hm_buckets hmap)) hmap (hm_buckets hmap) i in
      let hmap := set_buckets hmap bs in
      if (hm_nitems hmap >? hm_minsize hmap) && (hm_nitems hmap <? threshold)
      then
        let* (w', hmap', _) <- rhashmap_resize w hmap (shrink_size hmap) in
        Done (w', hmap', val)
      else Done (w, hmap, val)
  end.

(** ** rhashmap_walk

    It returns the key, its length and its value, and the new [*iter];
    [None] is the [NULL] of the end, which leaves [*iter] as it was. *)

Fixpoint walk_scan (fuel : nat) (hmap : rhashmap) (i : Z)
  : option (list byte * Z * Z * Z) :=
  match fuel with
  | O => None
  | S fuel' =>
      if i <? hm_size hmap then
        let bucket := bucket_ref (hm_buckets hmap) i in
        let i := u32 (i + 1) in
        match b_key bucket with
        | None => walk_scan fuel' hmap i
        | Some k => Some (k, b_len bucket, b_val bucket, i)
        end
      else None
  end.

Definition rhashmap_walk (hmap : rhashmap) (iter : Z)
  : option (list byte * Z * Z) * Z :=
  match walk_scan (Z.to_nat (hm_size hmap)) hmap (u32 iter) with
  | Some (k, len, val, i) => (Some (k, len, val), i)
  | None => (None, iter)
  end.

(** ** rhashmap_create *)

(** The [rhashmap_t] that [calloc] returns. *)
Definition zero_hmap : rhashmap := mkHmap 0 0 0 0 0 [] 0.

Definition rhashmap_create (w : world) (size flags : Z)
  : result (world * option rhashmap) :=
  let '(ok, w1) := alloc w in
  if negb ok then Done (w1, None)
  else
    let hmap := mkHmap 0 0 flags (u32 (MAX size 1)) 0 [] 0 in
    let* (w2, hmap', rc) <- rhashmap_resize w1 hmap (hm_minsize hmap) in
    if negb (rc =? 0) then Done (w2, None)
    else Done (w2, Some hmap').

(** ** The tables the operations build *)

Inductive reachable : rhashmap -> Prop :=
| reach_create w size flags w' hmap :
    rhashmap_create w size flags = Done (w', Some hmap) ->
    reachable hmap
| reach_put w hmap key len val w' hmap' ret :
    reachable hmap ->
    rhashmap_put w hmap key len val = Done (w', hmap', ret) ->
    reachable hmap'
| reach_del w hmap key len w' hmap' ret :
    reachable hmap ->
    rhashmap_del w hmap key len = Done (w', hmap', ret) ->
    reachable hmap'.

(** ** Runs of operations *)

Inductive op : Type :=
| Put (key : list byte) (len val : Z)
| Del (key : list byte) (len : Z).

Definition step (w : world) (hmap : rhashmap) (o : op)
  : result (world * rhashmap * Z) :=
  match o with
  | Put key len val => rhashmap_put w hmap key len val
  | Del key len => rhashmap_del w hmap key len
  end.

(** The operations of [ops] in turn; the values they return. *)
Fixpoint run (w : world) (hmap : rhashmap) (ops : list op)
  : result (world * rhashmap * list Z) :=
  match ops with
  | [] => Done (w, hmap, [])
  | o :: rest =>
      let* (w1, hmap1, ret) <- step w hmap o in
      let* (w2, hmap2, rets) <- run w1 hmap1 rest in
      Done (w2, hmap2, ret :: rets)
  end.

(** ** The engine over ordinary modulo arithmetic

    The same operations with [v % size] where the source calls
    [fast_rem32]; no constant is computed and [divinfo] stays 0. *)













End Engine.






(** ** Notions the properties are stated with *)

(** The size and the constant of a table go together. *)
Definition modulus_ok (hmap : rhashmap) : Prop :=
  1 <= hm_size hmap < 2 ^ 32 /\
  hm_divinfo hmap = fast_div32_init (hm_size hmap).

(** An empty bucket has a stored length of 0. *)
Definition empty_len_zero (b : rh_bucket_t) : Prop :=
  b_key b = None -> b_len b = 0.

(** The fields of a bucket are within their widths. *)
Definition fields_ok (b : rh_bucket_t) : Prop :=
  0 <= b_hash b < 2 ^ 32 /\ 0 <= b_psl b < 2 ^ 16 /\ 0 <= b_len b < 2 ^ 16.

Definition empties_ok (hmap : rhashmap) : Prop :=
  Forall empty_len_zero (hm_buckets hmap).

(** What an occupied bucket stores, as [rhashmap_walk] reports it. *)
Definition bucket_entry (b : rh_bucket_t) : option (list byte * Z * Z) :=
  match b_key b with
  | None => None
  | Some k => Some (k, b_len b, b_val b)
  end.

Definition stored (hmap : rhashmap) : list (list byte * Z * Z) :=
  omap bucket_entry (hm_buckets hmap).

(** The key an entry stands for: the first [len] bytes behind the pointer. *)
Definition entry_key (e : list byte * Z * Z) : list byte :=
  take (Z.to_nat (e.1.2)) (e.1.1).

(** [n] calls of [rhashmap_walk], the cursor threaded through; the entries
    returned, up to the first end, and the cursor afterwards. *)
Fixpoint walk_iter (n : nat) (hmap : rhashmap) (iter : Z)
  : list (list byte * Z * Z) * Z :=
  match n with
  | O => ([], iter)
  | S n' =>
      match rhashmap_walk hmap iter with
      | (Some e, iter') =>
          let '(es, iter'') := walk_iter n' hmap iter' in (e :: es, iter'')
      | (None, iter') => ([], iter')
      end
  end.

(** The first occupied bucket of [bs], the array from index [i] on, and the
    cursor past it. *)
Fixpoint first_entry (bs : list rh_bucket_t) (i : Z)
  : option (list byte * Z * Z * Z) :=
  match bs with
  | [] => None
  | b :: bs' =>
      match b_key b with
      | Some k => Some (k, b_len b, b_val b, i + 1)
      | None => first_entry bs' (i + 1)
      end
  end.

(** No two occupied buckets hold the same key. *)
Definition keys_distinct (hmap : rhashmap) : Prop :=
  forall (i j : nat) bi bj ei ej,
    hm_buckets hmap !! i = Some bi -> hm_buckets hmap !! j = Some bj ->
    bucket_entry bi = Some ei -> bucket_entry bj = Some ej ->
    entry_key ei = entry_key ej -> i = j.

(** The array has [size] buckets, [size] being an [unsigned]. *)
Definition array_ok (hmap : rhashmap) : Prop :=
  0 <= hm_size hmap < 2 ^ 32 /\
  length (hm_buckets hmap) = Z.to_nat (hm_size hmap).

(** Load factor above 85 percent: [count / capacity > 85 / 100]. *)
Definition load_exceeds_85 (hmap : rhashmap) : bool :=
  85 * hm_size hmap <? 100 * hm_nitems hmap.

(** The slot a bucket's digest asks for and its distance from slot [i], as
    the specification words them. *)
Definition ideal_slot (hmap : rhashmap) (b : rh_bucket_t) : Z :=
  b_hash b mod hm_size hmap.

Definition displacement (hmap : rhashmap) (b : rh_bucket_t) (i : Z) : Z :=
  (i - ideal_slot hmap b) mod hm_size hmap.

Definition psl_invariant (hmap : rhashmap) : Prop :=
  forall (i : nat) (b : rh_bucket_t),
    hm_buckets hmap !! i = Some b -> b_key b <> None ->
    b_psl b = displacement hmap b (Z.of_nat i).

(** ** Sample data *)

(** With [flags = 0] the table hashes with [halfsiphash] and never calls
    [murmurhash3]; this stands in for it. *)
Definition murmurhash3_unused : list byte -> Z -> Z -> Z := fun _ _ _ => 0.

(** Every allocation succeeds, [random()] returns 0. *)
Definition calm : world := mkWorld [] [].

Definition key_a : list byte := ["a"%byte].
Definition key_b : list byte := ["b"%byte].
Definition key_c : list byte := ["c"%byte].
Definition key_d : list byte := ["d"%byte].
Definition key_e : list byte := ["e"%byte].

(** [rhashmap_create(0, 0)] followed by [rhashmap_put("a", 1, 17)]. *)
Definition table_a : rhashmap :=
  mkHmap 1 1 0 1 (fast_div32_init 1)
         [mkBucket (Some key_a) 17 (halfsiphash key_a 1 0) 0 1] 0.

(** One-byte keys ["a"], ["b"], ... each put with its rank as the value. *)
Definition letter (n : nat) : list byte :=
  [default x00 (Byte.of_nat (97 + n))].

Definition put_letters (n : nat) : list op :=
  map (fun i => Put (letter i) 1 (Z.of_nat i + 1)) (seq 0 n).

(** The fresh table of [rhashmap_create(0, 0)]. *)
Definition table_empty : rhashmap :=
  mkHmap 1 0 0 1 (fast_div32_init 1) [zero_bucket] 0.

(** ["a"], ["b"], ["c"] put into a fresh table: 4 buckets, 3 entries. *)
Definition table_abc : rhashmap :=
  Eval vm_compute in
    match run murmurhash3_unused calm table_empty (put_letters 3) with
    | Done (_, hmap, _) => hmap
    | _ => table_empty
    end.

(** Five keys put, ["a"] and ["b"] deleted: 8 buckets, 3 entries. *)
Definition table_cde : rhashmap :=
  Eval vm_compute in
    match run murmurhash3_unused calm table_empty
              (put_letters 5 ++ [Del key_a 1; Del key_b 1]) with
    | Done (_, hmap, _) => hmap
    | _ => table_empty
    end.

(** [table_a] after [put("b", 1, 34)]: grown to 2 buckets. *)
Definition table_ab : rhashmap :=
  Eval vm_compute in
    match rhashmap_put murmurhash3_unused calm table_a key_b 1 34 with
    | Done (_, hmap, _) => hmap
    | _ => table_a
    end.

(** [table_a] resized to 2 buckets. *)
Definition table_a2 : rhashmap :=
  Eval vm_compute in
    match rhashmap_resize murmurhash3_unused calm table_a 2 with
    | Done (_, hmap, _) => hmap
    | _ => table_a
    end.

(** [table_cde] after the delete of ["c"], which shrinks it to 4 buckets. *)
Definition table_de : rhashmap :=
  Eval vm_compute in
    match rhashmap_del murmurhash3_unused calm table_cde key_c 1 with
    | Done (_, hmap, _) => hmap
    | _ => table_cde
    end.

(** ** Keys: the bytes of an integer *)

Definition byte_of (z : Z) : byte :=
  default x00 (Byte.of_N (Z.to_N (z mod 256))).

(** The [n] low bytes of [z], least significant first: the memory of an
    [n]-byte unsigned integer on a little-endian machine. *)
Fixpoint le_bytes (n : nat) (z : Z) : list byte :=
  match n with
  | O => []
  | S n' => byte_of z :: le_bytes n' (z / 256)
  end.

Fixpoint le_value (l : list byte) : Z :=
  match l with
  | [] => 0
  | b :: l' => byte_val b + 256 * le_value l'
  end.

(** The key [&x, sizeof(uint64_t)] for [x = i]. *)
Definition key_u64 (i : nat) : list byte := le_bytes 8 (Z.of_nat i).

(** ** A probe sequence of 2^16 buckets *)

Definition chain_size : Z := 131072.

(** The table after the keys [ks], all of digest [d], were put into a
    fresh table of [chain_size] buckets: they sit in a row from the slot of
    [d] on, the [j]-th with the 16 low bits of [j] as its [psl]. *)
Definition chain_inv (fl hk d : Z) (ks : list (list byte)) (T : rhashmap)
  : Prop :=
  hm_size T = chain_size /\
  hm_divinfo T = fast_div32_init chain_size /\
  hm_flags T = fl /\ hm_hashkey T = hk /\
  hm_nitems T = Z.of_nat (length ks) /\
  length (hm_buckets T) = Z.to_nat chain_size /\
  (forall (j : nat) k, ks !! j = Some k ->
     let b := bucket_ref (hm_buckets T) ((d + Z.of_nat j) mod chain_size) in
     b_key b = Some k /\ b_hash b = d /\ b_psl b = u16 (Z.of_nat j) /\
     b_len b = 8) /\
  (forall j : nat, (length ks <= j)%nat -> Z.of_nat j < chain_size ->
     b_key (bucket_ref (hm_buckets T) ((d + Z.of_nat j) mod chain_size))
       = None).

(** The digest of an 8-byte key in a table of flags [fl] and seed [hk]. *)
Definition digest8 (murmurhash3 : list byte -> Z -> Z -> Z) (fl hk : Z)
    (k : list byte) : Z :=
  compute_hash murmurhash3 (mkHmap 0 0 fl 0 0 [] hk) k 8.

Definition chain_table (fl : Z) : rhashmap :=
  mkHmap chain_size 0 fl chain_size (fast_div32_init chain_size)
         (replicate (Z.to_nat chain_size) zero_bucket) 0.

(** The table [T] of a probe sequence of 65537 keys after the delete of
    the key at distance 65535. *)
Definition chain_deleted (d : Z) (T : rhashmap) : rhashmap :=
  let i := (d + 65535) mod chain_size in
  set_buckets (set_nitems T 65536)
    (bucket_set (hm_buckets T) i (clear_bucket (bucket_ref (hm_buckets T) i))).

(** And after the key at distance 65536 was put again, with the value
    [v]. *)
Definition chain_reput (d : Z) (T : rhashmap) (k : list byte) (v : Z)
  : rhashmap :=
  let i := (d + 65535) mod chain_size in
  let T1 := chain_deleted d T in
  set_nitems
    (set_buckets T1 (bucket_set (hm_buckets T1) i (mkBucket (Some k) v d 65535 8)))
    65537.


(** * Invariants of the table and the map it stands for *)

(** ** fastdiv.h: the macros *)

(** The macros of fastdiv.h for the common divisions. *)
Definition FAST_DIV32_3 (x : Z) : Z := fast_div32 x 3 (fast_div32_init 3).
Definition FAST_DIV32_10 (x : Z) : Z := fast_div32 x 10 (fast_div32_init 10).
Definition FAST_REM32_10 (x : Z) : Z := fast_rem32 x 10 (fast_div32_init 10).

(** ** The shape of a table *)

(** The number of occupied buckets of an array. *)
Definition count (bs : list rh_bucket_t) : Z :=
  Z.of_nat (length (omap bucket_entry bs)).

(** The shape of a table: size and constant go together, the array has
    [size] buckets, [nitems] counts the occupied ones, and [minsize] is a
    positive [unsigned]. *)
Definition table_ok (hmap : rhashmap) : Prop :=
  modulus_ok hmap /\
  length (hm_buckets hmap) = Z.to_nat (hm_size hmap) /\
  hm_nitems hmap = count (hm_buckets hmap) /\
  1 <= hm_minsize hmap < 2 ^ 32.

(** The table [rhashmap_resize] sets up before the re-insertion: [newsize]
    zeroed buckets, no entry, a new constant and a new seed. *)
Definition fresh_table (hmap : rhashmap) (newsize : Z) (w : world)
  : world * rhashmap :=
  let '(r1, w2) := random w in
  let '(r2, w3) := random w2 in
  (w3, mkHmap newsize 0 (hm_flags hmap) (hm_minsize hmap)
         (fast_div32_init newsize) (replicate (Z.to_nat newsize) zero_bucket)
         (Z.lxor (hm_hashkey hmap) (Z.lor r1 (Z.shiftl r2 32)))).

(** The buckets [rhashmap_resize] re-inserts. *)
Definition old_buckets (hmap : rhashmap) (newsize : Z) : list rh_bucket_t :=
  take (Z.to_nat (hm_size hmap))
       (if (newsize =? 1) && (hm_size hmap =? 1) then [zero_bucket]
        else hm_buckets hmap).

(** An occupied bucket counts 1. *)
Definition occ (b : rh_bucket_t) : Z :=
  match b_key b with Some _ => 1 | None => 0 end.

(** The [psl] of the occupied buckets, and their sum over an array: what
    the backward shift of [rhashmap_del] uses up. *)
Definition opsl (b : rh_bucket_t) : Z := Z.of_nat (occupied_psl b).
Definition psum (bs : list rh_bucket_t) : Z :=
  Z.of_nat (sum_list_with occupied_psl bs).

(** ** The Robin Hood order *)

(** Every occupied bucket records how far it lies from the slot of its
    digest. *)
Definition psl_ok (sz : Z) (bs : list rh_bucket_t) : Prop :=
  forall i, 0 <= i < sz -> b_key (bucket_ref bs i) <> None ->
    b_psl (bucket_ref bs i) = (i - b_hash (bucket_ref bs i) mod sz) mod sz.

(** The Robin Hood order: an entry that is not in the slot of its digest
    follows an entry that has travelled at most one bucket less. *)
Definition order_at (sz : Z) (bs : list rh_bucket_t) (i : Z) : Prop :=
  b_key (bucket_ref bs i) <> None -> 0 < b_psl (bucket_ref bs i) ->
  b_key (bucket_ref bs ((i - 1) mod sz)) <> None /\
  b_psl (bucket_ref bs i) <= b_psl (bucket_ref bs ((i - 1) mod sz)) + 1.

Definition order_ok (sz : Z) (bs : list rh_bucket_t) : Prop :=
  forall i, 0 <= i < sz -> order_at sz bs i.

Definition rh_ok (sz : Z) (bs : list rh_bucket_t) : Prop :=
  length bs = Z.to_nat sz /\ Forall fields_ok bs /\
  psl_ok sz bs /\ order_ok sz bs.

(** A table in Robin Hood order whose probe sequences fit the 16 bits of
    [psl]. *)
Definition robin_hood (hmap : rhashmap) : Prop :=
  table_ok hmap /\ hm_size hmap <= 2 ^ 16 /\
  rh_ok (hm_size hmap) (hm_buckets hmap).

(** What the insertion probe carries to bucket [i]. *)
Definition carried_ok (sz : Z) (bs : list rh_bucket_t) (entry : rh_bucket_t)
    (i : Z) : Prop :=
  b_key entry <> None /\ fields_ok entry /\
  b_psl entry = (i - b_hash entry mod sz) mod sz /\
  (0 < b_psl entry ->
   b_key (bucket_ref bs ((i - 1) mod sz)) <> None /\
   b_psl entry <= b_psl (bucket_ref bs ((i - 1) mod sz)) + 1).

(** The array while the shift stands at the cleared bucket [i]: in order
    but for the bucket after [i], which may still have to move. *)
Definition hole_ok (sz : Z) (bs : list rh_bucket_t) (i : Z) : Prop :=
  length bs = Z.to_nat sz /\ Forall fields_ok bs /\ psl_ok sz bs /\
  (forall x, 0 <= x < sz -> x <> (i + 1) mod sz -> order_at sz bs x) /\
  b_key (bucket_ref bs i) = None /\
  (b_key (bucket_ref bs ((i + 1) mod sz)) <> None ->
   1 < b_psl (bucket_ref bs ((i + 1) mod sz)) ->
   b_key (bucket_ref bs ((i - 1) mod sz)) <> None /\
   b_psl (bucket_ref bs ((i + 1) mod sz)) - 2
     <= b_psl (bucket_ref bs ((i - 1) mod sz))).

(** ** Keys and the lookup *)

(** The key a bucket holds: its first [len] bytes and [len]. *)
Definition key_of (b : rh_bucket_t) : option (list byte * Z) :=
  match b_key b with
  | Some k => Some (take (Z.to_nat (b_len b)) k, b_len b)
  | None => None
  end.

Definition the_key (key : list byte) (len : Z) : list byte * Z :=
  (take (Z.to_nat len) key, len).

(** No key is held by two buckets. *)
Definition unique_keys (sz : Z) (bs : list rh_bucket_t) : Prop :=
  forall i j, 0 <= i < sz -> 0 <= j < sz ->
    key_of (bucket_ref bs i) <> None ->
    key_of (bucket_ref bs i) = key_of (bucket_ref bs j) -> i = j.

(** Every bucket stores the digest of its key under the table's seed. *)
Definition hashes_ok (murmurhash3 : list byte -> Z -> Z -> Z)
    (hmap : rhashmap) (bs : list rh_bucket_t) : Prop :=
  forall i k, 0 <= i < hm_size hmap ->
    b_key (bucket_ref bs i) = Some k ->
    b_hash (bucket_ref bs i)
    = compute_hash murmurhash3 hmap k (b_len (bucket_ref bs i)).

(** A table as the operations keep it while no allocation fails and the
    array has at most 2^16 buckets. *)
Definition well_formed (murmurhash3 : list byte -> Z -> Z -> Z)
    (hmap : rhashmap) : Prop :=
  robin_hood hmap /\ empties_ok hmap /\
  unique_keys (hm_size hmap) (hm_buckets hmap) /\
  hashes_ok murmurhash3 hmap (hm_buckets hmap).

(** The lookup as a search of the array from its first bucket on. *)
Fixpoint find_bucket (bs : list rh_bucket_t) (key : list byte) (len : Z)
  : option rh_bucket_t :=
  match bs with
  | [] => None
  | b :: bs' =>
      match b_key b with
      | Some k =>
          if (b_len b =? len) && memcmp_eq k key len then Some b
          else find_bucket bs' key len
      | None => find_bucket bs' key len
      end
  end.

Definition find_key (hmap : rhashmap) (key : list byte) (len : Z)
  : option Z :=
  option_map b_val (find_bucket (hm_buckets hmap) key len).

(** Two keys are the same key. *)
Definition key_eqb (key1 : list byte) (len1 : Z) (key2 : list byte)
    (len2 : Z) : bool :=
  (len1 =? len2) && memcmp_eq key1 key2 len2.

(** A hash function reads the [len] bytes of the key only. *)
Definition reads_len_bytes (hash : list byte -> Z -> Z -> Z) : Prop :=
  forall p q len seed,
    0 <= len -> memcmp_eq p q len = true -> hash p len seed = hash q len seed.

(** What a bucket stores, apart from its [psl]. *)
Definition core (b : rh_bucket_t) : option (list byte) * Z * Z * Z :=
  (b_key b, b_val b, b_hash b, b_len b).

Definition in_cores (sz : Z) (bs : list rh_bucket_t)
    (c : option (list byte) * Z * Z * Z) : Prop :=
  exists x, 0 <= x < sz /\ b_key (bucket_ref bs x) <> None /\
            core (bucket_ref bs x) = c.

(** ** The table as a list of keys and values

    The operations on a list of entries, the newest first: what a caller
    expects of a map. *)

Fixpoint model_get (m : list (list byte * Z * Z)) (key : list byte) (len : Z)
  : option Z :=
  match m with
  | [] => None
  | (k, l, v) :: m' =>
      if key_eqb key len k l then Some v else model_get m' key len
  end.

Fixpoint model_remove (m : list (list byte * Z * Z)) (key : list byte)
    (len : Z) : list (list byte * Z * Z) :=
  match m with
  | [] => []
  | (k, l, v) :: m' =>
      if key_eqb key len k l then model_remove m' key len
      else (k, l, v) :: model_remove m' key len
  end.

(** [put] keeps the value of a key that is present and returns it. *)
Definition model_step (m : list (list byte * Z * Z)) (o : op)
  : list (list byte * Z * Z) * Z :=
  match o with
  | Put key len val =>
      match model_get m key len with
      | Some v => (m, v)
      | None => ((key, len, val) :: m, val)
      end
  | Del key len =>
      (model_remove m key len, default NULL (model_get m key len))
  end.

Fixpoint model_run (m : list (list byte * Z * Z)) (ops : list op)
  : list (list byte * Z * Z) * list Z :=
  match ops with
  | [] => (m, [])
  | o :: rest =>
      let '(m1, ret) := model_step m o in
      let '(m2, rets) := model_run m1 rest in
      (m2, ret :: rets)
  end.

(** The keys the interface takes: 1 to 65535 bytes. *)
Definition valid_op (o : op) : Prop :=
  match o with
  | Put _ len _ => 0 < len < 2 ^ 16
  | Del _ len => 0 < len < 2 ^ 16
  end.

(** The keys the occupied buckets of an array hold, in slot order. *)
Definition held_keys (bs : list rh_bucket_t) : list (list byte * Z) :=
  omap key_of bs.

(** The key of an entry (key, length, value), and the entry as the pair of
    its key and its value. *)
Definition key_of_entry (e : list byte * Z * Z) : list byte * Z :=
  the_key e.1.1 e.1.2.

Definition entry_pair (e : list byte * Z * Z) : (list byte * Z) * Z :=
  (key_of_entry e, e.2).

(** ** Further sample data *)

(** A table of 2^31 buckets that holds ["a"] in the slot of its digest. *)
Definition table_2_31 : rhashmap :=
  let h := halfsiphash key_a 1 0 in
  mkHmap (2 ^ 31) 1 0 1 (fast_div32_init (2 ^ 31))
         (replicate (Z.to_nat (h mod 2 ^ 31)) zero_bucket ++
          mkBucket (Some key_a) 17 h 0 1 ::
          replicate (Z.to_nat (2 ^ 31 - 1 - h mod 2 ^ 31)) zero_bucket) 0.

(** Three puts, a delete, and a put of a key that is held. *)
Definition sample_ops : list op :=
  put_letters 3 ++ [Del key_b 1; Put key_a 1 99; Put key_b 1 5].

(** * Properties *)

(** The examples of the comment in fastdiv.h. *)
Example fast_div32_10 : fast_div32 1234 10 (fast_div32_init 10) = 123.
Proof. reflexivity. Qed.

Example fast_rem32_10 : fast_rem32 1234 10 (fast_div32_init 10) = 4.
Proof. reflexivity. Qed.

(** The first two vectors of the HalfSipHash-2-4 reference implementation
    (key bytes 00..07, messages of 0 and 1 bytes). *)
Example halfsiphash_vector_0 : halfsiphash [] 0 0x0706050403020100 = 0x5b9f35a9.
Proof. vm_compute. reflexivity. Qed.

Example halfsiphash_vector_1 :
  halfsiphash [x00] 1 0x0706050403020100 = 0xb85a4727.
Proof. vm_compute. reflexivity. Qed.

(** ** Correctness of the fast division *)

Lemma u32_small x : 0 <= x < 2 ^ 32 -> u32 x = x.
Proof. intros H. unfold u32. apply Z.mod_small. exact H. Qed.

Lemma u64_small x : 0 <= x < 2 ^ 64 -> u64 x = x.
Proof. intros H. unfold u64. apply Z.mod_small. exact H. Qed.

Lemma u8_small x : 0 <= x < 2 ^ 8 -> u8 x = x.
Proof. intros H. unfold u8. apply Z.mod_small. exact H. Qed.

Lemma land_shiftl_small a b n :
  0 <= n -> 0 <= b < 2 ^ n -> Z.land (Z.shiftl a n) b = 0.
Proof.
  intros Hn Hb. apply Z.bits_inj'. intros k Hk.
  rewrite Z.land_spec, Z.bits_0.
  destruct (Z.ltb_spec k n) as [Hlt | Hge].
  - rewrite Z.shiftl_spec_low by lia. reflexivity.
  - destruct (Z.eq_dec b 0) as [-> | Hb0].
    + rewrite Z.bits_0. apply andb_false_r.
    + rewrite (Z.bits_above_log2 b k); [apply andb_false_r | lia |].
      apply Z.log2_lt_pow2; [lia |].
      apply Z.lt_le_trans with (2 ^ n); [lia |].
      apply Z.pow_le_mono_r; lia.
Qed.

Lemma lor_shiftl_small a b n :
  0 <= n -> 0 <= b < 2 ^ n -> Z.lor (Z.shiftl a n) b = a * 2 ^ n + b.
Proof.
  intros Hn Hb. rewrite <- Z.add_nocarry_lor by (apply land_shiftl_small; lia).
  rewrite Z.shiftl_mul_pow2 by lia. reflexivity.
Qed.

(** [fls] of a 32-bit word is its bit length. *)
Lemma fls_spec x :
  0 <= x < 2 ^ 32 ->
  0 <= fls x <= 32 /\ x < 2 ^ fls x /\ (0 < x -> 2 ^ (fls x - 1) <= x) /\
  (x = 0 -> fls x = 0).
Proof.
  intros Hx. unfold fls, builtin_clz.
  destruct (Z.eqb_spec x 0) as [-> | Hne].
  - split; [lia |]. split; [reflexivity |]. split; [lia | reflexivity].
  - assert (H0 : 0 < x) by lia.
    pose proof (Z.log2_spec x H0) as [Hlo Hhi].
    pose proof (Z.log2_nonneg x) as Hnn.
    assert (Hlt : Z.log2 x < 32) by (apply Z.log2_lt_pow2; lia).
    replace (32 - (31 - Z.log2 x)) with (Z.succ (Z.log2 x)) by lia.
    split; [lia |]. split; [lia |]. split; [| lia].
    intros _. replace (Z.succ (Z.log2 x) - 1) with (Z.log2 x) by lia. exact Hlo.
Qed.

Lemma fd_l_spec d :
  1 <= d < 2 ^ 32 ->
  0 <= fd_l d <= 32 /\ d <= 2 ^ fd_l d /\ (fd_l d = 0 -> d = 1) /\
  (1 <= fd_l d -> 2 ^ (fd_l d - 1) < d).
Proof.
  intros Hd. unfold fd_l. rewrite u32_small by lia.
  destruct (fls_spec (d - 1)) as (Hr & Hhi & Hlo & Hz); [lia |].
  split; [lia |]. split; [lia |]. split.
  - intros Hl0. rewrite Hl0 in Hhi. change (2 ^ 0) with 1 in Hhi. lia.
  - intros Hl1. destruct (Z.eq_dec (d - 1) 0) as [E | E].
    + specialize (Hz E). lia.
    + assert (0 < d - 1) by lia. specialize (Hlo H). lia.
Qed.

Lemma fd_m_spec d :
  1 <= d < 2 ^ 32 ->
  1 <= fd_m d < 2 ^ 32 /\
  exists e, 0 < e <= d /\ (fd_m d + 2 ^ 32) * d = 2 ^ (32 + fd_l d) + e.
Proof.
  intros Hd. destruct (fd_l_spec d Hd) as (Hl & Hup & Hl0 & Hlo).
  unfold fd_m. set (l := fd_l d) in *.
  assert (Hpl : 0 < 2 ^ l) by (apply Z.pow_pos_nonneg; lia).
  set (a := 2 ^ 32 * (2 ^ l - d)).
  assert (Ha : 0 <= a) by (unfold a; nia).
  pose proof (Z.div_mod a d ltac:(lia)) as Hdm.
  pose proof (Z.mod_pos_bound a d ltac:(lia)) as Hr.
  assert (Hq : 0 <= a / d) by (apply Z.div_pos; lia).
  assert (Hpow : 2 ^ (32 + l) = 2 ^ 32 * 2 ^ l) by (apply Z.pow_add_r; lia).
  split.
  - split; [lia |].
    destruct (Z.eq_dec l 0) as [E | E].
    + assert (Hd1 : d = 1) by (apply Hl0; exact E).
      assert (Ha0 : a = 0) by (unfold a; rewrite E; lia).
      rewrite Ha0, Z.div_0_l by lia. reflexivity.
    + assert (H1 : 2 ^ (l - 1) < d) by (apply Hlo; lia).
      assert (H2 : 2 ^ l = 2 * 2 ^ (l - 1)).
      { replace l with (Z.succ (l - 1)) at 1 by lia. apply Z.pow_succ_r. lia. }
      assert (a < 2 ^ 32 * d - d).
      { unfold a. assert (2 ^ l - d <= d - 2) by lia. nia. }
      assert (a / d < 2 ^ 32 - 1); [| lia].
      apply Z.div_lt_upper_bound; lia.
  - exists (d - a mod d). split; [lia |].
    rewrite Hpow. unfold a in *. nia.
Qed.

Lemma fast_div32_init_fields d :
  1 <= d < 2 ^ 32 ->
  fast_div32_init d = fd_m d * 2 ^ 32 + (fd_s1 d * 2 ^ 8 + fd_s2 d).
Proof.
  intros Hd. destruct (fd_l_spec d Hd) as (Hl & Hup & Hl0 & Hlo).
  destruct (fd_m_spec d Hd) as (Hm & _).
  unfold fast_div32_init. fold (fd_l d). unfold fd_m, fd_s1, fd_s2 in *.
  set (l := fd_l d) in *.
  assert (Hpl : 0 < 2 ^ l) by (apply Z.pow_pos_nonneg; lia).
  assert (Hpl32 : 2 ^ l <= 2 ^ 32) by (apply Z.pow_le_mono_r; lia).
  rewrite Z.shiftl_1_l.
  rewrite (u64_small (2 ^ l - d)) by lia.
  rewrite (u64_small (2 ^ 32 * _)) by nia.
  set (m := 2 ^ 32 * (2 ^ l - d) / d + 1) in *.
  rewrite (u64_small m) by lia.
  rewrite (Z.shiftl_mul_pow2 m 32) by lia.
  rewrite (u64_small (m * 2 ^ 32)) by lia.
  set (s1 := if l >? 1 then 1 else u8 l).
  set (s2 := if l =? 0 then 0 else u8 (l - 1)).
  assert (Hs1 : s1 = (if l >? 1 then 1 else l) /\ 0 <= s1 <= 1).
  { unfold s1. destruct (Z.gtb_spec l 1); [lia |]. rewrite u8_small; lia. }
  assert (Hs2 : s2 = (if l =? 0 then 0 else l - 1) /\ 0 <= s2 <= 31).
  { unfold s2. destruct (Z.eqb_spec l 0); [lia |]. rewrite u8_small; lia. }
  destruct Hs1 as [<- Hs1], Hs2 as [<- Hs2].
  rewrite (u32_small s1) by lia.
  rewrite (Z.shiftl_mul_pow2 s1 8) by lia.
  rewrite (u32_small (s1 * 2 ^ 8)) by lia.
  rewrite <- Z.lor_assoc.
  rewrite <- (Z.shiftl_mul_pow2 s1 8) by lia.
  rewrite (lor_shiftl_small s1 s2 8) by lia.
  rewrite <- (Z.shiftl_mul_pow2 m 32) by lia.
  rewrite lor_shiftl_small by lia.
  rewrite !Z.shiftl_mul_pow2 by lia. reflexivity.
Qed.

Lemma fast_div32_fields v d m s1 s2 :
  0 <= m < 2 ^ 32 -> 0 <= s1 < 2 ^ 8 -> 0 <= s2 < 2 ^ 8 ->
  fast_div32 v d (m * 2 ^ 32 + (s1 * 2 ^ 8 + s2)) =
  let t := u32 (Z.shiftr (u64 (v * m)) 32) in
  Z.shiftr (u32 (t + Z.shiftr (u32 (v - t)) s1)) s2.
Proof.
  intros Hm Hs1 Hs2. unfold fast_div32.
  set (x := m * 2 ^ 32 + (s1 * 2 ^ 8 + s2)).
  assert (E1 : u32 (Z.shiftr x 32) = m).
  { rewrite Z.shiftr_div_pow2 by lia. unfold x.
    rewrite Z.add_comm, Z.div_add by lia.
    rewrite Z.div_small by lia. apply u32_small. lia. }
  assert (E3 : Z.land x 255 = s2).
  { change 255 with (Z.ones 8). rewrite Z.land_ones by lia. unfold x.
    replace (m * 2 ^ 32 + (s1 * 2 ^ 8 + s2))
      with (s2 + (m * 2 ^ 24 + s1) * 2 ^ 8) by lia.
    rewrite Z.mod_add by lia. apply Z.mod_small. lia. }
  assert (E2 : Z.shiftr (Z.land x 65280) 8 = s1).
  { rewrite Z.shiftr_land. change (Z.shiftr 65280 8) with (Z.ones 8).
    rewrite Z.land_ones by lia. rewrite Z.shiftr_div_pow2 by lia. unfold x.
    replace (m * 2 ^ 32 + (s1 * 2 ^ 8 + s2))
      with (s2 + (m * 2 ^ 24 + s1) * 2 ^ 8) by lia.
    rewrite Z.div_add by lia. rewrite (Z.div_small s2) by lia.
    rewrite Z.add_0_l.
    replace (m * 2 ^ 24 + s1) with (s1 + (m * 2 ^ 16) * 2 ^ 8) by lia.
    rewrite Z.mod_add by lia. apply Z.mod_small. lia. }
  rewrite E1, E2, E3. reflexivity.
Qed.

Lemma fast_div32_correct v d :
  0 <= v < 2 ^ 32 -> 1 <= d < 2 ^ 32 ->
  fast_div32 v d (fast_div32_init d) = v / d.
Proof.
  intros Hv Hd.
  destruct (fd_l_spec d Hd) as (Hl & Hup & Hl0 & Hlo).
  destruct (fd_m_spec d Hd) as (Hm & e & He & HM).
  rewrite fast_div32_init_fields by exact Hd.
  assert (Hs1 : 0 <= fd_s1 d <= 1) by (unfold fd_s1; destruct (Z.gtb_spec (fd_l d) 1); lia).
  assert (Hs2 : 0 <= fd_s2 d <= 31) by (unfold fd_s2; destruct (Z.eqb_spec (fd_l d) 0); lia).
  rewrite fast_div32_fields by lia. cbv zeta.
  set (m := fd_m d) in *. set (l := fd_l d) in *.
  rewrite (u64_small (v * m)) by nia.
  rewrite (Z.shiftr_div_pow2 (v * m) 32) by lia.
  set (t := v * m / 2 ^ 32).
  assert (Ht : 0 <= t <= v).
  { unfold t. split; [apply Z.div_pos; nia |].
    apply Z.div_le_upper_bound; nia. }
  rewrite (u32_small t) by lia.
  rewrite (u32_small (v - t)) by lia.
  destruct (Z.eq_dec l 0) as [E | E].
  - (* d = 1 *)
    assert (d = 1) by (apply Hl0; exact E). subst d.
    unfold fd_s1, fd_s2. fold l. rewrite E. simpl (0 >? 1). simpl (0 =? 0).
    rewrite !Z.shiftr_0_r, Z.div_1_r.
    replace (t + (v - t)) with v by lia. apply u32_small. lia.
  - assert (E1 : fd_s1 d = 1).
    { unfold fd_s1. fold l. destruct (Z.gtb_spec l 1); lia. }
    assert (E2 : fd_s2 d = l - 1).
    { unfold fd_s2. fold l. destruct (Z.eqb_spec l 0); lia. }
    rewrite E1, E2.
    rewrite (Z.shiftr_div_pow2 (v - t) 1) by lia. change (2 ^ 1) with 2.
    assert (Hh : t + (v - t) / 2 = (v + t) / 2).
    { replace (v + t) with (v - t + t * 2) by lia.
      rewrite Z.div_add by lia. lia. }
    rewrite Hh.
    assert (Hhb : 0 <= (v + t) / 2 <= v).
    { split; [apply Z.div_pos; lia |]. apply Z.div_le_upper_bound; lia. }
    rewrite u32_small by lia.
    rewrite Z.shiftr_div_pow2 by lia.
    rewrite Z.div_div by (try lia; apply Z.pow_pos_nonneg; lia).
    replace (2 * 2 ^ (l - 1)) with (2 ^ l)
      by (replace l with (Z.succ (l - 1)) at 1 by lia; apply Z.pow_succ_r; lia).
    assert (Hpl : 0 < 2 ^ l) by (apply Z.pow_pos_nonneg; lia).
    assert (Hvt : v + t = v * (m + 2 ^ 32) / 2 ^ 32).
    { unfold t. replace (v * (m + 2 ^ 32)) with (v * m + v * 2 ^ 32) by lia.
      rewrite Z.div_add by lia. lia. }
    rewrite Hvt.
    rewrite Z.div_div by lia.
    assert (HP : 2 ^ 32 * 2 ^ l = 2 ^ (32 + l)) by (symmetry; apply Z.pow_add_r; lia).
    rewrite HP. set (P := 2 ^ (32 + l)) in *.
    assert (HPpos : 0 < P) by lia.
    pose proof (Z.div_mod v d ltac:(lia)) as Hdm.
    pose proof (Z.mod_pos_bound v d ltac:(lia)) as Hr.
    assert (Hq0 : 0 <= v / d) by (apply Z.div_pos; lia).
    assert (Hve : v * e < P) by (rewrite <- HP; nia).
    symmetry. apply Z.div_unique_pos with (r := v * (m + 2 ^ 32) - P * (v / d)); [| lia].
    set (q := v / d) in *. set (r := v mod d) in *. set (M := m + 2 ^ 32) in *.
    assert (Hkey : v * M * d = v * P + v * e) by (rewrite <- Z.mul_assoc, HM; lia).
    split.
    + assert (q * P * d <= v * M * d) by nia. nia.
    + assert (v * M * d < (q + 1) * P * d); [| nia].
      rewrite Hkey. nia.
Qed.

Lemma fast_rem32_correct v d :
  0 <= v < 2 ^ 32 -> 1 <= d < 2 ^ 32 ->
  fast_rem32 v d (fast_div32_init d) = v mod d.
Proof.
  intros Hv Hd. unfold fast_rem32. rewrite fast_div32_correct by assumption.
  pose proof (Z.div_mod v d ltac:(lia)) as Hdm.
  pose proof (Z.mod_pos_bound v d ltac:(lia)) as Hr.
  assert (0 <= v / d) by (apply Z.div_pos; lia).
  rewrite (u32_small (d * (v / d))) by nia.
  replace (v - d * (v / d)) with (v mod d) by lia.
  apply u32_small. lia.
Qed.

(** * Properties of the engine *)

(** ** rhashmap_walk *)

Lemma bucket_ref_lookup bs (i : nat) b :
  bs !! i = Some b -> bucket_ref bs (Z.of_nat i) = b.
Proof. intros H. unfold bucket_ref. rewrite Nat2Z.id, H. reflexivity. Qed.

Lemma walk_scan_first hmap : array_ok hmap ->
  forall fuel (i : nat),
    (length (hm_buckets hmap) - i <= fuel)%nat ->
    walk_scan fuel hmap (Z.of_nat i) =
    first_entry (drop i (hm_buckets hmap)) (Z.of_nat i).
Proof.
  intros [Hs Hlen]. induction fuel as [| fuel IH]; intros i Hf.
  - rewrite drop_ge by lia. reflexivity.
  - cbn [walk_scan]. destruct (Z.ltb_spec (Z.of_nat i) (hm_size hmap)) as [Hlt | Hge].
    + assert (Hi : (i < length (hm_buckets hmap))%nat) by lia.
      destruct (lookup_lt_is_Some_2 _ _ Hi) as [b Hb].
      rewrite (bucket_ref_lookup _ _ _ Hb).
      rewrite (drop_S _ _ _ Hb). cbn [first_entry].
      rewrite u32_small by lia.
      destruct (b_key b); [reflexivity |].
      replace (Z.of_nat i + 1) with (Z.of_nat (S i)) by lia.
      apply IH. lia.
    + rewrite drop_ge by lia. reflexivity.
Qed.

Lemma rhashmap_walk_first hmap (i : nat) :
  array_ok hmap -> (i <= length (hm_buckets hmap))%nat ->
  rhashmap_walk hmap (Z.of_nat i) =
  match first_entry (drop i (hm_buckets hmap)) (Z.of_nat i) with
  | Some (k, len, val, j) => (Some (k, len, val), j)
  | None => (None, Z.of_nat i)
  end.
Proof.
  intros Hok Hi. unfold rhashmap_walk.
  destruct Hok as [Hs Hlen]. rewrite u32_small by lia.
  rewrite walk_scan_first by (try split; lia). reflexivity.
Qed.

Lemma first_entry_none bs i :
  first_entry bs i = None <-> omap bucket_entry bs = [].
Proof.
  revert i. induction bs as [| b bs IH]; intros i; cbn; [tauto |].
  unfold bucket_entry at 1. destruct (b_key b); cbn; [split; discriminate |].
  apply IH.
Qed.

Lemma walk_iter_drop hmap : array_ok hmap ->
  forall l (i : nat),
    l = drop i (hm_buckets hmap) -> (i <= length (hm_buckets hmap))%nat ->
    exists iter,
      walk_iter (length (omap bucket_entry l)) hmap (Z.of_nat i)
        = (omap bucket_entry l, iter) /\
      rhashmap_walk hmap iter = (None, iter).
Proof.
  intros Hok. induction l as [| b l IH]; intros i Hl Hi.
  - exists (Z.of_nat i). split; [reflexivity |].
    rewrite rhashmap_walk_first by assumption. rewrite <- Hl. reflexivity.
  - assert (Hb : hm_buckets hmap !! i = Some b).
    { rewrite <- (Nat.add_0_r i), <- lookup_drop, <- Hl. reflexivity. }
    assert (Hl' : l = drop (S i) (hm_buckets hmap)).
    { rewrite (drop_S _ _ _ Hb) in Hl. congruence. }
    assert (Hi' : (S i <= length (hm_buckets hmap))%nat).
    { apply lookup_lt_Some in Hb. lia. }
    destruct (IH (S i) Hl' Hi') as (iter & Hit & Hend).
    pose proof (rhashmap_walk_first hmap i Hok Hi) as Hw.
    rewrite <- Hl in Hw. cbn [first_entry] in Hw.
    cbn [omap list_omap].
    destruct (b_key b) as [k |] eqn:Hk.
    + assert (He : bucket_entry b = Some (k, b_len b, b_val b))
        by (unfold bucket_entry; rewrite Hk; reflexivity).
      rewrite He. exists iter. split; [| exact Hend].
      cbn [length walk_iter]. rewrite Hw.
      replace (Z.of_nat i + 1) with (Z.of_nat (S i)) by lia.
      rewrite Hit. reflexivity.
    + assert (He : bucket_entry b = None)
        by (unfold bucket_entry; rewrite Hk; reflexivity).
      rewrite He.
      destruct (omap bucket_entry l) as [| e es] eqn:Hes.
      * exists (Z.of_nat i). split; [reflexivity |].
        rewrite Hw. apply (first_entry_none l (Z.of_nat i + 1)) in Hes.
        rewrite Hes. reflexivity.
      * exists iter. split; [| exact Hend].
        cbn [length walk_iter] in Hit |- *. rewrite Hw.
        pose proof (rhashmap_walk_first hmap (S i) Hok Hi') as Hw'.
        rewrite <- Hl' in Hw'.
        replace (Z.of_nat i + 1) with (Z.of_nat (S i)) by lia.
        rewrite Hw' in Hit.
        destruct (first_entry l (Z.of_nat (S i))) as [[[[k' len'] val'] j] |] eqn:Hf.
        -- exact Hit.
        -- apply first_entry_none in Hf. congruence.
Qed.

Lemma stored_keys_NoDup hmap :
  keys_distinct hmap -> NoDup (map entry_key (stored hmap)).
Proof.
  unfold keys_distinct, stored. generalize (hm_buckets hmap) as bs.
  induction bs as [| b bs IH]; intros Hd; cbn; [constructor |].
  assert (Htl : NoDup (map entry_key (omap bucket_entry bs))).
  { apply IH. intros i j bi bj ei ej Hi Hj Hei Hej Hk.
    assert (S i = S j) by (eapply (Hd (S i) (S j)); eassumption). lia. }
  destruct (bucket_entry b) as [e |] eqn:He; [| exact Htl].
  cbn. constructor; [| exact Htl].
  intros Hin. apply list_elem_of_fmap in Hin as (e' & Hk & Hin).
  apply list_elem_of_omap in Hin as (b' & Hin & He').
  apply list_elem_of_lookup in Hin as (j & Hj).
  assert (O = S j); [| discriminate].
  eapply (Hd O (S j)); [reflexivity | exact Hj | exact He | exact He' | exact Hk].
Qed.

(** The walk where no key is held twice.  On a table of N occupied buckets
    (its array of [size] buckets), N calls of [rhashmap_walk] that start
    from the cursor 0 return N entries (key, length, value): they are the
    entries of the occupied buckets, each once, so their keys are pairwise
    distinct when no key is held twice; the call after them returns the
    end.  Not every table the operations build holds each key once. *)
Lemma walk_complete hmap :
  array_ok hmap -> keys_distinct hmap ->
  exists es iter,
    walk_iter (length (stored hmap)) hmap RHM_WALK_BEGIN = (es, iter) /\
    length es = length (stored hmap) /\
    NoDup (map entry_key es) /\
    es = stored hmap /\
    rhashmap_walk hmap iter = (None, iter).
Proof.
  intros Hok Hd.
  destruct (walk_iter_drop hmap Hok (hm_buckets hmap) O) as (iter & Hit & Hend);
    [reflexivity | lia |].
  exists (stored hmap), iter. split; [exact Hit |].
  split; [reflexivity |]. split; [apply stored_keys_NoDup; exact Hd |].
  split; [reflexivity | exact Hend].
Qed.

(** Case analysis on the call a [let*] of hypothesis [H] waits for. *)
Ltac bind_case H E :=
  match type of H with
  | context [bind ?r _] =>
      destruct r eqn:E; cbn [bind] in H; try discriminate
  end.

Section EngineFacts.
Variable murmurhash3 : list byte -> Z -> Z -> Z.

(** ** Ranges *)

Lemma u32_range x : 0 <= u32 x < 2 ^ 32.
Proof. unfold u32. apply Z.mod_pos_bound. lia. Qed.

Lemma compute_hash_range hmap key len :
  0 <= compute_hash murmurhash3 hmap key len < 2 ^ 32.
Proof.
  unfold compute_hash, halfsiphash.
  destruct (negb _); [apply u32_range |].
  repeat match goal with
         | |- context [let '(_, _) := ?x in _] => destruct x
         end.
  apply u32_range.
Qed.

(** ** Buckets read and written *)

Lemma bucket_ref_elem bs i :
  bucket_ref bs i = zero_bucket \/ bucket_ref bs i ∈ bs.
Proof.
  unfold bucket_ref. destruct (bs !! Z.to_nat i) as [b |] eqn:E; simpl.
  - right. eapply list_elem_of_lookup_2. exact E.
  - left. reflexivity.
Qed.

Lemma Forall_bucket_ref (P : rh_bucket_t -> Prop) bs i :
  P zero_bucket -> Forall P bs -> P (bucket_ref bs i).
Proof.
  intros Hz Hbs. destruct (bucket_ref_elem bs i) as [-> | Hin]; [exact Hz |].
  rewrite Forall_forall in Hbs. apply Hbs. exact Hin.
Qed.

Lemma Forall_bucket_set (P : rh_bucket_t -> Prop) bs i b :
  P b -> Forall P bs -> Forall P (bucket_set bs i b).
Proof.
  intros Hb Hbs. unfold bucket_set.
  destruct (decide (Z.to_nat i < length bs)%nat) as [Hlt | Hge].
  - apply Forall_insert; assumption.
  - rewrite list_insert_ge by lia. exact Hbs.
Qed.

Lemma length_bucket_set bs i b : length (bucket_set bs i b) = length bs.
Proof. apply length_insert. Qed.

(** ** The match test under the guard [bucket->key != NULL] *)

Lemma bucket_match_occupied b hash key len k :
  b_key b = Some k ->
  bucket_match b hash key len =
  Done ((b_hash b =? hash) && (b_len b =? len) && memcmp_eq k key len).
Proof.
  intros Hk. unfold bucket_match. rewrite Hk.
  destruct ((b_hash b =? hash) && (b_len b =? len)); reflexivity.
Qed.

Lemma bucket_match_empty b hash key len :
  empty_len_zero b -> 0 < len -> b_key b = None ->
  bucket_match b hash key len = Done false.
Proof.
  intros He Hlen Hk. unfold bucket_match. rewrite (He Hk).
  destruct (Z.eqb_spec 0 len) as [E | _]; [lia |].
  rewrite andb_false_r. reflexivity.
Qed.

(** ** Properties of buckets that every operation keeps

    A property of buckets that holds of a zeroed bucket and of a new
    entry, and that survives a change of [psl] and the clearing of the
    key, holds of all buckets of every table the operations build. *)

Section BucketInvariant.

Variable P : rh_bucket_t -> Prop.
Hypothesis P_zero : P zero_bucket.
Hypothesis P_entry : forall k v h l,
  0 <= h < 2 ^ 32 -> P (mkBucket (Some k) v h 0 (u16 l)).
Hypothesis P_set_psl : forall b p, P b -> P (set_psl b (u16 p)).
Hypothesis P_clear : forall b, P b -> P (clear_bucket b).

Lemma insert_probe_inv fuel hmap key len hash val :
  forall bs entry i hmap' ret,
    Forall P bs -> P entry ->
    insert_probe fuel hmap key len hash val bs entry i = Done (hmap', ret) ->
    Forall P (hm_buckets hmap').
Proof.
  induction fuel as [| fuel IH]; intros bs entry i hmap' ret Hbs He H;
    simpl in H; [discriminate |].
  destruct (b_key (bucket_ref bs i)) as [k |] eqn:Hk.
  - rewrite (bucket_match_occupied _ _ _ _ k Hk) in H. simpl in H.
    destruct ((b_hash (bucket_ref bs i) =? hash) &&
              (b_len (bucket_ref bs i) =? len) && memcmp_eq k key len).
    + inversion H; subst. exact Hbs.
    + destruct (b_psl entry >? b_psl (bucket_ref bs i)).
      * eapply IH; [| | exact H].
        -- apply Forall_bucket_set; assumption.
        -- apply P_set_psl. apply Forall_bucket_ref; assumption.
      * eapply IH; [exact Hbs | | exact H]. apply P_set_psl. exact He.
  - inversion H; subst. simpl. apply Forall_bucket_set; assumption.
Qed.

Lemma rhashmap_insert_inv w hmap key len val w' hmap' ret :
  Forall P (hm_buckets hmap) ->
  rhashmap_insert murmurhash3 w hmap key len val = Done (w', hmap', ret) ->
  Forall P (hm_buckets hmap').
Proof.
  intros Hok H. unfold rhashmap_insert in H.
  pose proof (compute_hash_range hmap key len) as Hh.
  destruct (Z.land (hm_flags hmap) RHM_NOCOPY =? 0).
  - destruct (alloc w) as [ok w1]. destruct ok.
    + bind_case H E. destruct a as [h1 r1].
      inversion H; subst. eapply insert_probe_inv; [exact Hok | | exact E].
      apply P_entry. exact Hh.
    + inversion H; subst. exact Hok.
  - bind_case H E. destruct a as [h1 r1].
    inversion H; subst. eapply insert_probe_inv; [exact Hok | | exact E].
    apply P_entry. exact Hh.
Qed.

Lemma rehash_inv old : forall w hmap w' hmap',
  Forall P (hm_buckets hmap) ->
  rehash murmurhash3 w hmap old = Done (w', hmap') ->
  Forall P (hm_buckets hmap').
Proof.
  induction old as [| b old IH]; intros w hmap w' hmap' Hok H; simpl in H.
  - inversion H; subst. exact Hok.
  - destruct (b_key b) as [k |].
    + bind_case H E. destruct a as [[w1 h1] r1].
      eapply IH; [| exact H]. eapply rhashmap_insert_inv; eassumption.
    + eapply IH; eassumption.
Qed.

Lemma rhashmap_resize_inv w hmap newsize w' hmap' rc :
  Forall P (hm_buckets hmap) ->
  rhashmap_resize murmurhash3 w hmap newsize = Done (w', hmap', rc) ->
  Forall P (hm_buckets hmap').
Proof.
  intros Hok H. unfold rhashmap_resize in H.
  set (old := take _ _) in H. clearbody old.
  assert (Hgo : forall w1 bs, Forall P bs ->
    (if u32 newsize =? 0 then DivByZero
     else let '(r1, w2) := random w1 in
          let '(r2, w3) := random w2 in
          let* (w4, hmap'') <- rehash murmurhash3 w3
            (mkHmap (u32 newsize) 0 (hm_flags hmap) (hm_minsize hmap)
               (fast_div32_init (u32 newsize)) bs
               (Z.lxor (hm_hashkey hmap) (Z.lor r1 (Z.shiftl r2 32)))) old in
          Done (w4, hmap'', 0)) = Done (w', hmap', rc) ->
    Forall P (hm_buckets hmap')).
  { intros w1 bs Hbs Hr. destruct (u32 newsize =? 0); [discriminate |].
    destruct (random w1) as [r1 w2]. destruct (random w2) as [r2 w3].
    bind_case Hr E. destruct a as [w4 h4].
    inversion Hr; subst. eapply rehash_inv; [| exact E]. exact Hbs. }
  destruct (newsize =? 1).
  - eapply Hgo; [| exact H]. repeat constructor. exact P_zero.
  - destruct (newsize >? UINT_MAX).
    + inversion H; subst. exact Hok.
    + destruct (alloc w) as [ok w1]. destruct ok.
      * eapply Hgo; [| exact H]. apply Forall_replicate. exact P_zero.
      * inversion H; subst. exact Hok.
Qed.

Lemma rhashmap_put_inv w hmap key len val w' hmap' ret :
  Forall P (hm_buckets hmap) ->
  rhashmap_put murmurhash3 w hmap key len val = Done (w', hmap', ret) ->
  Forall P (hm_buckets hmap').
Proof.
  intros Hok H. unfold rhashmap_put in H.
  destruct (hm_nitems hmap >? APPROX_85_PERCENT (hm_size hmap)).
  - bind_case H E. destruct a as [[w1 h1] rc].
    assert (Forall P (hm_buckets h1))
      by (eapply rhashmap_resize_inv; eassumption).
    destruct (negb (rc =? 0)).
    + inversion H; subst. assumption.
    + eapply rhashmap_insert_inv; eassumption.
  - eapply rhashmap_insert_inv; eassumption.
Qed.

Lemma del_shift_inv fuel hmap : forall bs i bs',
  Forall P bs ->
  del_shift fuel hmap bs i = Done bs' ->
  Forall P bs'.
Proof.
  induction fuel as [| fuel IH]; intros bs i bs' Hbs H; simpl in H;
    [discriminate |].
  set (bs1 := bucket_set bs i (clear_bucket (bucket_ref bs i))) in *.
  assert (Hbs1 : Forall P bs1).
  { apply Forall_bucket_set; [| exact Hbs].
    apply P_clear. apply Forall_bucket_ref; assumption. }
  destruct (b_key (bucket_ref bs1 (slot hmap (u32 (i + 1))))) as [k |] eqn:Hk.
  - destruct (b_psl (bucket_ref bs1 (slot hmap (u32 (i + 1)))) =? 0).
    + inversion H; subst. exact Hbs1.
    + eapply IH; [| exact H].
      assert (Hnb : P
        (set_psl (bucket_ref bs1 (slot hmap (u32 (i + 1))))
           (u16 (b_psl (bucket_ref bs1 (slot hmap (u32 (i + 1)))) - 1)))).
      { apply P_set_psl. apply Forall_bucket_ref; assumption. }
      apply Forall_bucket_set; [exact Hnb |].
      apply Forall_bucket_set; [exact Hnb | exact Hbs1].
  - inversion H; subst. exact Hbs1.
Qed.

Lemma rhashmap_del_inv w hmap key len w' hmap' ret :
  Forall P (hm_buckets hmap) ->
  rhashmap_del murmurhash3 w hmap key len = Done (w', hmap', ret) ->
  Forall P (hm_buckets hmap').
Proof.
  intros Hok H. unfold rhashmap_del in H.
  bind_case H E. destruct a as [i |]; [| inversion H; subst; exact Hok].
  bind_case H E2. rename a into bs.
  assert (Hbs : Forall P bs).
  { eapply del_shift_inv; [| exact E2]. exact Hok. }
  match type of H with
  | (if ?c then _ else _) = _ => destruct c
  end.
  - bind_case H E3. destruct a as [[w1 h1] rc]. inversion H; subst.
    eapply rhashmap_resize_inv; [| exact E3]. exact Hbs.
  - inversion H; subst. exact Hbs.
Qed.

Lemma rhashmap_create_inv w size flags w' hmap :
  rhashmap_create murmurhash3 w size flags = Done (w', Some hmap) ->
  Forall P (hm_buckets hmap).
Proof.
  intros H. unfold rhashmap_create in H.
  destruct (alloc w) as [ok w1]. destruct ok; simpl in H; [| discriminate].
  bind_case H E. destruct a as [[w2 h2] rc].
  destruct (negb (rc =? 0)); [discriminate |]. inversion H; subst.
  eapply rhashmap_resize_inv; [| exact E]. constructor.
Qed.

Lemma reachable_inv hmap :
  reachable murmurhash3 hmap -> Forall P (hm_buckets hmap).
Proof.
  induction 1.
  - eapply rhashmap_create_inv; eassumption.
  - eapply rhashmap_put_inv; eassumption.
  - eapply rhashmap_del_inv; eassumption.
Qed.

End BucketInvariant.

(** ** Empty buckets keep a zero length *)

Lemma empty_len_zero_zero : empty_len_zero zero_bucket.
Proof. intros _. reflexivity. Qed.

Lemma reachable_empties hmap : reachable murmurhash3 hmap -> empties_ok hmap.
Proof.
  apply reachable_inv.
  - apply empty_len_zero_zero.
  - intros k v h l _ Hk. discriminate.
  - intros b p Hb Hk. apply Hb. exact Hk.
  - intros b _ _. reflexivity.
Qed.

(** ** The fields stay within their widths *)

Lemma u16_range x : 0 <= u16 x < 2 ^ 16.
Proof. unfold u16. apply Z.mod_pos_bound. lia. Qed.

Lemma reachable_fields hmap :
  reachable murmurhash3 hmap -> Forall fields_ok (hm_buckets hmap).
Proof.
  apply reachable_inv.
  - unfold fields_ok. cbn. lia.
  - intros k v h l Hh. unfold fields_ok. cbn.
    pose proof (u16_range l). lia.
  - intros b p (Hh & _ & Hl). unfold fields_ok. cbn.
    pose proof (u16_range p). lia.
  - intros b (Hh & Hp & _). unfold fields_ok. cbn. lia.
Qed.

(** ** The lookup returns

    [probe_fuel] steps are enough for the probe of [rhashmap_get] and of
    [rhashmap_del] on every table whose [psl] fields are 16 bits wide. *)

Lemma get_probe_returns hmap key len hash :
  Forall fields_ok (hm_buckets hmap) ->
  forall fuel n i,
    0 <= n <= 2 ^ 16 -> 2 ^ 16 - n < Z.of_nat fuel ->
    get_probe fuel hmap key len hash n i <> Unfinished.
Proof.
  intros Hok. induction fuel as [| fuel IH]; intros n i Hn Hf; [lia |].
  cbn [get_probe].
  assert (Hb : fields_ok (bucket_ref (hm_buckets hmap) i)).
  { apply Forall_bucket_ref; [unfold fields_ok; cbn; lia | exact Hok]. }
  destruct Hb as (_ & Hp & _).
  destruct (bucket_match _ hash key len) as [m | | |] eqn:Hm; cbn [bind];
    try discriminate.
  - destruct m; [discriminate |].
    destruct (b_key _); [| discriminate].
    destruct (Z.gtb_spec n (b_psl (bucket_ref (hm_buckets hmap) i)));
      [discriminate |].
    rewrite u32_small by lia. apply IH; lia.
  - unfold bucket_match in Hm.
    destruct (_ && _); [destruct (b_key _) |]; discriminate.
Qed.

(** ** No probe hands an empty bucket to [memcmp] *)

Lemma get_probe_no_null fuel hmap key len hash : forall n i,
  empties_ok hmap -> 0 < len ->
  get_probe fuel hmap key len hash n i <> NullCompare.
Proof.
  induction fuel as [| fuel IH]; intros n i Hok Hlen; simpl; [discriminate |].
  destruct (b_key (bucket_ref (hm_buckets hmap) i)) as [k |] eqn:Hk.
  - rewrite (bucket_match_occupied _ _ _ _ k Hk). simpl.
    destruct (_ && _ && _); [discriminate |].
    destruct (n >? _); [discriminate |]. apply IH; assumption.
  - rewrite bucket_match_empty; [simpl; discriminate | | exact Hlen | exact Hk].
    apply Forall_bucket_ref; [apply empty_len_zero_zero | exact Hok].
Qed.

Lemma get_probe_no_div fuel hmap key len hash : forall n i,
  get_probe fuel hmap key len hash n i <> DivByZero.
Proof.
  induction fuel as [| fuel IH]; intros n i; simpl; [discriminate |].
  unfold bucket_match.
  destruct (_ && _); [destruct (b_key _) eqn:Hk |]; cbn [bind];
    try discriminate.
  - destruct (memcmp_eq _ _ _); [discriminate |].
    destruct (n >? _); [discriminate | apply IH].
  - destruct (b_key _); [| discriminate].
    destruct (n >? _); [discriminate | apply IH].
Qed.

(** A lookup of a key of positive length in a table the operations built
    returns a value or [NULL]. *)
Lemma rhashmap_get_returns hmap key len :
  reachable murmurhash3 hmap -> 0 < len ->
  exists val, rhashmap_get murmurhash3 hmap key len = Done val.
Proof.
  intros Hr Hlen. unfold rhashmap_get.
  pose proof (get_probe_returns hmap key len (compute_hash murmurhash3 hmap key len)
                (reachable_fields hmap Hr) probe_fuel 0
                (slot hmap (compute_hash murmurhash3 hmap key len))) as Hu.
  pose proof (get_probe_no_null probe_fuel hmap key len
                (compute_hash murmurhash3 hmap key len) 0
                (slot hmap (compute_hash murmurhash3 hmap key len))
                (reachable_empties hmap Hr) Hlen) as Hn.
  pose proof (get_probe_no_div probe_fuel hmap key len
                (compute_hash murmurhash3 hmap key len) 0
                (slot hmap (compute_hash murmurhash3 hmap key len))) as Hd.
  destruct (get_probe _ _ _ _ _ _ _) as [v | | |].
  - exists v. reflexivity.
  - contradiction.
  - contradiction.
  - exfalso. apply Hu; [lia | | reflexivity].
    unfold probe_fuel. rewrite Z2Nat.id by lia. lia.
Qed.

Lemma insert_probe_no_null fuel hmap key len hash val : forall bs entry i,
  insert_probe fuel hmap key len hash val bs entry i <> NullCompare.
Proof.
  induction fuel as [| fuel IH]; intros bs entry i; simpl; [discriminate |].
  destruct (b_key (bucket_ref bs i)) as [k |] eqn:Hk; [| discriminate].
  rewrite (bucket_match_occupied _ _ _ _ k Hk). simpl.
  destruct (_ && _ && _); [discriminate |].
  destruct (b_psl entry >? _); apply IH.
Qed.

Lemma rhashmap_insert_no_null w hmap key len val :
  rhashmap_insert murmurhash3 w hmap key len val <> NullCompare.
Proof.
  unfold rhashmap_insert.
  destruct (Z.land (hm_flags hmap) RHM_NOCOPY =? 0).
  - destruct (alloc w) as [ok w1]. destruct ok; [| discriminate].
    intros H. bind_case H E; [destruct a; discriminate |].
    eapply insert_probe_no_null. exact E.
  - intros H. bind_case H E; [destruct a; discriminate |].
    eapply insert_probe_no_null. exact E.
Qed.

Lemma rehash_no_null old : forall w hmap,
  rehash murmurhash3 w hmap old <> NullCompare.
Proof.
  induction old as [| b old IH]; intros w hmap; simpl; [discriminate |].
  destruct (b_key b) as [k |]; [| apply IH].
  intros H. bind_case H E.
  - destruct a as [[w1 h1] r1]. eapply IH. exact H.
  - eapply rhashmap_insert_no_null. exact E.
Qed.

Lemma rhashmap_resize_no_null w hmap newsize :
  rhashmap_resize murmurhash3 w hmap newsize <> NullCompare.
Proof.
  unfold rhashmap_resize. set (old := take _ _). clearbody old.
  assert (Hgo : forall w1 bs,
    (if u32 newsize =? 0 then DivByZero
     else let '(r1, w2) := random w1 in
          let '(r2, w3) := random w2 in
          let* (w4, hmap'') <- rehash murmurhash3 w3
            (mkHmap (u32 newsize) 0 (hm_flags hmap) (hm_minsize hmap)
               (fast_div32_init (u32 newsize)) bs
               (Z.lxor (hm_hashkey hmap) (Z.lor r1 (Z.shiftl r2 32)))) old in
          Done (w4, hmap'', 0)) <> @NullCompare (world * rhashmap * Z)).
  { intros w1 bs. destruct (u32 newsize =? 0); [discriminate |].
    destruct (random w1) as [r1 w2]. destruct (random w2) as [r2 w3].
    intros H. bind_case H E.
    - destruct a. discriminate.
    - eapply rehash_no_null. exact E. }
  destruct (newsize =? 1); [apply Hgo |].
  destruct (newsize >? UINT_MAX); [discriminate |].
  destruct (alloc w) as [ok w1]. destruct ok; [apply Hgo | discriminate].
Qed.

Lemma rhashmap_put_no_null w hmap key len val :
  rhashmap_put murmurhash3 w hmap key len val <> NullCompare.
Proof.
  unfold rhashmap_put.
  destruct (hm_nitems hmap >? APPROX_85_PERCENT (hm_size hmap));
    [| apply rhashmap_insert_no_null].
  intros H. bind_case H E.
  - destruct a as [[w1 h1] rc]. destruct (negb (rc =? 0)); [discriminate |].
    eapply rhashmap_insert_no_null. exact H.
  - eapply rhashmap_resize_no_null. exact E.
Qed.

Lemma del_probe_no_null fuel hmap key len hash : forall n i,
  del_probe fuel hmap key len hash n i <> NullCompare.
Proof.
  induction fuel as [| fuel IH]; intros n i; simpl; [discriminate |].
  destruct (b_key (bucket_ref (hm_buckets hmap) i)) as [k |] eqn:Hk;
    [| discriminate].
  destruct (n >? _); [discriminate |].
  rewrite (bucket_match_occupied _ _ _ _ k Hk). simpl.
  destruct (_ && _ && _); [discriminate | apply IH].
Qed.

Lemma del_shift_no_null fuel hmap : forall bs i,
  del_shift fuel hmap bs i <> NullCompare.
Proof.
  induction fuel as [| fuel IH]; intros bs i; simpl; [discriminate |].
  destruct (b_key _); [| discriminate].
  destruct (_ =? 0); [discriminate | apply IH].
Qed.

Lemma rhashmap_del_no_null w hmap key len :
  rhashmap_del murmurhash3 w hmap key len <> NullCompare.
Proof.
  unfold rhashmap_del. intros H. bind_case H E.
  - destruct a as [i |]; [| discriminate].
    bind_case H E2.
    + match type of H with
      | (if ?c then _ else _) = _ => destruct c
      end; [| discriminate].
      bind_case H E3.
      * destruct a0 as [[w1 h1] rc]. discriminate.
      * eapply rhashmap_resize_no_null. exact E3.
    + eapply del_shift_no_null. exact E2.
  - eapply del_probe_no_null. exact E.
Qed.

(** C10.  In every table that [rhashmap_create], [rhashmap_put] and
    [rhashmap_del] can produce, an empty bucket (null key) has a stored
    length of 0; so for a length above 0 the match test of
    [rhashmap_get], of [rhashmap_del] and of the insertion probe of
    [rhashmap_put] never hands the null key of an empty bucket to the byte
    comparison. *)
Theorem empty_bucket_never_compared hmap :
  reachable murmurhash3 hmap ->
  (forall b, b ∈ hm_buckets hmap -> b_key b = None -> b_len b = 0) /\
  (forall key len w val, 0 < len ->
     rhashmap_get murmurhash3 hmap key len <> NullCompare /\
     rhashmap_del murmurhash3 w hmap key len <> NullCompare /\
     rhashmap_put murmurhash3 w hmap key len val <> NullCompare).
Proof.
  intros Hr. pose proof (reachable_empties hmap Hr) as Hok. split.
  - intros b Hb. unfold empties_ok in Hok. rewrite Forall_forall in Hok.
    apply Hok. exact Hb.
  - intros key len w val Hlen. split; [| split].
    + unfold rhashmap_get. apply get_probe_no_null; assumption.
    + apply rhashmap_del_no_null.
    + apply rhashmap_put_no_null.
Qed.

(** ** The engine over [fast_rem32] and over ordinary modulo *)


Lemma slot_is_mod hmap v :
  modulus_ok hmap -> 0 <= v < 2 ^ 32 -> slot hmap v = v mod hm_size hmap.
Proof.
  intros [Hs Hd] Hv. unfold slot. rewrite Hd.
  apply fast_rem32_correct; assumption.
Qed.





(** The insertion leaves [size] and [divinfo] as they are. *)
Lemma insert_probe_modulus fuel hmap key len hash val :
  forall bs entry i hmap' ret,
    insert_probe fuel hmap key len hash val bs entry i = Done (hmap', ret) ->
    hm_size hmap' = hm_size hmap /\ hm_divinfo hmap' = hm_divinfo hmap /\
    hm_flags hmap' = hm_flags hmap /\ hm_minsize hmap' = hm_minsize hmap /\
    hm_hashkey hmap' = hm_hashkey hmap.
Proof.
  induction fuel as [| fuel IH]; intros bs entry i hmap' ret H;
    cbn [insert_probe] in H; [discriminate |].
  destruct (b_key (bucket_ref bs i)).
  - destruct (bucket_match _ hash key len) as [m | | |]; cbn [bind] in H;
      try discriminate.
    destruct m.
    + inversion H; subst. repeat split.
    + destruct (b_psl entry >? _); eapply IH; exact H.
  - inversion H; subst. repeat split.
Qed.

Lemma rhashmap_insert_modulus w hmap key len val w' hmap' ret :
  rhashmap_insert murmurhash3 w hmap key len val = Done (w', hmap', ret) ->
  hm_size hmap' = hm_size hmap /\ hm_divinfo hmap' = hm_divinfo hmap /\
  hm_flags hmap' = hm_flags hmap /\ hm_minsize hmap' = hm_minsize hmap /\
  hm_hashkey hmap' = hm_hashkey hmap.
Proof.
  intros H. unfold rhashmap_insert in H.
  destruct (Z.land (hm_flags hmap) RHM_NOCOPY =? 0).
  - destruct (alloc w) as [ok w1]. destruct ok.
    + bind_case H E. destruct a as [h1 r1]. inversion H; subst.
      eapply insert_probe_modulus. exact E.
    + inversion H; subst. repeat split.
  - bind_case H E. destruct a as [h1 r1]. inversion H; subst.
    eapply insert_probe_modulus. exact E.
Qed.

Lemma modulus_ok_same hmap hmap' :
  hm_size hmap' = hm_size hmap -> hm_divinfo hmap' = hm_divinfo hmap ->
  modulus_ok hmap -> modulus_ok hmap'.
Proof. unfold modulus_ok. intros -> ->. tauto. Qed.


Lemma rehash_modulus old : forall w hmap w' hmap',
  rehash murmurhash3 w hmap old = Done (w', hmap') ->
  hm_size hmap' = hm_size hmap /\ hm_divinfo hmap' = hm_divinfo hmap /\
  hm_flags hmap' = hm_flags hmap /\ hm_minsize hmap' = hm_minsize hmap /\
  hm_hashkey hmap' = hm_hashkey hmap.
Proof.
  induction old as [| b old IH]; intros w hmap w' hmap' H; cbn [rehash] in H.
  - inversion H; subst. repeat split.
  - destruct (b_key b) as [k |]; [| eapply IH; exact H].
    bind_case H E. destruct a as [[w1 h1] r1].
    destruct (rhashmap_insert_modulus _ _ _ _ _ _ _ _ E) as (H1 & H2 & H3 & H4 & H5).
    destruct (IH _ _ _ _ H) as (G1 & G2 & G3 & G4 & G5).
    repeat split; congruence.
Qed.

Lemma u32_pos_small x : 1 <= x -> x <= UINT_MAX -> u32 x = x.
Proof. unfold UINT_MAX. intros. apply u32_small. lia. Qed.


Lemma rhashmap_resize_modulus w hmap newsize w' hmap' :
  rhashmap_resize murmurhash3 w hmap newsize = Done (w', hmap', 0) ->
  modulus_ok hmap' /\ hm_size hmap' = u32 newsize /\
  hm_flags hmap' = hm_flags hmap /\ hm_minsize hmap' = hm_minsize hmap.
Proof.
  intros H. unfold rhashmap_resize in H.
  set (old := take _ _) in H. clearbody old.
  assert (Hgo : forall w1 bs,
    (if u32 newsize =? 0 then DivByZero
     else let '(r1, w2) := random w1 in
          let '(r2, w3) := random w2 in
          let* (w4, hmap'') <- rehash murmurhash3 w3
            (mkHmap (u32 newsize) 0 (hm_flags hmap) (hm_minsize hmap)
               (fast_div32_init (u32 newsize)) bs
               (Z.lxor (hm_hashkey hmap) (Z.lor r1 (Z.shiftl r2 32)))) old in
          Done (w4, hmap'', 0)) = Done (w', hmap', 0) ->
    modulus_ok hmap' /\ hm_size hmap' = u32 newsize /\
    hm_flags hmap' = hm_flags hmap /\ hm_minsize hmap' = hm_minsize hmap).
  { intros w1 bs Hr. destruct (Z.eqb_spec (u32 newsize) 0); [discriminate |].
    destruct (random w1) as [r1 w2]. destruct (random w2) as [r2 w3].
    bind_case Hr E. destruct a as [w4 h4]. inversion Hr; subst.
    destruct (rehash_modulus _ _ _ _ _ E) as (H1 & H2 & H3 & H4 & H5).
    cbn in H1, H2, H3, H4. pose proof (u32_range newsize).
    unfold modulus_ok. rewrite H1, H2. repeat split; try assumption; lia. }
  destruct (newsize =? 1); [eapply Hgo; exact H |].
  destruct (newsize >? UINT_MAX); [discriminate |].
  destruct (alloc w) as [ok w1]. destruct ok; [eapply Hgo; exact H | discriminate].
Qed.

(** A resize returns 0 or -1. *)
Lemma rhashmap_resize_rc w hmap newsize w' hmap' rc :
  rhashmap_resize murmurhash3 w hmap newsize = Done (w', hmap', rc) ->
  rc = 0 \/ (rc = -1 /\ hmap' = hmap).
Proof.
  intros H. unfold rhashmap_resize in H.
  set (old := take _ _) in H. clearbody old.
  assert (Hgo : forall w1 bs,
    (if u32 newsize =? 0 then DivByZero
     else let '(r1, w2) := random w1 in
          let '(r2, w3) := random w2 in
          let* (w4, hmap'') <- rehash murmurhash3 w3
            (mkHmap (u32 newsize) 0 (hm_flags hmap) (hm_minsize hmap)
               (fast_div32_init (u32 newsize)) bs
               (Z.lxor (hm_hashkey hmap) (Z.lor r1 (Z.shiftl r2 32)))) old in
          Done (w4, hmap'', 0)) = Done (w', hmap', rc) -> rc = 0).
  { intros w1 bs Hr. destruct (u32 newsize =? 0); [discriminate |].
    destruct (random w1) as [r1 w2]. destruct (random w2) as [r2 w3].
    bind_case Hr E. destruct a as [w4 h4]. inversion Hr; subst. reflexivity. }
  destruct (newsize =? 1); [left; eapply Hgo; exact H |].
  destruct (newsize >? UINT_MAX); [inversion H; subst; right; split; reflexivity |].
  destruct (alloc w) as [ok w1]. destruct ok; [left; eapply Hgo; exact H |].
  inversion H; subst; right; split; reflexivity.
Qed.


Lemma MIN_spec x y : MIN x y = Z.min x y.
Proof. unfold MIN. destruct (Z.ltb_spec x y); lia. Qed.

Lemma MAX_spec x y : MAX x y = Z.max x y.
Proof. unfold MAX. destruct (Z.gtb_spec x y); lia. Qed.

Lemma grow_size_small hmap :
  0 <= hm_size hmap < 2 ^ 31 ->
  grow_size hmap = Z.min (hm_size hmap * 2) (hm_size hmap + 1048576).
Proof.
  intros Hs. unfold grow_size, MAX_GROWTH_STEP.
  rewrite Z.shiftl_mul_pow2 by lia. change (2 ^ 1) with 2.
  rewrite !u32_small by lia. apply MIN_spec.
Qed.










(** ** Size and constant of the tables the operations build *)

Lemma rhashmap_put_modulus_ok w hmap key len val w' hmap' ret :
  modulus_ok hmap ->
  rhashmap_put murmurhash3 w hmap key len val = Done (w', hmap', ret) ->
  modulus_ok hmap'.
Proof.
  intros Hm H. unfold rhashmap_put in H.
  destruct (hm_nitems hmap >? APPROX_85_PERCENT (hm_size hmap)).
  - bind_case H E. destruct a as [[w1 h1] rc].
    destruct (rhashmap_resize_rc _ _ _ _ _ _ E) as [-> | [-> ->]].
    + cbn [Z.eqb negb] in H.
      destruct (rhashmap_resize_modulus _ _ _ _ _ E) as (Hm1 & _).
      destruct (rhashmap_insert_modulus _ _ _ _ _ _ _ _ H)
        as (Hs & Hd & _).
      eapply modulus_ok_same; eassumption.
    + cbn [Z.eqb negb] in H. inversion H; subst. exact Hm.
  - destruct (rhashmap_insert_modulus _ _ _ _ _ _ _ _ H)
      as (Hs & Hd & _).
    eapply modulus_ok_same; eassumption.
Qed.

Lemma rhashmap_del_modulus_ok w hmap key len w' hmap' ret :
  modulus_ok hmap ->
  rhashmap_del murmurhash3 w hmap key len = Done (w', hmap', ret) ->
  modulus_ok hmap'.
Proof.
  intros Hm H. unfold rhashmap_del in H.
  bind_case H E. destruct a as [i |]; [| inversion H; subst; exact Hm].
  bind_case H E2. rename a into bs.
  match type of H with
  | (if ?c then _ else _) = _ => destruct c
  end.
  - bind_case H E3. destruct a as [[w1 h1] rc]. inversion H; subst.
    destruct (rhashmap_resize_rc _ _ _ _ _ _ E3) as [-> | [-> ->]].
    + eapply rhashmap_resize_modulus. exact E3.
    + exact Hm.
  - inversion H; subst. exact Hm.
Qed.

Lemma rhashmap_create_modulus_ok w size flags w' hmap :
  rhashmap_create murmurhash3 w size flags = Done (w', Some hmap) ->
  modulus_ok hmap.
Proof.
  intros H. unfold rhashmap_create in H.
  destruct (alloc w) as [ok w1]. destruct ok; cbn [negb] in H; [| discriminate].
  bind_case H E. destruct a as [[w2 h2] rc].
  destruct (rhashmap_resize_rc _ _ _ _ _ _ E) as [-> | [-> ->]];
    cbn [Z.eqb negb] in H; [| discriminate].
  inversion H; subst. eapply rhashmap_resize_modulus. exact E.
Qed.

Lemma reachable_modulus_ok hmap : reachable murmurhash3 hmap -> modulus_ok hmap.
Proof.
  induction 1.
  - eapply rhashmap_create_modulus_ok; eassumption.
  - eapply rhashmap_put_modulus_ok; eassumption.
  - eapply rhashmap_del_modulus_ok; eassumption.
Qed.


(** ** Allocation and the resize *)

Lemma rhashmap_resize_alloc_fail w w1 hmap newsize :
  newsize <> 1 -> alloc w = (false, w1) ->
  exists w2, rhashmap_resize murmurhash3 w hmap newsize = Done (w2, hmap, -1).
Proof.
  intros Hn Ha. unfold rhashmap_resize.
  destruct (Z.eqb_spec newsize 1); [contradiction |].
  destruct (newsize >? UINT_MAX); [exists w; reflexivity |].
  rewrite Ha. exists w1. reflexivity.
Qed.

Lemma rhashmap_resize_alloc_ok w w1 hmap newsize w' hmap' rc :
  newsize <> 1 -> newsize <= UINT_MAX -> alloc w = (true, w1) ->
  rhashmap_resize murmurhash3 w hmap newsize = Done (w', hmap', rc) ->
  rc = 0.
Proof.
  intros Hn Hmax Ha H. unfold rhashmap_resize in H.
  destruct (Z.eqb_spec newsize 1); [contradiction |].
  destruct (Z.gtb_spec newsize UINT_MAX); [lia |].
  rewrite Ha in H. destruct (u32 newsize =? 0); [discriminate |].
  destruct (random w1) as [r1 w2]. destruct (random w2) as [r2 w3].
  bind_case H E. destruct a as [w4 h4]. inversion H; subst. reflexivity.
Qed.

Lemma APPROX_85_PERCENT_small x :
  0 <= x -> x * 870 < 2 ^ 32 -> APPROX_85_PERCENT x = x * 870 / 1024.
Proof.
  intros H0 H1. unfold APPROX_85_PERCENT.
  rewrite u32_small by lia. rewrite Z.shiftr_div_pow2 by lia. reflexivity.
Qed.

(** C5, as the code has it.  While [capacity * 870] fits the 32-bit
    [unsigned] of the macro, [rhashmap_put] grows the table before the
    insertion if and only if [count > capacity * 870 / 1024] (integer
    division; the "approximately 85 percent" of the macro) and the bucket
    array can be allocated; the capacity then becomes
    [min (capacity * 2) (capacity + 1048576)], and otherwise stays. *)
Theorem put_grows_above_threshold w hmap key len val w' hmap' ret :
  1 <= hm_size hmap -> hm_size hmap * 870 < 2 ^ 32 ->
  rhashmap_put murmurhash3 w hmap key len val = Done (w', hmap', ret) ->
  hm_size hmap' =
  if (hm_nitems hmap >? hm_size hmap * 870 / 1024) && (alloc w).1
  then Z.min (hm_size hmap * 2) (hm_size hmap + 1048576)
  else hm_size hmap.
Proof.
  intros Hs1 Hs2 H. unfold rhashmap_put in H.
  rewrite APPROX_85_PERCENT_small in H by lia.
  destruct (hm_nitems hmap >? hm_size hmap * 870 / 1024); cbn [andb].
  - rewrite grow_size_small in H by lia.
    set (ns := Z.min (hm_size hmap * 2) (hm_size hmap + 1048576)) in *.
    assert (Hns : 2 <= ns <= UINT_MAX) by (unfold ns, UINT_MAX; lia).
    bind_case H E. destruct a as [[w1 h1] rc].
    destruct (alloc w) as [ok wa] eqn:Ha. destruct ok; cbn [fst].
    + assert (rc = 0)
        by (eapply rhashmap_resize_alloc_ok; [| | exact Ha | exact E]; lia).
      subst rc. cbn [Z.eqb negb] in H.
      destruct (rhashmap_resize_modulus _ _ _ _ _ E) as (_ & Hsz & _).
      destruct (rhashmap_insert_modulus _ _ _ _ _ _ _ _ H) as (Hsz' & _).
      rewrite Hsz', Hsz. apply u32_small. unfold UINT_MAX in Hns. lia.
    + destruct (rhashmap_resize_alloc_fail w wa hmap ns) as (w2 & E');
        [lia | exact Ha |].
      rewrite E' in E. inversion E; subst. cbn [Z.eqb negb] in H.
      inversion H; subst. reflexivity.
  - destruct (rhashmap_insert_modulus _ _ _ _ _ _ _ _ H) as (Hsz' & _).
    exact Hsz'.
Qed.




(** ** Keys: the bytes of an integer *)

Lemma byte_val_byte_of z : byte_val (byte_of z) = z mod 256.
Proof.
  unfold byte_val, byte_of.
  assert (Hr : 0 <= z mod 256 < 256) by (apply Z.mod_pos_bound; lia).
  destruct (Byte.of_N (Z.to_N (z mod 256))) as [b |] eqn:E; simpl.
  - apply Byte.to_of_N in E. rewrite E. lia.
  - exfalso. pose proof (Byte.to_of_N_option_map (Z.to_N (z mod 256))) as H.
    rewrite E in H. cbn in H.
    destruct (N.leb_spec (Z.to_N (z mod 256)) 255); [discriminate | lia].
Qed.

Lemma le_value_le_bytes n : forall z,
  0 <= z < 256 ^ Z.of_nat n -> le_value (le_bytes n z) = z.
Proof.
  induction n as [| n IH]; intros z Hz.
  - cbn in *. lia.
  - cbn [le_bytes le_value]. rewrite byte_val_byte_of.
    rewrite Nat2Z.inj_succ, Z.pow_succ_r in Hz by lia.
    rewrite IH.
    + pose proof (Z.div_mod z 256 ltac:(lia)). lia.
    + split; [apply Z.div_pos; lia |].
      apply Z.div_lt_upper_bound; lia.
Qed.

Lemma length_le_bytes n : forall z, length (le_bytes n z) = n.
Proof. induction n as [| n IH]; intros z; cbn; [reflexivity | rewrite IH; reflexivity]. Qed.

Lemma key_u64_inj i j :
  Z.of_nat i < 2 ^ 64 -> Z.of_nat j < 2 ^ 64 ->
  key_u64 i = key_u64 j -> i = j.
Proof.
  intros Hi Hj H. apply (f_equal le_value) in H. unfold key_u64 in H.
  rewrite !le_value_le_bytes in H by (change (256 ^ Z.of_nat 8) with (2 ^ 64); lia).
  lia.
Qed.

(** ** Pigeon holes *)

Lemma pigeonhole (f : nat -> nat) (m c : nat) : forall l : list nat,
  (forall i, i ∈ l -> (f i < m)%nat) -> (m * c < length l)%nat ->
  exists v, (c < length (filter (fun i => f i = v) l))%nat.
Proof.
  induction m as [| m IH]; intros l Hf Hlen.
  - destruct l as [| i l]; [cbn in Hlen; lia |].
    specialize (Hf i ltac:(left)). lia.
  - destruct (decide (c < length (filter (fun i => f i = m) l))%nat) as [Hc | Hc].
    + exists m. exact Hc.
    + destruct (IH (filter (fun i => f i <> m) l)) as (v & Hv).
      * intros i Hi. apply list_elem_of_filter in Hi as [Hne Hi].
        specialize (Hf i Hi). lia.
      * pose proof (filter_app_complement (fun i => f i = m) l) as Hp.
        apply Permutation_length in Hp. rewrite length_app in Hp. lia.
      * exists v.
        assert (Hvm : v <> m).
        { destruct (filter (fun i => f i = v) (filter (fun i => f i <> m) l))
            as [| x xs] eqn:E; [cbn in Hv; lia |].
          assert (Hx : x ∈ filter (fun i => f i = v)
                         (filter (fun i => f i <> m) l))
            by (rewrite E; left).
          apply list_elem_of_filter in Hx as [Hxv Hx].
          apply list_elem_of_filter in Hx as [Hxm _]. congruence. }
        rewrite list_filter_filter_l in Hv by (intros x Hx; congruence).
        exact Hv.
Qed.

(** Among the keys [key_u64 0], [key_u64 1], ... any function to 32-bit
    digests takes one value on [n] different keys. *)
Lemma colliding_keys (digest : list byte -> Z) (n : nat) :
  (forall k, 0 <= digest k < 2 ^ 32) -> Z.of_nat n < 2 ^ 31 ->
  exists d ks,
    length ks = n /\ NoDup ks /\
    Forall (fun k => length k = 8%nat /\ digest k = d) ks.
Proof.
  intros Hrange Hn.
  set (m := Z.to_nat (2 ^ 32)).
  set (f := fun i : nat => Z.to_nat (digest (key_u64 i))).
  destruct (pigeonhole f m n (seq 0 (m * n + 1))) as (v & Hv).
  - intros i _. unfold f, m. specialize (Hrange (key_u64 i)). lia.
  - rewrite length_seq. lia.
  - set (L := filter (fun i => f i = v) (seq 0 (m * n + 1))) in *.
    exists (Z.of_nat v), (map key_u64 (take n L)).
    assert (HL : forall i, i ∈ take n L -> f i = v /\ (i < m * n + 1)%nat).
    { intros i Hi. apply (sublist_subseteq _ _ (sublist_take L n)) in Hi.
      apply list_elem_of_filter in Hi as [Hfi Hi].
      apply elem_of_seq in Hi. split; [exact Hfi | lia]. }
    split; [| split].
    + rewrite length_map, length_take. lia.
    + apply NoDup_fmap_2_strong.
      * intros i j Hi Hj Hk. apply HL in Hi as [_ Hi]. apply HL in Hj as [_ Hj].
        assert (Hb : Z.of_nat (m * n + 1) <= 2 ^ 64).
        { unfold m. rewrite Nat2Z.inj_add, Nat2Z.inj_mul, Z2Nat.id by lia.
          change (Z.of_nat 1) with 1. nia. }
        apply key_u64_inj; [lia | lia | exact Hk].
      * eapply sublist_NoDup; [| apply sublist_take].
        apply NoDup_filter. apply NoDup_seq.
    + apply Forall_forall. intros k Hk.
      apply list_elem_of_fmap in Hk as (i & -> & Hi).
      apply HL in Hi as [Hfi _]. split; [apply length_le_bytes |].
      unfold f in Hfi. specialize (Hrange (key_u64 i)). lia.
Qed.

(** ** A probe sequence of 2^16 buckets *)

Lemma bucket_ref_set_eq bs i x :
  0 <= i -> (Z.to_nat i < length bs)%nat ->
  bucket_ref (bucket_set bs i x) i = x.
Proof.
  intros Hi Hlt. unfold bucket_ref, bucket_set.
  rewrite list_lookup_insert_eq by exact Hlt. reflexivity.
Qed.

Lemma bucket_ref_set_ne bs i i' x :
  0 <= i -> 0 <= i' -> i <> i' ->
  bucket_ref (bucket_set bs i x) i' = bucket_ref bs i'.
Proof.
  intros Hi Hi' Hne. unfold bucket_ref, bucket_set.
  rewrite list_lookup_insert_ne by lia. reflexivity.
Qed.

Lemma mod_add_inj d j j' S :
  0 < S -> 0 <= j < S -> 0 <= j' < S ->
  (d + j) mod S = (d + j') mod S -> j = j'.
Proof.
  intros HS Hj Hj' H.
  assert (E : forall x, 0 <= x < S -> ((d + x) mod S - d) mod S = x).
  { intros x Hx. rewrite Zminus_mod_idemp_l.
    replace (d + x - d) with x by lia. apply Z.mod_small. exact Hx. }
  rewrite <- (E j Hj), <- (E j' Hj'), H. reflexivity.
Qed.

Lemma bytes_eqb_eq a : forall b, bytes_eqb a b = true <-> a = b.
Proof.
  induction a as [| x a IH]; intros [| y b]; cbn; try (split; [discriminate | congruence]).
  - tauto.
  - rewrite andb_true_iff, IH. split.
    + intros [Hxy ->]. apply Byte.byte_dec_bl in Hxy. congruence.
    + intros E. inversion E; subst. split; [apply Byte.byte_dec_lb |]; reflexivity.
Qed.

Lemma memcmp_eq_whole (p q : list byte) (n : Z) :
  length p = Z.to_nat n -> length q = Z.to_nat n -> p <> q ->
  memcmp_eq p q n = false.
Proof.
  intros Hp Hq Hne. unfold memcmp_eq. rewrite !take_ge by lia.
  destruct (bytes_eqb p q) eqn:E; [| reflexivity].
  apply bytes_eqb_eq in E. contradiction.
Qed.

(** The probe passes [n] occupied buckets that do not hold the key and
    are no richer than the entry it carries. *)
Lemma insert_probe_skip hmap key len hash val bs e :
  modulus_ok hmap ->
  forall (n fuel : nat) p i,
    (forall j : nat, (j < n)%nat ->
       let b := bucket_ref bs ((i + Z.of_nat j) mod hm_size hmap) in
       b_key b <> None /\ bucket_match b hash key len = Done false /\
       (u16 (p + Z.of_nat j) >? b_psl b) = false) ->
    0 <= i < hm_size hmap ->
    insert_probe (n + fuel) hmap key len hash val bs (set_psl e (u16 p)) i =
    insert_probe fuel hmap key len hash val bs
      (set_psl e (u16 (p + Z.of_nat n))) ((i + Z.of_nat n) mod hm_size hmap).
Proof.
  intros Hm. induction n as [| n IH]; intros fuel p i Hrun Hi.
  - rewrite !Z.add_0_r. rewrite Z.mod_small by exact Hi. reflexivity.
  - cbn [Nat.add insert_probe].
    pose proof (Hrun O ltac:(lia)) as H0. cbv zeta in H0.
    change (Z.of_nat 0) with 0 in H0.
    rewrite !Z.add_0_r, Z.mod_small in H0 by exact Hi.
    destruct H0 as (Hk & Hmatch & Hpsl).
    destruct (b_key (bucket_ref bs i)) as [k0 |]; [| contradiction].
    rewrite Hmatch. cbn [bind]. cbn [b_psl set_psl]. rewrite Hpsl.
    rewrite slot_is_mod by (try exact Hm; apply u32_range).
    rewrite u32_small by (destruct Hm; lia).
    assert (Hp : u16 (u16 p + 1) = u16 (p + 1)).
    { unfold u16. rewrite Zplus_mod_idemp_l. reflexivity. }
    change (set_psl (set_psl e (u16 p)) (u16 (b_psl (set_psl e (u16 p)) + 1)))
      with (set_psl e (u16 (u16 p + 1))).
    rewrite Hp. rewrite IH.
    + f_equal.
      * f_equal. f_equal. lia.
      * rewrite Zplus_mod_idemp_l. f_equal. lia.
    + intros j Hj. specialize (Hrun (S j) ltac:(lia)). cbv zeta in Hrun |- *.
      rewrite Zplus_mod_idemp_l.
      replace (i + 1 + Z.of_nat j) with (i + Z.of_nat (S j)) by lia.
      replace (p + 1 + Z.of_nat j) with (p + Z.of_nat (S j)) by lia.
      exact Hrun.
    + apply Z.mod_pos_bound. destruct Hm. lia.
Qed.

Lemma run_reachable ops : forall w hmap w' hmap' rets,
  reachable murmurhash3 hmap -> run murmurhash3 w hmap ops = Done (w', hmap', rets) ->
  reachable murmurhash3 hmap'.
Proof.
  induction ops as [| o ops IH]; intros w hmap w' hmap' rets Hr H;
    cbn [run] in H.
  - inversion H; subst. exact Hr.
  - bind_case H E. destruct a as [[w1 h1] r1].
    bind_case H E2. destruct a as [[w2 h2] rs]. inversion H; subst.
    eapply IH; [| exact E2].
    destruct o as [key len val | key len]; cbn [step] in E.
    + eapply reach_put; eassumption.
    + eapply reach_del; eassumption.
Qed.

Lemma compute_hash_fields T fl hk k len :
  hm_flags T = fl -> hm_hashkey T = hk ->
  compute_hash murmurhash3 T k len =
  compute_hash murmurhash3 (mkHmap 0 0 fl 0 0 [] hk) k len.
Proof. intros <- <-. reflexivity. Qed.

Lemma chain_step fl hk d ks T k v :
  chain_inv fl hk d ks T -> Z.of_nat (length ks) <= 100000 ->
  Forall (fun k' => length k' = 8%nat) ks -> length k = 8%nat ->
  k ∉ ks -> digest8 murmurhash3 fl hk k = d ->
  exists T',
    rhashmap_put murmurhash3 calm T k 8 v = Done (calm, T', v) /\
    chain_inv fl hk d (ks ++ [k]) T'.
Proof.
  intros (Hsz & Hdiv & Hfl & Hhk & Hn & Hlen & Hocc & Hemp) Hle Hks Hk Hnew Hd.
  set (n := length ks) in *.
  assert (Hm : modulus_ok T).
  { split; [rewrite Hsz; unfold chain_size; lia | rewrite Hsz; exact Hdiv]. }
  assert (Hfuel : Z.to_nat chain_size
                  = (n + S (Z.to_nat (chain_size - Z.of_nat n - 1)))%nat).
  { rewrite <- Z2Nat.inj_succ by (unfold chain_size; lia).
    rewrite <- (Nat2Z.id n) at 1.
    rewrite <- Z2Nat.inj_add by (unfold chain_size; lia).
    f_equal. lia. }
  assert (Hdr : 0 <= d < 2 ^ 32) by (rewrite <- Hd; apply compute_hash_range).
  assert (HS : 100000 < chain_size < 2 ^ 32) by (unfold chain_size; lia).
  set (idx := (d + Z.of_nat n) mod chain_size).
  assert (Hidx : 0 <= idx < chain_size) by (apply Z.mod_pos_bound; lia).
  assert (Hfree : b_key (bucket_ref (hm_buckets T) idx) = None)
    by (apply Hemp; [apply Nat.le_refl | lia]).
  set (e := mkBucket (Some k) v d 0 8).
  exists (set_nitems (set_buckets T (bucket_set (hm_buckets T) idx
                                       (set_psl e (u16 (Z.of_nat n)))))
                     (Z.of_nat n + 1)).
  split.
  - unfold rhashmap_put. rewrite Hsz.
    change (APPROX_85_PERCENT chain_size) with 111360.
    destruct (Z.gtb_spec (hm_nitems T) 111360) as [Hgt | _]; [lia |].
    unfold rhashmap_insert.
    rewrite (compute_hash_fields T fl hk k 8 Hfl Hhk). fold (digest8 murmurhash3 fl hk k).
    rewrite Hd.
    assert (Hsetup :
      (if Z.land (hm_flags T) RHM_NOCOPY =? 0
       then let '(ok, w') := alloc calm in
            (w', if ok then Some (take (Z.to_nat 8) k) else None)
       else (calm, Some k)) = (calm, Some k)).
    { destruct (Z.land (hm_flags T) RHM_NOCOPY =? 0); [| reflexivity].
      change (alloc calm) with (true, calm). cbv iota beta.
      rewrite take_ge by (rewrite Hk; apply Nat.le_refl). reflexivity. }
    rewrite Hsetup. cbv iota beta.
    change (u16 8) with 8. fold e.
    rewrite slot_is_mod by assumption. rewrite Hsz.
    rewrite Hfuel.
    change e with (set_psl e (u16 0)) at 1.
    rewrite <- Hsz.
    rewrite insert_probe_skip;
      [| exact Hm | | apply Z.mod_pos_bound; rewrite Hsz; lia].
    + rewrite Hsz, Zplus_mod_idemp_l. fold idx. cbn [insert_probe].
      rewrite Hfree.
      cbn [bind]. rewrite Hn, Z.add_0_l.
      rewrite (u32_small (Z.of_nat n + 1)) by lia. reflexivity.
    + intros j Hj. cbv zeta. rewrite Hsz, Zplus_mod_idemp_l.
      destruct (lookup_lt_is_Some_2 ks j Hj) as [kj Hkj].
      destruct (Hocc j kj Hkj) as (Hbk & Hbh & Hbp & Hbl).
      split; [rewrite Hbk; discriminate |]. split.
      * unfold bucket_match. rewrite Hbh, Hbl, Hbk, !Z.eqb_refl. cbn [andb].
        rewrite memcmp_eq_whole; [reflexivity | | exact Hk |].
        -- rewrite Forall_forall in Hks. apply Hks.
           eapply list_elem_of_lookup_2. exact Hkj.
        -- intros ->. apply Hnew. eapply list_elem_of_lookup_2. exact Hkj.
      * rewrite Hbp, Z.add_0_l. rewrite Z.gtb_ltb. apply Z.ltb_irrefl.
  - unfold chain_inv. cbn [hm_size hm_divinfo hm_flags hm_hashkey hm_nitems
                            hm_buckets set_nitems set_buckets].
    split; [exact Hsz |]. split; [exact Hdiv |]. split; [exact Hfl |].
    split; [exact Hhk |].
    split; [rewrite length_app; cbn [length]; lia |].
    split; [rewrite length_bucket_set; exact Hlen |].
    split.
    + intros j k' Hj. cbv zeta.
      destruct (decide (j < n)%nat) as [Hlt | Hge].
      * rewrite lookup_app_l in Hj by exact Hlt.
        rewrite bucket_ref_set_ne.
        -- apply Hocc. exact Hj.
        -- lia.
        -- apply Z.mod_pos_bound. lia.
        -- unfold idx. intros E. apply mod_add_inj in E; lia.
      * assert (j = n).
        { apply lookup_lt_Some in Hj. rewrite length_app in Hj.
          cbn [length] in Hj. fold n in Hj. lia. }
        subst j. rewrite lookup_app_r in Hj by (fold n; lia).
        fold n in Hj. rewrite Nat.sub_diag in Hj. cbn in Hj.
        inversion Hj; subst k'. fold idx.
        rewrite bucket_ref_set_eq by lia.
        cbn. repeat split.
    + intros j Hj Hjs. rewrite length_app in Hj. cbn [length] in Hj. fold n in Hj.
      rewrite bucket_ref_set_ne.
      * apply Hemp; [fold n; lia | exact Hjs].
      * lia.
      * apply Z.mod_pos_bound. lia.
      * unfold idx. intros E. apply mod_add_inj in E; lia.
Qed.

Lemma chain_table_created fl :
  rhashmap_create murmurhash3 calm chain_size fl
    = Done (calm, Some (chain_table fl)).
Proof.
  unfold rhashmap_create. change (alloc calm) with (true, calm).
  cbv iota beta. cbn [negb hm_minsize].
  change (u32 (MAX chain_size 1)) with chain_size.
  unfold rhashmap_resize. cbn [hm_size hm_buckets hm_flags hm_minsize hm_hashkey].
  change (chain_size =? 1) with false. cbn [andb].
  change (chain_size >? UINT_MAX) with false.
  change (alloc calm) with (true, calm). cbv iota beta.
  change (u32 chain_size =? 0) with false.
  change (random calm) with (0, calm). cbv iota beta.
  change (u32 chain_size) with chain_size.
  change (Z.to_nat 0) with O. cbn [take rehash bind].
  reflexivity.
Qed.

Lemma bucket_ref_replicate n i : bucket_ref (replicate n zero_bucket) i = zero_bucket.
Proof.
  unfold bucket_ref.
  destruct (replicate n zero_bucket !! Z.to_nat i) as [b |] eqn:E; [| reflexivity].
  apply lookup_replicate in E as [-> _]. reflexivity.
Qed.

Lemma chain_table_inv fl d : chain_inv fl 0 d [] (chain_table fl).
Proof.
  unfold chain_inv, chain_table.
  cbn [hm_size hm_divinfo hm_flags hm_hashkey hm_nitems hm_buckets].
  do 5 (split; [reflexivity |]).
  split; [apply length_replicate |]. split.
  - intros j k Hj. rewrite lookup_nil in Hj. discriminate.
  - intros j _ _. rewrite bucket_ref_replicate. reflexivity.
Qed.

(** The keys [ks2] put one after the other, each with the value [v]. *)
Lemma chain_run fl hk d v : forall ks2 ks1 T,
  chain_inv fl hk d ks1 T ->
  NoDup (ks1 ++ ks2) ->
  Forall (fun k => length k = 8%nat /\ digest8 murmurhash3 fl hk k = d)
         (ks1 ++ ks2) ->
  Z.of_nat (length (ks1 ++ ks2)) <= 100000 ->
  exists T',
    run murmurhash3 calm T (map (fun k => Put k 8 v) ks2)
      = Done (calm, T', map (fun _ => v) ks2) /\
    chain_inv fl hk d (ks1 ++ ks2) T'.
Proof.
  induction ks2 as [| k ks2 IH]; intros ks1 T Hinv Hnd Hall Hlen.
  - rewrite app_nil_r. exists T. split; [reflexivity | assumption].
  - replace (ks1 ++ k :: ks2) with ((ks1 ++ [k]) ++ ks2) in *
      by (rewrite <- app_assoc; reflexivity).
    rewrite !length_app in Hlen. cbn [length] in Hlen.
    apply NoDup_app in Hnd as Hnd'. destruct Hnd' as (Hnd1 & _ & _).
    apply NoDup_app in Hnd1 as (_ & Hnew & _).
    apply Forall_app in Hall as Hall'. destruct Hall' as (Hall1 & _).
    apply Forall_app in Hall1 as (Hks1 & Hk1).
    apply Forall_singleton in Hk1 as [Hk8 Hkd].
    destruct (chain_step fl hk d ks1 T k v) as (T1 & Hput & Hinv1).
    + exact Hinv.
    + lia.
    + eapply Forall_impl; [exact Hks1 |]. intros k' [H8 _]. exact H8.
    + exact Hk8.
    + intros Hin. apply (Hnew k Hin). left.
    + exact Hkd.
    + destruct (IH (ks1 ++ [k]) T1) as (T' & Hrun & Hinv'); try assumption.
      * rewrite !length_app. cbn [length]. lia.
      * exists T'. split; [| exact Hinv'].
        cbn [map run step]. rewrite Hput. cbn [bind]. rewrite Hrun.
        reflexivity.
Qed.

Lemma lookup_of_bucket_ref bs i k :
  b_key (bucket_ref bs i) = Some k ->
  bs !! Z.to_nat i = Some (bucket_ref bs i).
Proof.
  unfold bucket_ref. destruct (bs !! Z.to_nat i) as [b |]; [reflexivity |].
  discriminate.
Qed.

(** C2 at a failing input.  Whatever the hash function, there are 65537
    keys of 8 bytes with one digest; put into a fresh table of 131072
    buckets they form one probe sequence, and the entry of the last one
    has travelled 65536 buckets: its 16-bit [psl] has wrapped to 0.  The
    table is one the operations build, and it breaks the invariant:
    [validate_psl_p] of the source is false at that bucket. *)
Theorem psl_wraps_after_65536_buckets (flags : Z) :
  exists hmap,
    reachable murmurhash3 hmap /\ ~ psl_invariant hmap /\
    exists (i : nat) b,
      hm_buckets hmap !! i = Some b /\ b_key b <> None /\
      b_psl b = 0 /\ displacement hmap b (Z.of_nat i) = 65536 /\
      validate_psl_p hmap b (Z.of_nat i) = false.
Proof.
  destruct (colliding_keys (digest8 murmurhash3 flags 0) (Z.to_nat 65537))
    as (d & ks & Hlen & Hnd & Hall).
  { intros k. apply compute_hash_range. }
  { rewrite Z2Nat.id; lia. }
  destruct (chain_run flags 0 d 0 ks [] (chain_table flags))
    as (T & Hrun & Hinv).
  { apply chain_table_inv. }
  { exact Hnd. }
  { exact Hall. }
  { cbn [app]. rewrite Hlen, Z2Nat.id; lia. }
  cbn [app] in Hinv.
  assert (Hr : reachable murmurhash3 T).
  { eapply run_reachable; [| exact Hrun].
    eapply reach_create. apply chain_table_created. }
  destruct Hinv as (Hsz & Hdiv & Hfl & Hhk & Hn & Hblen & Hocc & Hemp).
  assert (Hj : (Z.to_nat 65536 < length ks)%nat) by (rewrite Hlen; lia).
  destruct (lookup_lt_is_Some_2 ks _ Hj) as [k Hk].
  specialize (Hocc _ k Hk). cbv zeta in Hocc.
  rewrite Z2Nat.id in Hocc by lia.
  set (idx := (d + 65536) mod chain_size) in *.
  set (b := bucket_ref (hm_buckets T) idx) in *.
  destruct Hocc as (Hbk & Hbh & Hbp & Hbl).
  change (u16 65536) with 0 in Hbp.
  assert (HS : chain_size = 131072) by reflexivity.
  assert (Hidx : 0 <= idx < chain_size)
    by (apply Z.mod_pos_bound; rewrite HS; lia).
  assert (Hdr : 0 <= d < 2 ^ 32).
  { rewrite Forall_forall in Hall.
    destruct (Hall k (list_elem_of_lookup_2 _ _ _ Hk)) as [_ <-].
    apply compute_hash_range. }
  assert (Hlk : hm_buckets T !! Z.to_nat idx = Some b)
    by (apply lookup_of_bucket_ref with (k := k); exact Hbk).
  assert (Hdisp : displacement T b (Z.of_nat (Z.to_nat idx)) = 65536).
  { unfold displacement, ideal_slot. rewrite Z2Nat.id by lia.
    rewrite Hbh, Hsz. unfold idx.
    rewrite Zminus_mod_idemp_r, Zminus_mod_idemp_l.
    replace (d + 65536 - d) with 65536 by lia. rewrite HS. reflexivity. }
  exists T. split; [exact Hr |]. split.
  - intros Hpsl. specialize (Hpsl (Z.to_nat idx) b Hlk).
    rewrite Hdisp, Hbp in Hpsl. rewrite Hbk in Hpsl.
    specialize (Hpsl ltac:(discriminate)). discriminate.
  - exists (Z.to_nat idx), b. split; [exact Hlk |].
    split; [rewrite Hbk; discriminate |]. split; [exact Hbp |].
    split; [exact Hdisp |].
    unfold validate_psl_p. rewrite Hbk, Hbp, Hbh. rewrite Z2Nat.id by lia.
    assert (Hm : modulus_ok T)
      by (split; [rewrite Hsz, HS; lia | rewrite Hsz; exact Hdiv]).
    rewrite slot_is_mod by assumption.
    rewrite Hsz.
    assert (Hb0 : 0 <= d mod chain_size < chain_size)
      by (apply Z.mod_pos_bound; rewrite HS; lia).
    assert (Hsplit : idx = d mod chain_size + 65536 \/
                     idx = d mod chain_size + 65536 - chain_size).
    { unfold idx. rewrite <- Zplus_mod_idemp_l.
      destruct (Z_lt_le_dec (d mod chain_size + 65536) chain_size).
      - left. apply Z.mod_small. lia.
      - right. symmetry. apply Z.mod_unique with (q := 1); lia. }
    destruct (Z.gtb_spec (d mod chain_size) idx).
    + rewrite (u32_small (chain_size - d mod chain_size)) by lia.
      rewrite u32_small by lia.
      destruct (Z.eqb_spec (chain_size - d mod chain_size + idx) 0); [lia | reflexivity].
    + rewrite u32_small by lia.
      destruct (Z.eqb_spec (idx - d mod chain_size) 0); [lia | reflexivity].
Qed.


(** The lookup passes [m] occupied buckets that do not hold the key and
    whose [psl] is not below the distance walked. *)
Lemma get_probe_skip hmap key len hash :
  modulus_ok hmap ->
  forall (m fuel : nat) n i,
    (forall j : nat, (j < m)%nat ->
       let b := bucket_ref (hm_buckets hmap)
                           ((i + Z.of_nat j) mod hm_size hmap) in
       b_key b <> None /\ bucket_match b hash key len = Done false /\
       (u32 (n + Z.of_nat j) >? b_psl b) = false) ->
    0 <= i < hm_size hmap ->
    get_probe (m + fuel) hmap key len hash (u32 n) i =
    get_probe fuel hmap key len hash (u32 (n + Z.of_nat m))
              ((i + Z.of_nat m) mod hm_size hmap).
Proof.
  intros Hm. induction m as [| m IH]; intros fuel n i Hrun Hi.
  - rewrite !Z.add_0_r. rewrite Z.mod_small by exact Hi. reflexivity.
  - cbn [Nat.add get_probe].
    pose proof (Hrun O ltac:(lia)) as H0. cbv zeta in H0.
    change (Z.of_nat 0) with 0 in H0.
    rewrite !Z.add_0_r, Z.mod_small in H0 by exact Hi.
    destruct H0 as (Hk & Hmatch & Hpsl).
    rewrite Hmatch. cbn [bind].
    destruct (b_key (bucket_ref (hm_buckets hmap) i)) as [k0 |];
      [| contradiction].
    rewrite Hpsl.
    rewrite slot_is_mod by (try exact Hm; apply u32_range).
    rewrite (u32_small (i + 1)) by (destruct Hm; lia).
    assert (Hn : u32 (u32 n + 1) = u32 (n + 1)).
    { unfold u32. rewrite Zplus_mod_idemp_l. reflexivity. }
    rewrite Hn. rewrite IH.
    + f_equal.
      * f_equal. lia.
      * rewrite Zplus_mod_idemp_l. f_equal. lia.
    + intros j Hj. specialize (Hrun (S j) ltac:(lia)). cbv zeta in Hrun |- *.
      rewrite Zplus_mod_idemp_l.
      replace (i + 1 + Z.of_nat j) with (i + Z.of_nat (S j)) by lia.
      replace (n + 1 + Z.of_nat j) with (n + Z.of_nat (S j)) by lia.
      exact Hrun.
    + apply Z.mod_pos_bound. destruct Hm. lia.
Qed.

(** In the row of [chain_inv] a key past the first 65536 is not found:
    the bucket at distance 65536 has the [psl] 0. *)
Lemma chain_get_lost fl hk d ks T (j : nat) k :
  chain_inv fl hk d ks T -> NoDup ks ->
  Forall (fun k => length k = 8%nat /\ digest8 murmurhash3 fl hk k = d) ks ->
  ks !! j = Some k -> 65536 < Z.of_nat j ->
  rhashmap_get murmurhash3 T k 8 = Done NULL.
Proof.
  intros (Hsz & Hdiv & Hfl & Hhk & Hn & Hlen & Hocc & Hemp) Hnd Hall Hj Hbig.
  assert (HS : chain_size = 131072) by reflexivity.
  assert (Hm : modulus_ok T).
  { split; [rewrite Hsz, HS; lia | rewrite Hsz; exact Hdiv]. }
  rewrite Forall_forall in Hall.
  destruct (Hall k (list_elem_of_lookup_2 _ _ _ Hj)) as [Hk8 Hkd].
  assert (Hdr : 0 <= d < 2 ^ 32) by (rewrite <- Hkd; apply compute_hash_range).
  assert (Hother : forall (j' : nat) k', (j' < j)%nat -> ks !! j' = Some k' ->
            bucket_match (bucket_ref (hm_buckets T)
                            ((d + Z.of_nat j') mod chain_size)) d k 8
            = Done false).
  { intros j' k' Hlt Hj'. destruct (Hocc j' k' Hj') as (Hbk & Hbh & _ & Hbl).
    unfold bucket_match. rewrite Hbh, Hbl, Hbk, !Z.eqb_refl. cbn [andb].
    rewrite memcmp_eq_whole; [reflexivity | | exact Hk8 |].
    - apply (Hall k' (list_elem_of_lookup_2 _ _ _ Hj')).
    - intros ->. assert (j' = j) by (eapply NoDup_lookup; eassumption). lia. }
  assert (Hjlen : (j < length ks)%nat) by (eapply lookup_lt_Some; exact Hj).
  unfold rhashmap_get.
  rewrite (compute_hash_fields T fl hk k 8 Hfl Hhk).
  fold (digest8 murmurhash3 fl hk k). rewrite Hkd.
  rewrite slot_is_mod by assumption.
  assert (Hfuel : probe_fuel = (Z.to_nat 65536 + 1)%nat).
  { unfold probe_fuel. change (2 ^ 16 + 1) with (65536 + 1).
    rewrite Z2Nat.inj_add by lia. reflexivity. }
  rewrite Hfuel. change 0 with (u32 0) at 1.
  rewrite get_probe_skip; [| exact Hm | | apply Z.mod_pos_bound; rewrite Hsz, HS; lia].
  - rewrite (Z2Nat.id 65536) by lia. rewrite Hsz, Zplus_mod_idemp_l.
    change (u32 (0 + 65536)) with 65536.
    assert (H6 : (Z.to_nat 65536 < length ks)%nat) by lia.
    destruct (lookup_lt_is_Some_2 ks _ H6) as [k6 Hk6].
    pose proof (Hocc _ k6 Hk6) as Hb. cbv zeta in Hb.
    pose proof (Hother (Z.to_nat 65536) k6 ltac:(lia) Hk6) as Hmatch.
    rewrite (Z2Nat.id 65536) in Hb, Hmatch by lia.
    destruct Hb as (Hbk & _ & Hbp & _). change (u16 65536) with 0 in Hbp.
    cbn [Nat.add get_probe]. rewrite Hmatch. cbn [bind].
    rewrite Hbk, Hbp. reflexivity.
  - intros j' Hj'. cbv zeta. rewrite Hsz, Zplus_mod_idemp_l.
    assert (Hj'len : (j' < length ks)%nat) by lia.
    destruct (lookup_lt_is_Some_2 ks j' Hj'len) as [k' Hk'].
    destruct (Hocc j' k' Hk') as (Hbk & _ & Hbp & _).
    split; [rewrite Hbk; discriminate |].
    split; [apply (Hother j' k'); [lia | exact Hk'] |].
    rewrite Hbp, Z.add_0_l. unfold u16. rewrite u32_small by lia.
    rewrite Z.mod_small by lia. rewrite Z.gtb_ltb. apply Z.ltb_irrefl.
Qed.

(** The round trip without any failure of the allocator.  Whatever the
    hash function, there are 65538 different keys of 8 bytes with one
    digest; each is put with the value 1 into a fresh table of 131072
    buckets and each put returns 1, yet the lookup of the last key returns
    [NULL]: its entry lies behind the entry whose [psl] has wrapped to 0. *)
Lemma roundtrip_fails_after_65536_buckets (flags : Z) :
  exists ks k w hmap,
    rhashmap_create murmurhash3 calm chain_size flags
      = Done (calm, Some (chain_table flags)) /\
    NoDup ks /\ Forall (fun k' => length k' = 8%nat) ks /\ k ∈ ks /\
    run murmurhash3 calm (chain_table flags) (map (fun k' => Put k' 8 1) ks)
      = Done (w, hmap, map (fun _ => 1) ks) /\
    rhashmap_get murmurhash3 hmap k 8 = Done NULL.
Proof.
  destruct (colliding_keys (digest8 murmurhash3 flags 0) (Z.to_nat 65538))
    as (d & ks & Hlen & Hnd & Hall).
  { intros k. apply compute_hash_range. }
  { rewrite Z2Nat.id; lia. }
  destruct (chain_run flags 0 d 1 ks [] (chain_table flags))
    as (T & Hrun & Hinv).
  { apply chain_table_inv. }
  { exact Hnd. }
  { exact Hall. }
  { cbn [app]. rewrite Hlen, Z2Nat.id; lia. }
  cbn [app] in Hinv.
  assert (Hj : (Z.to_nat 65537 < length ks)%nat) by (rewrite Hlen; lia).
  destruct (lookup_lt_is_Some_2 ks _ Hj) as [k Hk].
  exists ks, k, calm, T.
  split; [apply chain_table_created |]. split; [exact Hnd |].
  split; [eapply Forall_impl; [exact Hall |]; intros k' [H8 _]; exact H8 |].
  split; [eapply list_elem_of_lookup_2; exact Hk |].
  split; [exact Hrun |].
  eapply chain_get_lost; [exact Hinv | exact Hnd | exact Hall | exact Hk |].
  rewrite Z2Nat.id; lia.
Qed.


End EngineFacts.

(** * The operations on sample tables *)

Lemma table_a_built :
  exists w,
    rhashmap_create murmurhash3_unused calm 0 0
      = Done (w, Some (mkHmap 1 0 0 1 (fast_div32_init 1) [zero_bucket] 0)) /\
    rhashmap_put murmurhash3_unused w
      (mkHmap 1 0 0 1 (fast_div32_init 1) [zero_bucket] 0) key_a 1 17
      = Done (calm, table_a, 17).
Proof.
  exists calm. split; [vm_compute; reflexivity | vm_compute; reflexivity].
Qed.

Lemma table_a_reachable : reachable murmurhash3_unused table_a.
Proof.
  destruct table_a_built as (w & Hc & Hp).
  eapply reach_put; [| exact Hp]. eapply reach_create. exact Hc.
Qed.

(** C1 at two failing inputs.
    (a) A fresh table, [put("a", 1, 17)], then [put("b", 1, 34)], which
        grows the table from 1 to 2 buckets; the [malloc] of the copy of
        ["a"] in the re-insertion returns [NULL].  Both calls return the
        value they were given, and ["a"] is gone.
    (b) With no allocation failing and whatever the hash function: 65538
        different keys of one digest put into a fresh table of 131072
        buckets; every put returns its value, and the lookup of one of the
        keys returns [NULL]. *)
Theorem put_then_get_loses_key :
  (exists w1 hmap0 w2 hmap2,
     rhashmap_create murmurhash3_unused
       (mkWorld [true; true; true; false; true] []) 0 0
       = Done (w1, Some hmap0) /\
     run murmurhash3_unused w1 hmap0 [Put key_a 1 17; Put key_b 1 34]
       = Done (w2, hmap2, [17; 34]) /\
     rhashmap_get murmurhash3_unused hmap2 key_a 1 = Done NULL /\
     rhashmap_get murmurhash3_unused hmap2 key_b 1 = Done 34) /\
  (forall murmurhash3 flags,
   exists ks k w hmap0 hmap,
     rhashmap_create murmurhash3 calm 131072 flags = Done (calm, Some hmap0) /\
     NoDup ks /\ Forall (fun k' => length k' = 8%nat) ks /\ k ∈ ks /\
     run murmurhash3 calm hmap0 (map (fun k' => Put k' 8 1) ks)
       = Done (w, hmap, map (fun _ => 1) ks) /\
     rhashmap_get murmurhash3 hmap k 8 = Done NULL).
Proof.
  split.
  - do 4 eexists. split; [vm_compute; reflexivity |].
    split; [vm_compute; reflexivity |].
    split; [vm_compute; reflexivity | vm_compute; reflexivity].
  - intros murmurhash3 flags.
    destruct (roundtrip_fails_after_65536_buckets murmurhash3 flags)
      as (ks & k & w & hmap & Hc & Hnd & Hlen & Hin & Hrun & Hget).
    exists ks, k, w, (chain_table flags), hmap. repeat split; assumption.
Qed.

(** C4 at a failing input.  The table that holds ["a"] in its one bucket is
    resized to 2 buckets; the array is allocated, the [malloc] of the key
    copy in the re-insertion returns [NULL].  The resize returns 0, and the
    table is empty. *)
Theorem resize_drops_entry :
  stored table_a = [(key_a, 1, 17)] /\ hm_nitems table_a = 1 /\
  exists w' hmap',
    rhashmap_resize murmurhash3_unused (mkWorld [true; false] []) table_a 2
      = Done (w', hmap', 0) /\
    stored hmap' = [] /\ hm_nitems hmap' = 0.
Proof.
  split; [reflexivity |]. split; [reflexivity |].
  do 2 eexists. split; [vm_compute; reflexivity |].
  split; reflexivity.
Qed.

(** C7 at a failing input.  The table holds ["a"] with the value 17 in its
    one bucket, so [put("a", 1, 34)] grows it first; the [malloc] of the
    key copy in the re-insertion returns [NULL] and the entry is dropped.
    The call then inserts ["a"] anew: it returns 34 and 34 is stored. *)
Theorem duplicate_put_replaces_value :
  rhashmap_get murmurhash3_unused table_a key_a 1 = Done 17 /\
  exists w' hmap',
    rhashmap_put murmurhash3_unused (mkWorld [true; false; true] []) table_a
      key_a 1 34 = Done (w', hmap', 34) /\
    rhashmap_get murmurhash3_unused hmap' key_a 1 = Done 34.
Proof.
  split; [vm_compute; reflexivity |].
  do 2 eexists. split; [vm_compute; reflexivity | vm_compute; reflexivity].
Qed.

(** C3 at a failing input.  Five keys are put into a fresh table (it grows
    to 8 buckets), two are deleted, three remain.  The third delete
    leaves two entries in eight buckets and so shrinks the table to 4; the
    array is allocated, the [malloc] of the first key copy in the
    re-insertion returns [NULL].  The call returns the value of ["c"], the
    key is gone, and the count went from 3 to 1. *)
Theorem delete_drops_second_entry :
  exists w hmap0 w1 hmap1 w' hmap',
    rhashmap_create murmurhash3_unused calm 0 0 = Done (w, Some hmap0) /\
    run murmurhash3_unused w hmap0
      (put_letters 5 ++ [Del key_a 1; Del key_b 1])
      = Done (w1, hmap1, [1; 2; 3; 4; 5; 1; 2]) /\
    hm_nitems hmap1 = 3 /\ hm_size hmap1 = 8 /\
    rhashmap_del murmurhash3_unused (mkWorld [true; false; true] []) hmap1
      key_c 1 = Done (w', hmap', 3) /\
    rhashmap_get murmurhash3_unused hmap' key_c 1 = Done NULL /\
    hm_nitems hmap' = 1 /\ hm_size hmap' = 4.
Proof.
  do 6 eexists. split; [vm_compute; reflexivity |].
  split; [vm_compute; reflexivity |].
  split; [reflexivity |]. split; [reflexivity |].
  split; [vm_compute; reflexivity |].
  split; [vm_compute; reflexivity |]. split; reflexivity.
Qed.

(** C5 as stated fails.  A table created with 20 buckets and filled with
    17 keys has a load factor of 17/20, which is 85 percent and does not
    exceed it; the next put grows it to 40 buckets all the same. *)
Lemma grow_at_exactly_85_percent :
  exists w hmap0 w1 hmap1 rets w' hmap',
    rhashmap_create murmurhash3_unused calm 20 0 = Done (w, Some hmap0) /\
    run murmurhash3_unused w hmap0 (put_letters 17) = Done (w1, hmap1, rets) /\
    hm_size hmap1 = 20 /\ hm_nitems hmap1 = 17 /\
    load_exceeds_85 hmap1 = false /\
    rhashmap_put murmurhash3_unused w1 hmap1 (letter 17) 1 18
      = Done (w', hmap', 18) /\
    hm_size hmap' = 40.
Proof.
  do 7 eexists. split; [vm_compute; reflexivity |].
  split; [vm_compute; reflexivity |].
  split; [reflexivity |]. split; [reflexivity |]. split; [reflexivity |].
  split; [vm_compute; reflexivity |]. reflexivity.
Qed.



(** * The theorems at sample inputs *)

Lemma empty_bucket_never_compared_witness :
  reachable murmurhash3_unused table_a /\
  (forall b, b ∈ hm_buckets table_a -> b_key b = None -> b_len b = 0) /\
  rhashmap_get murmurhash3_unused table_a key_b 1 <> NullCompare /\
  rhashmap_del murmurhash3_unused calm table_a key_b 1 <> NullCompare /\
  rhashmap_put murmurhash3_unused calm table_a key_b 1 34 <> NullCompare.
Proof.
  assert (Hr : reachable murmurhash3_unused table_a).
  { apply (reach_put murmurhash3_unused calm table_empty key_a 1 17 calm
             table_a 17); [| vm_compute; reflexivity].
    apply (reach_create murmurhash3_unused calm 0 0 calm table_empty).
    vm_compute. reflexivity. }
  split; [exact Hr |].
  destruct (empty_bucket_never_compared murmurhash3_unused table_a Hr)
    as [Hlen Hcmp].
  split; [exact Hlen |]. apply (Hcmp key_b 1 calm 34). lia.
Defined.


Lemma walk_complete_witness :
  array_ok table_abc /\ keys_distinct table_abc /\
  exists es iter,
    walk_iter 3 table_abc RHM_WALK_BEGIN = (es, iter) /\
    length es = 3%nat /\ NoDup (map entry_key es) /\
    es = stored table_abc /\ rhashmap_walk table_abc iter = (None, iter).
Proof.
  assert (Ha : array_ok table_abc) by (split; [simpl; lia | reflexivity]).
  assert (Hd : keys_distinct table_abc).
  { intros i j bi bj ei ej Hi Hj Hei Hej Hk.
    destruct i as [| [| [| [| i]]]]; cbn in Hi; try discriminate;
      inversion Hi; subst bi; cbn in Hei; try discriminate;
      inversion Hei; subst ei;
      destruct j as [| [| [| [| j]]]]; cbn in Hj; try discriminate;
      inversion Hj; subst bj; cbn in Hej; try discriminate;
      inversion Hej; subst ej; cbn in Hk; try discriminate; reflexivity. }
  split; [exact Ha |]. split; [exact Hd |].
  exact (walk_complete table_abc Ha Hd).
Defined.

Lemma put_grows_above_threshold_witness :
  1 <= hm_size table_a /\ hm_size table_a * 870 < 2 ^ 32 /\
  rhashmap_put murmurhash3_unused calm table_a key_b 1 34
    = Done (calm, table_ab, 34) /\
  hm_size table_ab =
  if (hm_nitems table_a >? hm_size table_a * 870 / 1024) && (alloc calm).1
  then Z.min (hm_size table_a * 2) (hm_size table_a + 1048576)
  else hm_size table_a.
Proof.
  assert (H1 : 1 <= hm_size table_a) by (simpl; lia).
  assert (H2 : hm_size table_a * 870 < 2 ^ 32) by (simpl; lia).
  assert (Hput : rhashmap_put murmurhash3_unused calm table_a key_b 1 34
                 = Done (calm, table_ab, 34)) by (vm_compute; reflexivity).
  split; [exact H1 |]. split; [exact H2 |]. split; [exact Hput |].
  exact (put_grows_above_threshold murmurhash3_unused calm table_a key_b 1 34
           calm table_ab 34 H1 H2 Hput).
Defined.


(** * Further properties of the code *)

(** * utils.h, fastdiv.h and siphash.c on their own *)

(** X1.  [fls] is the bit length: 0 for 0, and otherwise the position of the
    highest set bit, counted from 1. *)
Theorem fls_is_bit_length x :
  0 <= x < 2 ^ 32 ->
  (x = 0 -> fls x = 0) /\
  (0 < x -> 1 <= fls x <= 32 /\ 2 ^ (fls x - 1) <= x < 2 ^ fls x).
Proof.
  intros Hx. destruct (fls_spec x Hx) as (Hr & Hhi & Hlo & H0).
  split; [exact H0 |]. intros Hpos. specialize (Hlo Hpos).
  split; [| lia]. split; [| lia].
  destruct (Z.eq_dec (fls x) 0) as [E | E]; [| lia].
  rewrite E in Hhi. simpl in Hhi. lia.
Qed.

Lemma fls_is_bit_length_witness :
  0 <= 1000 < 2 ^ 32 /\ fls 1000 = 10 /\ 2 ^ 9 <= 1000 < 2 ^ 10.
Proof.
  assert (H : 0 <= 1000 < 2 ^ 32) by lia.
  split; [exact H |]. split; [reflexivity |].
  exact (proj2 (proj2 (fls_is_bit_length 1000 H) ltac:(lia))).
Defined.

(** X2.  The constant of [fast_div32_init] is read back by [fast_div32] as it
    was packed: the multiplier in the upper 32 bits, [s1] in bits 8 to 15
    and [s2] in the low 8 bits, with [l] the bit length of [d - 1]. *)
Theorem fast_div32_init_layout d :
  1 <= d < 2 ^ 32 ->
  let info := fast_div32_init d in
  let l := fls (u32 (d - 1)) in
  0 <= info < 2 ^ 64 /\
  u32 (Z.shiftr info 32) = 2 ^ 32 * (2 ^ l - d) / d + 1 /\
  Z.shiftr (Z.land info 65280) 8 = Z.min l 1 /\
  Z.land info 255 = Z.max (l - 1) 0 /\
  d <= 2 ^ l /\ (1 <= l -> 2 ^ (l - 1) < d).
Proof.
  intros Hd. cbv zeta.
  destruct (fd_l_spec d Hd) as (Hl & Hup & Hl0 & Hlo).
  destruct (fd_m_spec d Hd) as (Hm & _).
  rewrite (fast_div32_init_fields d Hd).
  fold (fd_l d). change (2 ^ 32 * (2 ^ fd_l d - d) / d + 1) with (fd_m d).
  assert (Hs1 : fd_s1 d = Z.min (fd_l d) 1 /\ 0 <= fd_s1 d <= 1).
  { unfold fd_s1. destruct (Z.gtb_spec (fd_l d) 1); lia. }
  assert (Hs2 : fd_s2 d = Z.max (fd_l d - 1) 0 /\ 0 <= fd_s2 d <= 31).
  { unfold fd_s2. destruct (Z.eqb_spec (fd_l d) 0); lia. }
  destruct Hs1 as [E1 Hs1], Hs2 as [E2 Hs2]. rewrite <- E1, <- E2.
  set (m := fd_m d) in *. set (s1 := fd_s1 d) in *. set (s2 := fd_s2 d) in *.
  set (x := m * 2 ^ 32 + (s1 * 2 ^ 8 + s2)).
  split; [unfold x; lia |].
  split.
  { rewrite Z.shiftr_div_pow2 by lia. unfold x.
    rewrite Z.add_comm, Z.div_add by lia.
    rewrite Z.div_small by lia. apply u32_small. lia. }
  split.
  { rewrite Z.shiftr_land. change (Z.shiftr 65280 8) with (Z.ones 8).
    rewrite Z.land_ones by lia. rewrite Z.shiftr_div_pow2 by lia. unfold x.
    replace (m * 2 ^ 32 + (s1 * 2 ^ 8 + s2))
      with (s2 + (m * 2 ^ 24 + s1) * 2 ^ 8) by lia.
    rewrite Z.div_add by lia. rewrite (Z.div_small s2) by lia.
    rewrite Z.add_0_l.
    replace (m * 2 ^ 24 + s1) with (s1 + (m * 2 ^ 16) * 2 ^ 8) by lia.
    rewrite Z.mod_add by lia. apply Z.mod_small. lia. }
  split.
  { change 255 with (Z.ones 8). rewrite Z.land_ones by lia. unfold x.
    replace (m * 2 ^ 32 + (s1 * 2 ^ 8 + s2))
      with (s2 + (m * 2 ^ 24 + s1) * 2 ^ 8) by lia.
    rewrite Z.mod_add by lia. apply Z.mod_small. lia. }
  split; [exact Hup | exact Hlo].
Qed.

Lemma fast_div32_init_layout_witness :
  1 <= 10 < 2 ^ 32 /\
  u32 (Z.shiftr (fast_div32_init 10) 32) = 2576980378 /\
  Z.shiftr (Z.land (fast_div32_init 10) 65280) 8 = 1 /\
  Z.land (fast_div32_init 10) 255 = 3.
Proof.
  assert (H : 1 <= 10 < 2 ^ 32) by lia.
  pose proof (fast_div32_init_layout 10 H) as (_ & Hm & Hs1 & Hs2 & _).
  split; [exact H |].
  split; [exact Hm |]. split; [exact Hs1 | exact Hs2].
Defined.

(** X3.  The macros [FAST_DIV32_3], [FAST_DIV32_10] and [FAST_REM32_10] divide
    every 32-bit value by 3 and by 10 and give the remainder by 10. *)
Theorem fast_div_macros x :
  0 <= x < 2 ^ 32 ->
  FAST_DIV32_3 x = x / 3 /\ FAST_DIV32_10 x = x / 10 /\
  FAST_REM32_10 x = x mod 10.
Proof.
  intros Hx. unfold FAST_DIV32_3, FAST_DIV32_10, FAST_REM32_10.
  split; [apply fast_div32_correct; lia |].
  split; [apply fast_div32_correct; lia | apply fast_rem32_correct; lia].
Qed.

Lemma fast_div_macros_witness :
  0 <= 1234 < 2 ^ 32 /\
  FAST_DIV32_3 1234 = 411 /\ FAST_DIV32_10 1234 = 123 /\
  FAST_REM32_10 1234 = 4.
Proof.
  assert (H : 0 <= 1234 < 2 ^ 32) by lia.
  split; [exact H |]. exact (fast_div_macros 1234 H).
Defined.

(** ** HalfSipHash reads [inlen] bytes *)

Lemma nth_take_eq (p q : list byte) (n i : nat) :
  take n p = take n q -> (i < n)%nat -> nth i p x00 = nth i q x00.
Proof.
  intros H Hi.
  rewrite <- (take_drop n p), <- (take_drop n q), H.
  destruct (Nat.lt_ge_cases i (length (take n q))) as [Hl | Hl].
  - rewrite !app_nth1 by assumption. reflexivity.
  - assert (Hq : (length q < n)%nat) by (rewrite length_take in Hl; lia).
    assert (Hp : (length p < n)%nat).
    { apply (f_equal length) in H. rewrite !length_take in H. lia. }
    rewrite !(drop_ge _ n) by lia. reflexivity.
Qed.

Lemma nth_drop_byte (p : list byte) (n i : nat) :
  nth i (drop n p) x00 = nth (n + i) p x00.
Proof.
  revert p. induction n as [| n IH]; intros p; [reflexivity |].
  destruct p as [| x p]; [destruct i; reflexivity |]. simpl. apply IH.
Qed.

Lemma sip_compress_prefix n : forall (p q : list byte) v (r : nat),
  (forall i, (i < 4 * n + r)%nat -> nth i p x00 = nth i q x00) ->
  (sip_compress n p v).1 = (sip_compress n q v).1 /\
  forall i, (i < r)%nat ->
    nth i (sip_compress n p v).2 x00 = nth i (sip_compress n q v).2 x00.
Proof.
  induction n as [| n IH]; intros p q v r H.
  - simpl. split; [reflexivity |]. intros i Hi. apply H. lia.
  - destruct v as [[[v0 v1] v2] v3]. cbn [sip_compress].
    assert (E : U8TO32_LE p = U8TO32_LE q).
    { unfold U8TO32_LE, byte_at. rewrite !(H 0%nat), !(H 1%nat), !(H 2%nat),
        !(H 3%nat) by lia. reflexivity. }
    rewrite E. destruct (cROUNDS _) as [[[a b] c] d].
    apply IH. intros i Hi. rewrite !nth_drop_byte. apply H. lia.
Qed.

Lemma halfsiphash_prefix p q inlen k :
  0 <= inlen -> memcmp_eq p q inlen = true ->
  halfsiphash p inlen k = halfsiphash q inlen k.
Proof.
  intros Hlen Hm. unfold memcmp_eq in Hm. apply bytes_eqb_eq in Hm.
  assert (Hnth : forall i, (i < Z.to_nat inlen)%nat ->
            nth i p x00 = nth i q x00).
  { intros i Hi. eapply nth_take_eq; eassumption. }
  unfold halfsiphash.
  set (nw := Z.to_nat (inlen / 4)).
  set (left := Z.land inlen 3).
  assert (Hleft : left = inlen mod 4).
  { unfold left. change 3 with (Z.ones 2). rewrite Z.land_ones by lia.
    reflexivity. }
  assert (Hsplit : Z.to_nat inlen = (4 * nw + Z.to_nat left)%nat).
  { unfold nw. rewrite Hleft.
    pose proof (Z.div_mod inlen 4 ltac:(lia)).
    pose proof (Z.mod_pos_bound inlen 4 ltac:(lia)).
    pose proof (Z.div_pos inlen 4 Hlen ltac:(lia)). lia. }
  set (v := (Z.lxor 0 (u32 k), Z.lxor 0 (u32 (Z.shiftr k 32)),
             Z.lxor 1819895653 (u32 k),
             Z.lxor 1952801890 (u32 (Z.shiftr k 32)))).
  destruct (sip_compress_prefix nw p q v (Z.to_nat left)) as [E1 E2].
  { intros i Hi. apply Hnth. lia. }
  destruct (sip_compress nw p v) as [[[[a0 a1] a2] a3] p'].
  destruct (sip_compress nw q v) as [[[[b0 b1] b2] b3] q'].
  simpl in E1, E2. inversion E1; subst.
  assert (Hl3 : 0 <= left < 4).
  { rewrite Hleft. apply Z.mod_pos_bound. lia. }
  unfold byte_at.
  destruct (Z.eqb_spec left 3) as [L3 | L3].
  { rewrite !(E2 0%nat), !(E2 1%nat), !(E2 2%nat) by lia. reflexivity. }
  destruct (Z.eqb_spec left 2) as [L2 | L2].
  { rewrite !(E2 0%nat), !(E2 1%nat) by lia. reflexivity. }
  destruct (Z.eqb_spec left 1) as [L1 | L1].
  { rewrite !(E2 0%nat) by lia. reflexivity. }
  reflexivity.
Qed.

(** X4.  Two inputs that agree on their first [inlen] bytes, as [memcmp] sees
    them, have the same digest. *)
Theorem halfsiphash_reads_inlen_bytes p q inlen k :
  0 <= inlen -> memcmp_eq p q inlen = true ->
  halfsiphash p inlen k = halfsiphash q inlen k.
Proof. apply halfsiphash_prefix. Qed.

Lemma halfsiphash_reads_inlen_bytes_witness :
  0 <= 1 /\ memcmp_eq key_a ("a"%byte :: key_b) 1 = true /\
  halfsiphash key_a 1 7 = halfsiphash ("a"%byte :: key_b) 1 7.
Proof.
  assert (H : memcmp_eq key_a ("a"%byte :: key_b) 1 = true) by reflexivity.
  split; [lia |]. split; [exact H |].
  exact (halfsiphash_reads_inlen_bytes key_a ("a"%byte :: key_b) 1 7
           ltac:(lia) H).
Defined.

Section Shape.
Variable murmurhash3 : list byte -> Z -> Z -> Z.

(** ** Indices *)

Lemma slot_range hmap v :
  modulus_ok hmap -> 0 <= v < 2 ^ 32 -> 0 <= slot hmap v < hm_size hmap.
Proof.
  intros Hm Hv. rewrite slot_is_mod by assumption.
  apply Z.mod_pos_bound. destruct Hm as [? _]. lia.
Qed.

Lemma slot_next hmap i :
  modulus_ok hmap -> 0 <= i < hm_size hmap ->
  slot hmap (u32 (i + 1)) = (i + 1) mod hm_size hmap.
Proof.
  intros Hm Hi. pose proof Hm as [Hs _].
  destruct (Z.eq_dec (i + 1) (2 ^ 32)) as [E | E].
  - (* only when [size] is 2^32 - 1 ... which wraps to 0 *)
    lia.
  - rewrite (u32_small (i + 1)) by lia. apply slot_is_mod; [exact Hm | lia].
Qed.

Lemma slot_hash_range hmap key len :
  modulus_ok hmap ->
  0 <= slot hmap (compute_hash murmurhash3 hmap key len) < hm_size hmap.
Proof. intros Hm. apply slot_range; [exact Hm | apply compute_hash_range]. Qed.

(** ** Counting occupied buckets *)

Lemma count_cons b bs : count (b :: bs) = occ b + count bs.
Proof.
  unfold count, occ. change (omap bucket_entry (b :: bs)) with
    (match bucket_entry b with
     | Some y => y :: omap bucket_entry bs
     | None => omap bucket_entry bs
     end).
  unfold bucket_entry at 1. destruct (b_key b); cbn [length]; lia.
Qed.

Lemma count_app bs1 bs2 : count (bs1 ++ bs2) = count bs1 + count bs2.
Proof.
  induction bs1 as [| b bs1 IH]; [reflexivity |].
  rewrite <- app_comm_cons, !count_cons, IH. lia.
Qed.

Lemma count_range bs : 0 <= count bs <= Z.of_nat (length bs).
Proof.
  induction bs as [| b bs IH]; [unfold count; simpl; lia |].
  rewrite count_cons. cbn [length]. unfold occ. destruct (b_key b); lia.
Qed.

Lemma count_replicate n : count (replicate n zero_bucket) = 0.
Proof.
  induction n as [| n IH]; [reflexivity |].
  cbn [replicate]. rewrite count_cons, IH. reflexivity.
Qed.

Lemma bucket_split bs i :
  0 <= i -> (Z.to_nat i < length bs)%nat ->
  bs = take (Z.to_nat i) bs ++ bucket_ref bs i :: drop (S (Z.to_nat i)) bs.
Proof.
  intros Hi Hlt. unfold bucket_ref.
  destruct (lookup_lt_is_Some_2 bs (Z.to_nat i) Hlt) as [b Hb].
  rewrite Hb. simpl. symmetry. apply take_drop_middle. exact Hb.
Qed.

Lemma bucket_set_split bs i x :
  0 <= i -> (Z.to_nat i < length bs)%nat ->
  bucket_set bs i x =
  take (Z.to_nat i) bs ++ x :: drop (S (Z.to_nat i)) bs.
Proof.
  intros Hi Hlt. unfold bucket_set. apply insert_take_drop. exact Hlt.
Qed.

Lemma count_set bs i x :
  0 <= i -> (Z.to_nat i < length bs)%nat ->
  count (bucket_set bs i x) = count bs - occ (bucket_ref bs i) + occ x.
Proof.
  intros Hi Hlt. rewrite (bucket_set_split bs i x Hi Hlt).
  rewrite (bucket_split bs i Hi Hlt) at 3.
  rewrite !count_app, !count_cons. lia.
Qed.

Lemma count_empty_lt bs i :
  0 <= i -> (Z.to_nat i < length bs)%nat ->
  b_key (bucket_ref bs i) = None -> count bs < Z.of_nat (length bs).
Proof.
  intros Hi Hlt Hk.
  pose proof (count_set bs i (mkBucket (Some []) 0 0 0 0) Hi Hlt) as H.
  pose proof (count_range (bucket_set bs i (mkBucket (Some []) 0 0 0 0))) as Hr.
  rewrite length_bucket_set in Hr. unfold occ in H. rewrite Hk in H.
  cbn in H. lia.
Qed.

Lemma count_lt_empty bs :
  count bs < Z.of_nat (length bs) ->
  exists e, 0 <= e < Z.of_nat (length bs) /\ b_key (bucket_ref bs e) = None.
Proof.
  induction bs as [| b bs IH]; [unfold count; simpl; lia |].
  rewrite count_cons. cbn [length]. intros H.
  destruct (b_key b) as [k |] eqn:Hk.
  - unfold occ in H. rewrite Hk in H.
    destruct IH as (e & He & Hek); [lia |].
    exists (e + 1). split; [lia |]. unfold bucket_ref in *.
    replace (Z.to_nat (e + 1)) with (S (Z.to_nat e)) by lia. exact Hek.
  - exists 0. split; [lia |]. exact Hk.
Qed.

(** ** The insertion keeps the shape *)

Lemma insert_probe_shape fuel hmap key len hash val :
  modulus_ok hmap ->
  forall bs entry i hmap' ret,
    length bs = Z.to_nat (hm_size hmap) ->
    hm_nitems hmap = count bs ->
    b_key entry <> None ->
    0 <= i < hm_size hmap ->
    insert_probe fuel hmap key len hash val bs entry i = Done (hmap', ret) ->
    length (hm_buckets hmap') = Z.to_nat (hm_size hmap) /\
    hm_nitems hmap' = count (hm_buckets hmap') /\
    hm_nitems hmap <= hm_nitems hmap' <= hm_nitems hmap + 1.
Proof.
  intros Hm. pose proof Hm as [Hs _].
  induction fuel as [| fuel IH]; intros bs entry i hmap' ret Hlen Hn He Hi H;
    simpl in H; [discriminate |].
  assert (Hlt : (Z.to_nat i < length bs)%nat) by lia.
  destruct (b_key (bucket_ref bs i)) as [k |] eqn:Hk.
  - rewrite (bucket_match_occupied _ _ _ _ k Hk) in H. simpl in H.
    destruct ((b_hash (bucket_ref bs i) =? hash) &&
              (b_len (bucket_ref bs i) =? len) && memcmp_eq k key len).
    + inversion H; subst. simpl. split; [exact Hlen |]. split; [exact Hn | lia].
    + assert (Hnext : 0 <= slot hmap (u32 (i + 1)) < hm_size hmap)
        by (apply slot_range; [exact Hm | apply u32_range]).
      destruct (b_psl entry >? b_psl (bucket_ref bs i)).
      * eapply IH; [| | | exact Hnext | exact H].
        -- rewrite length_bucket_set. exact Hlen.
        -- rewrite count_set by lia. unfold occ. rewrite Hk.
           destruct (b_key entry); [lia | congruence].
        -- simpl. rewrite Hk. discriminate.
      * eapply IH; [exact Hlen | exact Hn | | exact Hnext | exact H].
        simpl. exact He.
  - inversion H; subst. simpl.
    pose proof (count_empty_lt bs i ltac:(lia) Hlt Hk) as Hc.
    pose proof (count_range bs) as Hr.
    rewrite length_bucket_set. split; [exact Hlen |].
    rewrite count_set by lia. unfold occ. rewrite Hk.
    destruct (b_key entry); [| congruence].
    rewrite u32_small by lia. lia.
Qed.

Lemma insert_probe_minsize fuel hmap key len hash val :
  forall bs entry i hmap' ret,
    insert_probe fuel hmap key len hash val bs entry i = Done (hmap', ret) ->
    hm_minsize hmap' = hm_minsize hmap.
Proof.
  intros bs entry i hmap' ret H.
  apply insert_probe_modulus in H. tauto.
Qed.

Lemma rhashmap_insert_shape w hmap key len val w' hmap' ret :
  table_ok hmap ->
  rhashmap_insert murmurhash3 w hmap key len val = Done (w', hmap', ret) ->
  table_ok hmap' /\
  hm_nitems hmap <= hm_nitems hmap' <= hm_nitems hmap + 1.
Proof.
  intros (Hm & Hlen & Hn & Hmin) H.
  pose proof (rhashmap_insert_modulus _ _ _ _ _ _ _ _ _ H)
    as (Hs & Hd & _ & Hms & _).
  unfold rhashmap_insert in H.
  assert (Hgo : forall ekey,
    (let* (hmap'0, ret0) <- insert_probe (Z.to_nat (hm_size hmap)) hmap key len
        (compute_hash murmurhash3 hmap key len) val (hm_buckets hmap)
        (mkBucket (Some ekey) val (compute_hash murmurhash3 hmap key len) 0
           (u16 len))
        (slot hmap (compute_hash murmurhash3 hmap key len)) in
     Done (w', hmap'0, ret0)) = Done (w', hmap', ret) ->
    table_ok hmap' /\
    hm_nitems hmap <= hm_nitems hmap' <= hm_nitems hmap + 1).
  { intros ekey Hr. bind_case Hr E. destruct a as [h1 r1].
    inversion Hr; subst.
    eapply insert_probe_shape in E;
      [| exact Hm | exact Hlen | exact Hn | simpl; discriminate
       | apply slot_hash_range; exact Hm].
    destruct E as (Hl' & Hn' & Hle).
    split; [| exact Hle].
    split; [eapply modulus_ok_same; eassumption |].
    split; [rewrite Hs; exact Hl' |]. split; [exact Hn' |].
    rewrite Hms. exact Hmin. }
  destruct (Z.land (hm_flags hmap) RHM_NOCOPY =? 0).
  - destruct (alloc w) as [ok w1]. destruct ok.
    + bind_case H E. destruct a as [h1 r1]. inversion H; subst.
      apply (Hgo (take (Z.to_nat len) key)). rewrite E. reflexivity.
    + inversion H; subst. split; [| lia].
      split; [exact Hm |]. split; [exact Hlen |]. split; [exact Hn | exact Hmin].
  - bind_case H E. destruct a as [h1 r1]. inversion H; subst.
    apply (Hgo key). rewrite E. reflexivity.
Qed.

Lemma rehash_shape old : forall w hmap w' hmap',
  table_ok hmap ->
  rehash murmurhash3 w hmap old = Done (w', hmap') ->
  table_ok hmap' /\
  hm_nitems hmap <= hm_nitems hmap' <= hm_nitems hmap + count old.
Proof.
  induction old as [| b old IH]; intros w hmap w' hmap' Hok H; simpl in H.
  - inversion H; subst. split; [exact Hok |]. unfold count. simpl. lia.
  - rewrite count_cons. unfold occ.
    destruct (b_key b) as [k |].
    + bind_case H E. destruct a as [[w1 h1] r1].
      destruct (rhashmap_insert_shape _ _ _ _ _ _ _ _ Hok E) as [Hok1 Hle1].
      destruct (IH _ _ _ _ Hok1 H) as [Hok2 Hle2].
      split; [exact Hok2 | lia].
    + destruct (IH _ _ _ _ Hok H) as [Hok2 Hle2].
      split; [exact Hok2 | lia].
Qed.

(** ** The resize, case by case *)

Lemma rhashmap_resize_eq w hmap newsize :
  1 <= newsize <= UINT_MAX ->
  rhashmap_resize murmurhash3 w hmap newsize =
  let go w1 :=
    let '(w3, hmap') := fresh_table hmap newsize w1 in
    let* (w4, hmap'') <- rehash murmurhash3 w3 hmap'
                           (old_buckets hmap newsize) in
    Done (w4, hmap'', 0) in
  if newsize =? 1 then go w
  else let '(ok, w1) := alloc w in
       if ok then go w1 else Done (w1, hmap, -1).
Proof.
  intros Hn. unfold rhashmap_resize. fold (old_buckets hmap newsize).
  rewrite (u32_pos_small newsize) by lia.
  assert (Hz : (newsize =? 0) = false) by (apply Z.eqb_neq; lia).
  cbv zeta. unfold fresh_table.
  destruct (Z.eqb_spec newsize 1) as [-> | Hne].
  - rewrite Hz. destruct (random w) as [r1 w2].
    destruct (random w2) as [r2 w3]. reflexivity.
  - assert (Hgt : (newsize >? UINT_MAX) = false) by (rewrite Z.gtb_ltb; apply Z.ltb_ge; lia).
    rewrite Hgt. destruct (alloc w) as [ok w1]. destruct ok; [| reflexivity].
    rewrite Hz. destruct (random w1) as [r1 w2].
    destruct (random w2) as [r2 w3]. reflexivity.
Qed.

Lemma fresh_table_ok hmap newsize w w3 hmap' :
  1 <= newsize <= UINT_MAX -> 1 <= hm_minsize hmap < 2 ^ 32 ->
  fresh_table hmap newsize w = (w3, hmap') ->
  table_ok hmap' /\ hm_size hmap' = newsize /\ hm_nitems hmap' = 0 /\
  hm_flags hmap' = hm_flags hmap /\ hm_minsize hmap' = hm_minsize hmap /\
  hm_buckets hmap' = replicate (Z.to_nat newsize) zero_bucket.
Proof.
  intros Hn Hmin H. unfold fresh_table in H.
  destruct (random w) as [r1 w2]. destruct (random w2) as [r2 w3'].
  inversion H; subst. cbn. unfold table_ok, modulus_ok. cbn.
  rewrite length_replicate, count_replicate. unfold UINT_MAX in Hn.
  repeat split; try reflexivity; lia.
Qed.

(** A resize that returns 0 went through its re-insertion. *)
Lemma rhashmap_resize_done w hmap newsize w' hmap' :
  0 <= newsize ->
  rhashmap_resize murmurhash3 w hmap newsize = Done (w', hmap', 0) ->
  1 <= newsize <= UINT_MAX /\
  exists w1 w3 fresh,
    (w1 = w \/ alloc w = (true, w1)) /\
    fresh_table hmap newsize w1 = (w3, fresh) /\
    rehash murmurhash3 w3 fresh (old_buckets hmap newsize) = Done (w', hmap').
Proof.
  intros Hn0 H.
  assert (Hn : 1 <= newsize <= UINT_MAX).
  { unfold rhashmap_resize in H.
    destruct (Z.eqb_spec newsize 1) as [-> | Hne]; [unfold UINT_MAX; lia |].
    destruct (Z.gtb_spec newsize UINT_MAX); [discriminate |].
    destruct (Z.eq_dec newsize 0) as [-> | Hz]; [| lia].
    destruct (alloc w) as [ok w1]. destruct ok; discriminate. }
  split; [exact Hn |].
  rewrite rhashmap_resize_eq in H by exact Hn. cbv zeta in H.
  destruct (newsize =? 1).
  - destruct (fresh_table hmap newsize w) as [w3 fresh] eqn:Ef.
    bind_case H E. destruct a as [w4 h4]. inversion H; subst.
    exists w, w3, fresh. split; [left; reflexivity |].
    split; [exact Ef | exact E].
  - destruct (alloc w) as [ok w1]. destruct ok; [| discriminate].
    destruct (fresh_table hmap newsize w1) as [w3 fresh] eqn:Ef.
    bind_case H E. destruct a as [w4 h4]. inversion H; subst.
    exists w1, w3, fresh. split; [right; reflexivity |].
    split; [exact Ef | exact E].
Qed.

Lemma rhashmap_resize_shape w hmap newsize w' hmap' :
  0 <= newsize -> 1 <= hm_minsize hmap < 2 ^ 32 ->
  rhashmap_resize murmurhash3 w hmap newsize = Done (w', hmap', 0) ->
  table_ok hmap' /\ hm_size hmap' = newsize /\
  hm_nitems hmap' <= count (old_buckets hmap newsize).
Proof.
  intros Hn0 Hmin H.
  destruct (rhashmap_resize_done _ _ _ _ _ Hn0 H)
    as (Hn & w1 & w3 & fresh & _ & Ef & Er).
  destruct (fresh_table_ok _ _ _ _ _ Hn Hmin Ef)
    as (Hok & Hs & Hni & _).
  destruct (rehash_shape _ _ _ _ _ Hok Er) as [Hok' Hle].
  split; [exact Hok' |].
  destruct (rehash_modulus _ _ _ _ _ _ Er) as (Hs' & _).
  split; [congruence | lia].
Qed.

Lemma old_buckets_count hmap newsize :
  length (hm_buckets hmap) = Z.to_nat (hm_size hmap) ->
  count (old_buckets hmap newsize) <= count (hm_buckets hmap).
Proof.
  intros Hlen. unfold old_buckets.
  destruct ((newsize =? 1) && (hm_size hmap =? 1)).
  - pose proof (count_range (hm_buckets hmap)).
    destruct (Z.to_nat (hm_size hmap)) as [| n]; [unfold count; simpl; lia |].
    cbn [take]. rewrite take_nil. unfold count at 1. simpl. lia.
  - rewrite take_ge by lia. lia.
Qed.

(** ** Put, delete and create keep the shape *)

Lemma rhashmap_put_shape w hmap key len val w' hmap' ret :
  table_ok hmap ->
  rhashmap_put murmurhash3 w hmap key len val = Done (w', hmap', ret) ->
  table_ok hmap'.
Proof.
  intros Hok H. pose proof Hok as (Hm & Hlen & Hn & Hmin).
  unfold rhashmap_put in H.
  destruct (hm_nitems hmap >? APPROX_85_PERCENT (hm_size hmap)).
  - bind_case H E. destruct a as [[w1 h1] rc].
    destruct (rhashmap_resize_rc _ _ _ _ _ _ _ E) as [-> | [-> ->]].
    + cbn [Z.eqb negb] in H.
      assert (Hg : 0 <= grow_size hmap).
      { unfold grow_size. rewrite MIN_spec.
        pose proof (u32_range (Z.shiftl (hm_size hmap) 1)).
        pose proof (u32_range (hm_size hmap + MAX_GROWTH_STEP)). lia. }
      destruct (rhashmap_resize_shape _ _ _ _ _ Hg Hmin E) as (Hok1 & _).
      eapply rhashmap_insert_shape; eassumption.
    + cbn [Z.eqb negb] in H. inversion H; subst. exact Hok.
  - eapply rhashmap_insert_shape; eassumption.
Qed.

Lemma del_shift_shape fuel hmap :
  modulus_ok hmap ->
  forall bs i bs',
    length bs = Z.to_nat (hm_size hmap) -> 0 <= i < hm_size hmap ->
    del_shift fuel hmap bs i = Done bs' ->
    length bs' = length bs /\
    count bs' = count bs - occ (bucket_ref bs i).
Proof.
  intros Hm. pose proof Hm as [Hs _].
  induction fuel as [| fuel IH]; intros bs i bs' Hlen Hi H; simpl in H;
    [discriminate |].
  assert (Hlt : (Z.to_nat i < length bs)%nat) by lia.
  set (bs1 := bucket_set bs i (clear_bucket (bucket_ref bs i))) in *.
  assert (Hl1 : length bs1 = length bs) by apply length_bucket_set.
  assert (Hc1 : count bs1 = count bs - occ (bucket_ref bs i)).
  { unfold bs1. rewrite count_set by lia. unfold occ at 2. simpl. lia. }
  set (i' := slot hmap (u32 (i + 1))) in *.
  assert (Hi' : 0 <= i' < hm_size hmap)
    by (apply slot_range; [exact Hm | apply u32_range]).
  destruct (b_key (bucket_ref bs1 i')) as [k |] eqn:Hk.
  - destruct (b_psl (bucket_ref bs1 i') =? 0).
    + inversion H; subst. split; assumption.
    + assert (Hne : i <> i').
      { intros <-. unfold bs1 in Hk.
        rewrite bucket_ref_set_eq in Hk by lia. discriminate. }
      set (nb := set_psl (bucket_ref bs1 i')
                   (u16 (b_psl (bucket_ref bs1 i') - 1))) in *.
      apply IH in H; [| rewrite !length_bucket_set; lia | exact Hi'].
      destruct H as [Hl Hc]. rewrite !length_bucket_set in Hl.
      split; [lia |]. rewrite Hc.
      rewrite bucket_ref_set_ne by lia.
      rewrite bucket_ref_set_eq by (rewrite ?length_bucket_set; lia).
      rewrite count_set by (rewrite ?length_bucket_set; lia).
      rewrite bucket_ref_set_ne by lia.
      rewrite count_set by (rewrite ?length_bucket_set; lia).
      assert (Hon : occ nb = 1) by (unfold occ, nb; simpl; rewrite Hk; reflexivity).
      assert (Ho' : occ (bucket_ref bs1 i') = 1) by (unfold occ; rewrite Hk; reflexivity).
      assert (Ho : occ (bucket_ref bs1 i) = 0).
      { unfold bs1. rewrite bucket_ref_set_eq by lia. reflexivity. }
      lia.
  - inversion H; subst. split; assumption.
Qed.

Lemma del_probe_found fuel hmap key len hash : forall n i j,
  del_probe fuel hmap key len hash n i = Done (Some j) ->
  modulus_ok hmap -> 0 <= i < hm_size hmap ->
  0 <= j < hm_size hmap /\ b_key (bucket_ref (hm_buckets hmap) j) <> None.
Proof.
  induction fuel as [| fuel IH]; intros n i j H Hm Hi; simpl in H;
    [discriminate |].
  destruct (b_key (bucket_ref (hm_buckets hmap) i)) as [k |] eqn:Hk;
    [| discriminate].
  destruct (n >? _); [discriminate |].
  bind_case H E. destruct a.
  - inversion H; subst. split; [exact Hi |]. rewrite Hk. discriminate.
  - eapply IH; [exact H | exact Hm |].
    apply slot_range; [exact Hm | apply u32_range].
Qed.

Lemma shrink_size_nonneg hmap :
  0 <= hm_size hmap -> 0 <= shrink_size hmap.
Proof.
  intros H. unfold shrink_size. rewrite MAX_spec.
  pose proof (Z.shiftr_nonneg (hm_size hmap) 1). lia.
Qed.

Lemma rhashmap_del_shape w hmap key len w' hmap' ret :
  table_ok hmap ->
  rhashmap_del murmurhash3 w hmap key len = Done (w', hmap', ret) ->
  table_ok hmap'.
Proof.
  intros Hok H. pose proof Hok as (Hm & Hlen & Hn & Hmin).
  pose proof Hm as [Hs Hd].
  unfold rhashmap_del in H.
  bind_case H E. destruct a as [i |]; [| inversion H; subst; exact Hok].
  destruct (del_probe_found _ _ _ _ _ _ _ _ E Hm (slot_hash_range _ _ _ Hm))
    as [Hi Hocc].
  bind_case H E2. rename a into bs. cbn [hm_buckets set_nitems] in E2.
  assert (Hm2 : modulus_ok (set_nitems hmap (u32 (hm_nitems hmap - 1))))
    by exact Hm.
  destruct (del_shift_shape _ _ Hm2 _ _ _ Hlen Hi E2) as [Hl2 Hc2].
  assert (Ho : occ (bucket_ref (hm_buckets hmap) i) = 1).
  { unfold occ. destruct (b_key _); [reflexivity | congruence]. }
  pose proof (count_range bs) as Hr.
  assert (Hok2 : table_ok (set_buckets
             (set_nitems hmap (u32 (hm_nitems hmap - 1))) bs)).
  { split; [exact Hm |]. cbn. split; [lia |].
    split; [| exact Hmin].
    pose proof (count_range (hm_buckets hmap)).
    rewrite u32_small by lia. lia. }
  match type of H with
  | (if ?c then _ else _) = _ => destruct c
  end.
  - bind_case H E3. destruct a as [[w1 h1] rc]. inversion H; subst.
    destruct (rhashmap_resize_rc _ _ _ _ _ _ _ E3) as [-> | [-> ->]].
    + eapply rhashmap_resize_shape; [| | exact E3].
      * apply shrink_size_nonneg. cbn. lia.
      * exact Hmin.
    + exact Hok2.
  - inversion H; subst. exact Hok2.
Qed.

Lemma rhashmap_create_shape w size flags w' hmap :
  rhashmap_create murmurhash3 w size flags = Done (w', Some hmap) ->
  table_ok hmap /\ hm_size hmap = hm_minsize hmap /\ hm_nitems hmap = 0 /\
  hm_minsize hmap = u32 (MAX size 1) /\ hm_flags hmap = flags.
Proof.
  intros H. unfold rhashmap_create in H.
  destruct (alloc w) as [ok w1]. destruct ok; cbn [negb] in H; [| discriminate].
  bind_case H E. destruct a as [[w2 h2] rc].
  destruct (rhashmap_resize_rc _ _ _ _ _ _ _ E) as [-> | [-> ->]];
    cbn [Z.eqb negb] in H; [| discriminate].
  inversion H; subst. cbn [hm_minsize] in E.
  pose proof (u32_range (MAX size 1)) as Hr.
  assert (Hn0 : 0 <= u32 (MAX size 1)) by lia.
  destruct (rhashmap_resize_done _ _ _ _ _ Hn0 E)
    as (Hn & w1' & w3 & fresh & _ & Ef & Er).
  destruct (rhashmap_resize_modulus _ _ _ _ _ _ E) as (_ & _ & Hfl & Hms).
  cbn [hm_flags hm_minsize] in Hfl, Hms.
  assert (Hmin : 1 <= hm_minsize (mkHmap 0 0 flags (u32 (MAX size 1)) 0 [] 0)
                  < 2 ^ 32) by (cbn [hm_minsize]; lia).
  destruct (rhashmap_resize_shape _ _ _ _ _ Hn0 Hmin E)
    as (Hok & Hsz & Hni).
  unfold old_buckets in Hni. cbn [hm_buckets hm_size] in Hni.
  rewrite andb_false_r, take_nil in Hni. change (count []) with 0 in Hni.
  destruct Hok as (Hm & Hlen & Hnit & Hmin').
  pose proof (count_range (hm_buckets hmap)).
  split; [split; [exact Hm |]; split; [exact Hlen |]; split;
            [exact Hnit | exact Hmin'] |].
  split; [congruence |]. split; [lia |]. split; assumption.
Qed.

Lemma reachable_shape hmap : reachable murmurhash3 hmap -> table_ok hmap.
Proof.
  induction 1.
  - eapply rhashmap_create_shape; eassumption.
  - eapply rhashmap_put_shape; eassumption.
  - eapply rhashmap_del_shape; eassumption.
Qed.

End Shape.

(** ** Arithmetic round the array *)

Lemma mod_cases X S :
  0 < S -> - S <= X < 2 * S ->
  (X < 0 /\ X mod S = X + S) \/ (0 <= X < S /\ X mod S = X) \/
  (S <= X /\ X mod S = X - S).
Proof.
  intros HS HX.
  destruct (Z_lt_le_dec X 0) as [Hn | Hp].
  - left. split; [exact Hn |]. symmetry.
    apply (Z.mod_unique_pos X S (-1)); lia.
  - destruct (Z_lt_le_dec X S) as [Hlt | Hge].
    + right. left. split; [lia |]. apply Z.mod_small. lia.
    + right. right. split; [exact Hge |]. symmetry.
      apply (Z.mod_unique_pos X S 1); lia.
Qed.

Lemma next_cases i S :
  0 <= i < S ->
  ((i + 1) mod S = i + 1 /\ i + 1 < S) \/ ((i + 1) mod S = 0 /\ i + 1 = S).
Proof.
  intros Hi. destruct (mod_cases (i + 1) S) as [[? E]|[[? E]|[? E]]];
    lia.
Qed.

Lemma sub_cases a b S :
  0 <= a < S -> 0 <= b < S ->
  ((a - b) mod S = a - b /\ b <= a) \/ ((a - b) mod S = a - b + S /\ a < b).
Proof.
  intros Ha Hb. destruct (mod_cases (a - b) S) as [[? E]|[[? E]|[? E]]];
    lia.
Qed.

Lemma prev_cases i S :
  0 <= i < S ->
  ((i - 1) mod S = i - 1 /\ 1 <= i) \/ ((i - 1) mod S = S - 1 /\ i = 0).
Proof.
  intros Hi. destruct (mod_cases (i - 1) S) as [[? E]|[[? E]|[? E]]];
    lia.
Qed.

Lemma APPROX_85_PERCENT_lt x :
  1 <= x < 2 ^ 32 -> 0 <= APPROX_85_PERCENT x < x.
Proof.
  intros Hx. unfold APPROX_85_PERCENT.
  pose proof (u32_range (x * 870)) as Hr.
  rewrite Z.shiftr_div_pow2 by lia. change (2 ^ 10) with 1024.
  split; [apply Z.div_pos; lia |].
  destruct (Z_lt_le_dec (x * 870) (2 ^ 32)) as [Hs | Hb].
  - rewrite u32_small by lia. apply Z.div_lt_upper_bound; lia.
  - apply Z.div_lt_upper_bound; lia.
Qed.

Lemma APPROX_40_PERCENT_le x :
  0 <= x < 2 ^ 32 -> 0 <= APPROX_40_PERCENT x <= Z.shiftr x 1.
Proof.
  intros Hx. unfold APPROX_40_PERCENT.
  pose proof (u32_range (x * 409)) as Hr.
  rewrite !Z.shiftr_div_pow2 by lia. change (2 ^ 10) with 1024.
  change (2 ^ 1) with 2.
  split; [apply Z.div_pos; lia |].
  destruct (Z_lt_le_dec (x * 409) (2 ^ 32)) as [Hs | Hb].
  - rewrite u32_small by lia.
    apply Z.div_le_lower_bound; [lia |].
    pose proof (Z.mul_div_le (x * 409) 1024 ltac:(lia)). lia.
  - apply Z.div_le_lower_bound; [lia |].
    assert (u32 (x * 409) / 1024 < 2 ^ 22)
      by (apply Z.div_lt_upper_bound; lia).
    lia.
Qed.

Section Returns.
Variable murmurhash3 : list byte -> Z -> Z -> Z.

(** ** The insertion probe reaches a free bucket *)

Lemma insert_probe_done fuel hmap key len hash val :
  modulus_ok hmap ->
  forall bs entry i e,
    length bs = Z.to_nat (hm_size hmap) ->
    0 <= i < hm_size hmap -> 0 <= e < hm_size hmap ->
    b_key (bucket_ref bs e) = None ->
    (e - i) mod hm_size hmap < Z.of_nat fuel ->
    exists hmap' ret,
      insert_probe fuel hmap key len hash val bs entry i = Done (hmap', ret).
Proof.
  intros Hm. pose proof Hm as [Hs _].
  induction fuel as [| fuel IH]; intros bs entry i e Hlen Hi He Hek Hf.
  - pose proof (Z.mod_pos_bound (e - i) (hm_size hmap) ltac:(lia)). lia.
  - cbn [insert_probe].
    destruct (b_key (bucket_ref bs i)) as [k |] eqn:Hk; [| eauto].
    rewrite (bucket_match_occupied _ _ _ _ k Hk). cbn [bind].
    destruct (_ && _ && _); [eauto |].
    assert (Hne : i <> e) by (intros ->; congruence).
    rewrite (slot_next hmap i Hm Hi).
    assert (Hd : (e - (i + 1) mod hm_size hmap) mod hm_size hmap
                 = (e - i) mod hm_size hmap - 1).
    { destruct (next_cases i (hm_size hmap) Hi) as [[-> ?]|[-> ?]].
      - destruct (sub_cases e i (hm_size hmap) He Hi) as [[-> ?]|[-> ?]];
          destruct (sub_cases e (i + 1) (hm_size hmap) He ltac:(lia))
            as [[-> ?]|[-> ?]]; lia.
      - destruct (sub_cases e i (hm_size hmap) He Hi) as [[-> ?]|[-> ?]];
          destruct (sub_cases e 0 (hm_size hmap) He ltac:(lia))
            as [[-> ?]|[-> ?]]; lia. }
    assert (Hi' : 0 <= (i + 1) mod hm_size hmap < hm_size hmap)
      by (apply Z.mod_pos_bound; lia).
    destruct (b_psl entry >? b_psl (bucket_ref bs i)).
    + apply (IH _ _ _ e); [| exact Hi' | exact He | | lia].
      * rewrite length_bucket_set. exact Hlen.
      * rewrite bucket_ref_set_ne by lia. exact Hek.
    + apply (IH _ _ _ e); [exact Hlen | exact Hi' | exact He | exact Hek | lia].
Qed.

Lemma rhashmap_insert_done w hmap key len val :
  table_ok hmap -> hm_nitems hmap < hm_size hmap ->
  exists w' hmap' ret,
    rhashmap_insert murmurhash3 w hmap key len val = Done (w', hmap', ret).
Proof.
  intros (Hm & Hlen & Hn & Hmin) Hlt. pose proof Hm as [Hs _].
  destruct (count_lt_empty (hm_buckets hmap)) as (e & He & Hek); [lia |].
  unfold rhashmap_insert.
  assert (Hgo : forall ekey (w1 : world),
    exists (w' : world) (hmap' : rhashmap) (ret : Z),
    (let* (hmap'0, ret0) <- insert_probe (Z.to_nat (hm_size hmap)) hmap key len
        (compute_hash murmurhash3 hmap key len) val (hm_buckets hmap)
        (mkBucket (Some ekey) val (compute_hash murmurhash3 hmap key len) 0
           (u16 len))
        (slot hmap (compute_hash murmurhash3 hmap key len)) in
     Done (w1, hmap'0, ret0)) = Done (w', hmap', ret)).
  { intros ekey w1.
    pose proof (slot_hash_range murmurhash3 hmap key len Hm) as Hi.
    destruct (insert_probe_done (Z.to_nat (hm_size hmap)) hmap key len
                (compute_hash murmurhash3 hmap key len) val Hm
                (hm_buckets hmap)
                (mkBucket (Some ekey) val
                   (compute_hash murmurhash3 hmap key len) 0 (u16 len))
                (slot hmap (compute_hash murmurhash3 hmap key len)) e)
      as (h1 & r1 & E); [exact Hlen | exact Hi | lia | exact Hek | |].
    - pose proof (Z.mod_pos_bound
        (e - slot hmap (compute_hash murmurhash3 hmap key len))
        (hm_size hmap) ltac:(lia)). lia.
    - rewrite E. cbn [bind]. eauto. }
  destruct (Z.land (hm_flags hmap) RHM_NOCOPY =? 0).
  - destruct (alloc w) as [ok w1]. destruct ok; [apply Hgo | eauto].
  - apply Hgo.
Qed.

Lemma rehash_done old : forall w hmap,
  table_ok hmap -> hm_nitems hmap + count old <= hm_size hmap ->
  exists w' hmap', rehash murmurhash3 w hmap old = Done (w', hmap').
Proof.
  induction old as [| b old IH]; intros w hmap Hok Hlt; cbn [rehash];
    [eauto |].
  rewrite count_cons in Hlt. unfold occ in Hlt.
  pose proof (count_range old) as Hr.
  destruct (b_key b) as [k |]; [| apply IH; [exact Hok | lia]].
  destruct (rhashmap_insert_done w hmap k (b_len b) (b_val b) Hok)
    as (w1 & h1 & r1 & E); [lia |].
  rewrite E. cbn [bind].
  destruct (rhashmap_insert_shape _ _ _ _ _ _ _ _ _ Hok E) as [Hok1 Hle].
  destruct (rhashmap_insert_modulus _ _ _ _ _ _ _ _ _ E) as (Hs1 & _).
  apply IH; [exact Hok1 | lia].
Qed.

Lemma rhashmap_resize_returns w hmap newsize :
  1 <= newsize <= UINT_MAX -> 1 <= hm_minsize hmap < 2 ^ 32 ->
  count (old_buckets hmap newsize) <= newsize ->
  exists w' hmap' rc,
    rhashmap_resize murmurhash3 w hmap newsize = Done (w', hmap', rc).
Proof.
  intros Hn Hmin Hc. rewrite rhashmap_resize_eq by exact Hn. cbv zeta.
  assert (Hgo : forall w1 : world,
    exists (w' : world) (hmap' : rhashmap) (rc : Z),
    (let '(w3, hmap'0) := fresh_table hmap newsize w1 in
     let* (w4, hmap'') <- rehash murmurhash3 w3 hmap'0
                            (old_buckets hmap newsize) in
     Done (w4, hmap'', 0)) = Done (w', hmap', rc)).
  { intros w1. destruct (fresh_table hmap newsize w1) as [w3 fresh] eqn:Ef.
    destruct (fresh_table_ok _ _ _ _ _ Hn Hmin Ef)
      as (Hok & Hs & Hni & _).
    destruct (rehash_done (old_buckets hmap newsize) w3 fresh Hok)
      as (w4 & h4 & E); [lia |].
    rewrite E. cbn [bind]. eauto. }
  destruct (newsize =? 1); [apply Hgo |].
  destruct (alloc w) as [ok w1]. destruct ok; [apply Hgo | eauto].
Qed.

(** ** [rhashmap_put] returns *)

Lemma rhashmap_put_returns w hmap key len val :
  table_ok hmap -> hm_size hmap < 2 ^ 31 ->
  exists w' hmap' ret,
    rhashmap_put murmurhash3 w hmap key len val = Done (w', hmap', ret).
Proof.
  intros Hok Hsz. pose proof Hok as (Hm & Hlen & Hn & Hmin).
  pose proof Hm as [Hs _].
  pose proof (count_range (hm_buckets hmap)) as Hr.
  unfold rhashmap_put.
  destruct (Z.gtb_spec (hm_nitems hmap) (APPROX_85_PERCENT (hm_size hmap)))
    as [Hgt | Hle].
  - assert (Hg : grow_size hmap
                 = Z.min (hm_size hmap * 2) (hm_size hmap + 1048576))
      by (apply grow_size_small; lia).
    destruct (rhashmap_resize_returns w hmap (grow_size hmap))
      as (w1 & h1 & rc & E).
    { unfold UINT_MAX. lia. }
    { exact Hmin. }
    { pose proof (old_buckets_count hmap (grow_size hmap) Hlen). lia. }
    rewrite E. cbn [bind].
    destruct (rhashmap_resize_rc _ _ _ _ _ _ _ E) as [-> | [-> ->]];
      cbn [Z.eqb negb]; [| eauto].
    assert (Hg0 : 0 <= grow_size hmap) by lia.
    destruct (rhashmap_resize_shape _ _ _ _ _ _ Hg0 Hmin E)
      as (Hok1 & Hs1 & Hn1).
    pose proof (old_buckets_count hmap (grow_size hmap) Hlen).
    apply rhashmap_insert_done; [exact Hok1 | lia].
  - pose proof (APPROX_85_PERCENT_lt (hm_size hmap) ltac:(lia)).
    apply rhashmap_insert_done; [exact Hok | lia].
Qed.

(** ** [rhashmap_del] returns *)

Lemma del_probe_returns hmap key len hash :
  Forall fields_ok (hm_buckets hmap) ->
  forall fuel n i,
    0 <= n <= 2 ^ 16 -> 2 ^ 16 - n < Z.of_nat fuel ->
    exists found, del_probe fuel hmap key len hash n i = Done found.
Proof.
  intros Hok. induction fuel as [| fuel IH]; intros n i Hn Hf; [lia |].
  cbn [del_probe].
  assert (Hb : fields_ok (bucket_ref (hm_buckets hmap) i)).
  { apply Forall_bucket_ref; [unfold fields_ok; cbn; lia | exact Hok]. }
  destruct Hb as (_ & Hp & _).
  destruct (b_key (bucket_ref (hm_buckets hmap) i)) as [k |] eqn:Hk; [| eauto].
  destruct (Z.gtb_spec n (b_psl (bucket_ref (hm_buckets hmap) i))); [eauto |].
  rewrite (bucket_match_occupied _ _ _ _ k Hk). cbn [bind].
  destruct (_ && _ && _); [eauto |].
  rewrite u32_small by lia. apply IH; lia.
Qed.

Lemma psum_cons b bs : psum (b :: bs) = opsl b + psum bs.
Proof. unfold psum, opsl. cbn [sum_list_with]. lia. Qed.

Lemma psum_app bs1 bs2 : psum (bs1 ++ bs2) = psum bs1 + psum bs2.
Proof.
  induction bs1 as [| b bs1 IH]; [unfold psum; simpl; lia |].
  rewrite <- app_comm_cons, !psum_cons, IH. lia.
Qed.

Lemma psum_set bs i x :
  0 <= i -> (Z.to_nat i < length bs)%nat ->
  psum (bucket_set bs i x) = psum bs - opsl (bucket_ref bs i) + opsl x.
Proof.
  intros Hi Hlt. rewrite (bucket_set_split bs i x Hi Hlt).
  rewrite (bucket_split bs i Hi Hlt) at 3.
  rewrite !psum_app, !psum_cons. lia.
Qed.

Lemma opsl_nonneg b : 0 <= opsl b.
Proof. unfold opsl. lia. Qed.

Lemma del_shift_returns hmap :
  modulus_ok hmap ->
  forall fuel bs i,
    Forall fields_ok bs ->
    length bs = Z.to_nat (hm_size hmap) -> 0 <= i < hm_size hmap ->
    psum (bucket_set bs i (clear_bucket (bucket_ref bs i))) < Z.of_nat fuel ->
    exists bs', del_shift fuel hmap bs i = Done bs'.
Proof.
  intros Hm. pose proof Hm as [Hs _].
  induction fuel as [| fuel IH]; intros bs i Hf Hlen Hi Hfu.
  - pose proof (opsl_nonneg zero_bucket). unfold psum in Hfu. lia.
  - cbn [del_shift].
    assert (Hlt : (Z.to_nat i < length bs)%nat) by lia.
    set (bs1 := bucket_set bs i (clear_bucket (bucket_ref bs i))) in *.
    assert (Hl1 : length bs1 = length bs) by apply length_bucket_set.
    assert (Hf1 : Forall fields_ok bs1).
    { apply Forall_bucket_set; [| exact Hf].
      assert (Hb : fields_ok (bucket_ref bs i))
        by (apply Forall_bucket_ref; [unfold fields_ok; cbn; lia | exact Hf]).
      destruct Hb as (? & ? & ?). unfold fields_ok. cbn. lia. }
    set (i' := slot hmap (u32 (i + 1))) in *.
    assert (Hi' : 0 <= i' < hm_size hmap)
      by (apply slot_range; [exact Hm | apply u32_range]).
    destruct (b_key (bucket_ref bs1 i')) as [k |] eqn:Hk; [| eauto].
    destruct (Z.eqb_spec (b_psl (bucket_ref bs1 i')) 0) as [Hz | Hnz]; [eauto |].
    assert (Hne : i <> i').
    { intros <-. unfold bs1 in Hk.
      rewrite bucket_ref_set_eq in Hk by lia. discriminate. }
    assert (Hb' : fields_ok (bucket_ref bs1 i'))
      by (apply Forall_bucket_ref; [unfold fields_ok; cbn; lia | exact Hf1]).
    destruct Hb' as (Hh' & Hp' & Hl').
    set (nb := set_psl (bucket_ref bs1 i')
                 (u16 (b_psl (bucket_ref bs1 i') - 1))) in *.
    assert (Hu : u16 (b_psl (bucket_ref bs1 i') - 1)
                 = b_psl (bucket_ref bs1 i') - 1).
    { unfold u16. apply Z.mod_small. lia. }
    assert (Hfn : fields_ok nb).
    { unfold fields_ok, nb. cbn. rewrite Hu. lia. }
    apply IH.
    + apply Forall_bucket_set; [exact Hfn |].
      apply Forall_bucket_set; [exact Hfn | exact Hf1].
    + rewrite !length_bucket_set. lia.
    + exact Hi'.
    + rewrite bucket_ref_set_ne by lia.
      rewrite bucket_ref_set_eq by lia.
      rewrite psum_set by (rewrite ?length_bucket_set; lia).
      rewrite bucket_ref_set_ne by lia.
      rewrite bucket_ref_set_eq by lia.
      rewrite psum_set by (rewrite ?length_bucket_set; lia).
      rewrite bucket_ref_set_ne by lia.
      rewrite psum_set by (rewrite ?length_bucket_set; lia).
      assert (O1 : opsl (bucket_ref bs1 i') = b_psl (bucket_ref bs1 i')).
      { unfold opsl, occupied_psl. rewrite Hk. lia. }
      assert (O2 : opsl nb = b_psl (bucket_ref bs1 i') - 1).
      { unfold opsl, occupied_psl, nb. cbn. rewrite Hk, Hu. lia. }
      assert (O3 : opsl (clear_bucket nb) = 0) by reflexivity.
      assert (O4 : opsl (bucket_ref bs1 i) = 0).
      { unfold bs1. rewrite bucket_ref_set_eq by lia. reflexivity. }
      lia.
Qed.

Lemma rhashmap_del_returns w hmap key len :
  table_ok hmap -> Forall fields_ok (hm_buckets hmap) ->
  exists w' hmap' ret,
    rhashmap_del murmurhash3 w hmap key len = Done (w', hmap', ret).
Proof.
  intros Hok Hf. pose proof Hok as (Hm & Hlen & Hn & Hmin).
  pose proof Hm as [Hs _].
  unfold rhashmap_del.
  destruct (del_probe_returns hmap key len
              (compute_hash murmurhash3 hmap key len) Hf probe_fuel 0
              (slot hmap (compute_hash murmurhash3 hmap key len)))
    as (found & E); [lia | unfold probe_fuel; lia |].
  rewrite E. cbn [bind]. destruct found as [i |]; [| eauto].
  destruct (del_probe_found _ _ _ _ _ _ _ _ E Hm
              (slot_hash_range murmurhash3 _ _ _ Hm)) as [Hi Hocc].
  cbn [hm_buckets set_nitems].
  set (hmap1 := set_nitems hmap (u32 (hm_nitems hmap - 1))).
  assert (Hm1 : modulus_ok hmap1) by exact Hm.
  destruct (del_shift_returns hmap1 Hm1 (shift_fuel (hm_buckets hmap))
              (hm_buckets hmap) i Hf Hlen Hi) as (bs & E2).
  { unfold shift_fuel. rewrite psum_set by lia.
    pose proof (opsl_nonneg (bucket_ref (hm_buckets hmap) i)).
    change (opsl (clear_bucket _)) with 0. unfold psum. lia. }
  rewrite E2. cbn [bind].
  destruct (del_shift_shape _ _ Hm1 _ _ _ Hlen Hi E2) as [Hl2 Hc2].
  assert (Ho : occ (bucket_ref (hm_buckets hmap) i) = 1).
  { unfold occ. destruct (b_key _); [reflexivity | congruence]. }
  pose proof (count_range (hm_buckets hmap)) as Hr.
  pose proof (count_range bs) as Hr2.
  set (hmap2 := set_buckets hmap1 bs).
  assert (Hni2 : hm_nitems hmap2 = count bs).
  { cbn. rewrite u32_small by lia. lia. }
  destruct (Z.gtb_spec (hm_nitems hmap2) (hm_minsize hmap2)) as [Hgt | Hle];
    cbn [andb]; [| eauto].
  destruct (Z.ltb_spec (hm_nitems hmap2) (APPROX_40_PERCENT (hm_size hmap)))
    as [Hlt | Hge]; [| eauto].
  pose proof (APPROX_40_PERCENT_le (hm_size hmap) ltac:(lia)) as H40.
  assert (Hsh : shrink_size hmap2
                = Z.max (Z.shiftr (hm_size hmap) 1) (hm_minsize hmap)).
  { unfold shrink_size. rewrite MAX_spec. reflexivity. }
  assert (Hshr : Z.shiftr (hm_size hmap) 1 <= hm_size hmap).
  { rewrite Z.shiftr_div_pow2 by lia. change (2 ^ 1) with 2.
    apply Z.div_le_upper_bound; lia. }
  cbn [hm_minsize hmap2 hmap1 set_buckets set_nitems] in Hgt.
  destruct (rhashmap_resize_returns w hmap2 (shrink_size hmap2))
    as (w1 & h1 & rc & E3).
  { rewrite Hsh. unfold UINT_MAX. lia. }
  { exact Hmin. }
  { assert (Hl : length (hm_buckets hmap2) = Z.to_nat (hm_size hmap2))
      by (cbn; lia).
    pose proof (old_buckets_count hmap2 (shrink_size hmap2) Hl) as Ho2.
    cbn [hm_buckets hmap2 set_buckets] in Ho2. lia. }
  rewrite E3. cbn [bind]. eauto.
Qed.

End Returns.

(** ** Arithmetic round the array, continued *)

Lemma prev_next i sz : 0 <= i < sz -> ((i + 1) mod sz - 1) mod sz = i.
Proof.
  intros Hi. destruct (next_cases i sz Hi) as [[-> ?]|[-> ?]].
  - replace (i + 1 - 1) with i by lia. apply Z.mod_small. lia.
  - destruct (prev_cases 0 sz ltac:(lia)) as [[-> ?]|[-> ?]]; lia.
Qed.

Lemma next_prev i sz : 0 <= i < sz -> ((i - 1) mod sz + 1) mod sz = i.
Proof.
  intros Hi. destruct (prev_cases i sz Hi) as [[-> ?]|[-> ?]].
  - replace (i - 1 + 1) with i by lia. apply Z.mod_small. lia.
  - replace (sz - 1 + 1) with (0 + 1 * sz) by lia.
    rewrite Z.mod_add by lia. rewrite Z.mod_small; lia.
Qed.

Lemma psl_step i h sz :
  0 <= i < sz -> 0 <= h < sz -> (i - h) mod sz + 1 < sz ->
  ((i + 1) mod sz - h) mod sz = (i - h) mod sz + 1.
Proof.
  intros Hi Hh Hp.
  destruct (sub_cases i h sz Hi Hh) as [[E ?]|[E ?]]; rewrite E in *;
    destruct (next_cases i sz Hi) as [[-> ?]|[-> ?]].
  - destruct (sub_cases (i + 1) h sz ltac:(lia) Hh) as [[-> ?]|[-> ?]]; lia.
  - destruct (sub_cases 0 h sz ltac:(lia) Hh) as [[-> ?]|[-> ?]]; lia.
  - destruct (sub_cases (i + 1) h sz ltac:(lia) Hh) as [[-> ?]|[-> ?]]; lia.
  - destruct (sub_cases 0 h sz ltac:(lia) Hh) as [[-> ?]|[-> ?]]; lia.
Qed.

Lemma psl_back i h sz :
  0 <= i < sz -> 0 <= h < sz -> 0 < ((i + 1) mod sz - h) mod sz ->
  (i - h) mod sz = ((i + 1) mod sz - h) mod sz - 1.
Proof.
  intros Hi Hh Hp.
  destruct (sub_cases i h sz Hi Hh) as [[E ?]|[E ?]]; rewrite E in *;
    destruct (next_cases i sz Hi) as [[E1 ?]|[E1 ?]]; rewrite E1 in *.
  - destruct (sub_cases (i + 1) h sz ltac:(lia) Hh) as [[E2 ?]|[E2 ?]];
      rewrite E2 in *; lia.
  - destruct (sub_cases 0 h sz ltac:(lia) Hh) as [[E2 ?]|[E2 ?]];
      rewrite E2 in *; lia.
  - destruct (sub_cases (i + 1) h sz ltac:(lia) Hh) as [[E2 ?]|[E2 ?]];
      rewrite E2 in *; lia.
  - destruct (sub_cases 0 h sz ltac:(lia) Hh) as [[E2 ?]|[E2 ?]];
      rewrite E2 in *; lia.
Qed.

Lemma sub_back i e sz :
  0 <= i < sz -> 0 <= e < sz -> (i - (i - e) mod sz) mod sz = e.
Proof.
  intros Hi He.
  destruct (sub_cases i e sz Hi He) as [[-> ?]|[-> ?]].
  - replace (i - (i - e)) with e by lia. apply Z.mod_small. lia.
  - replace (i - (i - e + sz)) with (e + (-1) * sz) by lia.
    rewrite Z.mod_add by lia. apply Z.mod_small. lia.
Qed.

Lemma mod_range x sz : 0 < sz -> 0 <= x mod sz < sz.
Proof. intros. apply Z.mod_pos_bound. lia. Qed.

Section RobinHood.
Variable murmurhash3 : list byte -> Z -> Z -> Z.

(** ** Runs of occupied buckets *)

Lemma occupied_run sz bs :
  0 < sz -> order_ok sz bs ->
  forall (m : nat) j,
    0 <= j < sz -> b_key (bucket_ref bs j) <> None ->
    Z.of_nat m <= b_psl (bucket_ref bs j) ->
    b_key (bucket_ref bs ((j - Z.of_nat m) mod sz)) <> None /\
    b_psl (bucket_ref bs j) - Z.of_nat m
      <= b_psl (bucket_ref bs ((j - Z.of_nat m) mod sz)).
Proof.
  intros HS Ho. induction m as [| m IH]; intros j Hj Hk Hm.
  - replace (j - Z.of_nat 0) with j by lia. rewrite Z.mod_small by lia.
    split; [exact Hk | lia].
  - destruct (IH j Hj Hk ltac:(lia)) as [Hk' Hp'].
    destruct (Ho ((j - Z.of_nat m) mod sz) (mod_range _ _ HS) Hk' ltac:(lia))
      as [Hk'' Hp''].
    rewrite Zminus_mod_idemp_l in Hk'', Hp''.
    replace (j - Z.of_nat m - 1) with (j - Z.of_nat (S m)) in Hk'', Hp'' by lia.
    split; [exact Hk'' | lia].
Qed.

(** An entry carried to an occupied bucket, while a bucket is free, has
    not gone round the array. *)
Lemma carried_short sz bs entry i e :
  0 < sz -> order_ok sz bs -> carried_ok sz bs entry i ->
  0 <= i < sz -> 0 <= e < sz ->
  b_key (bucket_ref bs i) <> None -> b_key (bucket_ref bs e) = None ->
  b_psl entry + 1 < sz.
Proof.
  intros HS Ho (He & Hf & Hp & Hprev) Hi Hee Hki Hke.
  assert (Hne : i <> e) by (intros ->; congruence).
  set (m := (i - e) mod sz).
  assert (Hm : 1 <= m < sz).
  { unfold m. destruct (sub_cases i e sz Hi Hee) as [[-> ?]|[-> ?]]; lia. }
  destruct (Z_lt_le_dec (b_psl entry) m) as [Hlt | Hge]; [lia |].
  exfalso. destruct (Hprev ltac:(lia)) as [Hkp Hpp].
  destruct (occupied_run sz bs HS Ho (Z.to_nat (m - 1)) ((i - 1) mod sz)
              (mod_range _ _ HS) Hkp ltac:(lia)) as [Hk' _].
  rewrite Z2Nat.id in Hk' by lia.
  rewrite Zminus_mod_idemp_l in Hk'.
  replace (i - 1 - (m - 1)) with (i - m) in Hk' by lia.
  unfold m in Hk'. rewrite sub_back in Hk' by lia. congruence.
Qed.

Lemma fields_ok_zero : fields_ok zero_bucket.
Proof. unfold fields_ok. cbn. lia. Qed.

Lemma bucket_fields bs i : Forall fields_ok bs -> fields_ok (bucket_ref bs i).
Proof. apply Forall_bucket_ref, fields_ok_zero. Qed.

(** ** The insertion keeps the order *)

Lemma insert_probe_rh fuel hmap key len hash val :
  modulus_ok hmap -> hm_size hmap <= 2 ^ 16 ->
  forall bs entry i e hmap' ret,
    rh_ok (hm_size hmap) bs -> carried_ok (hm_size hmap) bs entry i ->
    0 <= i < hm_size hmap -> 0 <= e < hm_size hmap ->
    b_key (bucket_ref bs e) = None ->
    insert_probe fuel hmap key len hash val bs entry i = Done (hmap', ret) ->
    rh_ok (hm_size hmap) (hm_buckets hmap').
Proof.
  intros Hm Hsz. pose proof Hm as [Hs _]. set (sz := hm_size hmap) in *.
  induction fuel as [| fuel IH];
    intros bs entry i e hmap' ret Hrh Hc Hi He Hke H; simpl in H;
    [discriminate |].
  pose proof Hrh as (Hlen & Hf & Hpsl & Hord).
  pose proof Hc as (Hek & Hef & Hep & Hprev).
  assert (Hlt : (Z.to_nat i < length bs)%nat) by lia.
  destruct (b_key (bucket_ref bs i)) as [k |] eqn:Hk.
  - rewrite (bucket_match_occupied _ _ _ _ k Hk) in H. simpl in H.
    destruct ((b_hash (bucket_ref bs i) =? hash) &&
              (b_len (bucket_ref bs i) =? len) && memcmp_eq k key len).
    { inversion H; subst. exact Hrh. }
    assert (Hki : b_key (bucket_ref bs i) <> None) by (rewrite Hk; discriminate).
    pose proof (carried_short sz bs entry i e ltac:(lia) Hord Hc Hi He Hki Hke)
      as Hshort.
    assert (Hne : i <> e) by (intros ->; congruence).
    rewrite (slot_next hmap i Hm Hi) in H. fold sz in H.
    set (i' := (i + 1) mod sz) in *.
    assert (Hi' : 0 <= i' < sz) by (apply mod_range; lia).
    assert (Hpi : (i' - 1) mod sz = i) by (apply prev_next; lia).
    assert (Hne' : i' <> i).
    { unfold i'. destruct (next_cases i sz Hi) as [[-> ?]|[-> ?]]; lia. }
    pose proof (bucket_fields bs i Hf) as (Hbh & Hbp & Hbl).
    pose proof (Hpsl i Hi Hki) as Hbpsl.
    pose proof (mod_range (b_hash (bucket_ref bs i)) sz ltac:(lia)) as Hhb.
    pose proof (mod_range (b_hash entry) sz ltac:(lia)) as Hhe.
    destruct Hef as (Heh & Hepr & Hel).
    destruct (Z.gtb_spec (b_psl entry) (b_psl (bucket_ref bs i))) as [Hgt | Hle].
    + (* the entry takes the bucket, its entry travels on *)
      eapply (IH _ _ i' e); [| | exact Hi' | exact He | | exact H].
      * split; [rewrite length_bucket_set; exact Hlen |].
        split; [apply Forall_bucket_set;
                  [unfold fields_ok; lia | exact Hf] |].
        split.
        -- intros x Hx Hkx.
           destruct (Z.eq_dec x i) as [-> | Hxi].
           ++ rewrite bucket_ref_set_eq in * by lia. exact Hep.
           ++ rewrite bucket_ref_set_ne in * by lia. apply Hpsl; assumption.
        -- intros x Hx Hkx Hpx.
           pose proof (mod_range (x - 1) sz ltac:(lia)) as Hpr.
           destruct (Z.eq_dec x i) as [-> | Hxi].
           ++ rewrite bucket_ref_set_eq in Hpx |- * by lia.
              destruct (Hprev Hpx) as [Hkp Hpp].
              assert (Hpne : (i - 1) mod sz <> i).
              { destruct (prev_cases i sz Hi) as [[-> ?]|[-> ?]]; lia. }
              rewrite bucket_ref_set_ne by lia. split; assumption.
           ++ rewrite (bucket_ref_set_ne _ _ x) in Hkx, Hpx |- * by lia.
              destruct (Hord x Hx Hkx Hpx) as [Hkp Hpp].
              destruct (Z.eq_dec ((x - 1) mod sz) i) as [E | E].
              ** rewrite E in *. rewrite bucket_ref_set_eq by lia.
                 split; [exact Hek | lia].
              ** rewrite bucket_ref_set_ne by lia. split; assumption.
      * assert (Hu : u16 (b_psl (bucket_ref bs i) + 1)
                     = b_psl (bucket_ref bs i) + 1).
        { unfold u16. apply Z.mod_small. lia. }
        split; [simpl; exact Hki |].
        split; [unfold fields_ok; simpl; rewrite Hu; lia |].
        simpl. rewrite Hu. split.
        -- rewrite Hbpsl. unfold i'. symmetry. apply psl_step; lia.
        -- intros _. rewrite Hpi. rewrite bucket_ref_set_eq by lia.
           split; [exact Hek | lia].
      * rewrite bucket_ref_set_ne by lia. exact Hke.
    + (* the entry travels on *)
      eapply (IH _ _ i' e); [exact Hrh | | exact Hi' | exact He | exact Hke
                            | exact H].
      assert (Hu : u16 (b_psl entry + 1) = b_psl entry + 1).
      { unfold u16. apply Z.mod_small. lia. }
      split; [simpl; exact Hek |].
      split; [unfold fields_ok; simpl; rewrite Hu; lia |].
      simpl. rewrite Hu. split.
      * rewrite Hep. unfold i'. symmetry. apply psl_step; lia.
      * intros _. rewrite Hpi. split; [exact Hki | lia].
  - (* a free bucket *)
    inversion H; subst. simpl.
    split; [rewrite length_bucket_set; exact Hlen |].
    split; [apply Forall_bucket_set; [exact Hef | exact Hf] |].
    split.
    + intros x Hx Hkx.
      destruct (Z.eq_dec x i) as [-> | Hxi].
      * rewrite bucket_ref_set_eq in * by lia. exact Hep.
      * rewrite bucket_ref_set_ne in * by lia. apply Hpsl; assumption.
    + intros x Hx Hkx Hpx.
      destruct (Z.eq_dec x i) as [-> | Hxi].
      * rewrite bucket_ref_set_eq in Hpx |- * by lia.
        destruct (Hprev Hpx) as [Hkp Hpp].
        assert (Hpne : (i - 1) mod sz <> i).
        { intros E. rewrite E in Hkp. congruence. }
        rewrite bucket_ref_set_ne by (try apply mod_range; lia).
        split; assumption.
      * rewrite (bucket_ref_set_ne _ _ x) in Hkx, Hpx |- * by lia.
        destruct (Hord x Hx Hkx Hpx) as [Hkp Hpp].
        assert (Hpne : (x - 1) mod sz <> i).
        { intros E. rewrite E in Hkp. congruence. }
        rewrite bucket_ref_set_ne by (try apply mod_range; lia).
        split; assumption.
Qed.

Lemma rhashmap_insert_rh w hmap key len val w' hmap' ret :
  robin_hood hmap -> hm_nitems hmap < hm_size hmap ->
  rhashmap_insert murmurhash3 w hmap key len val = Done (w', hmap', ret) ->
  robin_hood hmap'.
Proof.
  intros (Hok & Hsz & Hrh) Hlt H.
  destruct (rhashmap_insert_shape _ _ _ _ _ _ _ _ _ Hok H) as [Hok' _].
  destruct (rhashmap_insert_modulus _ _ _ _ _ _ _ _ _ H) as (Hs & _).
  split; [exact Hok' |]. split; [lia |]. rewrite Hs.
  pose proof Hok as (Hm & Hlen & Hn & Hmin). pose proof Hm as [Hs1 _].
  destruct (count_lt_empty (hm_buckets hmap)) as (e & He & Hek); [lia |].
  unfold rhashmap_insert in H.
  assert (Hgo : forall ekey,
    (let* (hmap'0, ret0) <- insert_probe (Z.to_nat (hm_size hmap)) hmap key len
        (compute_hash murmurhash3 hmap key len) val (hm_buckets hmap)
        (mkBucket (Some ekey) val (compute_hash murmurhash3 hmap key len) 0
           (u16 len))
        (slot hmap (compute_hash murmurhash3 hmap key len)) in
     Done (w', hmap'0, ret0)) = Done (w', hmap', ret) ->
    rh_ok (hm_size hmap) (hm_buckets hmap')).
  { intros ekey Hr. bind_case Hr E. destruct a as [h1 r1].
    inversion Hr; subst.
    pose proof (slot_hash_range murmurhash3 hmap key len Hm) as Hi.
    pose proof (compute_hash_range murmurhash3 hmap key len) as Hh.
    eapply insert_probe_rh in E;
      [exact E | exact Hm | exact Hsz | exact Hrh | | exact Hi | | exact Hek].
    - split; [simpl; discriminate |].
      split; [unfold fields_ok; simpl; pose proof (u16_range len); lia |].
      simpl. split; [| lia].
      rewrite slot_is_mod by assumption.
      rewrite Z.sub_diag. symmetry. apply Z.mod_0_l. lia.
    - lia. }
  destruct (Z.land (hm_flags hmap) RHM_NOCOPY =? 0).
  - destruct (alloc w) as [ok w1]. destruct ok.
    + bind_case H E. destruct a as [h1 r1]. inversion H; subst.
      apply (Hgo (take (Z.to_nat len) key)). rewrite E. reflexivity.
    + inversion H; subst. exact Hrh.
  - bind_case H E. destruct a as [h1 r1]. inversion H; subst.
    apply (Hgo key). rewrite E. reflexivity.
Qed.

Lemma rehash_rh old : forall w hmap w' hmap',
  robin_hood hmap -> hm_nitems hmap + count old <= hm_size hmap ->
  rehash murmurhash3 w hmap old = Done (w', hmap') ->
  robin_hood hmap'.
Proof.
  induction old as [| b old IH]; intros w hmap w' hmap' Hrh Hlt H;
    simpl in H.
  - inversion H; subst. exact Hrh.
  - rewrite count_cons in Hlt. unfold occ in Hlt.
    pose proof (count_range old) as Hr.
    destruct (b_key b) as [k |]; [| eapply IH; [exact Hrh | lia | exact H]].
    bind_case H E. destruct a as [[w1 h1] r1].
    pose proof Hrh as (Hok & _).
    destruct (rhashmap_insert_shape _ _ _ _ _ _ _ _ _ Hok E) as [_ Hle].
    destruct (rhashmap_insert_modulus _ _ _ _ _ _ _ _ _ E) as (Hs1 & _).
    eapply IH; [| | exact H].
    + eapply rhashmap_insert_rh; [exact Hrh | lia | exact E].
    + lia.
Qed.

Lemma rh_ok_replicate n :
  0 <= n -> rh_ok n (replicate (Z.to_nat n) zero_bucket).
Proof.
  intros Hn. split; [apply length_replicate |].
  split; [apply Forall_replicate, fields_ok_zero |].
  split.
  - intros i Hi Hk. rewrite bucket_ref_replicate in Hk. contradiction.
  - intros i Hi Hk. rewrite bucket_ref_replicate in Hk. contradiction.
Qed.

Lemma rhashmap_resize_rh w hmap newsize w' hmap' :
  0 <= newsize <= 2 ^ 16 -> 1 <= hm_minsize hmap < 2 ^ 32 ->
  count (old_buckets hmap newsize) <= newsize ->
  rhashmap_resize murmurhash3 w hmap newsize = Done (w', hmap', 0) ->
  robin_hood hmap'.
Proof.
  intros Hn0 Hmin Hc H.
  destruct (rhashmap_resize_done _ _ _ _ _ _ (proj1 Hn0) H)
    as (Hn & w1 & w3 & fresh & _ & Ef & Er).
  destruct (fresh_table_ok _ _ _ _ _ Hn Hmin Ef)
    as (Hok & Hs & Hni & _ & _ & Hbs).
  eapply rehash_rh; [| | exact Er].
  - split; [exact Hok |]. split; [lia |]. rewrite Hs, Hbs.
    apply rh_ok_replicate. lia.
  - lia.
Qed.

Lemma rhashmap_put_rh w hmap key len val w' hmap' ret :
  robin_hood hmap ->
  rhashmap_put murmurhash3 w hmap key len val = Done (w', hmap', ret) ->
  hm_size hmap' <= 2 ^ 16 ->
  robin_hood hmap'.
Proof.
  intros Hrh H Hsz'. pose proof Hrh as (Hok & Hsz & Hr).
  pose proof Hok as (Hm & Hlen & Hn & Hmin). pose proof Hm as [Hs _].
  pose proof (count_range (hm_buckets hmap)) as Hcr.
  unfold rhashmap_put in H.
  destruct (Z.gtb_spec (hm_nitems hmap) (APPROX_85_PERCENT (hm_size hmap)))
    as [Hgt | Hle].
  - bind_case H E. destruct a as [[w1 h1] rc].
    destruct (rhashmap_resize_rc _ _ _ _ _ _ _ E) as [-> | [-> ->]];
      cbn [Z.eqb negb] in H; [| inversion H; subst; exact Hrh].
    assert (Hg : grow_size hmap
                 = Z.min (hm_size hmap * 2) (hm_size hmap + 1048576))
      by (apply grow_size_small; lia).
    assert (Hg0 : 0 <= grow_size hmap) by lia.
    destruct (rhashmap_resize_shape _ _ _ _ _ _ Hg0 Hmin E)
      as (Hok1 & Hs1 & Hn1).
    pose proof (old_buckets_count hmap (grow_size hmap) Hlen) as Hob.
    destruct (rhashmap_insert_modulus _ _ _ _ _ _ _ _ _ H) as (Hs2 & _).
    eapply rhashmap_insert_rh; [| | exact H].
    + eapply rhashmap_resize_rh; [| exact Hmin | | exact E]; lia.
    + lia.
  - pose proof (APPROX_85_PERCENT_lt (hm_size hmap) ltac:(lia)).
    eapply rhashmap_insert_rh; [exact Hrh | lia | exact H].
Qed.

(** ** The backward shift keeps the order *)

Lemma psl_lt sz bs i :
  0 < sz -> psl_ok sz bs -> 0 <= i < sz -> b_key (bucket_ref bs i) <> None ->
  0 <= b_psl (bucket_ref bs i) < sz.
Proof. intros HS Hp Hi Hk. rewrite (Hp i Hi Hk). apply mod_range. exact HS. Qed.

Lemma del_shift_rh fuel hmap :
  modulus_ok hmap ->
  forall bs i bs',
    0 <= i < hm_size hmap ->
    (Z.to_nat i < length bs)%nat ->
    hole_ok (hm_size hmap) (bucket_set bs i (clear_bucket (bucket_ref bs i))) i ->
    del_shift fuel hmap bs i = Done bs' ->
    rh_ok (hm_size hmap) bs'.
Proof.
  intros Hm. pose proof Hm as [Hs _]. set (sz := hm_size hmap) in *.
  induction fuel as [| fuel IH]; intros bs i bs' Hi Hlt Hh H; simpl in H;
    [discriminate |].
  set (bs1 := bucket_set bs i (clear_bucket (bucket_ref bs i))) in *.
  destruct Hh as (Hlen & Hf & Hpsl & Hord & Hki & HK).
  rewrite (slot_next hmap i Hm Hi) in H. fold sz in H.
  set (i' := (i + 1) mod sz) in *.
  assert (Hi' : 0 <= i' < sz) by (apply mod_range; lia).
  assert (Hdone : (b_key (bucket_ref bs1 i') = None \/
                   b_psl (bucket_ref bs1 i') = 0) -> rh_ok sz bs1).
  { intros Hstop. split; [exact Hlen |]. split; [exact Hf |].
    split; [exact Hpsl |]. intros x Hx.
    destruct (Z.eq_dec x i') as [-> | Hne]; [| apply Hord; assumption].
    intros Hk Hp. destruct Hstop; [congruence | lia]. }
  destruct (b_key (bucket_ref bs1 i')) as [k |] eqn:Hk;
    [| inversion H; subst; apply Hdone; left; reflexivity].
  destruct (Z.eqb_spec (b_psl (bucket_ref bs1 i')) 0) as [Hz | Hnz];
    [inversion H; subst; apply Hdone; right; exact Hz |].
  assert (Hk' : b_key (bucket_ref bs1 i') <> None) by (rewrite Hk; discriminate).
  assert (Hne : i <> i') by (intros E; rewrite <- E in Hk; congruence).
  pose proof (psl_lt sz bs1 i' ltac:(lia) Hpsl Hi' Hk') as Hq.
  pose proof (bucket_fields bs1 i' Hf) as (Hbh & Hbp & Hbl).
  set (q := b_psl (bucket_ref bs1 i')) in *.
  assert (Hu : u16 (q - 1) = q - 1) by (unfold u16; apply Z.mod_small; lia).
  rewrite Hu in H.
  set (nb := set_psl (bucket_ref bs1 i') (q - 1)) in *.
  assert (Hfn : fields_ok nb) by (unfold fields_ok, nb; simpl; fold q; lia).
  assert (Hl1 : length bs1 = length bs) by apply length_bucket_set.
  set (bs3 := bucket_set (bucket_set bs1 i' nb) i nb) in *.
  assert (Hl3 : length bs3 = length bs)
    by (unfold bs3; rewrite !length_bucket_set; exact Hl1).
  set (i'' := (i' + 1) mod sz).
  assert (Hi'' : 0 <= i'' < sz) by (apply mod_range; lia).
  assert (Hpi' : (i' - 1) mod sz = i) by (apply prev_next; lia).
  assert (Hpi'' : (i'' - 1) mod sz = i') by (apply prev_next; lia).
  assert (Hne'' : i'' <> i').
  { unfold i''. destruct (next_cases i' sz Hi') as [[-> ?]|[-> ?]]; lia. }
  (* the array of the next round, its bucket [i'] cleared *)
  assert (R3 : forall x, 0 <= x < sz ->
            bucket_ref (bucket_set bs3 i' (clear_bucket (bucket_ref bs3 i'))) x
            = if Z.eq_dec x i' then clear_bucket nb
              else if Z.eq_dec x i then nb else bucket_ref bs1 x).
  { intros x Hx. unfold bs3.
    destruct (Z.eq_dec x i') as [-> | Hx'].
    - rewrite bucket_ref_set_eq by (rewrite ?length_bucket_set; lia).
      rewrite bucket_ref_set_ne by lia.
      rewrite bucket_ref_set_eq by (rewrite ?length_bucket_set; lia).
      reflexivity.
    - rewrite bucket_ref_set_ne by lia.
      destruct (Z.eq_dec x i) as [-> | Hxi].
      + rewrite bucket_ref_set_eq by (rewrite ?length_bucket_set; lia).
        reflexivity.
      + rewrite !bucket_ref_set_ne by lia. reflexivity. }
  eapply (IH bs3 i'); [exact Hi' | lia | | exact H].
  split; [rewrite length_bucket_set, Hl3, <- Hl1; exact Hlen |].
  split.
  { apply Forall_bucket_set.
    - unfold fields_ok, clear_bucket. simpl.
      destruct (bucket_fields bs3 i') as (? & ? & ?); [| lia].
      unfold bs3. apply Forall_bucket_set; [exact Hfn |].
      apply Forall_bucket_set; [exact Hfn | exact Hf].
    - unfold bs3. apply Forall_bucket_set; [exact Hfn |].
      apply Forall_bucket_set; [exact Hfn | exact Hf]. }
  split.
  { intros x Hx. rewrite (R3 x Hx).
    destruct (Z.eq_dec x i') as [-> | Hx']; [simpl; congruence |].
    destruct (Z.eq_dec x i) as [-> | Hxi]; [| apply Hpsl; exact Hx].
    intros _. unfold nb. simpl.
    set (h := b_hash (bucket_ref bs1 i') mod sz).
    assert (Hh : 0 <= h < sz) by (apply mod_range; lia).
    assert (Hq' : q = ((i + 1) mod sz - h) mod sz)
      by exact (Hpsl i' Hi' Hk').
    rewrite (psl_back i h sz Hi Hh) by lia. lia. }
  split.
  { intros x Hx Hxn. fold i'' in Hxn. unfold order_at.
    pose proof (mod_range (x - 1) sz ltac:(lia)) as Hpx.
    rewrite (R3 x Hx), (R3 _ Hpx).
    destruct (Z.eq_dec x i') as [-> | Hx']; [simpl; congruence |].
    destruct (Z.eq_dec x i) as [-> | Hxi].
    - intros _ Hp. unfold nb in Hp. simpl in Hp.
      destruct HK as [HK1 HK2]; [discriminate | lia |].
      destruct (Z.eq_dec ((i - 1) mod sz) i') as [E | _].
      { exfalso. (* two buckets only: [q] is below 2 *)
        assert (sz = 2).
        { unfold i' in E. destruct (prev_cases i sz Hi) as [[E1 ?]|[E1 ?]];
            rewrite E1 in E;
            destruct (next_cases i sz Hi) as [[E2 ?]|[E2 ?]];
            rewrite E2 in E; lia. }
        lia. }
      destruct (Z.eq_dec ((i - 1) mod sz) i) as [E | _].
      { exfalso. destruct (prev_cases i sz Hi) as [[E1 ?]|[E1 ?]];
          rewrite E1 in E; [lia |].
        unfold i' in Hne. destruct (next_cases i sz Hi) as [[E2 ?]|[E2 ?]];
          rewrite E2 in Hne; lia. }
      unfold nb. simpl. split; [exact HK1 | lia].
    - intros Hkx Hp.
      destruct (Hord x Hx Hx' Hkx Hp) as [Hkp Hpp].
      destruct (Z.eq_dec ((x - 1) mod sz) i') as [E | _].
      { exfalso. apply Hxn. unfold i''. rewrite <- E.
        symmetry. apply next_prev. exact Hx. }
      destruct (Z.eq_dec ((x - 1) mod sz) i) as [E | _].
      { exfalso. apply Hx'. unfold i'. rewrite <- E.
        symmetry. apply next_prev. exact Hx. }
      split; assumption. }
  split.
  { rewrite (R3 i' Hi'). destruct (Z.eq_dec i' i'); [reflexivity | congruence]. }
  fold i''. rewrite Hpi'. rewrite (R3 i'' Hi''), (R3 i Hi).
  destruct (Z.eq_dec i'' i'); [congruence |].
  destruct (Z.eq_dec i i'); [congruence |].
  destruct (Z.eq_dec i i); [| congruence].
  destruct (Z.eq_dec i'' i) as [E | Hne3].
  - intros _ Hp. unfold nb in Hp. simpl in Hp. exfalso.
    assert (sz = 2).
    { unfold i'', i' in E.
      destruct (next_cases i sz Hi) as [[E1 ?]|[E1 ?]]; rewrite E1 in E.
      - destruct (next_cases (i + 1) sz ltac:(lia)) as [[E2 ?]|[E2 ?]];
          rewrite E2 in E; lia.
      - destruct (next_cases 0 sz ltac:(lia)) as [[E2 ?]|[E2 ?]];
          rewrite E2 in E; lia. }
    lia.
  - intros Hk2 Hp2.
    destruct (Hord i'' Hi'' Hne'' Hk2 ltac:(lia)) as [Hkp Hpp].
    rewrite Hpi'' in Hpp. fold q in Hpp.
    unfold nb. simpl. rewrite Hk. split; [discriminate | lia].
Qed.

Lemma hole_ok_first sz bs j :
  0 < sz -> rh_ok sz bs -> 0 <= j < sz ->
  b_key (bucket_ref bs j) <> None ->
  hole_ok sz (bucket_set bs j (clear_bucket (bucket_ref bs j))) j.
Proof.
  intros HS (Hlen & Hf & Hpsl & Hord) Hj Hk.
  assert (Hlt : (Z.to_nat j < length bs)%nat) by lia.
  set (bs1 := bucket_set bs j (clear_bucket (bucket_ref bs j))).
  assert (R : forall x, 0 <= x < sz ->
            bucket_ref bs1 x = if Z.eq_dec x j then clear_bucket (bucket_ref bs j)
                               else bucket_ref bs x).
  { intros x Hx. unfold bs1. destruct (Z.eq_dec x j) as [-> | Hne].
    - apply bucket_ref_set_eq; lia.
    - apply bucket_ref_set_ne; lia. }
  split; [unfold bs1; rewrite length_bucket_set; exact Hlen |].
  split.
  { apply Forall_bucket_set; [| exact Hf].
    destruct (bucket_fields bs j Hf) as (? & ? & ?).
    unfold fields_ok. simpl. lia. }
  split.
  { intros x Hx. rewrite (R x Hx).
    destruct (Z.eq_dec x j); [simpl; congruence | apply Hpsl; exact Hx]. }
  split.
  { intros x Hx Hxn. unfold order_at.
    pose proof (mod_range (x - 1) sz HS) as Hpx.
    rewrite (R x Hx), (R _ Hpx).
    destruct (Z.eq_dec x j) as [-> | Hne]; [simpl; congruence |].
    intros Hkx Hp. destruct (Hord x Hx Hkx Hp) as [Hkp Hpp].
    destruct (Z.eq_dec ((x - 1) mod sz) j) as [E | _]; [| split; assumption].
    exfalso. apply Hxn. rewrite <- E. symmetry. apply next_prev. exact Hx. }
  split; [rewrite (R j Hj); destruct (Z.eq_dec j j); [reflexivity | congruence] |].
  pose proof (mod_range (j + 1) sz HS) as Hn.
  pose proof (mod_range (j - 1) sz HS) as Hp.
  rewrite (R _ Hn), (R _ Hp).
  destruct (Z.eq_dec ((j + 1) mod sz) j) as [E | Hne]; [simpl; congruence |].
  intros Hk1 Hp1.
  destruct (Hord _ Hn Hk1 ltac:(lia)) as [_ Hpp].
  rewrite prev_next in Hpp by exact Hj.
  destruct (Hord j Hj Hk ltac:(lia)) as [Hkp Hpp2].
  destruct (Z.eq_dec ((j - 1) mod sz) j) as [E | _].
  - exfalso. destruct (prev_cases j sz Hj) as [[E1 ?]|[E1 ?]];
      rewrite E1 in E; [lia |].
    destruct (next_cases j sz Hj) as [[E2 ?]|[E2 ?]]; rewrite E2 in Hne; lia.
  - split; [exact Hkp | lia].
Qed.

Lemma rhashmap_del_rh w hmap key len w' hmap' ret :
  robin_hood hmap ->
  rhashmap_del murmurhash3 w hmap key len = Done (w', hmap', ret) ->
  robin_hood hmap'.
Proof.
  intros Hrh H. pose proof Hrh as (Hok & Hsz & Hr).
  pose proof (rhashmap_del_shape _ _ _ _ _ _ _ _ Hok H) as Hok'.
  pose proof Hok as (Hm & Hlen & Hn & Hmin). pose proof Hm as [Hs _].
  unfold rhashmap_del in H.
  bind_case H E. destruct a as [i |]; [| inversion H; subst; exact Hrh].
  destruct (del_probe_found _ _ _ _ _ _ _ _ E Hm
              (slot_hash_range murmurhash3 _ _ _ Hm)) as [Hi Hocc].
  bind_case H E2. rename a into bs. cbn [hm_buckets set_nitems] in E2.
  set (hmap1 := set_nitems hmap (u32 (hm_nitems hmap - 1))) in *.
  assert (Hm1 : modulus_ok hmap1) by exact Hm.
  assert (Hrb : rh_ok (hm_size hmap) bs).
  { apply (del_shift_rh (shift_fuel (hm_buckets hmap)) hmap1 Hm1
             (hm_buckets hmap) i bs Hi); [lia | | exact E2].
    apply hole_ok_first;
      [change (0 < hm_size hmap); lia | exact Hr | exact Hi | exact Hocc]. }
  destruct (del_shift_shape _ _ Hm1 _ _ _ Hlen Hi E2) as [Hl2 Hc2].
  assert (Ho : occ (bucket_ref (hm_buckets hmap) i) = 1).
  { unfold occ. destruct (b_key _); [reflexivity | congruence]. }
  pose proof (count_range (hm_buckets hmap)) as Hcr.
  pose proof (count_range bs) as Hcr2.
  set (hmap2 := set_buckets hmap1 bs) in *.
  assert (Hni2 : hm_nitems hmap2 = count bs).
  { cbn. rewrite u32_small by lia. lia. }
  assert (Hrh2 : robin_hood hmap2).
  { split; [| split; [exact Hsz | exact Hrb]].
    split; [exact Hm |]. split; [cbn; lia |]. split; [exact Hni2 | exact Hmin]. }
  destruct (Z.gtb_spec (hm_nitems hmap2) (hm_minsize hmap2)) as [Hgt | Hle];
    cbn [andb] in H; [| inversion H; subst; exact Hrh2].
  destruct (Z.ltb_spec (hm_nitems hmap2) (APPROX_40_PERCENT (hm_size hmap)))
    as [Hlt | Hge]; [| inversion H; subst; exact Hrh2].
  bind_case H E3. destruct a as [[w1 h1] rc]. inversion H; subst.
  destruct (rhashmap_resize_rc _ _ _ _ _ _ _ E3) as [-> | [-> ->]];
    [| exact Hrh2].
  pose proof (APPROX_40_PERCENT_le (hm_size hmap) ltac:(lia)) as H40.
  assert (Hsh : shrink_size hmap2
                = Z.max (Z.shiftr (hm_size hmap) 1) (hm_minsize hmap)).
  { unfold shrink_size. rewrite MAX_spec. reflexivity. }
  assert (Hshr : Z.shiftr (hm_size hmap) 1 <= hm_size hmap).
  { rewrite Z.shiftr_div_pow2 by lia. change (2 ^ 1) with 2.
    apply Z.div_le_upper_bound; lia. }
  cbn [hm_minsize hm_size hmap2 hmap1 set_buckets set_nitems] in Hgt, Hlt.
  assert (Hl : length (hm_buckets hmap2) = Z.to_nat (hm_size hmap2))
    by (cbn; lia).
  pose proof (old_buckets_count hmap2 (shrink_size hmap2) Hl) as Ho2.
  cbn [hm_buckets hmap2 set_buckets] in Ho2.
  assert (Hms : hm_minsize hmap <= hm_size hmap' ).
  { destruct (rhashmap_resize_modulus _ _ _ _ _ _ E3) as (_ & Hs3 & _).
    rewrite Hs3, Hsh. pose proof (u32_range (Z.max (Z.shiftr (hm_size hmap) 1)
      (hm_minsize hmap))). rewrite u32_small by lia. lia. }
  destruct (Z_le_gt_dec (hm_minsize hmap) (2 ^ 16)) as [Hsmall | Hbig].
  - apply (rhashmap_resize_rh w hmap2 (shrink_size hmap2) w' hmap');
      [lia | exact Hmin | lia | exact E3].
  - (* [minsize] above 2^16: no entry count is above it in such a table *)
    exfalso. cbn in Hni2. lia.
Qed.

Lemma rhashmap_create_rh w size flags w' hmap :
  rhashmap_create murmurhash3 w size flags = Done (w', Some hmap) ->
  hm_size hmap <= 2 ^ 16 ->
  robin_hood hmap.
Proof.
  intros H Hsz.
  destruct (rhashmap_create_shape _ _ _ _ _ _ H) as (Hok & Hsm & Hni & Hms & _).
  unfold rhashmap_create in H.
  destruct (alloc w) as [ok w1]. destruct ok; cbn [negb] in H; [| discriminate].
  bind_case H E. destruct a as [[w2 h2] rc].
  destruct (rhashmap_resize_rc _ _ _ _ _ _ _ E) as [-> | [-> ->]];
    cbn [Z.eqb negb] in H; [| discriminate].
  inversion H; subst. cbn [hm_minsize] in E.
  pose proof (u32_range (MAX size 1)) as Hr.
  destruct Hok as (Hm & _). pose proof Hm as [Hs _].
  eapply rhashmap_resize_rh; [| | | exact E].
  - lia.
  - cbn [hm_minsize]. lia.
  - unfold old_buckets. cbn [hm_buckets hm_size].
    rewrite andb_false_r, take_nil. change (count []) with 0. lia.
Qed.

End RobinHood.

(** ** Keys *)

Lemma memcmp_eq_take p q n :
  memcmp_eq p q n = true <-> take (Z.to_nat n) p = take (Z.to_nat n) q.
Proof. unfold memcmp_eq. apply bytes_eqb_eq. Qed.

Lemma key_of_match b k key len :
  b_key b = Some k ->
  ((b_len b =? len) && memcmp_eq k key len = true
   <-> key_of b = Some (the_key key len)).
Proof.
  intros Hk. unfold key_of, the_key. rewrite Hk.
  rewrite andb_true_iff, Z.eqb_eq, memcmp_eq_take. split.
  - intros [-> ->]. reflexivity.
  - intros E. inversion E as [[E1 E2]]. rewrite E2 in *. split; congruence.
Qed.

Lemma key_of_occupied b : key_of b <> None <-> b_key b <> None.
Proof. unfold key_of. destruct (b_key b); split; congruence. Qed.

Lemma key_eqb_spec key1 len1 key2 len2 :
  key_eqb key1 len1 key2 len2 = true <-> the_key key1 len1 = the_key key2 len2.
Proof.
  unfold key_eqb, the_key.
  rewrite andb_true_iff, Z.eqb_eq, memcmp_eq_take. split.
  - intros [-> ->]. reflexivity.
  - intros E. inversion E as [[E1 E2]]. rewrite E2 in *. split; congruence.
Qed.

Lemma the_key_take key len : the_key (take (Z.to_nat len) key) len = the_key key len.
Proof. unfold the_key. rewrite take_take, Nat.min_id. reflexivity. Qed.

Lemma bucket_match_key b k hash key len :
  b_key b = Some k ->
  bucket_match b hash key len = Done true ->
  b_hash b = hash /\ key_of b = Some (the_key key len).
Proof.
  intros Hk. rewrite (bucket_match_occupied _ _ _ _ k Hk).
  intros H. inversion H as [E]. rewrite <- andb_assoc in E.
  apply andb_true_iff in E. destruct E as [E1 E2].
  split; [apply Z.eqb_eq; exact E1 |]. apply (key_of_match b k); assumption.
Qed.

Lemma bucket_match_other b k hash key len :
  b_key b = Some k -> key_of b <> Some (the_key key len) ->
  bucket_match b hash key len = Done false.
Proof.
  intros Hk Hne. rewrite (bucket_match_occupied _ _ _ _ k Hk).
  destruct ((b_len b =? len) && memcmp_eq k key len) eqn:E.
  - apply (key_of_match b k) in E; [contradiction | exact Hk].
  - rewrite <- andb_assoc, E, andb_false_r. reflexivity.
Qed.

Lemma bucket_match_same b k hash key len :
  b_key b = Some k -> key_of b = Some (the_key key len) -> b_hash b = hash ->
  bucket_match b hash key len = Done true.
Proof.
  intros Hk He Hh. rewrite (bucket_match_occupied _ _ _ _ k Hk).
  apply (key_of_match b k) in He; [| exact Hk].
  rewrite <- andb_assoc, He. rewrite (proj2 (Z.eqb_eq _ _) Hh). reflexivity.
Qed.

(** ** The search of the array *)

Lemma find_bucket_some bs key len b :
  find_bucket bs key len = Some b ->
  exists j : nat, bs !! j = Some b /\ key_of b = Some (the_key key len).
Proof.
  induction bs as [| a bs IH]; [discriminate |]. cbn [find_bucket].
  destruct (b_key a) as [k |] eqn:Hk.
  - destruct ((b_len a =? len) && memcmp_eq k key len) eqn:E.
    + intros H. inversion H; subst. exists 0%nat. split; [reflexivity |].
      apply (key_of_match b k); assumption.
    + intros H. destruct (IH H) as (j & Hj & Hkey). exists (S j). auto.
  - intros H. destruct (IH H) as (j & Hj & Hkey). exists (S j). auto.
Qed.

Lemma find_bucket_none bs key len :
  find_bucket bs key len = None ->
  forall (j : nat) b, bs !! j = Some b -> key_of b <> Some (the_key key len).
Proof.
  induction bs as [| a bs IH]; [intros _ j b Hj; discriminate |].
  cbn [find_bucket]. intros H j b Hj.
  destruct j as [| j].
  - inversion Hj; subst. destruct (b_key b) as [k |] eqn:Hk.
    + destruct ((b_len b =? len) && memcmp_eq k key len) eqn:E;
        [discriminate |].
      intros Hkey. apply (key_of_match b k) in Hkey; [congruence | exact Hk].
    + unfold key_of. rewrite Hk. discriminate.
  - apply (IH) with (j := j); [| exact Hj].
    destruct (b_key a) as [k |]; [| exact H].
    destruct ((b_len a =? len) && memcmp_eq k key len); [discriminate | exact H].
Qed.

Lemma lookup_bucket_ref bs (j : nat) b :
  bs !! j = Some b -> bucket_ref bs (Z.of_nat j) = b.
Proof. intros H. unfold bucket_ref. rewrite Nat2Z.id, H. reflexivity. Qed.

Lemma bucket_ref_lookup_some bs sz x :
  length bs = Z.to_nat sz -> 0 <= x < sz ->
  bs !! Z.to_nat x = Some (bucket_ref bs x).
Proof.
  intros Hlen Hx. unfold bucket_ref.
  destruct (lookup_lt_is_Some_2 bs (Z.to_nat x)) as [b Hb]; [lia |].
  rewrite Hb. reflexivity.
Qed.

(** With no key held twice, the search finds the bucket that holds it. *)
Lemma find_bucket_at sz bs key len x :
  length bs = Z.to_nat sz -> unique_keys sz bs -> 0 <= x < sz ->
  key_of (bucket_ref bs x) = Some (the_key key len) ->
  find_bucket bs key len = Some (bucket_ref bs x).
Proof.
  intros Hlen Hu Hx Hk.
  destruct (find_bucket bs key len) as [b |] eqn:E.
  - destruct (find_bucket_some _ _ _ _ E) as (j & Hj & Hkey).
    pose proof (lookup_lt_Some _ _ _ Hj) as Hlt.
    pose proof (lookup_bucket_ref _ _ _ Hj) as Hb.
    assert (x = Z.of_nat j).
    { apply Hu; [exact Hx | lia | rewrite Hk; discriminate |].
      rewrite Hb, Hk, Hkey. reflexivity. }
    subst x. rewrite Hb. reflexivity.
  - exfalso.
    apply (find_bucket_none _ _ _ E (Z.to_nat x) (bucket_ref bs x));
      [eapply bucket_ref_lookup_some; eassumption | exact Hk].
Qed.

Lemma find_bucket_absent sz bs key len :
  length bs = Z.to_nat sz ->
  (forall x, 0 <= x < sz -> key_of (bucket_ref bs x) <> Some (the_key key len)) ->
  find_bucket bs key len = None.
Proof.
  intros Hlen Hno. destruct (find_bucket bs key len) as [b |] eqn:E;
    [| reflexivity].
  destruct (find_bucket_some _ _ _ _ E) as (j & Hj & Hkey).
  pose proof (lookup_lt_Some _ _ _ Hj) as Hlt.
  exfalso. apply (Hno (Z.of_nat j)); [lia |].
  rewrite (lookup_bucket_ref _ _ _ Hj). exact Hkey.
Qed.

Lemma find_bucket_cases sz bs key len :
  length bs = Z.to_nat sz ->
  (exists x, 0 <= x < sz /\ key_of (bucket_ref bs x) = Some (the_key key len) /\
             find_bucket bs key len = Some (bucket_ref bs x)) \/
  ((forall x, 0 <= x < sz ->
      key_of (bucket_ref bs x) <> Some (the_key key len)) /\
   find_bucket bs key len = None).
Proof.
  intros Hlen. destruct (find_bucket bs key len) as [b |] eqn:E.
  - left. destruct (find_bucket_some _ _ _ _ E) as (j & Hj & Hkey).
    pose proof (lookup_lt_Some _ _ _ Hj) as Hlt.
    exists (Z.of_nat j). rewrite (lookup_bucket_ref _ _ _ Hj).
    split; [lia |]. split; [exact Hkey | reflexivity].
  - right. split; [| reflexivity]. intros x Hx.
    apply (find_bucket_none _ _ _ E (Z.to_nat x)).
    eapply bucket_ref_lookup_some; eassumption.
Qed.

Section Lookup.
Variable murmurhash3 : list byte -> Z -> Z -> Z.
Hypothesis murmurhash3_reads : reads_len_bytes murmurhash3.

(** ** The digest of a key *)

Lemma halfsiphash_reads : reads_len_bytes halfsiphash.
Proof.
  intros p q len seed Hlen Hm. apply halfsiphash_prefix; assumption.
Qed.

Lemma compute_hash_ext hmap p q len :
  0 <= len -> memcmp_eq p q len = true ->
  compute_hash murmurhash3 hmap p len = compute_hash murmurhash3 hmap q len.
Proof.
  intros Hlen Hm. unfold compute_hash.
  destruct (negb _).
  - f_equal. apply murmurhash3_reads; assumption.
  - apply halfsiphash_reads; assumption.
Qed.

Lemma compute_hash_the_key hmap p lp q lq :
  0 <= lp -> the_key p lp = the_key q lq ->
  compute_hash murmurhash3 hmap p lp = compute_hash murmurhash3 hmap q lq.
Proof.
  intros Hlen E. unfold the_key in E. inversion E as [[E1 E2]]. subst lq.
  apply compute_hash_ext; [exact Hlen |]. apply memcmp_eq_take. exact E1.
Qed.

Lemma held_hash hmap bs x key len :
  hashes_ok murmurhash3 hmap bs -> Forall fields_ok bs ->
  0 <= x < hm_size hmap ->
  key_of (bucket_ref bs x) = Some (the_key key len) ->
  b_hash (bucket_ref bs x) = compute_hash murmurhash3 hmap key len.
Proof.
  intros Hh Hf Hx Hk.
  destruct (b_key (bucket_ref bs x)) as [k |] eqn:Ek;
    [| unfold key_of in Hk; rewrite Ek in Hk; discriminate].
  rewrite (Hh x k Hx Ek).
  destruct (bucket_fields bs x Hf) as (_ & _ & Hl).
  apply compute_hash_the_key; [lia |].
  unfold key_of in Hk. rewrite Ek in Hk. unfold the_key in *. congruence.
Qed.

(** ** The lookup finds a key that is held *)

Lemma step_back j m sz :
  0 < sz -> ((j - m) mod sz + 1) mod sz = (j - (m - 1)) mod sz.
Proof.
  intros Hsz. rewrite Zplus_mod_idemp_l. f_equal. lia.
Qed.

Lemma get_probe_path hmap key len hash j :
  modulus_ok hmap -> hm_size hmap <= 2 ^ 16 ->
  rh_ok (hm_size hmap) (hm_buckets hmap) ->
  unique_keys (hm_size hmap) (hm_buckets hmap) ->
  0 <= j < hm_size hmap ->
  key_of (bucket_ref (hm_buckets hmap) j) = Some (the_key key len) ->
  b_hash (bucket_ref (hm_buckets hmap) j) = hash ->
  forall fuel n,
    0 <= n <= b_psl (bucket_ref (hm_buckets hmap) j) ->
    b_psl (bucket_ref (hm_buckets hmap) j) - n < Z.of_nat fuel ->
    get_probe fuel hmap key len hash n
      ((j - (b_psl (bucket_ref (hm_buckets hmap) j) - n)) mod hm_size hmap)
    = Done (b_val (bucket_ref (hm_buckets hmap) j)).
Proof.
  intros Hm Hsz (Hlen & Hf & Hpsl & Hord) Hu Hj Hkey Hhash.
  pose proof Hm as [Hs _]. set (sz := hm_size hmap) in *.
  set (bs := hm_buckets hmap) in *.
  assert (Hkj : b_key (bucket_ref bs j) <> None)
    by (apply key_of_occupied; rewrite Hkey; discriminate).
  pose proof (psl_lt sz bs j ltac:(lia) Hpsl Hj Hkj) as Hp.
  set (p := b_psl (bucket_ref bs j)) in *.
  induction fuel as [| fuel IH]; intros n Hn Hfu; [lia |].
  cbn [get_probe]. fold bs.
  set (x := (j - (p - n)) mod sz).
  assert (Hx : 0 <= x < sz) by (apply mod_range; lia).
  destruct (occupied_run sz bs ltac:(lia) Hord (Z.to_nat (p - n)) j Hj Hkj
              ltac:(fold p; lia)) as [Hkx Hpx].
  rewrite Z2Nat.id in Hkx, Hpx by lia. fold x p in Hkx, Hpx.
  destruct (b_key (bucket_ref bs x)) as [k |] eqn:Ek; [| congruence].
  destruct (Z.eq_dec n p) as [-> | Hnp].
  - assert (x = j).
    { unfold x. replace (j - (p - p)) with j by lia. apply Z.mod_small. lia. }
    subst x. rewrite H in *.
    rewrite (bucket_match_same _ k hash key len Ek Hkey Hhash). reflexivity.
  - assert (Hxj : x <> j).
    { unfold x. destruct (sub_cases j (p - n) sz Hj ltac:(lia))
        as [[-> ?]|[-> ?]]; lia. }
    rewrite (bucket_match_other _ k hash key len Ek).
    + cbn [bind]. destruct (Z.gtb_spec n (b_psl (bucket_ref bs x))); [lia |].
      rewrite (u32_small (n + 1)) by lia.
      rewrite (slot_next hmap x Hm Hx). fold sz. unfold x.
      rewrite step_back by lia.
      replace (p - n - 1) with (p - (n + 1)) by lia.
      apply IH; lia.
    + intros E. apply Hxj. apply Hu; [exact Hx | exact Hj | |].
      * rewrite E. discriminate.
      * rewrite E, Hkey. reflexivity.
Qed.

Lemma get_probe_miss hmap key len hash :
  empties_ok hmap -> 0 < len ->
  (forall x, key_of (bucket_ref (hm_buckets hmap) x) <> Some (the_key key len)) ->
  forall fuel n i,
    get_probe fuel hmap key len hash n i = Done NULL \/
    get_probe fuel hmap key len hash n i = Unfinished.
Proof.
  intros He Hlen Hno. induction fuel as [| fuel IH]; intros n i;
    [right; reflexivity |].
  cbn [get_probe].
  destruct (b_key (bucket_ref (hm_buckets hmap) i)) as [k |] eqn:Ek.
  - rewrite (bucket_match_other _ k hash key len Ek (Hno i)). cbn [bind].
    destruct (n >? _); [left; reflexivity | apply IH].
  - rewrite bucket_match_empty; [left; reflexivity | | exact Hlen | exact Ek].
    apply Forall_bucket_ref; [intros _; reflexivity | exact He].
Qed.

Lemma key_of_out_of_range bs sz x :
  length bs = Z.to_nat sz -> sz <= x -> 0 <= sz ->
  key_of (bucket_ref bs x) = None.
Proof.
  intros Hlen Hx Hsz. unfold bucket_ref.
  rewrite lookup_ge_None_2 by lia. reflexivity.
Qed.

Lemma bucket_ref_negative bs x : x < 0 -> bucket_ref bs x = bucket_ref bs 0.
Proof.
  intros Hx. unfold bucket_ref. replace (Z.to_nat x) with (Z.to_nat 0) by lia.
  reflexivity.
Qed.

(** [rhashmap_get] returns what the search of the array finds. *)
Lemma rhashmap_get_find hmap key len :
  well_formed murmurhash3 hmap -> 0 < len ->
  rhashmap_get murmurhash3 hmap key len
  = Done (default NULL (find_key hmap key len)).
Proof.
  intros ((Hok & Hsz & Hrh) & He & Hu & Hh) Hlen.
  pose proof Hok as (Hm & Hl & _). pose proof Hm as [Hs _].
  pose proof Hrh as (_ & Hf & Hpsl & Hord).
  unfold rhashmap_get, find_key.
  set (hash := compute_hash murmurhash3 hmap key len).
  destruct (find_bucket_cases (hm_size hmap) (hm_buckets hmap) key len Hl)
    as [(j & Hj & Hkey & ->) | [Hno ->]]; cbn [option_map default].
  - assert (Hhash : b_hash (bucket_ref (hm_buckets hmap) j) = hash)
      by (eapply held_hash; eassumption).
    assert (Hkj : b_key (bucket_ref (hm_buckets hmap) j) <> None)
      by (apply key_of_occupied; rewrite Hkey; discriminate).
    assert (Hpos : 0 < hm_size hmap) by lia.
    pose proof (psl_lt _ _ j Hpos Hpsl Hj Hkj) as Hp.
    assert (Hn0 : 0 <= 0 <= b_psl (bucket_ref (hm_buckets hmap) j)) by lia.
    pose proof (get_probe_path hmap key len hash j Hm Hsz Hrh Hu Hj Hkey
                  Hhash probe_fuel 0 Hn0) as Hg.
    replace (slot hmap hash)
      with ((j - (b_psl (bucket_ref (hm_buckets hmap) j) - 0))
            mod hm_size hmap).
    + apply Hg. unfold probe_fuel. lia.
    + rewrite Z.sub_0_r. rewrite (Hpsl j Hj Hkj), Hhash.
      rewrite sub_back by (try apply mod_range; lia).
      symmetry. apply slot_is_mod; [exact Hm | apply compute_hash_range].
  - assert (Hno' : forall x,
      key_of (bucket_ref (hm_buckets hmap) x) <> Some (the_key key len)).
    { intros x. destruct (Z_lt_le_dec x 0) as [? | ?];
        [| destruct (Z_lt_le_dec x (hm_size hmap)) as [? | ?]].
      - rewrite bucket_ref_negative by lia. apply Hno. lia.
      - apply Hno. lia.
      - rewrite (key_of_out_of_range _ (hm_size hmap)) by lia. discriminate. }
    destruct (get_probe_miss hmap key len hash He Hlen Hno' probe_fuel 0
                (slot hmap hash)) as [E | E]; [exact E |].
    exfalso. revert E. apply get_probe_returns; [exact Hf | lia |].
    unfold probe_fuel. lia.
Qed.

End Lookup.

(** ** Arithmetic round the array, continued *)

Lemma dist_next x i sz :
  0 <= x < sz -> 0 <= i < sz -> x <> i ->
  (x - (i + 1) mod sz) mod sz = (x - i) mod sz - 1.
Proof.
  intros Hx Hi Hne.
  destruct (next_cases i sz Hi) as [[-> ?]|[-> ?]].
  - destruct (sub_cases x i sz Hx Hi) as [[-> ?]|[-> ?]];
      destruct (sub_cases x (i + 1) sz Hx ltac:(lia)) as [[-> ?]|[-> ?]]; lia.
  - destruct (sub_cases x i sz Hx Hi) as [[-> ?]|[-> ?]];
      destruct (sub_cases x 0 sz Hx ltac:(lia)) as [[-> ?]|[-> ?]]; lia.
Qed.

Lemma dist_self_next i sz :
  0 <= i < sz -> (i - (i + 1) mod sz) mod sz = sz - 1.
Proof.
  intros Hi.
  destruct (next_cases i sz Hi) as [[-> ?]|[-> ?]].
  - destruct (sub_cases i (i + 1) sz Hi ltac:(lia)) as [[-> ?]|[-> ?]]; lia.
  - destruct (sub_cases i 0 sz Hi ltac:(lia)) as [[-> ?]|[-> ?]]; lia.
Qed.

Lemma dist_pos x i sz :
  0 <= x < sz -> 0 <= i < sz -> x <> i -> 1 <= (x - i) mod sz < sz.
Proof.
  intros Hx Hi Hne.
  destruct (sub_cases x i sz Hx Hi) as [[-> ?]|[-> ?]]; lia.
Qed.

(** ** What the buckets store *)

Lemma core_set_psl b p : core (set_psl b p) = core b.
Proof. reflexivity. Qed.

Lemma key_of_set_psl b p : key_of (set_psl b p) = key_of b.
Proof. reflexivity. Qed.

Lemma core_key_of a b : core a = core b -> key_of a = key_of b.
Proof. unfold core, key_of. intros E. inversion E. congruence. Qed.

Lemma core_val a b : core a = core b -> b_val a = b_val b.
Proof. unfold core. intros E. inversion E. congruence. Qed.

Lemma bucket_ref_set bs sz i b x :
  length bs = Z.to_nat sz -> 0 <= i < sz -> 0 <= x < sz ->
  bucket_ref (bucket_set bs i b) x = if Z.eq_dec x i then b else bucket_ref bs x.
Proof.
  intros Hlen Hi Hx. destruct (Z.eq_dec x i) as [-> | Hne].
  - apply bucket_ref_set_eq; lia.
  - apply bucket_ref_set_ne; lia.
Qed.

Lemma in_cores_split sz bs i c :
  0 <= i < sz ->
  in_cores sz bs c <->
  (b_key (bucket_ref bs i) <> None /\ core (bucket_ref bs i) = c) \/
  (exists x, 0 <= x < sz /\ x <> i /\ b_key (bucket_ref bs x) <> None /\
             core (bucket_ref bs x) = c).
Proof.
  intros Hi. split.
  - intros (x & Hx & Hk & Hc). destruct (Z.eq_dec x i) as [-> | Hne].
    + left. split; assumption.
    + right. exists x. split; [exact Hx |]. split; [exact Hne |].
      split; assumption.
  - intros [[Hk Hc] | (x & Hx & _ & Hk & Hc)].
    + exists i. split; [exact Hi |]. split; assumption.
    + exists x. split; [exact Hx |]. split; assumption.
Qed.

Lemma in_cores_set sz bs i b c :
  length bs = Z.to_nat sz -> 0 <= i < sz ->
  in_cores sz (bucket_set bs i b) c <->
  (b_key b <> None /\ core b = c) \/
  (exists x, 0 <= x < sz /\ x <> i /\ b_key (bucket_ref bs x) <> None /\
             core (bucket_ref bs x) = c).
Proof.
  intros Hlen Hi. rewrite (in_cores_split sz _ i c Hi).
  rewrite bucket_ref_set_eq by lia.
  split; (intros [H | (x & Hx & Hne & Hk & Hc)]; [left; exact H | right]).
  - rewrite bucket_ref_set_ne in Hk, Hc by lia. exists x. auto.
  - exists x. rewrite !bucket_ref_set_ne by lia. auto.
Qed.

Lemma unique_keys_set sz bs i b :
  length bs = Z.to_nat sz -> 0 <= i < sz ->
  unique_keys sz bs ->
  (forall x, 0 <= x < sz -> x <> i -> key_of (bucket_ref bs x) <> None ->
     key_of (bucket_ref bs x) <> key_of b) ->
  unique_keys sz (bucket_set bs i b).
Proof.
  intros Hlen Hi Hu Hfresh a c Ha Hc Hka Heq.
  rewrite (bucket_ref_set bs sz i b a Hlen Hi Ha) in Hka, Heq.
  rewrite (bucket_ref_set bs sz i b c Hlen Hi Hc) in Heq.
  destruct (Z.eq_dec a i) as [-> | Hai]; destruct (Z.eq_dec c i) as [-> | Hci].
  - reflexivity.
  - exfalso. apply (Hfresh c Hc Hci); [rewrite <- Heq; exact Hka |].
    symmetry. exact Heq.
  - exfalso. apply (Hfresh a Ha Hai Hka). exact Heq.
  - apply Hu; assumption.
Qed.

Section Insert.
Variable murmurhash3 : list byte -> Z -> Z -> Z.
Hypothesis murmurhash3_reads : reads_len_bytes murmurhash3.

(** ** The insertion of a key that is not held *)

Lemma insert_probe_new fuel hmap key len hash val :
  modulus_ok hmap ->
  forall bs entry i e hmap' ret,
    length bs = Z.to_nat (hm_size hmap) ->
    0 <= i < hm_size hmap -> 0 <= e < hm_size hmap ->
    b_key (bucket_ref bs e) = None ->
    b_key entry <> None ->
    unique_keys (hm_size hmap) bs ->
    (forall x, 0 <= x < hm_size hmap ->
       key_of (bucket_ref bs x) <> key_of entry) ->
    (forall x, 0 <= x < hm_size hmap ->
       key_of (bucket_ref bs x) = Some (the_key key len) ->
       (e - i) mod hm_size hmap < (x - i) mod hm_size hmap) ->
    insert_probe fuel hmap key len hash val bs entry i = Done (hmap', ret) ->
    ret = val /\
    unique_keys (hm_size hmap) (hm_buckets hmap') /\
    (forall c, in_cores (hm_size hmap) (hm_buckets hmap') c <->
               in_cores (hm_size hmap) bs c \/ c = core entry).
Proof.
  intros Hm. pose proof Hm as [Hs _]. set (sz := hm_size hmap) in *.
  induction fuel as [| fuel IH];
    intros bs entry i e hmap' ret Hlen Hi He Hke Hek Hu Hfresh HK H;
    simpl in H; [discriminate |].
  assert (Hkent : key_of entry <> None) by (apply key_of_occupied; exact Hek).
  assert (Huset : unique_keys sz (bucket_set bs i entry)).
  { apply unique_keys_set; [exact Hlen | exact Hi | exact Hu |].
    intros x Hx _ _. apply Hfresh. exact Hx. }
  destruct (b_key (bucket_ref bs i)) as [k |] eqn:Hk.
  - assert (Hki : b_key (bucket_ref bs i) <> None) by (rewrite Hk; discriminate).
    assert (Hne : i <> e) by (intros ->; congruence).
    assert (Hnk : key_of (bucket_ref bs i) <> Some (the_key key len)).
    { intros E. specialize (HK i Hi E).
      rewrite Z.sub_diag, Z.mod_0_l in HK by lia.
      pose proof (mod_range (e - i) sz ltac:(lia)). lia. }
    rewrite (bucket_match_other _ k hash key len Hk Hnk) in H. cbn [bind] in H.
    rewrite (slot_next hmap i Hm Hi) in H. fold sz in H.
    set (i' := (i + 1) mod sz) in *.
    assert (Hi' : 0 <= i' < sz) by (apply mod_range; lia).
    pose proof (dist_pos e i sz He Hi ltac:(lia)) as Hde.
    assert (Hde' : (e - i') mod sz = (e - i) mod sz - 1)
      by (apply dist_next; [exact He | exact Hi | lia]).
    destruct (b_psl entry >? b_psl (bucket_ref bs i)).
    + (* the entry takes the bucket *)
      eapply (IH _ _ i' e) in H;
        [| rewrite length_bucket_set; exact Hlen | exact Hi' | exact He
         | rewrite bucket_ref_set_ne by lia; exact Hke
         | simpl; exact Hki | exact Huset | |].
      * destruct H as (Hret & Hu' & Hc'). split; [exact Hret |].
        split; [exact Hu' |]. intros c. rewrite Hc'.
        rewrite (in_cores_set sz bs i entry c Hlen Hi).
        rewrite (in_cores_split sz bs i c Hi). rewrite core_set_psl.
        split.
        -- intros [[[_ E] | Hx] | E]; [right; congruence | left; right; exact Hx |].
           left. left. split; [exact Hki | congruence].
        -- intros [[[_ E] | Hx] | E]; [right; congruence | left; right; exact Hx |].
           left. left. split; [exact Hek | congruence].
      * intros x Hx. rewrite key_of_set_psl.
        rewrite (bucket_ref_set bs sz i entry x Hlen Hi Hx).
        destruct (Z.eq_dec x i) as [-> | Hxi].
        -- intros E. apply (Hfresh i Hi). symmetry. exact E.
        -- intros E. apply Hxi. symmetry.
           apply Hu; [exact Hi | exact Hx | apply key_of_occupied; exact Hki |].
           symmetry. exact E.
      * intros x Hx. rewrite (bucket_ref_set bs sz i entry x Hlen Hi Hx).
        rewrite Hde'. destruct (Z.eq_dec x i) as [-> | Hxi].
        -- intros _. unfold i'. rewrite dist_self_next by exact Hi. lia.
        -- intros E. specialize (HK x Hx E). unfold i'.
           rewrite dist_next by assumption. lia.
    + (* the entry travels on *)
      eapply (IH _ _ i' e) in H;
        [| exact Hlen | exact Hi' | exact He | exact Hke | simpl; exact Hek
         | exact Hu | |].
      * destruct H as (Hret & Hu' & Hc'). split; [exact Hret |].
        split; [exact Hu' |]. intros c. rewrite Hc', core_set_psl. tauto.
      * intros x Hx. rewrite key_of_set_psl. apply Hfresh. exact Hx.
      * intros x Hx E. specialize (HK x Hx E). rewrite Hde'.
        assert (x <> i).
        { intros ->. rewrite Z.sub_diag, Z.mod_0_l in HK by lia. lia. }
        unfold i'. rewrite dist_next by assumption. lia.
  - inversion H; subst. cbn [hm_buckets set_nitems set_buckets].
    split; [reflexivity |]. split; [exact Huset |].
    intros c. rewrite (in_cores_set sz bs i entry c Hlen Hi).
    rewrite (in_cores_split sz bs i c Hi). rewrite Hk. split.
    + intros [[_ E] | Hx]; [right; congruence | left; right; exact Hx].
    + intros [[[E _] | Hx] | E]; [congruence | right; exact Hx |].
      left. split; [exact Hek | congruence].
Qed.

(** ** The insertion of a key that is held *)

Lemma insert_probe_dup hmap key len hash val j :
  modulus_ok hmap -> hm_size hmap <= 2 ^ 16 ->
  forall bs,
    rh_ok (hm_size hmap) bs -> unique_keys (hm_size hmap) bs ->
    0 <= j < hm_size hmap ->
    key_of (bucket_ref bs j) = Some (the_key key len) ->
    b_hash (bucket_ref bs j) = hash ->
    forall fuel entry,
      0 <= b_psl entry <= b_psl (bucket_ref bs j) ->
      b_psl (bucket_ref bs j) - b_psl entry < Z.of_nat fuel ->
      insert_probe fuel hmap key len hash val bs entry
        ((j - (b_psl (bucket_ref bs j) - b_psl entry)) mod hm_size hmap)
      = Done (set_buckets hmap bs, b_val (bucket_ref bs j)).
Proof.
  intros Hm Hsz bs (Hlen & Hf & Hpsl & Hord) Hu Hj Hkey Hhash.
  pose proof Hm as [Hs _]. set (sz := hm_size hmap) in *.
  assert (Hkj : b_key (bucket_ref bs j) <> None)
    by (apply key_of_occupied; rewrite Hkey; discriminate).
  assert (Hpos : 0 < sz) by lia.
  pose proof (psl_lt sz bs j Hpos Hpsl Hj Hkj) as Hp.
  set (p := b_psl (bucket_ref bs j)) in *.
  induction fuel as [| fuel IH]; intros entry Hn Hfu; [lia |].
  cbn [insert_probe].
  set (n := b_psl entry) in *.
  set (x := (j - (p - n)) mod sz).
  assert (Hx : 0 <= x < sz) by (apply mod_range; lia).
  assert (Hmn : Z.of_nat (Z.to_nat (p - n)) <= b_psl (bucket_ref bs j))
    by (fold p; lia).
  destruct (occupied_run sz bs Hpos Hord (Z.to_nat (p - n)) j Hj Hkj Hmn)
    as [Hkx Hpx].
  rewrite Z2Nat.id in Hkx, Hpx by lia. fold x p in Hkx, Hpx.
  destruct (b_key (bucket_ref bs x)) as [k |] eqn:Ek; [| congruence].
  destruct (Z.eq_dec n p) as [Enp | Hnp].
  - assert (x = j).
    { unfold x. rewrite Enp. replace (j - (p - p)) with j by lia.
      apply Z.mod_small. lia. }
    subst x. rewrite H in *.
    rewrite (bucket_match_same _ k hash key len Ek Hkey Hhash). reflexivity.
  - assert (Hxj : x <> j).
    { unfold x. destruct (sub_cases j (p - n) sz Hj ltac:(lia))
        as [[-> ?]|[-> ?]]; lia. }
    rewrite (bucket_match_other _ k hash key len Ek).
    + cbn [bind]. destruct (Z.gtb_spec n (b_psl (bucket_ref bs x))); [lia |].
      assert (Hu16 : u16 (n + 1) = n + 1).
      { unfold u16. apply Z.mod_small. lia. }
      cbv beta iota. fold n. rewrite Hu16.
      rewrite (slot_next hmap x Hm Hx). fold sz. unfold x.
      rewrite step_back by lia.
      replace (p - n - 1) with (p - b_psl (set_psl entry (n + 1)))
        by (simpl; lia).
      apply IH; simpl; lia.
    + intros E. apply Hxj. apply Hu; [exact Hx | exact Hj | |].
      * rewrite E. discriminate.
      * rewrite E, Hkey. reflexivity.
Qed.

End Insert.

(** ** The world while no allocation fails *)

Lemma alloc_calm w : allocs w = [] -> alloc w = (true, w).
Proof. intros H. unfold alloc. rewrite H. reflexivity. Qed.

Lemma random_allocs w : allocs (random w).2 = allocs w.
Proof. unfold random. destruct (rands w); reflexivity. Qed.

Lemma fresh_table_allocs hmap newsize w w3 fresh :
  fresh_table hmap newsize w = (w3, fresh) -> allocs w3 = allocs w.
Proof.
  unfold fresh_table. intros H.
  pose proof (random_allocs w) as H1.
  destruct (random w) as [r1 w2]. pose proof (random_allocs w2) as H2.
  destruct (random w2) as [r2 w3']. inversion H; subst. simpl in *. congruence.
Qed.

Lemma set_buckets_same hmap : set_buckets hmap (hm_buckets hmap) = hmap.
Proof. destruct hmap. reflexivity. Qed.

Lemma find_bucket_ext bs k1 l1 k2 l2 :
  the_key k1 l1 = the_key k2 l2 ->
  find_bucket bs k1 l1 = find_bucket bs k2 l2.
Proof.
  intros E. induction bs as [| b bs IH]; [reflexivity |]. cbn [find_bucket].
  destruct (b_key b) as [k |] eqn:Hk; [| exact IH].
  destruct ((b_len b =? l1) && memcmp_eq k k1 l1) eqn:E1;
    destruct ((b_len b =? l2) && memcmp_eq k k2 l2) eqn:E2;
    try reflexivity; try exact IH; exfalso.
  - apply (key_of_match b k) in E1; [| exact Hk]. rewrite E in E1.
    apply (key_of_match b k) in E1; [congruence | exact Hk].
  - apply (key_of_match b k) in E2; [| exact Hk]. rewrite <- E in E2.
    apply (key_of_match b k) in E2; [congruence | exact Hk].
Qed.

Lemma find_bucket_replicate n key len :
  find_bucket (replicate n zero_bucket) key len = None.
Proof. induction n as [| n IH]; [reflexivity | exact IH]. Qed.

Lemma core_fields a b :
  core a = core b ->
  b_key a = b_key b /\ b_val a = b_val b /\ b_hash a = b_hash b /\
  b_len a = b_len b.
Proof. unfold core. intros E. inversion E. auto. Qed.

Section Put.
Variable murmurhash3 : list byte -> Z -> Z -> Z.
Hypothesis murmurhash3_reads : reads_len_bytes murmurhash3.

Lemma compute_hash_same hmap hmap' key len :
  hm_flags hmap' = hm_flags hmap -> hm_hashkey hmap' = hm_hashkey hmap ->
  compute_hash murmurhash3 hmap' key len = compute_hash murmurhash3 hmap key len.
Proof. unfold compute_hash. intros -> ->. reflexivity. Qed.

Lemma rhashmap_insert_empties w hmap key len val w' hmap' ret :
  empties_ok hmap ->
  rhashmap_insert murmurhash3 w hmap key len val = Done (w', hmap', ret) ->
  empties_ok hmap'.
Proof.
  apply (rhashmap_insert_inv murmurhash3 empty_len_zero).
  - apply empty_len_zero_zero.
  - intros k v h l _ Hk. discriminate.
  - intros b p Hb Hk. apply Hb. exact Hk.
Qed.

(** The insertion with its allocation done. *)
Lemma rhashmap_insert_calm w hmap key len val :
  allocs w = [] ->
  exists ek,
    the_key ek len = the_key key len /\
    rhashmap_insert murmurhash3 w hmap key len val =
    let* (hmap', ret) <-
      insert_probe (Z.to_nat (hm_size hmap)) hmap key len
        (compute_hash murmurhash3 hmap key len) val (hm_buckets hmap)
        (mkBucket (Some ek) val (compute_hash murmurhash3 hmap key len) 0
           (u16 len))
        (slot hmap (compute_hash murmurhash3 hmap key len)) in
    Done (w, hmap', ret).
Proof.
  intros Hw. unfold rhashmap_insert. rewrite (alloc_calm w Hw).
  destruct (Z.land (hm_flags hmap) RHM_NOCOPY =? 0).
  - exists (take (Z.to_nat len) key). split; [apply the_key_take | reflexivity].
  - exists key. split; reflexivity.
Qed.

(** ** What an insertion does to the lookup *)

Lemma rhashmap_insert_spec w hmap key len val w' hmap' ret :
  well_formed murmurhash3 hmap -> hm_nitems hmap < hm_size hmap ->
  0 <= len < 2 ^ 16 -> allocs w = [] ->
  rhashmap_insert murmurhash3 w hmap key len val = Done (w', hmap', ret) ->
  w' = w /\ well_formed murmurhash3 hmap' /\
  ret = default val (find_key hmap key len) /\
  forall k l,
    find_key hmap' k l =
    if key_eqb k l key len then Some ret else find_key hmap k l.
Proof.
  intros Hwf Hlt Hlen Hw H.
  pose proof Hwf as (Hrh & He & Hu & Hh).
  pose proof Hrh as (Hok & Hsz & Hr).
  pose proof Hok as (Hm & Hl & Hn & Hmin). pose proof Hm as [Hs _].
  pose proof Hr as (_ & Hf & Hpsl & Hord).
  pose proof (rhashmap_insert_rh murmurhash3 _ _ _ _ _ _ _ _ Hrh Hlt H) as Hrh'.
  pose proof (rhashmap_insert_empties _ _ _ _ _ _ _ _ He H) as He'.
  destruct (rhashmap_insert_modulus _ _ _ _ _ _ _ _ _ H)
    as (Hs' & _ & Hfl' & _ & Hhk').
  destruct (rhashmap_insert_calm w hmap key len val Hw) as (ek & Hek & Heq).
  rewrite Heq in H. clear Heq.
  set (hash := compute_hash murmurhash3 hmap key len) in *.
  assert (Hu16 : u16 len = len) by (unfold u16; apply Z.mod_small; lia).
  rewrite Hu16 in H.
  set (entry := mkBucket (Some ek) val hash 0 len) in *.
  assert (Hkent : key_of entry = Some (the_key key len)).
  { unfold key_of, entry. cbn. fold (the_key ek len). rewrite Hek. reflexivity. }
  bind_case H E. destruct a as [h1 r1]. inversion H; subst w' hmap' ret.
  clear H. split; [reflexivity |].
  destruct (find_bucket_cases (hm_size hmap) (hm_buckets hmap) key len Hl)
    as [(j & Hj & Hkey & Hfind) | [Hno Hfind]].
  - (* the key is held: nothing changes *)
    assert (Hhash : b_hash (bucket_ref (hm_buckets hmap) j) = hash)
      by (eapply held_hash; eassumption).
    assert (Hkj : b_key (bucket_ref (hm_buckets hmap) j) <> None)
      by (apply key_of_occupied; rewrite Hkey; discriminate).
    assert (Hpos : 0 < hm_size hmap) by lia.
    pose proof (psl_lt _ _ j Hpos Hpsl Hj Hkj) as Hp.
    assert (Hn0 : 0 <= b_psl entry <= b_psl (bucket_ref (hm_buckets hmap) j))
      by (cbn; lia).
    pose proof (insert_probe_dup hmap key len hash val j Hm Hsz
                  (hm_buckets hmap) Hr Hu Hj Hkey Hhash
                  (Z.to_nat (hm_size hmap)) entry Hn0) as Hd.
    replace ((j - (b_psl (bucket_ref (hm_buckets hmap) j) - b_psl entry))
             mod hm_size hmap) with (slot hmap hash) in Hd.
    2:{ cbn [b_psl entry]. rewrite Z.sub_0_r. rewrite (Hpsl j Hj Hkj), Hhash.
        rewrite sub_back by (try apply mod_range; lia).
        apply slot_is_mod; [exact Hm | apply compute_hash_range]. }
    rewrite Hd in E by (cbn [b_psl entry]; lia).
    inversion E; subst h1 r1. rewrite set_buckets_same.
    split; [exact Hwf |].
    assert (Hfk : find_key hmap key len
                  = Some (b_val (bucket_ref (hm_buckets hmap) j))).
    { unfold find_key. rewrite Hfind. reflexivity. }
    split; [rewrite Hfk; reflexivity |].
    intros k l. destruct (key_eqb k l key len) eqn:Ek; [| reflexivity].
    apply key_eqb_spec in Ek. unfold find_key.
    rewrite (find_bucket_ext _ k l key len Ek), Hfind. reflexivity.
  - (* the key is new *)
    destruct (count_lt_empty (hm_buckets hmap)) as (e & He0 & Hek0); [lia |].
    pose proof (slot_hash_range murmurhash3 hmap key len Hm) as Hi.
    eapply (insert_probe_new _ hmap key len hash val Hm) in E;
      [| exact Hl | exact Hi | | exact Hek0 | cbn; discriminate | exact Hu
       | | ].
    2:{ lia. }
    2:{ intros x Hx. rewrite Hkent. apply Hno. exact Hx. }
    2:{ intros x Hx Hk. exfalso. apply (Hno x Hx). exact Hk. }
    destruct E as (-> & Hu' & Hc').
    assert (Hfk : find_key hmap key len = None).
    { unfold find_key. rewrite Hfind. reflexivity. }
    assert (Hl' : length (hm_buckets h1) = Z.to_nat (hm_size hmap)).
    { destruct Hrh' as ((_ & Hl1 & _) & _). rewrite Hl1, Hs'. reflexivity. }
    split.
    { split; [exact Hrh' |]. split; [exact He' |].
      rewrite Hs'. split; [exact Hu' |].
      intros i k Hi1 Hk.
      assert (Hin : in_cores (hm_size hmap) (hm_buckets h1)
                      (core (bucket_ref (hm_buckets h1) i))).
      { exists i. split; [lia |]. split; [rewrite Hk; discriminate | reflexivity]. }
      rewrite (compute_hash_same hmap h1) by assumption.
      apply Hc' in Hin. destruct Hin as [(x & Hx & Hkx & Hcx) | Hcx];
        apply core_fields in Hcx; destruct Hcx as (Ck & _ & Ch & Cl).
      - rewrite <- Ch, <- Cl. apply Hh; [exact Hx | congruence].
      - rewrite Ch, Cl. cbn [b_hash b_len entry].
        rewrite Ck in Hk. cbn [b_key entry] in Hk. inversion Hk; subst k.
        unfold hash. symmetry.
        apply compute_hash_the_key; [exact murmurhash3_reads | lia |].
        exact Hek. }
    split; [rewrite Hfk; reflexivity |].
    intros k l. unfold find_key.
    destruct (key_eqb k l key len) eqn:Ek.
    + apply key_eqb_spec in Ek.
      assert (Hin : in_cores (hm_size hmap) (hm_buckets h1) (core entry))
        by (apply Hc'; right; reflexivity).
      destruct Hin as (x & Hx & Hkx & Hcx).
      rewrite (find_bucket_at (hm_size hmap) _ k l x Hl' Hu' Hx).
      * cbn [option_map]. rewrite (core_val _ _ Hcx). reflexivity.
      * rewrite (core_key_of _ _ Hcx), Hkent, Ek. reflexivity.
    + assert (Hne : the_key k l <> the_key key len).
      { intros E. apply key_eqb_spec in E. congruence. }
      destruct (find_bucket_cases (hm_size hmap) (hm_buckets hmap) k l Hl)
        as [(x0 & Hx0 & Hk0 & ->) | [Hno0 ->]].
      * assert (Hin : in_cores (hm_size hmap) (hm_buckets h1)
                        (core (bucket_ref (hm_buckets hmap) x0))).
        { apply Hc'. left. exists x0. split; [exact Hx0 |].
          split; [| reflexivity]. apply key_of_occupied. rewrite Hk0.
          discriminate. }
        destruct Hin as (x & Hx & Hkx & Hcx).
        rewrite (find_bucket_at (hm_size hmap) _ k l x Hl' Hu' Hx).
        -- cbn [option_map]. rewrite (core_val _ _ Hcx). reflexivity.
        -- rewrite (core_key_of _ _ Hcx). exact Hk0.
      * rewrite (find_bucket_absent (hm_size hmap)); [reflexivity | exact Hl' |].
        intros x Hx Hk.
        assert (Hin : in_cores (hm_size hmap) (hm_buckets h1)
                        (core (bucket_ref (hm_buckets h1) x))).
        { exists x. split; [exact Hx |]. split; [| reflexivity].
          apply key_of_occupied. rewrite Hk. discriminate. }
        apply Hc' in Hin. destruct Hin as [(x0 & Hx0 & Hkx0 & Hcx) | Hcx].
        -- apply (Hno0 x0 Hx0). rewrite (core_key_of _ _ Hcx). exact Hk.
        -- apply Hne. apply core_key_of in Hcx. rewrite Hk, Hkent in Hcx.
           congruence.
Qed.

(** ** The re-insertion *)

Lemma rehash_spec old : forall w hmap w' hmap',
  well_formed murmurhash3 hmap -> allocs w = [] -> Forall fields_ok old ->
  hm_nitems hmap + count old <= hm_size hmap ->
  rehash murmurhash3 w hmap old = Done (w', hmap') ->
  w' = w /\ well_formed murmurhash3 hmap' /\
  forall k l,
    find_key hmap' k l =
    match find_key hmap k l with
    | Some v => Some v
    | None => option_map b_val (find_bucket old k l)
    end.
Proof.
  induction old as [| b old IH]; intros w hmap w' hmap' Hwf Hw Hf Hlt H;
    simpl in H.
  - inversion H; subst. split; [reflexivity |]. split; [exact Hwf |].
    intros k l. cbn [find_bucket option_map].
    destruct (find_key _ k l); reflexivity.
  - rewrite count_cons in Hlt. unfold occ in Hlt.
    pose proof (count_range old) as Hr.
    inversion Hf as [| ? ? Hfb Hfo]; subst.
    destruct (b_key b) as [bk |] eqn:Hk.
    + bind_case H E. destruct a as [[w1 h1] r1].
      destruct Hfb as (_ & _ & Hbl).
      assert (Hlt1 : hm_nitems hmap < hm_size hmap) by lia.
      destruct (rhashmap_insert_spec _ _ _ _ _ _ _ _ Hwf Hlt1 Hbl Hw E)
        as (-> & Hwf1 & Hret & Hfind1).
      destruct Hwf as ((Hok & _) & _).
      destruct (rhashmap_insert_shape _ _ _ _ _ _ _ _ _ Hok E) as [_ Hle].
      destruct (rhashmap_insert_modulus _ _ _ _ _ _ _ _ _ E) as (Hs1 & _).
      assert (Hlt2 : hm_nitems h1 + count old <= hm_size h1) by lia.
      destruct (IH _ _ _ _ Hwf1 Hw Hfo Hlt2 H) as (-> & Hwf' & Hfind').
      split; [reflexivity |]. split; [exact Hwf' |].
      intros k l. rewrite Hfind', Hfind1. cbn [find_bucket]. rewrite Hk.
      destruct (key_eqb k l bk (b_len b)) eqn:Ek.
      * pose proof Ek as Ek'. apply key_eqb_spec in Ek'.
        assert (Em : (b_len b =? l) && memcmp_eq bk k l = true).
        { apply (key_of_match b bk); [exact Hk |].
          unfold key_of. rewrite Hk. fold (the_key bk (b_len b)).
          rewrite Ek'. reflexivity. }
        rewrite Em. cbn [option_map].
        unfold find_key at 1. rewrite (find_bucket_ext _ k l bk (b_len b) Ek').
        fold (find_key hmap bk (b_len b)). rewrite Hret.
        destruct (find_key hmap bk (b_len b)); reflexivity.
      * assert (Em : (b_len b =? l) && memcmp_eq bk k l = false).
        { destruct ((b_len b =? l) && memcmp_eq bk k l) eqn:Em;
            [| reflexivity].
          apply (key_of_match b bk) in Em; [| exact Hk].
          unfold key_of in Em. rewrite Hk in Em.
          assert (the_key k l = the_key bk (b_len b))
            by (unfold the_key in *; congruence).
          apply key_eqb_spec in H0. congruence. }
        rewrite Em. reflexivity.
    + assert (Hlt2 : hm_nitems hmap + count old <= hm_size hmap) by lia.
      destruct (IH _ _ _ _ Hwf Hw Hfo Hlt2 H) as (-> & Hwf' & Hfind').
      split; [reflexivity |]. split; [exact Hwf' |].
      intros k l. rewrite Hfind'. cbn [find_bucket]. rewrite Hk. reflexivity.
Qed.

Lemma fresh_table_well_formed hmap newsize w w3 fresh :
  1 <= newsize <= 2 ^ 16 -> 1 <= hm_minsize hmap < 2 ^ 32 ->
  fresh_table hmap newsize w = (w3, fresh) ->
  well_formed murmurhash3 fresh /\ forall k l, find_key fresh k l = None.
Proof.
  intros Hn Hmin Ef.
  assert (Hn' : 1 <= newsize <= UINT_MAX) by (unfold UINT_MAX; lia).
  destruct (fresh_table_ok _ _ _ _ _ Hn' Hmin Ef)
    as (Hok & Hs & Hni & _ & _ & Hbs).
  split.
  - split; [| split; [| split]].
    + split; [exact Hok |]. split; [lia |]. rewrite Hs, Hbs.
      apply rh_ok_replicate. lia.
    + unfold empties_ok. rewrite Hbs. apply Forall_replicate.
      apply empty_len_zero_zero.
    + intros i j _ _ Hk _. rewrite Hbs, bucket_ref_replicate in Hk.
      contradiction.
    + intros i k _ Hk. rewrite Hbs, bucket_ref_replicate in Hk. discriminate.
  - intros k l. unfold find_key. rewrite Hbs, find_bucket_replicate.
    reflexivity.
Qed.

Lemma rhashmap_resize_spec w hmap newsize w' hmap' rc :
  allocs w = [] -> 1 <= hm_minsize hmap < 2 ^ 32 ->
  0 <= newsize <= 2 ^ 16 ->
  Forall fields_ok (old_buckets hmap newsize) ->
  count (old_buckets hmap newsize) <= newsize ->
  rhashmap_resize murmurhash3 w hmap newsize = Done (w', hmap', rc) ->
  rc = 0 /\ allocs w' = [] /\ well_formed murmurhash3 hmap' /\
  hm_size hmap' = newsize /\
  forall k l,
    find_key hmap' k l =
    option_map b_val (find_bucket (old_buckets hmap newsize) k l).
Proof.
  intros Hw Hmin Hn Hf Hc H.
  assert (Hrc : rc = 0).
  { destruct (Z.eq_dec newsize 1) as [-> | Hne1].
    - rewrite rhashmap_resize_eq in H by (unfold UINT_MAX; lia).
      cbv zeta in H. cbn [Z.eqb] in H.
      destruct (fresh_table hmap 1 w) as [w3 fresh].
      bind_case H E. destruct a as [w4 h4]. inversion H. reflexivity.
    - eapply (rhashmap_resize_alloc_ok murmurhash3 w w);
        [exact Hne1 | unfold UINT_MAX; lia | apply alloc_calm; exact Hw
         | exact H]. }
  subst rc. split; [reflexivity |].
  destruct (rhashmap_resize_done _ _ _ _ _ _ (proj1 Hn) H)
    as (Hn1 & w1 & w3 & fresh & Hw1 & Ef & Er).
  assert (Ew1 : w1 = w).
  { destruct Hw1 as [-> | Ha]; [reflexivity |].
    rewrite (alloc_calm w Hw) in Ha. congruence. }
  subst w1.
  destruct (rhashmap_resize_modulus _ _ _ _ _ _ H) as (_ & Hs' & _).
  rewrite u32_small in Hs' by lia.
  pose proof (fresh_table_allocs _ _ _ _ _ Ef) as Hw3.
  assert (Hn2 : 1 <= newsize <= 2 ^ 16) by lia.
  destruct (fresh_table_well_formed _ _ _ _ _ Hn2 Hmin Ef) as [Hwf Hnone].
  destruct (fresh_table_ok _ _ _ _ _ Hn1 Hmin Ef) as (_ & Hs & Hni & _).
  assert (Hw3' : allocs w3 = []) by congruence.
  assert (Hcnt : hm_nitems fresh + count (old_buckets hmap newsize)
                 <= hm_size fresh) by lia.
  destruct (rehash_spec _ _ _ _ _ Hwf Hw3' Hf Hcnt Er) as (-> & Hwf' & Hfind).
  split; [exact Hw3' |]. split; [exact Hwf' |]. split; [exact Hs' |].
  intros k l. rewrite Hfind, Hnone. reflexivity.
Qed.

End Put.

Section Del.
Variable murmurhash3 : list byte -> Z -> Z -> Z.
Hypothesis murmurhash3_reads : reads_len_bytes murmurhash3.

(** ** The probe of the delete *)

Lemma del_probe_path hmap key len hash j :
  modulus_ok hmap -> hm_size hmap <= 2 ^ 16 ->
  rh_ok (hm_size hmap) (hm_buckets hmap) ->
  unique_keys (hm_size hmap) (hm_buckets hmap) ->
  0 <= j < hm_size hmap ->
  key_of (bucket_ref (hm_buckets hmap) j) = Some (the_key key len) ->
  b_hash (bucket_ref (hm_buckets hmap) j) = hash ->
  forall fuel n,
    0 <= n <= b_psl (bucket_ref (hm_buckets hmap) j) ->
    b_psl (bucket_ref (hm_buckets hmap) j) - n < Z.of_nat fuel ->
    del_probe fuel hmap key len hash n
      ((j - (b_psl (bucket_ref (hm_buckets hmap) j) - n)) mod hm_size hmap)
    = Done (Some j).
Proof.
  intros Hm Hsz (Hlen & Hf & Hpsl & Hord) Hu Hj Hkey Hhash.
  pose proof Hm as [Hs _]. set (sz := hm_size hmap) in *.
  set (bs := hm_buckets hmap) in *.
  assert (Hkj : b_key (bucket_ref bs j) <> None)
    by (apply key_of_occupied; rewrite Hkey; discriminate).
  assert (Hpos : 0 < sz) by lia.
  pose proof (psl_lt sz bs j Hpos Hpsl Hj Hkj) as Hp.
  set (p := b_psl (bucket_ref bs j)) in *.
  induction fuel as [| fuel IH]; intros n Hn Hfu; [lia |].
  cbn [del_probe]. fold bs.
  set (x := (j - (p - n)) mod sz).
  assert (Hx : 0 <= x < sz) by (apply mod_range; lia).
  assert (Hmn : Z.of_nat (Z.to_nat (p - n)) <= b_psl (bucket_ref bs j))
    by (fold p; lia).
  destruct (occupied_run sz bs Hpos Hord (Z.to_nat (p - n)) j Hj Hkj Hmn)
    as [Hkx Hpx].
  rewrite Z2Nat.id in Hkx, Hpx by lia. fold x p in Hkx, Hpx.
  destruct (b_key (bucket_ref bs x)) as [k |] eqn:Ek; [| congruence].
  destruct (Z.gtb_spec n (b_psl (bucket_ref bs x))); [lia |].
  destruct (Z.eq_dec n p) as [-> | Hnp].
  - assert (x = j).
    { unfold x. replace (j - (p - p)) with j by lia.
      apply Z.mod_small. lia. }
    clearbody x. subst x.
    rewrite (bucket_match_same _ k hash key len Ek Hkey Hhash). reflexivity.
  - assert (Hxj : x <> j).
    { unfold x. destruct (sub_cases j (p - n) sz Hj ltac:(lia))
        as [[-> ?]|[-> ?]]; lia. }
    rewrite (bucket_match_other _ k hash key len Ek).
    + cbn [bind]. rewrite (u32_small (n + 1)) by lia.
      rewrite (slot_next hmap x Hm Hx). fold sz. unfold x.
      rewrite step_back by lia.
      replace (p - n - 1) with (p - (n + 1)) by lia.
      apply IH; lia.
    + intros E. apply Hxj. apply Hu; [exact Hx | exact Hj | |].
      * rewrite E. discriminate.
      * rewrite E, Hkey. reflexivity.
Qed.

Lemma del_probe_miss hmap key len hash :
  (forall x, key_of (bucket_ref (hm_buckets hmap) x) <> Some (the_key key len)) ->
  forall fuel n i found,
    del_probe fuel hmap key len hash n i = Done found -> found = None.
Proof.
  intros Hno. induction fuel as [| fuel IH]; intros n i found H;
    [discriminate |].
  cbn [del_probe] in H.
  destruct (b_key (bucket_ref (hm_buckets hmap) i)) as [k |] eqn:Ek;
    [| congruence].
  destruct (n >? _); [congruence |].
  rewrite (bucket_match_other _ k hash key len Ek (Hno i)) in H.
  cbn [bind] in H. eapply IH. exact H.
Qed.

(** ** What the backward shift keeps *)

Lemma del_shift_cores fuel hmap :
  modulus_ok hmap ->
  forall bs i bs',
    length bs = Z.to_nat (hm_size hmap) -> 0 <= i < hm_size hmap ->
    del_shift fuel hmap bs i = Done bs' ->
    (forall c, in_cores (hm_size hmap) bs' c <->
               in_cores (hm_size hmap)
                 (bucket_set bs i (clear_bucket (bucket_ref bs i))) c) /\
    (unique_keys (hm_size hmap)
       (bucket_set bs i (clear_bucket (bucket_ref bs i))) ->
     unique_keys (hm_size hmap) bs').
Proof.
  intros Hm. pose proof Hm as [Hs _]. set (sz := hm_size hmap) in *.
  induction fuel as [| fuel IH]; intros bs i bs' Hlen Hi H; simpl in H;
    [discriminate |].
  set (bs1 := bucket_set bs i (clear_bucket (bucket_ref bs i))) in *.
  assert (Hl1 : length bs1 = Z.to_nat sz)
    by (unfold bs1; rewrite length_bucket_set; exact Hlen).
  assert (Hki : b_key (bucket_ref bs1 i) = None).
  { unfold bs1. rewrite bucket_ref_set_eq by lia. reflexivity. }
  rewrite (slot_next hmap i Hm Hi) in H. fold sz in H.
  set (i' := (i + 1) mod sz) in *.
  assert (Hi' : 0 <= i' < sz) by (apply mod_range; lia).
  destruct (b_key (bucket_ref bs1 i')) as [k |] eqn:Hk;
    [| inversion H; subst; split; [tauto | auto]].
  destruct (b_psl (bucket_ref bs1 i') =? 0);
    [inversion H; subst; split; [tauto | auto] |].
  assert (Hne : i <> i') by (intros E; rewrite <- E in Hk; congruence).
  set (nb := set_psl (bucket_ref bs1 i')
               (u16 (b_psl (bucket_ref bs1 i') - 1))) in *.
  set (bs3 := bucket_set (bucket_set bs1 i' nb) i nb) in *.
  assert (Hl3 : length bs3 = Z.to_nat sz)
    by (unfold bs3; rewrite !length_bucket_set; exact Hl1).
  destruct (IH bs3 i' bs' Hl3 Hi' H) as [Hc Hu].
  set (bs3c := bucket_set bs3 i' (clear_bucket (bucket_ref bs3 i'))) in *.
  assert (R3 : forall x, 0 <= x < sz ->
            bucket_ref bs3c x
            = if Z.eq_dec x i' then clear_bucket nb
              else if Z.eq_dec x i then nb else bucket_ref bs1 x).
  { intros x Hx. unfold bs3c, bs3.
    destruct (Z.eq_dec x i') as [-> | Hx'].
    - rewrite bucket_ref_set_eq by (rewrite ?length_bucket_set; lia).
      rewrite bucket_ref_set_ne by lia.
      rewrite bucket_ref_set_eq by (rewrite ?length_bucket_set; lia).
      reflexivity.
    - rewrite bucket_ref_set_ne by lia.
      destruct (Z.eq_dec x i) as [-> | Hxi].
      + rewrite bucket_ref_set_eq by (rewrite ?length_bucket_set; lia).
        reflexivity.
      + rewrite !bucket_ref_set_ne by lia. reflexivity. }
  assert (Hknb : b_key nb = Some k) by exact Hk.
  assert (Hcnb : core nb = core (bucket_ref bs1 i')) by reflexivity.
  split.
  - intros c. rewrite Hc. split.
    + intros (x & Hx & Hkx & Hcx). rewrite (R3 x Hx) in Hkx, Hcx.
      destruct (Z.eq_dec x i') as [-> | Hx']; [simpl in Hkx; congruence |].
      destruct (Z.eq_dec x i) as [-> | Hxi].
      * exists i'. split; [exact Hi' |]. split; [rewrite Hk; discriminate |].
        congruence.
      * exists x. split; [exact Hx |]. split; assumption.
    + intros (x & Hx & Hkx & Hcx).
      destruct (Z.eq_dec x i) as [-> | Hxi]; [congruence |].
      destruct (Z.eq_dec x i') as [-> | Hx'].
      * exists i. split; [exact Hi |]. rewrite (R3 i Hi).
        destruct (Z.eq_dec i i'); [congruence |].
        destruct (Z.eq_dec i i); [| congruence].
        split; [rewrite Hknb; discriminate | congruence].
      * exists x. split; [exact Hx |]. rewrite (R3 x Hx).
        destruct (Z.eq_dec x i'); [congruence |].
        destruct (Z.eq_dec x i); [congruence |]. split; assumption.
  - intros Hu1. apply Hu. intros a b Ha Hb Hka Heq.
    rewrite (R3 a Ha) in Hka, Heq. rewrite (R3 b Hb) in Heq.
    assert (Hkey_nb : key_of nb = key_of (bucket_ref bs1 i')) by reflexivity.
    assert (Hki0 : key_of (bucket_ref bs1 i) = None)
      by (unfold key_of; rewrite Hki; reflexivity).
    destruct (Z.eq_dec a i') as [-> | Ha'];
      [exfalso; apply Hka; reflexivity |].
    destruct (Z.eq_dec b i') as [-> | Hb'].
    { exfalso. apply Hka. rewrite Heq. reflexivity. }
    destruct (Z.eq_dec a i) as [-> | Hai]; destruct (Z.eq_dec b i) as [-> | Hbi].
    + reflexivity.
    + exfalso. apply Hb'. symmetry. apply Hu1; [exact Hi' | exact Hb | |].
      * rewrite <- Hkey_nb. exact Hka.
      * rewrite <- Hkey_nb. exact Heq.
    + exfalso. apply Ha'. apply Hu1; [exact Ha | exact Hi' | exact Hka |].
      rewrite <- Hkey_nb. exact Heq.
    + apply Hu1; assumption.
Qed.

(** ** What a delete does to the lookup *)

Lemma rhashmap_del_spec w hmap key len :
  well_formed murmurhash3 hmap -> allocs w = [] ->
  exists w' hmap',
    rhashmap_del murmurhash3 w hmap key len
    = Done (w', hmap', default NULL (find_key hmap key len)) /\
    allocs w' = [] /\ well_formed murmurhash3 hmap' /\
    forall k l,
      find_key hmap' k l =
      if key_eqb k l key len then None else find_key hmap k l.
Proof.
  intros Hwf Hw.
  pose proof Hwf as (Hrh & He & Hu & Hh).
  pose proof Hrh as (Hok & Hsz & Hr).
  pose proof Hok as (Hm & Hl & Hn & Hmin). pose proof Hm as [Hs _].
  pose proof Hr as (_ & Hf & Hpsl & Hord).
  destruct (rhashmap_del_returns murmurhash3 w hmap key len Hok Hf)
    as (w' & hmap' & ret & H).
  pose proof (rhashmap_del_rh murmurhash3 _ _ _ _ _ _ _ Hrh H) as Hrh'.
  assert (He' : empties_ok hmap').
  { revert H. apply (rhashmap_del_inv murmurhash3 empty_len_zero).
    - apply empty_len_zero_zero.
    - intros k v h l _ Hk. discriminate.
    - intros b p Hb Hk. apply Hb. exact Hk.
    - intros b _ _. reflexivity.
    - exact He. }
  exists w', hmap'. rewrite H.
  set (hash := compute_hash murmurhash3 hmap key len) in *.
  unfold rhashmap_del in H. fold hash in H.
  destruct (find_bucket_cases (hm_size hmap) (hm_buckets hmap) key len Hl)
    as [(j & Hj & Hkey & Hfind) | [Hno Hfind]].
  - (* the key is held by bucket [j] *)
    assert (Hfk : find_key hmap key len
                  = Some (b_val (bucket_ref (hm_buckets hmap) j))).
    { unfold find_key. rewrite Hfind. reflexivity. }
    assert (Hhash : b_hash (bucket_ref (hm_buckets hmap) j) = hash)
      by (eapply held_hash; eassumption).
    assert (Hkj : b_key (bucket_ref (hm_buckets hmap) j) <> None)
      by (apply key_of_occupied; rewrite Hkey; discriminate).
    assert (Hpos : 0 < hm_size hmap) by lia.
    pose proof (psl_lt _ _ j Hpos Hpsl Hj Hkj) as Hp.
    assert (Hn0 : 0 <= 0 <= b_psl (bucket_ref (hm_buckets hmap) j)) by lia.
    pose proof (del_probe_path hmap key len hash j Hm Hsz Hr Hu Hj Hkey
                  Hhash probe_fuel 0 Hn0) as Hd.
    replace ((j - (b_psl (bucket_ref (hm_buckets hmap) j) - 0))
             mod hm_size hmap) with (slot hmap hash) in Hd.
    2:{ rewrite Z.sub_0_r. rewrite (Hpsl j Hj Hkj), Hhash.
        rewrite sub_back by (try apply mod_range; lia).
        apply slot_is_mod; [exact Hm | apply compute_hash_range]. }
    rewrite Hd in H by (unfold probe_fuel; lia). cbn [bind] in H.
    bind_case H E2. rename a into bs. cbn [hm_buckets set_nitems] in E2.
    set (hmap1 := set_nitems hmap (u32 (hm_nitems hmap - 1))) in *.
    assert (Hm1 : modulus_ok hmap1) by exact Hm.
    destruct (del_shift_shape _ _ Hm1 _ _ _ Hl Hj E2) as [Hl2 Hc2].
    destruct (del_shift_cores _ hmap1 Hm1 _ _ _ Hl Hj E2) as [Hcores Huniq].
    change (hm_size hmap1) with (hm_size hmap) in Hcores, Huniq.
    assert (Hlb : length bs = Z.to_nat (hm_size hmap)) by congruence.
    set (bsc := bucket_set (hm_buckets hmap) j
                  (clear_bucket (bucket_ref (hm_buckets hmap) j))) in *.
    assert (Rc : forall x, 0 <= x < hm_size hmap ->
              bucket_ref bsc x
              = if Z.eq_dec x j
                then clear_bucket (bucket_ref (hm_buckets hmap) j)
                else bucket_ref (hm_buckets hmap) x).
    { intros x Hx. apply (bucket_ref_set _ (hm_size hmap)); assumption. }
    assert (Huc : unique_keys (hm_size hmap) bsc).
    { intros a b Ha Hb Hka Heq.
      rewrite (Rc a Ha) in Hka, Heq. rewrite (Rc b Hb) in Heq.
      destruct (Z.eq_dec a j) as [-> | Haj];
        [exfalso; apply Hka; reflexivity |].
      destruct (Z.eq_dec b j) as [-> | Hbj];
        [exfalso; apply Hka; rewrite Heq; reflexivity |].
      apply Hu; assumption. }
    specialize (Huniq Huc).
    (* the cores of [bs] are those of the array, bucket [j] apart *)
    assert (Hcs : forall c, in_cores (hm_size hmap) bs c <->
              exists x, 0 <= x < hm_size hmap /\ x <> j /\
                b_key (bucket_ref (hm_buckets hmap) x) <> None /\
                core (bucket_ref (hm_buckets hmap) x) = c).
    { intros c. rewrite Hcores. unfold bsc.
      rewrite (in_cores_set _ _ j _ c Hl Hj). split.
      - intros [[Hk _] | Hx]; [simpl in Hk; congruence | exact Hx].
      - intros Hx. right. exact Hx. }
    set (hmap2 := set_buckets hmap1 bs) in *.
    assert (Hfind2 : forall k l,
              find_key hmap2 k l =
              if key_eqb k l key len then None else find_key hmap k l).
    { intros k l. unfold find_key. cbn [hm_buckets hmap2 set_buckets].
      destruct (key_eqb k l key len) eqn:Ek.
      - apply key_eqb_spec in Ek.
        rewrite (find_bucket_absent (hm_size hmap)); [reflexivity | exact Hlb |].
        intros x Hx Hk.
        assert (Hin : in_cores (hm_size hmap) bs (core (bucket_ref bs x))).
        { exists x. split; [exact Hx |]. split; [| reflexivity].
          apply key_of_occupied. rewrite Hk. discriminate. }
        apply Hcs in Hin. destruct Hin as (x0 & Hx0 & Hne & Hk0 & Hc0).
        apply Hne. apply Hu; [exact Hx0 | exact Hj | |].
        + apply key_of_occupied. exact Hk0.
        + rewrite (core_key_of _ _ Hc0), Hk, Hkey, Ek. reflexivity.
      - assert (Hnek : the_key k l <> the_key key len).
        { intros E. apply key_eqb_spec in E. congruence. }
        destruct (find_bucket_cases (hm_size hmap) (hm_buckets hmap) k l Hl)
          as [(x0 & Hx0 & Hk0 & ->) | [Hno0 ->]].
        + assert (Hin : in_cores (hm_size hmap) bs
                          (core (bucket_ref (hm_buckets hmap) x0))).
          { apply Hcs. exists x0. split; [exact Hx0 |]. split.
            - intros ->. rewrite Hkey in Hk0. congruence.
            - split; [| reflexivity]. apply key_of_occupied. rewrite Hk0.
              discriminate. }
          destruct Hin as (x & Hx & Hkx & Hcx).
          rewrite (find_bucket_at (hm_size hmap) _ k l x Hlb Huniq Hx).
          * cbn [option_map]. rewrite (core_val _ _ Hcx). reflexivity.
          * rewrite (core_key_of _ _ Hcx). exact Hk0.
        + rewrite (find_bucket_absent (hm_size hmap));
            [reflexivity | exact Hlb |].
          intros x Hx Hk.
          assert (Hin : in_cores (hm_size hmap) bs (core (bucket_ref bs x))).
          { exists x. split; [exact Hx |]. split; [| reflexivity].
            apply key_of_occupied. rewrite Hk. discriminate. }
          apply Hcs in Hin. destruct Hin as (x0 & Hx0 & _ & _ & Hc0).
          apply (Hno0 x0 Hx0). rewrite (core_key_of _ _ Hc0). exact Hk. }
    assert (Ho : occ (bucket_ref (hm_buckets hmap) j) = 1).
    { unfold occ. destruct (b_key _); [reflexivity | congruence]. }
    pose proof (count_range (hm_buckets hmap)) as Hcr.
    pose proof (count_range bs) as Hcr2.
    assert (Hni2 : hm_nitems hmap2 = count bs).
    { cbn. rewrite u32_small by lia. lia. }
    assert (Hf2 : Forall fields_ok bs).
    { revert E2. apply del_shift_inv.
      - apply fields_ok_zero.
      - intros b p (? & ? & ?). pose proof (u16_range p). unfold fields_ok.
        cbn. lia.
      - intros b (? & ? & ?). unfold fields_ok. cbn. lia.
      - exact Hf. }
    destruct (Z.gtb_spec (hm_nitems hmap2) (hm_minsize hmap2)) as [Hgt | Hle];
      cbn [andb] in H.
    + destruct (Z.ltb_spec (hm_nitems hmap2) (APPROX_40_PERCENT (hm_size hmap)))
        as [Hlt | Hge].
      * (* the table shrinks *)
        bind_case H E3. destruct a as [[w1 h1] rc]. inversion H; subst w1 h1.
        pose proof (APPROX_40_PERCENT_le (hm_size hmap) ltac:(lia)) as H40.
        assert (Hsh : shrink_size hmap2
                      = Z.max (Z.shiftr (hm_size hmap) 1) (hm_minsize hmap)).
        { unfold shrink_size. rewrite MAX_spec. reflexivity. }
        assert (Hshr : Z.shiftr (hm_size hmap) 1 <= hm_size hmap).
        { rewrite Z.shiftr_div_pow2 by lia. change (2 ^ 1) with 2.
          apply Z.div_le_upper_bound; lia. }
        cbn [hm_minsize hm_size hmap2 hmap1 set_buckets set_nitems] in Hgt.
        assert (Hob : old_buckets hmap2 (shrink_size hmap2) = bs).
        { unfold old_buckets. cbn [hm_size hm_buckets hmap2 hmap1 set_buckets
            set_nitems].
          assert (E1 : (shrink_size hmap2 =? 1) = false)
            by (apply Z.eqb_neq; lia).
          rewrite E1. cbn [andb]. apply take_ge. lia. }
        destruct (rhashmap_resize_spec murmurhash3 murmurhash3_reads
                    w hmap2 (shrink_size hmap2) w' hmap' rc Hw Hmin)
          as (_ & Hw' & Hwf' & _ & Hfind'); [lia | | | exact E3 |].
        { rewrite Hob. exact Hf2. }
        { rewrite Hob. lia. }
        split; [rewrite Hfk; reflexivity |].
        split; [exact Hw' |]. split; [exact Hwf' |].
        intros k l. rewrite Hfind', Hob. apply Hfind2.
      * inversion H; subst w' hmap'.
        split; [rewrite Hfk; reflexivity |]. split; [exact Hw |].
        split; [| exact Hfind2].
        split; [exact Hrh' |]. split; [exact He' |].
        split; [exact Huniq |].
        intros i k Hi Hk.
        change (compute_hash murmurhash3 hmap2 k (b_len (bucket_ref bs i)))
          with (compute_hash murmurhash3 hmap k (b_len (bucket_ref bs i))).
        assert (Hin : in_cores (hm_size hmap) bs (core (bucket_ref bs i))).
        { exists i. split; [exact Hi |]. split; [| reflexivity].
          cbn [hm_buckets hmap2 set_buckets] in Hk. rewrite Hk. discriminate. }
        apply Hcs in Hin. destruct Hin as (x0 & Hx0 & _ & Hk0 & Hc0).
        apply core_fields in Hc0. destruct Hc0 as (Ck & _ & Ch & Cl).
        cbn [hm_buckets hmap2 set_buckets] in Hk |- *.
        rewrite <- Ch, <- Cl. apply Hh; [exact Hx0 | congruence].
    + inversion H; subst w' hmap'.
      split; [rewrite Hfk; reflexivity |]. split; [exact Hw |].
      split; [| exact Hfind2].
      split; [exact Hrh' |]. split; [exact He' |].
      split; [exact Huniq |].
      intros i k Hi Hk.
      change (compute_hash murmurhash3 hmap2 k (b_len (bucket_ref bs i)))
        with (compute_hash murmurhash3 hmap k (b_len (bucket_ref bs i))).
      assert (Hin : in_cores (hm_size hmap) bs (core (bucket_ref bs i))).
      { exists i. split; [exact Hi |]. split; [| reflexivity].
        cbn [hm_buckets hmap2 set_buckets] in Hk. rewrite Hk. discriminate. }
      apply Hcs in Hin. destruct Hin as (x0 & Hx0 & _ & Hk0 & Hc0).
      apply core_fields in Hc0. destruct Hc0 as (Ck & _ & Ch & Cl).
      cbn [hm_buckets hmap2 set_buckets] in Hk |- *.
      rewrite <- Ch, <- Cl. apply Hh; [exact Hx0 | congruence].
  - (* the key is not held *)
    assert (Hfk : find_key hmap key len = None).
    { unfold find_key. rewrite Hfind. reflexivity. }
    assert (Hno' : forall x,
      key_of (bucket_ref (hm_buckets hmap) x) <> Some (the_key key len)).
    { intros x. destruct (Z_lt_le_dec x 0) as [? | ?];
        [| destruct (Z_lt_le_dec x (hm_size hmap)) as [? | ?]].
      - rewrite bucket_ref_negative by lia. apply Hno. lia.
      - apply Hno. lia.
      - rewrite (key_of_out_of_range _ (hm_size hmap)) by lia. discriminate. }
    bind_case H E. pose proof (del_probe_miss _ _ _ _ Hno' _ _ _ _ E) as ->.
    inversion H; subst w' hmap' ret.
    split; [rewrite Hfk; reflexivity |]. split; [exact Hw |].
    split; [exact Hwf |].
    intros k l. destruct (key_eqb k l key len) eqn:Ek; [| reflexivity].
    apply key_eqb_spec in Ek. unfold find_key.
    rewrite (find_bucket_ext _ k l key len Ek), Hfind. reflexivity.
Qed.

End Del.

Lemma key_eqb_ext k1 l1 k2 l2 k l :
  the_key k1 l1 = the_key k2 l2 -> key_eqb k1 l1 k l = key_eqb k2 l2 k l.
Proof.
  intros E. destruct (key_eqb k1 l1 k l) eqn:E1;
    destruct (key_eqb k2 l2 k l) eqn:E2; try reflexivity; exfalso.
  - apply key_eqb_spec in E1. rewrite E in E1. apply key_eqb_spec in E1.
    congruence.
  - apply key_eqb_spec in E2. rewrite <- E in E2. apply key_eqb_spec in E2.
    congruence.
Qed.

Lemma key_eqb_sym k1 l1 k2 l2 : key_eqb k1 l1 k2 l2 = key_eqb k2 l2 k1 l1.
Proof.
  destruct (key_eqb k1 l1 k2 l2) eqn:E1;
    destruct (key_eqb k2 l2 k1 l1) eqn:E2; try reflexivity; exfalso.
  - apply key_eqb_spec in E1. symmetry in E1. apply key_eqb_spec in E1.
    congruence.
  - apply key_eqb_spec in E2. symmetry in E2. apply key_eqb_spec in E2.
    congruence.
Qed.

Lemma model_get_ext m k1 l1 k2 l2 :
  the_key k1 l1 = the_key k2 l2 -> model_get m k1 l1 = model_get m k2 l2.
Proof.
  intros E. induction m as [| [[k l] v] m IH]; [reflexivity |].
  cbn [model_get]. rewrite (key_eqb_ext k1 l1 k2 l2 k l E), IH. reflexivity.
Qed.

Lemma model_get_remove m key len k l :
  model_get (model_remove m key len) k l =
  if key_eqb k l key len then None else model_get m k l.
Proof.
  induction m as [| [[k0 l0] v0] m IH]; cbn [model_remove model_get].
  - destruct (key_eqb k l key len); reflexivity.
  - destruct (key_eqb key len k0 l0) eqn:E0.
    + rewrite IH. destruct (key_eqb k l key len) eqn:E1; [reflexivity |].
      destruct (key_eqb k l k0 l0) eqn:E2; [| reflexivity]. exfalso.
      apply key_eqb_spec in E0, E2. rewrite <- E0 in E2.
      apply key_eqb_spec in E2. congruence.
    + cbn [model_get]. rewrite IH.
      destruct (key_eqb k l k0 l0) eqn:E2; [| reflexivity].
      destruct (key_eqb k l key len) eqn:E1; [| reflexivity]. exfalso.
      apply key_eqb_spec in E1, E2. rewrite E1 in E2.
      apply key_eqb_spec in E2. congruence.
Qed.

Section Run.
Variable murmurhash3 : list byte -> Z -> Z -> Z.
Hypothesis murmurhash3_reads : reads_len_bytes murmurhash3.

(** ** What a put does to the lookup *)

Lemma old_buckets_all hmap newsize :
  length (hm_buckets hmap) = Z.to_nat (hm_size hmap) -> newsize <> 1 ->
  old_buckets hmap newsize = hm_buckets hmap.
Proof.
  intros Hl Hne. unfold old_buckets.
  rewrite (proj2 (Z.eqb_neq newsize 1) Hne). cbn [andb]. apply take_ge. lia.
Qed.

Lemma rhashmap_put_spec w hmap key len val :
  well_formed murmurhash3 hmap -> hm_size hmap <= 2 ^ 15 ->
  0 <= len < 2 ^ 16 -> allocs w = [] ->
  exists w' hmap',
    rhashmap_put murmurhash3 w hmap key len val
    = Done (w', hmap', default val (find_key hmap key len)) /\
    allocs w' = [] /\ well_formed murmurhash3 hmap' /\
    forall k l,
      find_key hmap' k l =
      if key_eqb k l key len then Some (default val (find_key hmap key len))
      else find_key hmap k l.
Proof.
  intros Hwf Hsz Hlen Hw.
  pose proof Hwf as (Hrh & He & Hu & Hh).
  pose proof Hrh as (Hok & _ & Hr).
  pose proof Hok as (Hm & Hl & Hn & Hmin). pose proof Hm as [Hs _].
  pose proof Hr as (_ & Hf & _).
  pose proof (count_range (hm_buckets hmap)) as Hcr.
  unfold rhashmap_put.
  destruct (Z.gtb_spec (hm_nitems hmap) (APPROX_85_PERCENT (hm_size hmap)))
    as [Hgt | Hle].
  - assert (Hg : grow_size hmap = hm_size hmap * 2).
    { rewrite grow_size_small by lia. lia. }
    assert (Hne : grow_size hmap <> 1) by lia.
    pose proof (old_buckets_all hmap (grow_size hmap) Hl Hne) as Hob.
    destruct (rhashmap_resize_returns murmurhash3 w hmap (grow_size hmap))
      as (w1 & h1 & rc & E).
    { unfold UINT_MAX. lia. }
    { exact Hmin. }
    { rewrite Hob. lia. }
    rewrite E. cbn [bind].
    destruct (rhashmap_resize_spec murmurhash3 murmurhash3_reads
                w hmap (grow_size hmap) w1 h1 rc Hw Hmin)
      as (-> & Hw1 & Hwf1 & Hs1 & Hfind1); [lia | | | exact E |].
    { rewrite Hob. exact Hf. }
    { rewrite Hob. lia. }
    cbn [Z.eqb negb].
    destruct Hwf1 as (Hrh1 & Hrest1). pose proof Hrh1 as (Hok1 & _).
    assert (Hn1 : hm_nitems h1 < hm_size h1).
    { assert (H0 : 0 <= grow_size hmap) by lia.
      destruct (rhashmap_resize_shape _ _ _ _ _ _ H0 Hmin E)
        as (_ & _ & Hni). rewrite Hob in Hni. lia. }
    destruct (rhashmap_insert_done murmurhash3 w1 h1 key len val Hok1 Hn1)
      as (w' & hmap' & ret & Ei).
    destruct (rhashmap_insert_spec murmurhash3 murmurhash3_reads
                _ _ _ _ _ _ _ _ (conj Hrh1 Hrest1) Hn1 Hlen Hw1 Ei)
      as (-> & Hwf' & Hret & Hfind').
    assert (Hfk : find_key h1 key len = find_key hmap key len).
    { rewrite Hfind1, Hob. reflexivity. }
    exists w1, hmap'. rewrite Ei, Hret, Hfk.
    split; [reflexivity |]. split; [exact Hw1 |]. split; [exact Hwf' |].
    intros k l. rewrite Hfind', Hret, Hfk.
    destruct (key_eqb k l key len); [reflexivity |].
    rewrite Hfind1, Hob. reflexivity.
  - pose proof (APPROX_85_PERCENT_lt (hm_size hmap) ltac:(lia)) as H85.
    assert (Hn1 : hm_nitems hmap < hm_size hmap) by lia.
    destruct (rhashmap_insert_done murmurhash3 w hmap key len val Hok Hn1)
      as (w' & hmap' & ret & Ei).
    destruct (rhashmap_insert_spec murmurhash3 murmurhash3_reads
                _ _ _ _ _ _ _ _ Hwf Hn1 Hlen Hw Ei)
      as (-> & Hwf' & Hret & Hfind').
    exists w, hmap'. rewrite Ei, Hret.
    split; [reflexivity |]. split; [exact Hw |]. split; [exact Hwf' |].
    intros k l. rewrite Hfind', Hret. reflexivity.
Qed.

(** ** What [rhashmap_create] returns *)

Lemma rhashmap_create_spec w size flags :
  allocs w = [] -> 0 <= size <= 2 ^ 16 ->
  exists w' hmap,
    rhashmap_create murmurhash3 w size flags = Done (w', Some hmap) /\
    allocs w' = [] /\ well_formed murmurhash3 hmap /\
    hm_size hmap = Z.max size 1 /\ hm_minsize hmap = Z.max size 1 /\
    hm_nitems hmap = 0 /\ hm_flags hmap = flags /\
    forall k l, find_key hmap k l = None.
Proof.
  intros Hw Hsize. unfold rhashmap_create. rewrite (alloc_calm w Hw).
  cbn [negb hm_minsize].
  assert (Hmx : u32 (MAX size 1) = Z.max size 1).
  { rewrite MAX_spec. apply u32_small. lia. }
  rewrite Hmx.
  set (h0 := mkHmap 0 0 flags (Z.max size 1) 0 [] 0).
  assert (Hmin : 1 <= hm_minsize h0 < 2 ^ 32) by (cbn; lia).
  assert (Hob : old_buckets h0 (Z.max size 1) = []).
  { unfold old_buckets. cbn. rewrite andb_false_r. apply take_nil. }
  destruct (rhashmap_resize_returns murmurhash3 w h0 (Z.max size 1))
    as (w1 & h1 & rc & E).
  { unfold UINT_MAX. lia. }
  { exact Hmin. }
  { rewrite Hob. change (count []) with 0. lia. }
  rewrite E. cbn [bind].
  destruct (rhashmap_resize_spec murmurhash3 murmurhash3_reads
              w h0 (Z.max size 1) w1 h1 rc Hw Hmin)
    as (-> & Hw1 & Hwf1 & Hs1 & Hfind1); [lia | | | exact E |].
  { rewrite Hob. constructor. }
  { rewrite Hob. change (count []) with 0. lia. }
  cbn [Z.eqb negb]. exists w1, h1.
  destruct (rhashmap_resize_modulus _ _ _ _ _ _ E) as (_ & _ & Hfl & Hms).
  assert (H0 : 0 <= Z.max size 1) by lia.
  destruct (rhashmap_resize_shape _ _ _ _ _ _ H0 Hmin E)
    as ((_ & _ & Hni & _) & _ & Hni').
  rewrite Hob in Hni'. change (count []) with 0 in Hni'.
  pose proof (count_range (hm_buckets h1)).
  split; [reflexivity |]. split; [exact Hw1 |]. split; [exact Hwf1 |].
  split; [exact Hs1 |]. split; [exact Hms |]. split; [lia |].
  split; [exact Hfl |].
  intros k l. rewrite Hfind1, Hob. reflexivity.
Qed.

(** ** Capacity and count along the operations *)

Lemma rhashmap_put_sizes w hmap key len val w' hmap' ret :
  table_ok hmap -> hm_size hmap <= 2 ^ 15 ->
  rhashmap_put murmurhash3 w hmap key len val = Done (w', hmap', ret) ->
  hm_minsize hmap' = hm_minsize hmap /\
  hm_nitems hmap' <= hm_nitems hmap + 1 /\
  (hm_size hmap' = hm_size hmap \/
   (hm_size hmap' = 2 * hm_size hmap /\
    870 * hm_size hmap < 1024 * hm_nitems hmap)).
Proof.
  intros Hok Hsz H. pose proof Hok as (Hm & Hl & Hn & Hmin).
  pose proof Hm as [Hs _].
  pose proof (count_range (hm_buckets hmap)) as Hcr.
  unfold rhashmap_put in H.
  destruct (Z.gtb_spec (hm_nitems hmap) (APPROX_85_PERCENT (hm_size hmap)))
    as [Hgt | Hle].
  - bind_case H E. destruct a as [[w1 h1] rc].
    destruct (rhashmap_resize_rc _ _ _ _ _ _ _ E) as [-> | [-> ->]];
      cbn [Z.eqb negb] in H; [| inversion H; subst; lia].
    assert (Hg : grow_size hmap = hm_size hmap * 2).
    { rewrite grow_size_small by lia. lia. }
    assert (H0 : 0 <= grow_size hmap) by lia.
    destruct (rhashmap_resize_shape _ _ _ _ _ _ H0 Hmin E)
      as (Hok1 & Hs1 & Hn1).
    pose proof (old_buckets_count hmap (grow_size hmap) Hl) as Hob.
    destruct (rhashmap_resize_modulus _ _ _ _ _ _ E) as (_ & _ & _ & Hms1).
    destruct (rhashmap_insert_shape _ _ _ _ _ _ _ _ _ Hok1 H) as [_ Hle].
    destruct (rhashmap_insert_modulus _ _ _ _ _ _ _ _ _ H)
      as (Hs2 & _ & _ & Hms2 & _).
    split; [congruence |]. split; [lia |]. right. split; [lia |].
    rewrite APPROX_85_PERCENT_small in Hgt by lia.
    pose proof (Z.mul_succ_div_gt (hm_size hmap * 870) 1024 ltac:(lia)). lia.
  - destruct (rhashmap_insert_shape _ _ _ _ _ _ _ _ _ Hok H) as [_ Hle'].
    destruct (rhashmap_insert_modulus _ _ _ _ _ _ _ _ _ H)
      as (Hs2 & _ & _ & Hms2 & _).
    split; [exact Hms2 |]. split; [lia |]. left. exact Hs2.
Qed.

Lemma rhashmap_del_sizes w hmap key len w' hmap' ret :
  table_ok hmap -> hm_minsize hmap <= hm_size hmap ->
  rhashmap_del murmurhash3 w hmap key len = Done (w', hmap', ret) ->
  hm_minsize hmap' = hm_minsize hmap /\
  hm_nitems hmap' <= hm_nitems hmap /\
  hm_minsize hmap <= hm_size hmap' <= hm_size hmap.
Proof.
  intros Hok Hms H. pose proof Hok as (Hm & Hl & Hn & Hmin).
  pose proof Hm as [Hs _].
  pose proof (rhashmap_del_shape _ _ _ _ _ _ _ _ Hok H) as Hok'.
  unfold rhashmap_del in H.
  bind_case H E. destruct a as [i |]; [| inversion H; subst; lia].
  destruct (del_probe_found _ _ _ _ _ _ _ _ E Hm
              (slot_hash_range murmurhash3 _ _ _ Hm)) as [Hi Hocc].
  bind_case H E2. rename a into bs. cbn [hm_buckets set_nitems] in E2.
  set (hmap1 := set_nitems hmap (u32 (hm_nitems hmap - 1))) in *.
  assert (Hm1 : modulus_ok hmap1) by exact Hm.
  destruct (del_shift_shape _ _ Hm1 _ _ _ Hl Hi E2) as [Hl2 Hc2].
  assert (Ho : occ (bucket_ref (hm_buckets hmap) i) = 1).
  { unfold occ. destruct (b_key _); [reflexivity | congruence]. }
  pose proof (count_range (hm_buckets hmap)) as Hcr.
  pose proof (count_range bs) as Hcr2.
  set (hmap2 := set_buckets hmap1 bs) in *.
  assert (Hni2 : hm_nitems hmap2 = hm_nitems hmap - 1).
  { cbn. rewrite u32_small by lia. lia. }
  assert (Hsz2 : hm_size hmap2 = hm_size hmap) by reflexivity.
  assert (Hms2 : hm_minsize hmap2 = hm_minsize hmap) by reflexivity.
  assert (Hbs2 : hm_buckets hmap2 = bs) by reflexivity.
  clearbody hmap2. clear hmap1 Hm1 E2.
  destruct ((hm_nitems hmap2 >? hm_minsize hmap2) &&
            (hm_nitems hmap2 <? APPROX_40_PERCENT (hm_size hmap)));
    [| inversion H; subst w' hmap' ret; lia].
  bind_case H E3. destruct a as [[w1 h1] rc].
  inversion H; subst w' hmap' ret.
  destruct (rhashmap_resize_rc _ _ _ _ _ _ _ E3) as [-> | [-> ->]];
    [| lia].
  assert (Hsh : shrink_size hmap2
                = Z.max (Z.shiftr (hm_size hmap) 1) (hm_minsize hmap)).
  { unfold shrink_size. rewrite MAX_spec, Hsz2, Hms2. reflexivity. }
  assert (Hshr : 0 <= Z.shiftr (hm_size hmap) 1 <= hm_size hmap).
  { rewrite Z.shiftr_div_pow2 by lia. change (2 ^ 1) with 2.
    split; [apply Z.div_pos; lia | apply Z.div_le_upper_bound; lia]. }
  assert (H0 : 0 <= shrink_size hmap2) by lia.
  assert (Hmin2 : 1 <= hm_minsize hmap2 < 2 ^ 32) by lia.
  destruct (rhashmap_resize_shape _ _ _ _ _ _ H0 Hmin2 E3)
    as (_ & Hs3 & Hn3).
  destruct (rhashmap_resize_modulus _ _ _ _ _ _ E3) as (_ & _ & _ & Hms3).
  assert (Hl2' : length (hm_buckets hmap2) = Z.to_nat (hm_size hmap2)).
  { rewrite Hbs2, Hsz2. lia. }
  pose proof (old_buckets_count hmap2 (shrink_size hmap2) Hl2') as Hob.
  rewrite Hbs2 in Hob.
  split; [lia |]. split; [lia |]. lia.
Qed.

End Run.

Lemma model_step_put (F : list byte -> Z -> option Z) m key len val :
  (forall k l, F k l = model_get m k l) ->
  (model_step m (Put key len val)).2 = default val (F key len) /\
  forall k l,
    (if key_eqb k l key len then Some (default val (F key len)) else F k l)
    = model_get (model_step m (Put key len val)).1 k l.
Proof.
  intros HF. cbn [model_step]. rewrite (HF key len).
  destruct (model_get m key len) as [v |] eqn:Eg; cbn [fst snd default].
  - split; [reflexivity |]. intros k l.
    destruct (key_eqb k l key len) eqn:Ek; [| apply HF].
    apply key_eqb_spec in Ek. rewrite (model_get_ext m k l key len Ek).
    symmetry. exact Eg.
  - split; [reflexivity |]. intros k l. cbn [model_get].
    destruct (key_eqb k l key len); [reflexivity | apply HF].
Qed.

Lemma model_step_del (F : list byte -> Z -> option Z) m key len :
  (forall k l, F k l = model_get m k l) ->
  (model_step m (Del key len)).2 = default NULL (F key len) /\
  forall k l,
    (if key_eqb k l key len then None else F k l)
    = model_get (model_step m (Del key len)).1 k l.
Proof.
  intros HF. cbn [model_step fst snd]. rewrite (HF key len).
  split; [reflexivity |]. intros k l. rewrite model_get_remove, HF.
  reflexivity.
Qed.

Lemma model_run_cons m o ops :
  model_run m (o :: ops) =
  ((model_run (model_step m o).1 ops).1,
   (model_step m o).2 :: (model_run (model_step m o).1 ops).2).
Proof.
  cbn [model_run]. destruct (model_step m o) as [m1 r]. cbn [fst snd].
  destruct (model_run m1 ops) as [m2 rs]. reflexivity.
Qed.

Section Refinement.
Variable murmurhash3 : list byte -> Z -> Z -> Z.
Hypothesis murmurhash3_reads : reads_len_bytes murmurhash3.

Lemma run_refines_from : forall ops n w hmap m,
  well_formed murmurhash3 hmap -> allocs w = [] ->
  (forall k l, find_key hmap k l = model_get m k l) ->
  hm_minsize hmap <= hm_size hmap -> hm_minsize hmap <= 2 ^ 15 ->
  hm_nitems hmap <= n ->
  (hm_size hmap <= hm_minsize hmap \/ 870 * hm_size hmap < 2048 * n) ->
  Forall valid_op ops -> n + Z.of_nat (length ops) <= 13920 ->
  exists w' hmap',
    run murmurhash3 w hmap ops = Done (w', hmap', (model_run m ops).2) /\
    allocs w' = [] /\ well_formed murmurhash3 hmap' /\
    forall k l, find_key hmap' k l = model_get (model_run m ops).1 k l.
Proof.
  induction ops as [| o ops IH];
    intros n w hmap m Hwf Hw HF Hms Hmb Hn Hsz Hv Hlen.
  - exists w, hmap. split; [reflexivity |]. split; [exact Hw |].
    split; [exact Hwf | exact HF].
  - inversion Hv as [| ? ? Ho Hv']; subst.
    cbn [length] in Hlen. rewrite Nat2Z.inj_succ in Hlen.
    assert (Hs15 : hm_size hmap <= 2 ^ 15) by lia.
    pose proof Hwf as ((Hok & _) & _).
    pose proof Hok as ((Hpos & _) & _ & Hcnt & _).
    pose proof (count_range (hm_buckets hmap)) as Hcr.
    rewrite model_run_cons. cbn [run step fst snd].
    destruct o as [key len val | key len]; cbn [valid_op] in Ho.
    + destruct (rhashmap_put_spec murmurhash3 murmurhash3_reads
                  w hmap key len val Hwf Hs15 ltac:(lia) Hw)
        as (w1 & h1 & E1 & Hw1 & Hwf1 & Hf1).
      destruct (rhashmap_put_sizes murmurhash3 _ _ _ _ _ _ _ _ Hok Hs15 E1)
        as (Hm1 & Hn1 & Hs1).
      destruct (model_step_put (find_key hmap) m key len val HF)
        as [Hret Hget].
      assert (HF1 : forall k l,
                find_key h1 k l = model_get (model_step m (Put key len val)).1 k l).
      { intros k l. rewrite Hf1. apply Hget. }
      assert (Hms1 : hm_minsize h1 <= hm_size h1) by lia.
      assert (Hmb1 : hm_minsize h1 <= 2 ^ 15) by lia.
      assert (Hn1' : hm_nitems h1 <= n + 1) by lia.
      assert (Hsz1 : hm_size h1 <= hm_minsize h1 \/
                     870 * hm_size h1 < 2048 * (n + 1)) by lia.
      assert (Hlen1 : n + 1 + Z.of_nat (length ops) <= 13920) by lia.
      destruct (IH (n + 1) w1 h1 (model_step m (Put key len val)).1
                  Hwf1 Hw1 HF1 Hms1 Hmb1 Hn1' Hsz1 Hv' Hlen1)
        as (w' & hmap' & Er & Hw' & Hwf' & HF').
      exists w', hmap'. cbn [step]. rewrite E1. cbn [bind]. rewrite Er.
      cbn [bind]. rewrite Hret.
      split; [reflexivity |]. split; [exact Hw' |].
      split; [exact Hwf' | exact HF'].
    + destruct (rhashmap_del_spec murmurhash3 murmurhash3_reads
                  w hmap key len Hwf Hw)
        as (w1 & h1 & E1 & Hw1 & Hwf1 & Hf1).
      destruct (rhashmap_del_sizes murmurhash3 _ _ _ _ _ _ _ Hok Hms E1)
        as (Hm1 & Hn1 & Hs1).
      destruct (model_step_del (find_key hmap) m key len HF)
        as [Hret Hget].
      assert (HF1 : forall k l,
                find_key h1 k l = model_get (model_step m (Del key len)).1 k l).
      { intros k l. rewrite Hf1. apply Hget. }
      assert (Hms1 : hm_minsize h1 <= hm_size h1) by lia.
      assert (Hmb1 : hm_minsize h1 <= 2 ^ 15) by lia.
      assert (Hn1' : hm_nitems h1 <= n + 1) by lia.
      assert (Hsz1 : hm_size h1 <= hm_minsize h1 \/
                     870 * hm_size h1 < 2048 * (n + 1)) by lia.
      assert (Hlen1 : n + 1 + Z.of_nat (length ops) <= 13920) by lia.
      destruct (IH (n + 1) w1 h1 (model_step m (Del key len)).1
                  Hwf1 Hw1 HF1 Hms1 Hmb1 Hn1' Hsz1 Hv' Hlen1)
        as (w' & hmap' & Er & Hw' & Hwf' & HF').
      exists w', hmap'. cbn [step]. rewrite E1. cbn [bind]. rewrite Er.
      cbn [bind]. rewrite Hret.
      split; [reflexivity |]. split; [exact Hw' |].
      split; [exact Hwf' | exact HF'].
Qed.

Lemma create_run_refines w size flags ops :
  allocs w = [] -> 0 <= size <= 2 ^ 15 ->
  Forall valid_op ops -> Z.of_nat (length ops) <= 13920 ->
  exists w0 hmap0 w' hmap',
    rhashmap_create murmurhash3 w size flags = Done (w0, Some hmap0) /\
    run murmurhash3 w0 hmap0 ops = Done (w', hmap', (model_run [] ops).2) /\
    well_formed murmurhash3 hmap' /\
    forall k l, 0 < l ->
      rhashmap_get murmurhash3 hmap' k l
      = Done (default NULL (model_get (model_run [] ops).1 k l)).
Proof.
  intros Hw Hsize Hv Hlen.
  destruct (rhashmap_create_spec murmurhash3 murmurhash3_reads w size flags
              Hw ltac:(lia))
    as (w0 & hmap0 & Ec & Hw0 & Hwf0 & Hs0 & Hm0 & Hn0 & _ & Hf0).
  assert (HF0 : forall k l, find_key hmap0 k l = model_get [] k l)
    by exact Hf0.
  assert (Hms : hm_minsize hmap0 <= hm_size hmap0) by lia.
  assert (Hmb : hm_minsize hmap0 <= 2 ^ 15) by lia.
  assert (Hn : hm_nitems hmap0 <= 0) by lia.
  assert (Hsz : hm_size hmap0 <= hm_minsize hmap0 \/
                870 * hm_size hmap0 < 2048 * 0) by lia.
  assert (Hlen0 : 0 + Z.of_nat (length ops) <= 13920) by lia.
  destruct (run_refines_from ops 0 w0 hmap0 [] Hwf0 Hw0 HF0 Hms Hmb Hn Hsz
              Hv Hlen0)
    as (w' & hmap' & Er & Hw' & Hwf' & HF').
  exists w0, hmap0, w', hmap'.
  split; [exact Ec |]. split; [exact Er |]. split; [exact Hwf' |].
  intros k l Hl.
  rewrite (rhashmap_get_find murmurhash3 murmurhash3_reads hmap' k l Hwf' Hl).
  rewrite HF'. reflexivity.
Qed.

(** ** Round trips *)

Lemma put_then_get w hmap key len val :
  well_formed murmurhash3 hmap -> hm_size hmap <= 2 ^ 15 ->
  0 < len < 2 ^ 16 -> allocs w = [] ->
  exists w' hmap' ret,
    rhashmap_put murmurhash3 w hmap key len val = Done (w', hmap', ret) /\
    ret = default val (find_key hmap key len) /\
    rhashmap_get murmurhash3 hmap' key len = Done ret /\
    forall k l, 0 < l -> key_eqb k l key len = false ->
      rhashmap_get murmurhash3 hmap' k l = rhashmap_get murmurhash3 hmap k l.
Proof.
  intros Hwf Hsz Hlen Hw.
  destruct (rhashmap_put_spec murmurhash3 murmurhash3_reads
              w hmap key len val Hwf Hsz ltac:(lia) Hw)
    as (w1 & h1 & E1 & Hw1 & Hwf1 & Hf1).
  exists w1, h1, (default val (find_key hmap key len)).
  split; [exact E1 |]. split; [reflexivity |]. split.
  - rewrite (rhashmap_get_find murmurhash3 murmurhash3_reads h1 key len Hwf1)
      by lia.
    rewrite Hf1. rewrite (proj2 (key_eqb_spec key len key len) eq_refl).
    reflexivity.
  - intros k l Hl Hk.
    rewrite !(rhashmap_get_find murmurhash3 murmurhash3_reads) by assumption.
    rewrite Hf1, Hk. reflexivity.
Qed.

Lemma del_then_get w hmap key len :
  well_formed murmurhash3 hmap -> 0 < len -> allocs w = [] ->
  exists w' hmap',
    rhashmap_del murmurhash3 w hmap key len
    = Done (w', hmap', default NULL (find_key hmap key len)) /\
    rhashmap_get murmurhash3 hmap key len
    = Done (default NULL (find_key hmap key len)) /\
    rhashmap_get murmurhash3 hmap' key len = Done NULL /\
    forall k l, 0 < l -> key_eqb k l key len = false ->
      rhashmap_get murmurhash3 hmap' k l = rhashmap_get murmurhash3 hmap k l.
Proof.
  intros Hwf Hlen Hw.
  destruct (rhashmap_del_spec murmurhash3 murmurhash3_reads
              w hmap key len Hwf Hw)
    as (w1 & h1 & E1 & Hw1 & Hwf1 & Hf1).
  exists w1, h1. split; [exact E1 |]. split.
  { apply (rhashmap_get_find murmurhash3 murmurhash3_reads); assumption. }
  split.
  - rewrite (rhashmap_get_find murmurhash3 murmurhash3_reads h1 key len Hwf1)
      by lia.
    rewrite Hf1. rewrite (proj2 (key_eqb_spec key len key len) eq_refl).
    reflexivity.
  - intros k l Hl Hk.
    rewrite !(rhashmap_get_find murmurhash3 murmurhash3_reads) by assumption.
    rewrite Hf1, Hk. reflexivity.
Qed.

End Refinement.

(** ** The recorded [psl] and the check the code asserts *)

Lemma robin_hood_psl hmap : robin_hood hmap -> psl_invariant hmap.
Proof.
  intros (Hok & _ & Hlen & _ & Hpsl & _) i b Hi Hk.
  pose proof (lookup_lt_Some _ _ _ Hi) as Hlt.
  pose proof (bucket_ref_lookup _ _ _ Hi) as Hb.
  unfold displacement, ideal_slot. rewrite <- Hb. apply Hpsl.
  - lia.
  - rewrite Hb. exact Hk.
Qed.

Lemma robin_hood_validate hmap i :
  robin_hood hmap -> 0 <= i < hm_size hmap ->
  validate_psl_p hmap (bucket_ref (hm_buckets hmap) i) i = true.
Proof.
  intros (Hok & _ & Hlen & Hf & Hpsl & _) Hi.
  destruct Hok as (Hm & _). pose proof Hm as [Hs _].
  unfold validate_psl_p.
  destruct (b_key (bucket_ref (hm_buckets hmap) i)) as [k |] eqn:Hk;
    [| reflexivity].
  assert (Hk' : b_key (bucket_ref (hm_buckets hmap) i) <> None)
    by (rewrite Hk; discriminate).
  pose proof (bucket_fields _ i Hf) as (Hh & _).
  rewrite (Hpsl i Hi Hk').
  rewrite (slot_is_mod hmap _ Hm Hh).
  set (h := b_hash (bucket_ref (hm_buckets hmap) i) mod hm_size hmap).
  assert (Hhr : 0 <= h < hm_size hmap) by (apply Z.mod_pos_bound; lia).
  apply Z.eqb_eq.
  destruct (Z.gtb_spec h i).
  - rewrite (u32_small (hm_size hmap - h)) by lia.
    rewrite u32_small by lia.
    destruct (sub_cases i h (hm_size hmap)); lia.
  - rewrite u32_small by lia.
    destruct (sub_cases i h (hm_size hmap)); lia.
Qed.

(** ** The walk visits [nitems] entries *)

Lemma table_ok_array hmap : table_ok hmap -> array_ok hmap.
Proof. intros ((Hs & _) & Hl & _). split; [lia | exact Hl]. Qed.

Lemma walk_all hmap :
  table_ok hmap ->
  Z.of_nat (length (stored hmap)) = hm_nitems hmap /\
  exists iter,
    walk_iter (Z.to_nat (hm_nitems hmap)) hmap RHM_WALK_BEGIN
    = (stored hmap, iter) /\
    rhashmap_walk hmap iter = (None, iter).
Proof.
  intros Hok. pose proof Hok as (_ & _ & Hn & _).
  unfold count in Hn. fold (stored hmap) in Hn. split; [lia |].
  destruct (walk_iter_drop hmap (table_ok_array hmap Hok) (hm_buckets hmap) 0)
    as (iter & Hit & Hend); [reflexivity | lia |].
  exists iter. split; [| exact Hend].
  rewrite Hn, Nat2Z.id. exact Hit.
Qed.

Section Edge.
Variable murmurhash3 : list byte -> Z -> Z -> Z.

(** ** The doubling of 2^31 buckets *)

Lemma rhashmap_put_wraps w w1 hmap key len val :
  hm_size hmap = 2 ^ 31 -> 0 < hm_nitems hmap -> alloc w = (true, w1) ->
  grow_size hmap = 0 /\
  rhashmap_put murmurhash3 w hmap key len val = DivByZero.
Proof.
  intros Hs Hn Ha.
  assert (Hg : grow_size hmap = 0).
  { unfold grow_size. rewrite Hs. reflexivity. }
  split; [exact Hg |].
  unfold rhashmap_put. rewrite Hg, Hs.
  change (APPROX_85_PERCENT (2 ^ 31)) with 0.
  rewrite (proj2 (Z.gtb_gt _ _)) by lia.
  unfold rhashmap_resize. cbn [Z.eqb andb]. 
  change (0 >? UINT_MAX) with false. cbv iota. rewrite Ha.
  reflexivity.
Qed.

(** ** A key that is not held *)

Lemma find_key_none_no_bucket hmap key len :
  find_key hmap key len = None ->
  forall x, key_of (bucket_ref (hm_buckets hmap) x) <> Some (the_key key len).
Proof.
  intros H x. unfold find_key in H.
  destruct (find_bucket (hm_buckets hmap) key len) eqn:E; [discriminate |].
  unfold bucket_ref.
  destruct (hm_buckets hmap !! Z.to_nat x) as [b |] eqn:Eb; cbn [default].
  - eapply find_bucket_none; eassumption.
  - discriminate.
Qed.

Lemma rhashmap_del_absent w hmap key len :
  Forall fields_ok (hm_buckets hmap) ->
  find_key hmap key len = None ->
  rhashmap_del murmurhash3 w hmap key len = Done (w, hmap, NULL).
Proof.
  intros Hf Hnone. unfold rhashmap_del.
  destruct (del_probe_returns hmap key len
              (compute_hash murmurhash3 hmap key len) Hf probe_fuel 0
              (slot hmap (compute_hash murmurhash3 hmap key len)))
    as (found & E).
  { lia. }
  { unfold probe_fuel. lia. }
  rewrite E. cbn [bind].
  rewrite (del_probe_miss hmap key len _
             (find_key_none_no_bucket hmap key len Hnone) _ _ _ _ E).
  reflexivity.
Qed.

(** ** No operation on a table the operations built faults *)

Lemma reachable_put_returns w hmap key len val :
  reachable murmurhash3 hmap -> hm_size hmap < 2 ^ 31 ->
  exists w' hmap' ret,
    rhashmap_put murmurhash3 w hmap key len val = Done (w', hmap', ret).
Proof.
  intros Hr Hs. apply rhashmap_put_returns; [| exact Hs].
  apply (reachable_shape murmurhash3). exact Hr.
Qed.

Lemma reachable_del_returns w hmap key len :
  reachable murmurhash3 hmap ->
  exists w' hmap' ret,
    rhashmap_del murmurhash3 w hmap key len = Done (w', hmap', ret).
Proof.
  intros Hr. apply rhashmap_del_returns.
  - apply (reachable_shape murmurhash3). exact Hr.
  - apply (reachable_fields murmurhash3). exact Hr.
Qed.

End Edge.

(** * The sample tables are well formed *)

Lemma murmurhash3_unused_reads : reads_len_bytes murmurhash3_unused.
Proof. intros p q len seed _ _. reflexivity. Qed.

(** The cases [i = 0], ..., [i = n - 1] of an index below the literal [n]. *)
Ltac cases_below i n :=
  lazymatch n with
  | 0 => exfalso; lia
  | _ => let m := eval compute in (n - 1) in
         destruct (Z.eq_dec i m) as [-> | ?]; [| cases_below i m]
  end.

Ltac sample_well_formed n :=
  split; [split; [| split] | split; [| split]];
  [ (* table_ok *)
    split; [split; [vm_compute; split; [discriminate | reflexivity]
                   | reflexivity] |];
    split; [reflexivity |]; split; [reflexivity |];
    vm_compute; split; [discriminate | reflexivity]
  | vm_compute; discriminate
  | (* rh_ok *)
    split; [reflexivity |];
    split; [repeat constructor; vm_compute; intuition congruence |];
    split;
    [ intros i Hi; change (0 <= i < n) in Hi; cases_below i n;
      vm_compute; intuition congruence
    | intros i Hi; change (0 <= i < n) in Hi; cases_below i n;
      vm_compute; intuition congruence ]
  | repeat constructor; vm_compute; intuition congruence
  | intros i j Hi Hj; change (0 <= i < n) in Hi; change (0 <= j < n) in Hj;
    cases_below i n; cases_below j n; vm_compute; intuition congruence
  | intros i k Hi; change (0 <= i < n) in Hi; cases_below i n;
    intros Hk; vm_compute in Hk;
    first [discriminate | injection Hk as <-; vm_compute; reflexivity] ].

Lemma table_empty_well_formed : well_formed murmurhash3_unused table_empty.
Proof. sample_well_formed 1. Qed.

Lemma table_a_well_formed : well_formed murmurhash3_unused table_a.
Proof. sample_well_formed 1. Qed.

Lemma table_abc_well_formed : well_formed murmurhash3_unused table_abc.
Proof. sample_well_formed 4. Qed.

Lemma table_cde_well_formed : well_formed murmurhash3_unused table_cde.
Proof. sample_well_formed 8. Qed.

(** * [nitems] counts the keys *)

Lemma held_keys_cons b bs :
  held_keys (b :: bs) =
  match key_of b with Some x => x :: held_keys bs | None => held_keys bs end.
Proof. reflexivity. Qed.

Lemma count_held_keys bs : count bs = Z.of_nat (length (held_keys bs)).
Proof.
  induction bs as [| b bs IH]; [reflexivity |].
  rewrite count_cons, held_keys_cons, IH. unfold occ, key_of.
  destruct (b_key b); cbn [length]; lia.
Qed.

Lemma held_keys_form bs x :
  x ∈ held_keys bs -> exists k l, x = the_key k l.
Proof.
  intros H. apply list_elem_of_omap in H as (b & _ & Hb).
  unfold key_of in Hb. destruct (b_key b) as [k |]; [| discriminate].
  inversion Hb. exists k, (b_len b). reflexivity.
Qed.

Lemma held_keys_elem bs k l :
  the_key k l ∈ held_keys bs <-> find_bucket bs k l <> None.
Proof.
  split.
  - intros H. apply list_elem_of_omap in H as (b & Hb & Hkey).
    apply list_elem_of_lookup in Hb as (j & Hj).
    intros Hnone. exact (find_bucket_none _ _ _ Hnone j b Hj Hkey).
  - intros H. destruct (find_bucket bs k l) as [b |] eqn:E; [| congruence].
    destruct (find_bucket_some _ _ _ _ E) as (j & Hj & Hkey).
    apply list_elem_of_omap. exists b. split; [| exact Hkey].
    apply list_elem_of_lookup. exists j. exact Hj.
Qed.

Lemma held_keys_NoDup_list bs :
  (forall (i j : nat) bi bj, bs !! i = Some bi -> bs !! j = Some bj ->
     key_of bi <> None -> key_of bi = key_of bj -> i = j) ->
  NoDup (held_keys bs).
Proof.
  induction bs as [| b bs IH]; intros Hu; [constructor |].
  assert (Hu' : forall (i j : nat) bi bj,
             bs !! i = Some bi -> bs !! j = Some bj ->
             key_of bi <> None -> key_of bi = key_of bj -> i = j).
  { intros i j bi bj Hi Hj Hk He.
    assert (S i = S j) by (eapply (Hu (S i) (S j)); eassumption). lia. }
  rewrite held_keys_cons. destruct (key_of b) as [x |] eqn:Hx;
    [| apply IH; exact Hu'].
  constructor; [| apply IH; exact Hu'].
  intros Hin. apply list_elem_of_omap in Hin as (b' & Hb' & Hkey).
  apply list_elem_of_lookup in Hb' as (j & Hj).
  assert (O = S j); [| discriminate].
  eapply (Hu O (S j) b b'); [reflexivity | exact Hj | |].
  - rewrite Hx. discriminate.
  - rewrite Hx, Hkey. reflexivity.
Qed.

Lemma held_keys_NoDup sz bs :
  length bs = Z.to_nat sz -> unique_keys sz bs -> NoDup (held_keys bs).
Proof.
  intros Hlen Hu. apply held_keys_NoDup_list.
  intros i j bi bj Hi Hj Hk He.
  pose proof (lookup_lt_Some _ _ _ Hi) as Hli.
  pose proof (lookup_lt_Some _ _ _ Hj) as Hlj.
  pose proof (lookup_bucket_ref _ _ _ Hi) as Hbi.
  pose proof (lookup_bucket_ref _ _ _ Hj) as Hbj.
  assert (Z.of_nat i = Z.of_nat j); [| lia].
  apply Hu; [lia | lia | rewrite Hbi; exact Hk | rewrite Hbi, Hbj; exact He].
Qed.

Lemma find_key_none hmap k l :
  find_key hmap k l = None <-> find_bucket (hm_buckets hmap) k l = None.
Proof.
  unfold find_key. destruct (find_bucket _ _ _); cbn; split; congruence.
Qed.

Lemma find_key_ext hmap k1 l1 k2 l2 :
  the_key k1 l1 = the_key k2 l2 -> find_key hmap k1 l1 = find_key hmap k2 l2.
Proof.
  intros E. unfold find_key. rewrite (find_bucket_ext _ k1 l1 k2 l2 E).
  reflexivity.
Qed.

Lemma held_keys_find hmap k l :
  the_key k l ∈ held_keys (hm_buckets hmap) <-> find_key hmap k l <> None.
Proof. rewrite held_keys_elem, find_key_none. reflexivity. Qed.

(** Two tables that hold the same keys have as many entries. *)
Lemma count_same hmap hmap' :
  NoDup (held_keys (hm_buckets hmap)) ->
  NoDup (held_keys (hm_buckets hmap')) ->
  (forall k l, find_key hmap' k l <> None <-> find_key hmap k l <> None) ->
  count (hm_buckets hmap') = count (hm_buckets hmap).
Proof.
  intros Hn Hn' Hsame. rewrite !count_held_keys. f_equal.
  apply Permutation_length, NoDup_Permutation; [exact Hn' | exact Hn |].
  intros x. split; intros Hx.
  - destruct (held_keys_form _ _ Hx) as (k & l & ->).
    apply held_keys_find, Hsame, held_keys_find. exact Hx.
  - destruct (held_keys_form _ _ Hx) as (k & l & ->).
    apply held_keys_find, Hsame, held_keys_find. exact Hx.
Qed.

(** A table that holds one key more has one entry more. *)
Lemma count_add hmap hmap' key len :
  NoDup (held_keys (hm_buckets hmap)) ->
  NoDup (held_keys (hm_buckets hmap')) ->
  find_key hmap key len = None ->
  (forall k l, find_key hmap' k l <> None <->
               key_eqb k l key len = true \/ find_key hmap k l <> None) ->
  count (hm_buckets hmap') = count (hm_buckets hmap) + 1.
Proof.
  intros Hn Hn' Hnone Hadd. rewrite !count_held_keys.
  assert (Hnew : the_key key len ∉ held_keys (hm_buckets hmap)).
  { rewrite held_keys_find. intros H. apply H. exact Hnone. }
  assert (Hp : held_keys (hm_buckets hmap')
               ≡ₚ the_key key len :: held_keys (hm_buckets hmap)).
  { apply NoDup_Permutation; [exact Hn' | constructor; assumption |].
    intros x. rewrite elem_of_cons. split.
    - intros Hx. destruct (held_keys_form _ _ Hx) as (k & l & ->).
      apply held_keys_find, Hadd in Hx as [Hx | Hx].
      + left. apply key_eqb_spec. exact Hx.
      + right. apply held_keys_find. exact Hx.
    - intros [-> | Hx].
      + apply held_keys_find, Hadd. left. apply key_eqb_spec. reflexivity.
      + destruct (held_keys_form _ _ Hx) as (k & l & ->).
        apply held_keys_find, Hadd. right. apply held_keys_find. exact Hx. }
  rewrite (Permutation_length Hp). cbn [length]. lia.
Qed.

Lemma well_formed_NoDup murmurhash3 hmap :
  well_formed murmurhash3 hmap -> NoDup (held_keys (hm_buckets hmap)).
Proof.
  intros ((Hok & _) & _ & Hu & _). destruct Hok as (_ & Hl & _).
  eapply held_keys_NoDup; eassumption.
Qed.

Lemma well_formed_nitems murmurhash3 hmap :
  well_formed murmurhash3 hmap -> hm_nitems hmap = count (hm_buckets hmap).
Proof. intros ((Hok & _) & _). destruct Hok as (_ & _ & Hn & _). exact Hn. Qed.

Section Count.
Variable murmurhash3 : list byte -> Z -> Z -> Z.
Hypothesis murmurhash3_reads : reads_len_bytes murmurhash3.

Lemma rhashmap_put_count w hmap key len val :
  well_formed murmurhash3 hmap -> hm_size hmap <= 2 ^ 15 ->
  0 <= len < 2 ^ 16 -> allocs w = [] ->
  exists w' hmap' ret,
    rhashmap_put murmurhash3 w hmap key len val = Done (w', hmap', ret) /\
    hm_nitems hmap' =
    match find_key hmap key len with
    | Some _ => hm_nitems hmap
    | None => hm_nitems hmap + 1
    end.
Proof.
  intros Hwf Hsz Hlen Hw.
  destruct (rhashmap_put_spec murmurhash3 murmurhash3_reads
              w hmap key len val Hwf Hsz Hlen Hw)
    as (w' & hmap' & E & _ & Hwf' & Hlaw).
  exists w', hmap', (default val (find_key hmap key len)).
  split; [exact E |].
  rewrite (well_formed_nitems _ _ Hwf), (well_formed_nitems _ _ Hwf').
  pose proof (well_formed_NoDup _ _ Hwf) as Hn.
  pose proof (well_formed_NoDup _ _ Hwf') as Hn'.
  destruct (find_key hmap key len) as [v |] eqn:Ek.
  - apply count_same; [exact Hn | exact Hn' |].
    intros k l. rewrite Hlaw.
    destruct (key_eqb k l key len) eqn:Ekl; [| reflexivity].
    apply key_eqb_spec in Ekl.
    rewrite (find_key_ext hmap k l key len Ekl), Ek. split; discriminate.
  - apply (count_add hmap hmap' key len); [exact Hn | exact Hn' | exact Ek |].
    intros k l. rewrite Hlaw.
    destruct (key_eqb k l key len).
    + split; [left; reflexivity | discriminate].
    + split; [right; assumption | intros [H | H]; [discriminate | exact H]].
Qed.

Lemma rhashmap_del_count w hmap key len :
  well_formed murmurhash3 hmap -> allocs w = [] ->
  exists w' hmap' ret,
    rhashmap_del murmurhash3 w hmap key len = Done (w', hmap', ret) /\
    hm_nitems hmap' =
    match find_key hmap key len with
    | Some _ => hm_nitems hmap - 1
    | None => hm_nitems hmap
    end.
Proof.
  intros Hwf Hw.
  destruct (rhashmap_del_spec murmurhash3 murmurhash3_reads
              w hmap key len Hwf Hw)
    as (w' & hmap' & E & _ & Hwf' & Hlaw).
  exists w', hmap', (default NULL (find_key hmap key len)).
  split; [exact E |].
  rewrite (well_formed_nitems _ _ Hwf), (well_formed_nitems _ _ Hwf').
  pose proof (well_formed_NoDup _ _ Hwf) as Hn.
  pose proof (well_formed_NoDup _ _ Hwf') as Hn'.
  destruct (find_key hmap key len) as [v |] eqn:Ek.
  - assert (count (hm_buckets hmap) = count (hm_buckets hmap') + 1);
      [| lia].
    apply (count_add hmap' hmap key len); [exact Hn' | exact Hn | |].
    + rewrite Hlaw. rewrite (proj2 (key_eqb_spec key len key len) eq_refl).
      reflexivity.
    + intros k l. rewrite Hlaw.
      destruct (key_eqb k l key len) eqn:Ekl.
      * apply key_eqb_spec in Ekl.
        rewrite (find_key_ext hmap k l key len Ekl), Ek.
        split; [left; reflexivity | discriminate].
      * split; [right; assumption | intros [H | H]; [discriminate | exact H]].
  - apply count_same; [exact Hn | exact Hn' |].
    intros k l. rewrite Hlaw.
    destruct (key_eqb k l key len) eqn:Ekl; [| reflexivity].
    apply key_eqb_spec in Ekl.
    rewrite (find_key_ext hmap k l key len Ekl), Ek. reflexivity.
Qed.

End Count.

(** * The walk lists the map *)

Lemma entry_pair_keys (es : list (list byte * Z * Z)) :
  (map entry_pair es).*1 = map key_of_entry es.
Proof.
  induction es as [| e es IH]; [reflexivity |]. cbn. rewrite <- IH.
  reflexivity.
Qed.

Lemma entry_pair_elem_key (es : list (list byte * Z * Z)) x v :
  (x, v) ∈ map entry_pair es -> x ∈ map key_of_entry es.
Proof.
  intros H. rewrite <- entry_pair_keys.
  apply (list_elem_of_fmap_2 fst _ _ H).
Qed.

Lemma entry_pair_NoDup (es : list (list byte * Z * Z)) :
  NoDup (map key_of_entry es) -> NoDup (map entry_pair es).
Proof.
  intros H. rewrite <- entry_pair_keys in H. exact (NoDup_fmap_1 fst _ H).
Qed.

Lemma stored_keys bs : map key_of_entry (omap bucket_entry bs) = held_keys bs.
Proof.
  induction bs as [| b bs IH]; [reflexivity |].
  rewrite held_keys_cons, <- IH.
  change (omap bucket_entry (b :: bs))
    with (match bucket_entry b with
          | Some e => e :: omap bucket_entry bs
          | None => omap bucket_entry bs
          end).
  unfold bucket_entry, key_of. destruct (b_key b); reflexivity.
Qed.

(** ** The list model *)

Lemma model_get_keys m k l :
  the_key k l ∈ map key_of_entry m <-> model_get m k l <> None.
Proof.
  induction m as [| [[k0 l0] v0] m IH]; cbn [map model_get].
  - split; [intros H; inversion H | congruence].
  - rewrite elem_of_cons, IH. unfold key_of_entry at 1. cbn [fst snd].
    destruct (key_eqb k l k0 l0) eqn:E.
    + apply key_eqb_spec in E. split; [discriminate | left; exact E].
    + split.
      * intros [H | H]; [| exact H].
        apply key_eqb_spec in H. congruence.
      * intros H. right. exact H.
Qed.

Lemma model_get_elem m k l v :
  NoDup (map key_of_entry m) ->
  ((the_key k l, v) ∈ map entry_pair m <-> model_get m k l = Some v).
Proof.
  induction m as [| [[k0 l0] v0] m IH]; cbn [map model_get]; intros Hn.
  - split; [intros H; inversion H | discriminate].
  - apply NoDup_cons in Hn as [Hnew Hn]. rewrite elem_of_cons.
    unfold entry_pair at 1, key_of_entry at 1. cbn [fst snd].
    unfold key_of_entry at 1 in Hnew. cbn [fst snd] in Hnew.
    destruct (key_eqb k l k0 l0) eqn:E.
    + apply key_eqb_spec in E. split.
      * intros [H | H]; [congruence |].
        exfalso. apply Hnew. rewrite <- E.
        eapply entry_pair_elem_key. exact H.
      * intros H. left. congruence.
    + split.
      * intros [H | H]; [| apply IH; assumption].
        pose proof (f_equal fst H) as Hk. cbn [fst] in Hk.
        apply key_eqb_spec in Hk. congruence.
      * intros H. right. apply IH; assumption.
Qed.

Lemma model_remove_keys m key len x :
  x ∈ map key_of_entry (model_remove m key len) -> x ∈ map key_of_entry m.
Proof.
  induction m as [| [[k0 l0] v0] m IH]; cbn [model_remove map];
    [intros H; exact H |].
  destruct (key_eqb key len k0 l0).
  - intros H. apply elem_of_cons. right. apply IH. exact H.
  - cbn [map]. rewrite !elem_of_cons. intros [H | H]; [left; exact H |].
    right. apply IH. exact H.
Qed.

Lemma model_remove_NoDup m key len :
  NoDup (map key_of_entry m) ->
  NoDup (map key_of_entry (model_remove m key len)).
Proof.
  induction m as [| [[k0 l0] v0] m IH]; cbn [model_remove map];
    intros Hn; [exact Hn |].
  apply NoDup_cons in Hn as [Hnew Hn].
  destruct (key_eqb key len k0 l0); [apply IH; exact Hn |].
  cbn [map]. apply NoDup_cons. split; [| apply IH; exact Hn].
  intros H. apply Hnew. eapply model_remove_keys. exact H.
Qed.

Lemma model_step_NoDup m o :
  NoDup (map key_of_entry m) -> NoDup (map key_of_entry (model_step m o).1).
Proof.
  intros Hn. destruct o as [key len val | key len]; cbn [model_step].
  - destruct (model_get m key len) as [v |] eqn:E; cbn [fst]; [exact Hn |].
    cbn [map]. apply NoDup_cons. split; [| exact Hn].
    unfold key_of_entry at 1. cbn [fst snd].
    rewrite model_get_keys. intros H. apply H. exact E.
  - cbn [fst]. apply model_remove_NoDup. exact Hn.
Qed.

Lemma model_run_NoDup ops : forall m,
  NoDup (map key_of_entry m) ->
  NoDup (map key_of_entry (model_run m ops).1).
Proof.
  induction ops as [| o ops IH]; intros m Hn; [exact Hn |].
  rewrite model_run_cons. cbn [fst]. apply IH, model_step_NoDup. exact Hn.
Qed.

(** ** The entries of a table *)

Lemma stored_elem sz bs k l v :
  length bs = Z.to_nat sz -> unique_keys sz bs ->
  ((the_key k l, v) ∈ map entry_pair (omap bucket_entry bs) <->
   option_map b_val (find_bucket bs k l) = Some v).
Proof.
  intros Hlen Hu. split.
  - intros H. apply list_elem_of_fmap in H as (e & He & Hin).
    apply list_elem_of_omap in Hin as (b & Hb & Hbe).
    apply list_elem_of_lookup in Hb as (j & Hj).
    pose proof (lookup_lt_Some _ _ _ Hj) as Hlt.
    pose proof (lookup_bucket_ref _ _ _ Hj) as Hbj.
    unfold bucket_entry in Hbe.
    destruct (b_key b) as [k0 |] eqn:Hk0; [| discriminate].
    inversion Hbe; subst e.
    pose proof (f_equal fst He) as Hkey. pose proof (f_equal snd He) as Hval.
    unfold entry_pair, key_of_entry in Hkey, Hval. cbn [fst snd] in Hkey, Hval.
    assert (Hkb : key_of (bucket_ref bs (Z.of_nat j)) = Some (the_key k l)).
    { rewrite Hbj. unfold key_of. rewrite Hk0, Hkey. reflexivity. }
    assert (Hjr : 0 <= Z.of_nat j < sz) by lia.
    rewrite (find_bucket_at sz bs k l (Z.of_nat j) Hlen Hu Hjr Hkb).
    rewrite Hbj, Hval. reflexivity.
  - intros H. destruct (find_bucket bs k l) as [b |] eqn:E; [| discriminate].
    inversion H; subst v.
    destruct (find_bucket_some _ _ _ _ E) as (j & Hj & Hkey).
    unfold key_of in Hkey.
    destruct (b_key b) as [k0 |] eqn:Hk0; [| discriminate].
    apply list_elem_of_fmap. exists (k0, b_len b, b_val b). split.
    + unfold entry_pair, key_of_entry, the_key in *. cbn [fst snd].
      congruence.
    + apply list_elem_of_omap. exists b. split.
      * apply list_elem_of_lookup. exists j. exact Hj.
      * unfold bucket_entry. rewrite Hk0. reflexivity.
Qed.

Lemma stored_perm murmurhash3 hmap m :
  well_formed murmurhash3 hmap -> NoDup (map key_of_entry m) ->
  (forall k l, find_key hmap k l = model_get m k l) ->
  map entry_pair (stored hmap) ≡ₚ map entry_pair m.
Proof.
  intros Hwf Hm HF.
  pose proof (well_formed_NoDup _ _ Hwf) as Hn.
  destruct Hwf as ((Hok & _) & _ & Hu & _). destruct Hok as (_ & Hl & _).
  apply NoDup_Permutation.
  - apply entry_pair_NoDup. unfold stored. rewrite stored_keys. exact Hn.
  - apply entry_pair_NoDup. exact Hm.
  - intros [x v]. split; intros H.
    + pose proof H as H'.
      apply list_elem_of_fmap in H' as (e & He & _).
      pose proof (f_equal fst He) as Hx. cbn [fst entry_pair] in Hx.
      unfold key_of_entry in Hx. rewrite Hx in H |- *.
      apply model_get_elem; [exact Hm |]. rewrite <- HF.
      apply (stored_elem _ _ _ _ _ Hl Hu). exact H.
    + pose proof H as H'.
      apply list_elem_of_fmap in H' as (e & He & _).
      pose proof (f_equal fst He) as Hx. cbn [fst entry_pair] in Hx.
      unfold key_of_entry in Hx. rewrite Hx in H |- *.
      apply (stored_elem _ _ _ _ _ Hl Hu). fold (find_key hmap e.1.1 e.1.2).
      rewrite HF. apply model_get_elem; [exact Hm | exact H].
Qed.

Section WalkModel.
Variable murmurhash3 : list byte -> Z -> Z -> Z.
Hypothesis murmurhash3_reads : reads_len_bytes murmurhash3.

Lemma create_run_walk w size flags ops :
  allocs w = [] -> 0 <= size <= 2 ^ 15 ->
  Forall valid_op ops -> Z.of_nat (length ops) <= 13920 ->
  exists w0 hmap0 w' hmap' rets,
    rhashmap_create murmurhash3 w size flags = Done (w0, Some hmap0) /\
    run murmurhash3 w0 hmap0 ops = Done (w', hmap', rets) /\
    hm_nitems hmap' = Z.of_nat (length (model_run [] ops).1) /\
    NoDup (map key_of_entry (stored hmap')) /\
    map entry_pair (stored hmap') ≡ₚ map entry_pair (model_run [] ops).1 /\
    exists iter,
      walk_iter (Z.to_nat (hm_nitems hmap')) hmap' RHM_WALK_BEGIN
      = (stored hmap', iter) /\
      rhashmap_walk hmap' iter = (None, iter).
Proof.
  intros Hw Hsize Hv Hlen.
  assert (Hsize' : 0 <= size <= 2 ^ 16) by lia.
  destruct (rhashmap_create_spec murmurhash3 murmurhash3_reads w size flags
              Hw Hsize')
    as (w0 & hmap0 & Ec & Hw0 & Hwf0 & Hs0 & Hm0 & Hn0 & _ & Hf0).
  assert (HF0 : forall k l, find_key hmap0 k l = model_get [] k l)
    by exact Hf0.
  assert (Hms : hm_minsize hmap0 <= hm_size hmap0) by lia.
  assert (Hmb : hm_minsize hmap0 <= 2 ^ 15) by lia.
  assert (Hn : hm_nitems hmap0 <= 0) by lia.
  assert (Hsz : hm_size hmap0 <= hm_minsize hmap0 \/
                870 * hm_size hmap0 < 2048 * 0) by lia.
  assert (Hlen0 : 0 + Z.of_nat (length ops) <= 13920) by lia.
  destruct (run_refines_from murmurhash3 murmurhash3_reads ops 0 w0 hmap0 []
              Hwf0 Hw0 HF0 Hms Hmb Hn Hsz Hv Hlen0)
    as (w' & hmap' & Er & Hw' & Hwf' & HF').
  assert (Hnd : NoDup (map key_of_entry (model_run [] ops).1)).
  { apply model_run_NoDup. constructor. }
  pose proof (stored_perm murmurhash3 hmap' _ Hwf' Hnd HF') as Hp.
  pose proof Hwf' as ((Hok & _) & _).
  destruct (walk_all hmap' Hok) as (Hcount & iter & Hit & Hend).
  exists w0, hmap0, w', hmap', (model_run [] ops).2.
  split; [exact Ec |]. split; [exact Er |]. split.
  { rewrite <- Hcount. f_equal.
    pose proof (Permutation_length Hp) as Hpl.
    rewrite !length_map in Hpl. exact Hpl. }
  split.
  { unfold stored. rewrite stored_keys.
    exact (well_formed_NoDup _ _ Hwf'). }
  split; [exact Hp |]. exists iter. split; [exact Hit | exact Hend].
Qed.

End WalkModel.

Lemma table_ok_facts hmap :
  table_ok hmap ->
  1 <= hm_size hmap < 2 ^ 32 /\
  hm_divinfo hmap = fast_div32_init (hm_size hmap) /\
  length (hm_buckets hmap) = Z.to_nat (hm_size hmap) /\
  hm_nitems hmap = Z.of_nat (length (stored hmap)) /\
  hm_nitems hmap <= hm_size hmap /\
  1 <= hm_minsize hmap < 2 ^ 32.
Proof.
  intros ((Hs & Hd) & Hl & Hn & Hmin).
  pose proof (count_range (hm_buckets hmap)) as Hc.
  split; [exact Hs |]. split; [exact Hd |]. split; [exact Hl |].
  split; [exact Hn |]. split; [lia | exact Hmin].
Qed.

Lemma table_abc_reachable : reachable murmurhash3_unused table_abc.
Proof.
  apply (run_reachable murmurhash3_unused (put_letters 3) calm table_empty
           calm table_abc [1; 2; 3]); [| vm_compute; reflexivity].
  apply (reach_create murmurhash3_unused calm 0 0 calm table_empty).
  vm_compute. reflexivity.
Qed.

(** * The shape of the tables the operations build *)

(** X5.  On every table built by [rhashmap_create], [rhashmap_put] and
    [rhashmap_del], whatever the allocator answers: [size] is a positive
    [unsigned] and [divinfo] is its constant, the array has [size]
    buckets, [nitems] is the number of occupied buckets and does not
    exceed [size], and [minsize] is at least 1. *)
Theorem reachable_table_shape murmurhash3 hmap :
  reachable murmurhash3 hmap ->
  1 <= hm_size hmap < 2 ^ 32 /\
  hm_divinfo hmap = fast_div32_init (hm_size hmap) /\
  length (hm_buckets hmap) = Z.to_nat (hm_size hmap) /\
  hm_nitems hmap = Z.of_nat (length (stored hmap)) /\
  hm_nitems hmap <= hm_size hmap /\
  1 <= hm_minsize hmap < 2 ^ 32.
Proof.
  intros Hr. apply table_ok_facts. apply (reachable_shape murmurhash3).
  exact Hr.
Qed.

(** X6.  [rhashmap_get] of a key of [len > 0] bytes on a table the
    operations built returns: the probe ends within 2^16 + 1 steps and
    compares no [NULL] key. *)
Theorem get_returns_on_built_table murmurhash3 hmap key len :
  reachable murmurhash3 hmap -> 0 < len ->
  exists val, rhashmap_get murmurhash3 hmap key len = Done val.
Proof. apply rhashmap_get_returns. Qed.

(** X7.  [rhashmap_put] on a table the operations built, of fewer than 2^31
    buckets, returns: it reads no [NULL] key, divides by no zero and its
    probe ends, also when allocations fail. *)
Theorem put_returns_on_built_table murmurhash3 w hmap key len val :
  reachable murmurhash3 hmap -> hm_size hmap < 2 ^ 31 ->
  exists w' hmap' ret,
    rhashmap_put murmurhash3 w hmap key len val = Done (w', hmap', ret).
Proof. apply reachable_put_returns. Qed.

(** X8.  [rhashmap_del] on a table the operations built returns: the probe
    and the backward shift end, and the shrink divides by no zero, also
    when allocations fail. *)
Theorem del_returns_on_built_table murmurhash3 w hmap key len :
  reachable murmurhash3 hmap ->
  exists w' hmap' ret,
    rhashmap_del murmurhash3 w hmap key len = Done (w', hmap', ret).
Proof. apply reachable_del_returns. Qed.

(** X9.  On a table of 2^31 buckets that holds an entry, [rhashmap_put]
    asks [rhashmap_resize] for 0 buckets, the doubled size wrapped to an
    [unsigned]; when the allocation succeeds, [fast_div32_init(0)]
    divides by zero. *)
Theorem put_on_2_31_buckets_divides_by_zero murmurhash3 w w1 hmap key len
    val :
  hm_size hmap = 2 ^ 31 -> 0 < hm_nitems hmap -> alloc w = (true, w1) ->
  grow_size hmap = 0 /\
  rhashmap_put murmurhash3 w hmap key len val = DivByZero.
Proof. apply rhashmap_put_wraps. Qed.

(** X10.  On a table the operations built, [nitems] calls of
    [rhashmap_walk] from the cursor 0 return the entries of the occupied
    buckets, which are [nitems] many, and the next call returns the
    end. *)
Theorem walk_returns_nitems_entries murmurhash3 hmap :
  reachable murmurhash3 hmap ->
  Z.of_nat (length (stored hmap)) = hm_nitems hmap /\
  exists iter,
    walk_iter (Z.to_nat (hm_nitems hmap)) hmap RHM_WALK_BEGIN
    = (stored hmap, iter) /\
    rhashmap_walk hmap iter = (None, iter).
Proof.
  intros Hr. apply walk_all. apply (reachable_shape murmurhash3). exact Hr.
Qed.

(** * The Robin Hood order *)

(** X11.  The table [rhashmap_create] returns, when it has at most 2^16
    buckets, is in Robin Hood order. *)
Theorem create_builds_robin_hood murmurhash3 w size flags w' hmap :
  rhashmap_create murmurhash3 w size flags = Done (w', Some hmap) ->
  hm_size hmap <= 2 ^ 16 ->
  robin_hood hmap.
Proof. apply rhashmap_create_rh. Qed.

(** X12.  [rhashmap_put] keeps the Robin Hood order, whatever the
    allocator answers, as long as the table it leaves has at most 2^16
    buckets: every [psl] is the distance from the slot of the digest, and
    an entry away from its slot follows one that has travelled at most one
    bucket less. *)
Theorem put_keeps_robin_hood murmurhash3 w hmap key len val w' hmap' ret :
  robin_hood hmap ->
  rhashmap_put murmurhash3 w hmap key len val = Done (w', hmap', ret) ->
  hm_size hmap' <= 2 ^ 16 ->
  robin_hood hmap'.
Proof. apply rhashmap_put_rh. Qed.

(** X13.  [rhashmap_del] keeps the Robin Hood order, whatever the
    allocator answers: the backward shift closes the gap and lowers each
    moved [psl] by one. *)
Theorem del_keeps_robin_hood murmurhash3 w hmap key len w' hmap' ret :
  robin_hood hmap ->
  rhashmap_del murmurhash3 w hmap key len = Done (w', hmap', ret) ->
  robin_hood hmap'.
Proof. apply rhashmap_del_rh. Qed.

(** X14.  On a table in Robin Hood order the check the code asserts,
    [validate_psl_p], holds of every bucket, and every stored [psl] is the
    displacement of its entry. *)
Theorem robin_hood_checks_hold hmap :
  robin_hood hmap ->
  psl_invariant hmap /\
  forall i, 0 <= i < hm_size hmap ->
    validate_psl_p hmap (bucket_ref (hm_buckets hmap) i) i = true.
Proof.
  intros Hrh. split; [apply robin_hood_psl; exact Hrh |].
  intros i Hi. apply robin_hood_validate; assumption.
Qed.

(** * The operations as operations on a map *)

(** X15.  On a well-formed table [rhashmap_get] of a key of [len > 0]
    bytes returns what a search of the whole array finds: the value of the
    bucket that holds the key, [NULL] when no bucket holds it.  The probe
    that stops at an empty bucket or at a shorter [psl] misses nothing. *)
Theorem get_is_array_search murmurhash3 hmap key len :
  reads_len_bytes murmurhash3 ->
  well_formed murmurhash3 hmap -> 0 < len ->
  rhashmap_get murmurhash3 hmap key len
  = Done (default NULL (find_key hmap key len)).
Proof. intros Hreads. apply (rhashmap_get_find murmurhash3 Hreads). Qed.

(** X16.  [rhashmap_put] on a well-formed table of at most 2^15 buckets,
    no allocation failing: it returns the value already stored for the key
    and otherwise [val]; the table it leaves is well formed, maps the key
    to the returned value, and maps every other key as before, across the
    grow. *)
Theorem put_updates_lookup murmurhash3 w hmap key len val :
  reads_len_bytes murmurhash3 ->
  well_formed murmurhash3 hmap -> hm_size hmap <= 2 ^ 15 ->
  0 <= len < 2 ^ 16 -> allocs w = [] ->
  exists w' hmap',
    rhashmap_put murmurhash3 w hmap key len val
    = Done (w', hmap', default val (find_key hmap key len)) /\
    allocs w' = [] /\ well_formed murmurhash3 hmap' /\
    forall k l,
      find_key hmap' k l =
      if key_eqb k l key len then Some (default val (find_key hmap key len))
      else find_key hmap k l.
Proof. intros Hreads. apply (rhashmap_put_spec murmurhash3 Hreads). Qed.

(** X17.  [rhashmap_del] on a well-formed table, no allocation failing: it
    returns the value stored for the key, [NULL] when there is none; the
    table it leaves is well formed, no longer holds the key, and maps every
    other key as before, across the shrink. *)
Theorem del_updates_lookup murmurhash3 w hmap key len :
  reads_len_bytes murmurhash3 ->
  well_formed murmurhash3 hmap -> allocs w = [] ->
  exists w' hmap',
    rhashmap_del murmurhash3 w hmap key len
    = Done (w', hmap', default NULL (find_key hmap key len)) /\
    allocs w' = [] /\ well_formed murmurhash3 hmap' /\
    forall k l,
      find_key hmap' k l =
      if key_eqb k l key len then None else find_key hmap k l.
Proof. intros Hreads. apply (rhashmap_del_spec murmurhash3 Hreads). Qed.

(** X18.  [rhashmap_create(size, flags)] with [size <= 2^16], no
    allocation failing, returns a well-formed table of [max(size, 1)]
    buckets, which is also its [minsize], with the given flags and no
    entry: every lookup misses. *)
Theorem create_gives_empty_table murmurhash3 w size flags :
  reads_len_bytes murmurhash3 ->
  allocs w = [] -> 0 <= size <= 2 ^ 16 ->
  exists w' hmap,
    rhashmap_create murmurhash3 w size flags = Done (w', Some hmap) /\
    allocs w' = [] /\ well_formed murmurhash3 hmap /\
    hm_size hmap = Z.max size 1 /\ hm_minsize hmap = Z.max size 1 /\
    hm_nitems hmap = 0 /\ hm_flags hmap = flags /\
    forall k l, find_key hmap k l = None.
Proof. intros Hreads. apply (rhashmap_create_spec murmurhash3 Hreads). Qed.

(** X19.  [rhashmap_resize] to [newsize <= 2^16] buckets, no allocation
    failing, the old entries fitting: it returns 0 and leaves a well-formed
    table of [newsize] buckets in which every key has the value its bucket
    had in the old array. *)
Theorem resize_keeps_lookup murmurhash3 w hmap newsize w' hmap' rc :
  reads_len_bytes murmurhash3 ->
  allocs w = [] -> 1 <= hm_minsize hmap < 2 ^ 32 ->
  0 <= newsize <= 2 ^ 16 ->
  Forall fields_ok (old_buckets hmap newsize) ->
  count (old_buckets hmap newsize) <= newsize ->
  rhashmap_resize murmurhash3 w hmap newsize = Done (w', hmap', rc) ->
  rc = 0 /\ allocs w' = [] /\ well_formed murmurhash3 hmap' /\
  hm_size hmap' = newsize /\
  forall k l,
    find_key hmap' k l =
    option_map b_val (find_bucket (old_buckets hmap newsize) k l).
Proof. intros Hreads. apply (rhashmap_resize_spec murmurhash3 Hreads). Qed.

(** X20.  A table created with [size <= 2^15] and driven by at most 13920
    puts and deletes of keys of 1 to 65535 bytes, no allocation failing,
    behaves as a list of entries: each call returns what the list
    operation returns, and afterwards [rhashmap_get] of any key returns
    what the list holds for it.  So few operations keep the table within
    2^15 buckets, where no [psl] wraps. *)
Theorem run_refines_list_model murmurhash3 w size flags ops :
  reads_len_bytes murmurhash3 ->
  allocs w = [] -> 0 <= size <= 2 ^ 15 ->
  Forall valid_op ops -> Z.of_nat (length ops) <= 13920 ->
  exists w0 hmap0 w' hmap',
    rhashmap_create murmurhash3 w size flags = Done (w0, Some hmap0) /\
    run murmurhash3 w0 hmap0 ops = Done (w', hmap', (model_run [] ops).2) /\
    well_formed murmurhash3 hmap' /\
    forall k l, 0 < l ->
      rhashmap_get murmurhash3 hmap' k l
      = Done (default NULL (model_get (model_run [] ops).1 k l)).
Proof. intros Hreads. apply (create_run_refines murmurhash3 Hreads). Qed.

(** X21.  After [rhashmap_put] on a well-formed table of at most 2^15
    buckets, no allocation failing, [rhashmap_get] of the key returns what
    the put returned, and [rhashmap_get] of any other key returns what it
    returned before. *)
Theorem put_then_get_returns_value murmurhash3 w hmap key len val :
  reads_len_bytes murmurhash3 ->
  well_formed murmurhash3 hmap -> hm_size hmap <= 2 ^ 15 ->
  0 < len < 2 ^ 16 -> allocs w = [] ->
  exists w' hmap' ret,
    rhashmap_put murmurhash3 w hmap key len val = Done (w', hmap', ret) /\
    ret = default val (find_key hmap key len) /\
    rhashmap_get murmurhash3 hmap' key len = Done ret /\
    forall k l, 0 < l -> key_eqb k l key len = false ->
      rhashmap_get murmurhash3 hmap' k l = rhashmap_get murmurhash3 hmap k l.
Proof. intros Hreads. apply (put_then_get murmurhash3 Hreads). Qed.

(** X22.  [rhashmap_del] on a well-formed table, no allocation failing,
    returns what [rhashmap_get] of the key returned; afterwards
    [rhashmap_get] of the key returns [NULL] and [rhashmap_get] of any
    other key returns what it returned before. *)
Theorem del_then_get_returns_null murmurhash3 w hmap key len :
  reads_len_bytes murmurhash3 ->
  well_formed murmurhash3 hmap -> 0 < len -> allocs w = [] ->
  exists w' hmap',
    rhashmap_del murmurhash3 w hmap key len
    = Done (w', hmap', default NULL (find_key hmap key len)) /\
    rhashmap_get murmurhash3 hmap key len
    = Done (default NULL (find_key hmap key len)) /\
    rhashmap_get murmurhash3 hmap' key len = Done NULL /\
    forall k l, 0 < l -> key_eqb k l key len = false ->
      rhashmap_get murmurhash3 hmap' k l = rhashmap_get murmurhash3 hmap k l.
Proof. intros Hreads. apply (del_then_get murmurhash3 Hreads). Qed.

(** X23.  [rhashmap_del] of a key that no bucket holds returns [NULL] and
    leaves the table and the allocator as they were. *)
Theorem del_of_missing_key murmurhash3 w hmap key len :
  Forall fields_ok (hm_buckets hmap) ->
  find_key hmap key len = None ->
  rhashmap_del murmurhash3 w hmap key len = Done (w, hmap, NULL).
Proof. apply rhashmap_del_absent. Qed.

(** * The capacity *)

(** X24.  [rhashmap_del] leaves [minsize] as it is, adds no entry, never
    grows the table and never shrinks it below [minsize]. *)
Theorem del_capacity murmurhash3 w hmap key len w' hmap' ret :
  table_ok hmap -> hm_minsize hmap <= hm_size hmap ->
  rhashmap_del murmurhash3 w hmap key len = Done (w', hmap', ret) ->
  hm_minsize hmap' = hm_minsize hmap /\
  hm_nitems hmap' <= hm_nitems hmap /\
  hm_minsize hmap <= hm_size hmap' <= hm_size hmap.
Proof. apply rhashmap_del_sizes. Qed.

(** * The number of entries *)

(** X25.  [rhashmap_put] on a well-formed table of at most 2^15 buckets,
    no allocation failing, adds one to [nitems] when the key was not held
    and leaves [nitems] as it is when the key was held, across the grow. *)
Theorem put_counts_keys murmurhash3 w hmap key len val :
  reads_len_bytes murmurhash3 ->
  well_formed murmurhash3 hmap -> hm_size hmap <= 2 ^ 15 ->
  0 <= len < 2 ^ 16 -> allocs w = [] ->
  exists w' hmap' ret,
    rhashmap_put murmurhash3 w hmap key len val = Done (w', hmap', ret) /\
    hm_nitems hmap' =
    match find_key hmap key len with
    | Some _ => hm_nitems hmap
    | None => hm_nitems hmap + 1
    end.
Proof. intros Hreads. apply (rhashmap_put_count murmurhash3 Hreads). Qed.

(** X26.  [rhashmap_del] on a well-formed table, no allocation failing,
    takes one from [nitems] when the key was held and leaves [nitems] as
    it is when the key was not held, across the shrink. *)
Theorem del_counts_keys murmurhash3 w hmap key len :
  reads_len_bytes murmurhash3 ->
  well_formed murmurhash3 hmap -> allocs w = [] ->
  exists w' hmap' ret,
    rhashmap_del murmurhash3 w hmap key len = Done (w', hmap', ret) /\
    hm_nitems hmap' =
    match find_key hmap key len with
    | Some _ => hm_nitems hmap - 1
    | None => hm_nitems hmap
    end.
Proof. intros Hreads. apply (rhashmap_del_count murmurhash3 Hreads). Qed.

(** X27.  After a table created with [size <= 2^15] has been driven by at
    most 13920 puts and deletes of keys of 1 to 65535 bytes, no allocation
    failing, [nitems] is the number of entries of the list the operations
    stand for, and [nitems] calls of [rhashmap_walk] from the cursor 0
    return, in some order, exactly the keys of that list with their values,
    no key twice; the next call returns the end. *)
Theorem walk_after_run_lists_the_map murmurhash3 w size flags ops :
  reads_len_bytes murmurhash3 ->
  allocs w = [] -> 0 <= size <= 2 ^ 15 ->
  Forall valid_op ops -> Z.of_nat (length ops) <= 13920 ->
  exists w0 hmap0 w' hmap' rets,
    rhashmap_create murmurhash3 w size flags = Done (w0, Some hmap0) /\
    run murmurhash3 w0 hmap0 ops = Done (w', hmap', rets) /\
    hm_nitems hmap' = Z.of_nat (length (model_run [] ops).1) /\
    NoDup (map key_of_entry (stored hmap')) /\
    map entry_pair (stored hmap') ≡ₚ map entry_pair (model_run [] ops).1 /\
    exists iter,
      walk_iter (Z.to_nat (hm_nitems hmap')) hmap' RHM_WALK_BEGIN
      = (stored hmap', iter) /\
      rhashmap_walk hmap' iter = (None, iter).
Proof. intros Hreads. apply (create_run_walk murmurhash3 Hreads). Qed.

Lemma reachable_table_shape_witness :
  reachable murmurhash3_unused table_abc /\
  1 <= hm_size table_abc < 2 ^ 32 /\
  hm_divinfo table_abc = fast_div32_init (hm_size table_abc) /\
  length (hm_buckets table_abc) = Z.to_nat (hm_size table_abc) /\
  hm_nitems table_abc = Z.of_nat (length (stored table_abc)) /\
  hm_nitems table_abc <= hm_size table_abc /\
  1 <= hm_minsize table_abc < 2 ^ 32.
Proof.
  split; [exact table_abc_reachable |].
  exact (reachable_table_shape murmurhash3_unused table_abc
           table_abc_reachable).
Defined.

Lemma get_returns_on_built_table_witness :
  reachable murmurhash3_unused table_abc /\ 0 < 1 /\
  exists val, rhashmap_get murmurhash3_unused table_abc key_d 1 = Done val.
Proof.
  assert (Hl : 0 < 1) by lia.
  split; [exact table_abc_reachable |]. split; [exact Hl |].
  exact (get_returns_on_built_table murmurhash3_unused table_abc key_d 1
           table_abc_reachable Hl).
Defined.

Lemma put_returns_on_built_table_witness :
  reachable murmurhash3_unused table_abc /\ hm_size table_abc < 2 ^ 31 /\
  exists w' hmap' ret,
    rhashmap_put murmurhash3_unused calm table_abc key_d 1 4
    = Done (w', hmap', ret).
Proof.
  assert (Hs : hm_size table_abc < 2 ^ 31) by (simpl; lia).
  split; [exact table_abc_reachable |]. split; [exact Hs |].
  exact (put_returns_on_built_table murmurhash3_unused calm table_abc key_d
           1 4 table_abc_reachable Hs).
Defined.

Lemma del_returns_on_built_table_witness :
  reachable murmurhash3_unused table_abc /\
  exists w' hmap' ret,
    rhashmap_del murmurhash3_unused calm table_abc key_b 1
    = Done (w', hmap', ret).
Proof.
  split; [exact table_abc_reachable |].
  exact (del_returns_on_built_table murmurhash3_unused calm table_abc key_b
           1 table_abc_reachable).
Defined.

Lemma put_on_2_31_buckets_divides_by_zero_witness :
  hm_size table_2_31 = 2 ^ 31 /\ 0 < hm_nitems table_2_31 /\
  alloc calm = (true, calm) /\
  grow_size table_2_31 = 0 /\
  rhashmap_put murmurhash3_unused calm table_2_31 key_b 1 34 = DivByZero.
Proof.
  assert (Hs : hm_size table_2_31 = 2 ^ 31) by reflexivity.
  assert (Hn : 0 < hm_nitems table_2_31) by (simpl; lia).
  assert (Ha : alloc calm = (true, calm)) by reflexivity.
  split; [exact Hs |]. split; [exact Hn |]. split; [exact Ha |].
  exact (put_on_2_31_buckets_divides_by_zero murmurhash3_unused calm calm
           table_2_31 key_b 1 34 Hs Hn Ha).
Defined.

Lemma walk_returns_nitems_entries_witness :
  reachable murmurhash3_unused table_abc /\
  Z.of_nat (length (stored table_abc)) = hm_nitems table_abc /\
  exists iter,
    walk_iter (Z.to_nat (hm_nitems table_abc)) table_abc RHM_WALK_BEGIN
    = (stored table_abc, iter) /\
    rhashmap_walk table_abc iter = (None, iter).
Proof.
  split; [exact table_abc_reachable |].
  exact (walk_returns_nitems_entries murmurhash3_unused table_abc
           table_abc_reachable).
Defined.

Lemma create_builds_robin_hood_witness :
  rhashmap_create murmurhash3_unused calm 0 0 = Done (calm, Some table_empty) /\
  hm_size table_empty <= 2 ^ 16 /\ robin_hood table_empty.
Proof.
  assert (Hc : rhashmap_create murmurhash3_unused calm 0 0
               = Done (calm, Some table_empty)) by (vm_compute; reflexivity).
  assert (Hs : hm_size table_empty <= 2 ^ 16) by (simpl; lia).
  split; [exact Hc |]. split; [exact Hs |].
  exact (create_builds_robin_hood murmurhash3_unused calm 0 0 calm
           table_empty Hc Hs).
Defined.

Lemma put_keeps_robin_hood_witness :
  robin_hood table_a /\
  rhashmap_put murmurhash3_unused calm table_a key_b 1 34
  = Done (calm, table_ab, 34) /\
  hm_size table_ab <= 2 ^ 16 /\ robin_hood table_ab.
Proof.
  assert (Hp : rhashmap_put murmurhash3_unused calm table_a key_b 1 34
               = Done (calm, table_ab, 34)) by (vm_compute; reflexivity).
  assert (Hs : hm_size table_ab <= 2 ^ 16) by (simpl; lia).
  split; [exact (proj1 table_a_well_formed) |]. split; [exact Hp |].
  split; [exact Hs |].
  exact (put_keeps_robin_hood murmurhash3_unused calm table_a key_b 1 34
           calm table_ab 34 (proj1 table_a_well_formed) Hp Hs).
Defined.

Lemma del_keeps_robin_hood_witness :
  robin_hood table_cde /\
  rhashmap_del murmurhash3_unused calm table_cde key_c 1
  = Done (calm, table_de, 3) /\
  robin_hood table_de.
Proof.
  assert (Hd : rhashmap_del murmurhash3_unused calm table_cde key_c 1
               = Done (calm, table_de, 3)) by (vm_compute; reflexivity).
  split; [exact (proj1 table_cde_well_formed) |]. split; [exact Hd |].
  exact (del_keeps_robin_hood murmurhash3_unused calm table_cde key_c 1
           calm table_de 3 (proj1 table_cde_well_formed) Hd).
Defined.

Lemma robin_hood_checks_hold_witness :
  robin_hood table_abc /\ psl_invariant table_abc /\
  forall i, 0 <= i < hm_size table_abc ->
    validate_psl_p table_abc (bucket_ref (hm_buckets table_abc) i) i = true.
Proof.
  split; [exact (proj1 table_abc_well_formed) |].
  exact (robin_hood_checks_hold table_abc (proj1 table_abc_well_formed)).
Defined.

Lemma get_is_array_search_witness :
  reads_len_bytes murmurhash3_unused /\
  well_formed murmurhash3_unused table_abc /\ 0 < 1 /\
  rhashmap_get murmurhash3_unused table_abc key_b 1
  = Done (default NULL (find_key table_abc key_b 1)).
Proof.
  assert (Hl : 0 < 1) by lia.
  split; [exact murmurhash3_unused_reads |].
  split; [exact table_abc_well_formed |]. split; [exact Hl |].
  exact (get_is_array_search murmurhash3_unused table_abc key_b 1
           murmurhash3_unused_reads table_abc_well_formed Hl).
Defined.

Lemma put_updates_lookup_witness :
  reads_len_bytes murmurhash3_unused /\
  well_formed murmurhash3_unused table_abc /\ hm_size table_abc <= 2 ^ 15 /\
  0 <= 1 < 2 ^ 16 /\ allocs calm = [] /\
  exists w' hmap',
    rhashmap_put murmurhash3_unused calm table_abc key_d 1 4
    = Done (w', hmap', default 4 (find_key table_abc key_d 1)) /\
    allocs w' = [] /\ well_formed murmurhash3_unused hmap' /\
    forall k l,
      find_key hmap' k l =
      if key_eqb k l key_d 1
      then Some (default 4 (find_key table_abc key_d 1))
      else find_key table_abc k l.
Proof.
  assert (Hs : hm_size table_abc <= 2 ^ 15) by (simpl; lia).
  assert (Hl : 0 <= 1 < 2 ^ 16) by lia.
  assert (Hw : allocs calm = []) by reflexivity.
  split; [exact murmurhash3_unused_reads |].
  split; [exact table_abc_well_formed |]. split; [exact Hs |].
  split; [exact Hl |]. split; [exact Hw |].
  exact (put_updates_lookup murmurhash3_unused calm table_abc key_d 1 4
           murmurhash3_unused_reads table_abc_well_formed Hs Hl Hw).
Defined.

Lemma del_updates_lookup_witness :
  reads_len_bytes murmurhash3_unused /\
  well_formed murmurhash3_unused table_abc /\ allocs calm = [] /\
  exists w' hmap',
    rhashmap_del murmurhash3_unused calm table_abc key_b 1
    = Done (w', hmap', default NULL (find_key table_abc key_b 1)) /\
    allocs w' = [] /\ well_formed murmurhash3_unused hmap' /\
    forall k l,
      find_key hmap' k l =
      if key_eqb k l key_b 1 then None else find_key table_abc k l.
Proof.
  assert (Hw : allocs calm = []) by reflexivity.
  split; [exact murmurhash3_unused_reads |].
  split; [exact table_abc_well_formed |]. split; [exact Hw |].
  exact (del_updates_lookup murmurhash3_unused calm table_abc key_b 1
           murmurhash3_unused_reads table_abc_well_formed Hw).
Defined.

Lemma create_gives_empty_table_witness :
  reads_len_bytes murmurhash3_unused /\
  allocs calm = [] /\ 0 <= 20 <= 2 ^ 16 /\
  exists w' hmap,
    rhashmap_create murmurhash3_unused calm 20 0 = Done (w', Some hmap) /\
    allocs w' = [] /\ well_formed murmurhash3_unused hmap /\
    hm_size hmap = Z.max 20 1 /\ hm_minsize hmap = Z.max 20 1 /\
    hm_nitems hmap = 0 /\ hm_flags hmap = 0 /\
    forall k l, find_key hmap k l = None.
Proof.
  assert (Hw : allocs calm = []) by reflexivity.
  assert (Hs : 0 <= 20 <= 2 ^ 16) by lia.
  split; [exact murmurhash3_unused_reads |].
  split; [exact Hw |]. split; [exact Hs |].
  exact (create_gives_empty_table murmurhash3_unused calm 20 0
           murmurhash3_unused_reads Hw Hs).
Defined.

Lemma resize_keeps_lookup_witness :
  reads_len_bytes murmurhash3_unused /\
  allocs calm = [] /\ 1 <= hm_minsize table_a < 2 ^ 32 /\
  0 <= 2 <= 2 ^ 16 /\
  Forall fields_ok (old_buckets table_a 2) /\
  count (old_buckets table_a 2) <= 2 /\
  rhashmap_resize murmurhash3_unused calm table_a 2
  = Done (calm, table_a2, 0) /\
  0 = 0 /\ allocs calm = [] /\ well_formed murmurhash3_unused table_a2 /\
  hm_size table_a2 = 2 /\
  forall k l,
    find_key table_a2 k l =
    option_map b_val (find_bucket (old_buckets table_a 2) k l).
Proof.
  assert (Hw : allocs calm = []) by reflexivity.
  assert (Hm : 1 <= hm_minsize table_a < 2 ^ 32) by (simpl; lia).
  assert (Hn : 0 <= 2 <= 2 ^ 16) by lia.
  assert (Hf : Forall fields_ok (old_buckets table_a 2)).
  { repeat constructor; vm_compute; intuition congruence. }
  assert (Hc : count (old_buckets table_a 2) <= 2)
    by (vm_compute; discriminate).
  assert (Hr : rhashmap_resize murmurhash3_unused calm table_a 2
               = Done (calm, table_a2, 0)) by (vm_compute; reflexivity).
  split; [exact murmurhash3_unused_reads |].
  split; [exact Hw |]. split; [exact Hm |]. split; [exact Hn |].
  split; [exact Hf |]. split; [exact Hc |]. split; [exact Hr |].
  exact (resize_keeps_lookup murmurhash3_unused calm table_a 2 calm table_a2
           0 murmurhash3_unused_reads Hw Hm Hn Hf Hc Hr).
Defined.

Lemma run_refines_list_model_witness :
  reads_len_bytes murmurhash3_unused /\
  allocs calm = [] /\ 0 <= 0 <= 2 ^ 15 /\
  Forall valid_op sample_ops /\ Z.of_nat (length sample_ops) <= 13920 /\
  exists w0 hmap0 w' hmap',
    rhashmap_create murmurhash3_unused calm 0 0 = Done (w0, Some hmap0) /\
    run murmurhash3_unused w0 hmap0 sample_ops
    = Done (w', hmap', (model_run [] sample_ops).2) /\
    well_formed murmurhash3_unused hmap' /\
    forall k l, 0 < l ->
      rhashmap_get murmurhash3_unused hmap' k l
      = Done (default NULL (model_get (model_run [] sample_ops).1 k l)).
Proof.
  assert (Hw : allocs calm = []) by reflexivity.
  assert (Hs : 0 <= 0 <= 2 ^ 15) by lia.
  assert (Hv : Forall valid_op sample_ops).
  { repeat constructor; simpl; lia. }
  assert (Hl : Z.of_nat (length sample_ops) <= 13920) by (simpl; lia).
  split; [exact murmurhash3_unused_reads |].
  split; [exact Hw |]. split; [exact Hs |]. split; [exact Hv |].
  split; [exact Hl |].
  exact (run_refines_list_model murmurhash3_unused calm 0 0 sample_ops
           murmurhash3_unused_reads Hw Hs Hv Hl).
Defined.

Lemma put_then_get_returns_value_witness :
  reads_len_bytes murmurhash3_unused /\
  well_formed murmurhash3_unused table_abc /\ hm_size table_abc <= 2 ^ 15 /\
  0 < 1 < 2 ^ 16 /\ allocs calm = [] /\
  exists w' hmap' ret,
    rhashmap_put murmurhash3_unused calm table_abc key_d 1 4
    = Done (w', hmap', ret) /\
    ret = default 4 (find_key table_abc key_d 1) /\
    rhashmap_get murmurhash3_unused hmap' key_d 1 = Done ret /\
    forall k l, 0 < l -> key_eqb k l key_d 1 = false ->
      rhashmap_get murmurhash3_unused hmap' k l
      = rhashmap_get murmurhash3_unused table_abc k l.
Proof.
  assert (Hs : hm_size table_abc <= 2 ^ 15) by (simpl; lia).
  assert (Hl : 0 < 1 < 2 ^ 16) by lia.
  assert (Hw : allocs calm = []) by reflexivity.
  split; [exact murmurhash3_unused_reads |].
  split; [exact table_abc_well_formed |]. split; [exact Hs |].
  split; [exact Hl |]. split; [exact Hw |].
  exact (put_then_get_returns_value murmurhash3_unused calm table_abc key_d
           1 4 murmurhash3_unused_reads table_abc_well_formed Hs Hl Hw).
Defined.

Lemma del_then_get_returns_null_witness :
  reads_len_bytes murmurhash3_unused /\
  well_formed murmurhash3_unused table_abc /\ 0 < 1 /\ allocs calm = [] /\
  exists w' hmap',
    rhashmap_del murmurhash3_unused calm table_abc key_b 1
    = Done (w', hmap', default NULL (find_key table_abc key_b 1)) /\
    rhashmap_get murmurhash3_unused table_abc key_b 1
    = Done (default NULL (find_key table_abc key_b 1)) /\
    rhashmap_get murmurhash3_unused hmap' key_b 1 = Done NULL /\
    forall k l, 0 < l -> key_eqb k l key_b 1 = false ->
      rhashmap_get murmurhash3_unused hmap' k l
      = rhashmap_get murmurhash3_unused table_abc k l.
Proof.
  assert (Hl : 0 < 1) by lia.
  assert (Hw : allocs calm = []) by reflexivity.
  split; [exact murmurhash3_unused_reads |].
  split; [exact table_abc_well_formed |]. split; [exact Hl |].
  split; [exact Hw |].
  exact (del_then_get_returns_null murmurhash3_unused calm table_abc key_b 1
           murmurhash3_unused_reads table_abc_well_formed Hl Hw).
Defined.

Lemma del_of_missing_key_witness :
  Forall fields_ok (hm_buckets table_abc) /\
  find_key table_abc key_d 1 = None /\
  rhashmap_del murmurhash3_unused calm table_abc key_d 1
  = Done (calm, table_abc, NULL).
Proof.
  assert (Hf : Forall fields_ok (hm_buckets table_abc)).
  { repeat constructor; vm_compute; intuition congruence. }
  assert (Hk : find_key table_abc key_d 1 = None) by (vm_compute; reflexivity).
  split; [exact Hf |]. split; [exact Hk |].
  exact (del_of_missing_key murmurhash3_unused calm table_abc key_d 1 Hf Hk).
Defined.

Lemma del_capacity_witness :
  table_ok table_cde /\ hm_minsize table_cde <= hm_size table_cde /\
  rhashmap_del murmurhash3_unused calm table_cde key_c 1
  = Done (calm, table_de, 3) /\
  hm_minsize table_de = hm_minsize table_cde /\
  hm_nitems table_de <= hm_nitems table_cde /\
  hm_minsize table_cde <= hm_size table_de <= hm_size table_cde.
Proof.
  assert (Hm : hm_minsize table_cde <= hm_size table_cde) by (simpl; lia).
  assert (Hd : rhashmap_del murmurhash3_unused calm table_cde key_c 1
               = Done (calm, table_de, 3)) by (vm_compute; reflexivity).
  split; [exact (proj1 (proj1 table_cde_well_formed)) |].
  split; [exact Hm |]. split; [exact Hd |].
  exact (del_capacity murmurhash3_unused calm table_cde key_c 1 calm table_de
           3 (proj1 (proj1 table_cde_well_formed)) Hm Hd).
Defined.

Lemma put_counts_keys_witness :
  reads_len_bytes murmurhash3_unused /\
  well_formed murmurhash3_unused table_abc /\ hm_size table_abc <= 2 ^ 15 /\
  0 <= 1 < 2 ^ 16 /\ allocs calm = [] /\
  exists w' hmap' ret,
    rhashmap_put murmurhash3_unused calm table_abc key_d 1 4
    = Done (w', hmap', ret) /\
    hm_nitems hmap' =
    match find_key table_abc key_d 1 with
    | Some _ => hm_nitems table_abc
    | None => hm_nitems table_abc + 1
    end.
Proof.
  assert (Hs : hm_size table_abc <= 2 ^ 15) by (simpl; lia).
  assert (Hl : 0 <= 1 < 2 ^ 16) by lia.
  assert (Hw : allocs calm = []) by reflexivity.
  split; [exact murmurhash3_unused_reads |].
  split; [exact table_abc_well_formed |]. split; [exact Hs |].
  split; [exact Hl |]. split; [exact Hw |].
  exact (put_counts_keys murmurhash3_unused calm table_abc key_d 1 4
           murmurhash3_unused_reads table_abc_well_formed Hs Hl Hw).
Defined.

Lemma del_counts_keys_witness :
  reads_len_bytes murmurhash3_unused /\
  well_formed murmurhash3_unused table_abc /\ allocs calm = [] /\
  exists w' hmap' ret,
    rhashmap_del murmurhash3_unused calm table_abc key_b 1
    = Done (w', hmap', ret) /\
    hm_nitems hmap' =
    match find_key table_abc key_b 1 with
    | Some _ => hm_nitems table_abc - 1
    | None => hm_nitems table_abc
    end.
Proof.
  assert (Hw : allocs calm = []) by reflexivity.
  split; [exact murmurhash3_unused_reads |].
  split; [exact table_abc_well_formed |]. split; [exact Hw |].
  exact (del_counts_keys murmurhash3_unused calm table_abc key_b 1
           murmurhash3_unused_reads table_abc_well_formed Hw).
Defined.

Lemma walk_after_run_lists_the_map_witness :
  reads_len_bytes murmurhash3_unused /\
  allocs calm = [] /\ 0 <= 0 <= 2 ^ 15 /\
  Forall valid_op sample_ops /\ Z.of_nat (length sample_ops) <= 13920 /\
  exists w0 hmap0 w' hmap' rets,
    rhashmap_create murmurhash3_unused calm 0 0 = Done (w0, Some hmap0) /\
    run murmurhash3_unused w0 hmap0 sample_ops = Done (w', hmap', rets) /\
    hm_nitems hmap' = Z.of_nat (length (model_run [] sample_ops).1) /\
    NoDup (map key_of_entry (stored hmap')) /\
    map entry_pair (stored hmap')
    ≡ₚ map entry_pair (model_run [] sample_ops).1 /\
    exists iter,
      walk_iter (Z.to_nat (hm_nitems hmap')) hmap' RHM_WALK_BEGIN
      = (stored hmap', iter) /\
      rhashmap_walk hmap' iter = (None, iter).
Proof.
  assert (Hw : allocs calm = []) by reflexivity.
  assert (Hs : 0 <= 0 <= 2 ^ 15) by lia.
  assert (Hv : Forall valid_op sample_ops).
  { repeat constructor; simpl; lia. }
  assert (Hl : Z.of_nat (length sample_ops) <= 13920) by (simpl; lia).
  split; [exact murmurhash3_unused_reads |].
  split; [exact Hw |]. split; [exact Hs |]. split; [exact Hv |].
  split; [exact Hl |].
  exact (walk_after_run_lists_the_map murmurhash3_unused calm 0 0 sample_ops
           murmurhash3_unused_reads Hw Hs Hv Hl).
Defined.

(** * A key held twice *)

(** Keys returned once each are held by one bucket each. *)
Lemma stored_NoDup_buckets bs :
  NoDup (map entry_key (omap bucket_entry bs)) ->
  forall (i j : nat) bi bj ei ej,
    bs !! i = Some bi -> bs !! j = Some bj ->
    bucket_entry bi = Some ei -> bucket_entry bj = Some ej ->
    entry_key ei = entry_key ej -> i = j.
Proof.
  induction bs as [| b bs IH]; intros Hn i j bi bj ei ej Hi Hj Hei Hej Hk;
    [rewrite lookup_nil in Hi; discriminate |].
  change (omap bucket_entry (b :: bs))
    with (match bucket_entry b with
          | Some e => e :: omap bucket_entry bs
          | None => omap bucket_entry bs
          end) in Hn.
  assert (Htl : NoDup (map entry_key (omap bucket_entry bs))).
  { destruct (bucket_entry b); [| exact Hn].
    cbn [map] in Hn. apply NoDup_cons in Hn as [_ Hn]. exact Hn. }
  assert (Hin : forall (n : nat) bn en, bs !! n = Some bn ->
            bucket_entry bn = Some en ->
            entry_key en ∈ map entry_key (omap bucket_entry bs)).
  { intros n bn en Hbn Hen. apply list_elem_of_fmap. exists en.
    split; [reflexivity |]. apply list_elem_of_omap. exists bn.
    split; [eapply list_elem_of_lookup_2; exact Hbn | exact Hen]. }
  destruct i as [| i], j as [| j].
  - reflexivity.
  - exfalso. cbn in Hi. inversion Hi; subst bi. rewrite Hei in Hn.
    cbn [map] in Hn. apply NoDup_cons in Hn as [Hnew _]. apply Hnew.
    rewrite Hk. eapply Hin; eassumption.
  - exfalso. cbn in Hj. inversion Hj; subst bj. rewrite Hej in Hn.
    cbn [map] in Hn. apply NoDup_cons in Hn as [Hnew _]. apply Hnew.
    rewrite <- Hk. eapply Hin; eassumption.
  - f_equal. eapply (IH Htl i j); eassumption.
Qed.

Section Twice.
Variable murmurhash3 : list byte -> Z -> Z -> Z.

(** The probe of [rhashmap_del] passes [m] occupied buckets that do not
    hold the key and whose [psl] is not below the distance walked. *)
Lemma del_probe_skip hmap key len hash :
  modulus_ok hmap ->
  forall (m fuel : nat) n i,
    (forall j : nat, (j < m)%nat ->
       let b := bucket_ref (hm_buckets hmap)
                           ((i + Z.of_nat j) mod hm_size hmap) in
       b_key b <> None /\ bucket_match b hash key len = Done false /\
       (u32 (n + Z.of_nat j) >? b_psl b) = false) ->
    0 <= i < hm_size hmap ->
    del_probe (m + fuel) hmap key len hash (u32 n) i =
    del_probe fuel hmap key len hash (u32 (n + Z.of_nat m))
              ((i + Z.of_nat m) mod hm_size hmap).
Proof.
  intros Hm. induction m as [| m IH]; intros fuel n i Hrun Hi.
  - rewrite !Z.add_0_r. rewrite Z.mod_small by exact Hi. reflexivity.
  - cbn [Nat.add del_probe].
    assert (H0lt : (0 < S m)%nat) by lia.
    pose proof (Hrun O H0lt) as H0. cbv zeta in H0.
    change (Z.of_nat 0) with 0 in H0.
    rewrite !Z.add_0_r, Z.mod_small in H0 by exact Hi.
    destruct H0 as (Hk & Hmatch & Hpsl).
    destruct (b_key (bucket_ref (hm_buckets hmap) i)) as [k0 |];
      [| contradiction].
    rewrite Hpsl, Hmatch. cbn [bind].
    rewrite slot_is_mod by (try exact Hm; apply u32_range).
    rewrite (u32_small (i + 1)) by (destruct Hm; lia).
    assert (Hn : u32 (u32 n + 1) = u32 (n + 1)).
    { unfold u32. rewrite Zplus_mod_idemp_l. reflexivity. }
    rewrite Hn. rewrite IH.
    + f_equal.
      * f_equal. lia.
      * rewrite Zplus_mod_idemp_l. f_equal. lia.
    + intros j Hj. assert (HSj : (S j < S m)%nat) by lia.
      specialize (Hrun (S j) HSj). cbv zeta in Hrun |- *.
      rewrite Zplus_mod_idemp_l.
      replace (i + 1 + Z.of_nat j) with (i + Z.of_nat (S j)) by lia.
      replace (n + 1 + Z.of_nat j) with (n + Z.of_nat (S j)) by lia.
      exact Hrun.
    + apply Z.mod_pos_bound. destruct Hm. lia.
Qed.

(** In a row of 65537 keys, the key at distance 65535 is deleted and
    nothing is shifted: the next entry has the wrapped [psl] 0. *)
Lemma chain_del fl hk d ks T k :
  chain_inv fl hk d ks T -> NoDup ks ->
  Forall (fun k => length k = 8%nat /\ digest8 murmurhash3 fl hk k = d) ks ->
  Z.of_nat (length ks) = 65537 ->
  ks !! Z.to_nat 65535 = Some k ->
  exists v,
    rhashmap_del murmurhash3 calm T k 8 = Done (calm, chain_deleted d T, v).
Proof.
  intros (Hsz & Hdiv & Hfl & Hhk & Hn & Hlen & Hocc & Hemp) Hnd Hall Hl Hj.
  assert (HS : chain_size = 131072) by reflexivity.
  assert (Hm : modulus_ok T).
  { split; [rewrite Hsz, HS; lia | rewrite Hsz; exact Hdiv]. }
  rewrite Forall_forall in Hall.
  destruct (Hall k (list_elem_of_lookup_2 _ _ _ Hj)) as [Hk8 Hkd].
  assert (Hdr : 0 <= d < 2 ^ 32) by (rewrite <- Hkd; apply compute_hash_range).
  assert (Hother : forall (j' : nat) k', j' <> Z.to_nat 65535 ->
            ks !! j' = Some k' ->
            bucket_match (bucket_ref (hm_buckets T)
                            ((d + Z.of_nat j') mod chain_size)) d k 8
            = Done false).
  { intros j' k' Hne Hj'. destruct (Hocc j' k' Hj') as (Hbk & Hbh & _ & Hbl).
    unfold bucket_match. rewrite Hbh, Hbl, Hbk, !Z.eqb_refl. cbn [andb].
    rewrite memcmp_eq_whole; [reflexivity | | exact Hk8 |].
    - apply (Hall k' (list_elem_of_lookup_2 _ _ _ Hj')).
    - intros ->. apply Hne. eapply NoDup_lookup; eassumption. }
  set (i5 := (d + 65535) mod chain_size).
  set (i6 := (d + 65536) mod chain_size).
  assert (Hi5 : 0 <= i5 < chain_size) by (apply Z.mod_pos_bound; lia).
  assert (Hi6 : 0 <= i6 < chain_size) by (apply Z.mod_pos_bound; lia).
  assert (Hne56 : i5 <> i6).
  { unfold i5, i6. intros E. apply mod_add_inj in E; lia. }
  pose proof (Hocc _ k Hj) as Hb5. cbv zeta in Hb5.
  rewrite (Z2Nat.id 65535) in Hb5 by lia. fold i5 in Hb5.
  destruct Hb5 as (Hb5k & Hb5h & Hb5p & Hb5l).
  change (u16 65535) with 65535 in Hb5p.
  assert (H6 : (Z.to_nat 65536 < length ks)%nat) by lia.
  destruct (lookup_lt_is_Some_2 ks _ H6) as [k6 Hk6].
  pose proof (Hocc _ k6 Hk6) as Hb6. cbv zeta in Hb6.
  rewrite (Z2Nat.id 65536) in Hb6 by lia. fold i6 in Hb6.
  destruct Hb6 as (Hb6k & _ & Hb6p & _). change (u16 65536) with 0 in Hb6p.
  unfold rhashmap_del.
  rewrite (compute_hash_fields murmurhash3 T fl hk k 8 Hfl Hhk).
  fold (digest8 murmurhash3 fl hk k). rewrite Hkd.
  rewrite slot_is_mod by assumption.
  assert (Hfuel : probe_fuel = (Z.to_nat 65535 + 2)%nat).
  { unfold probe_fuel. change (2 ^ 16 + 1) with (65535 + 2).
    rewrite Z2Nat.inj_add by lia. reflexivity. }
  rewrite Hfuel. change 0 with (u32 0) at 1.
  rewrite del_probe_skip;
    [| exact Hm | | apply Z.mod_pos_bound; rewrite Hsz, HS; lia].
  2:{ intros j' Hj'. cbv zeta. rewrite Hsz, Zplus_mod_idemp_l.
      assert (Hj'len : (j' < length ks)%nat) by lia.
      destruct (lookup_lt_is_Some_2 ks j' Hj'len) as [k' Hk'].
      destruct (Hocc j' k' Hk') as (Hbk & _ & Hbp & _).
      split; [rewrite Hbk; discriminate |].
      split; [apply (Hother j' k'); [lia | exact Hk'] |].
      rewrite Hbp, Z.add_0_l. unfold u16. rewrite u32_small by lia.
      rewrite Z.mod_small by lia. rewrite Z.gtb_ltb. apply Z.ltb_irrefl. }
  rewrite (Z2Nat.id 65535) by lia. rewrite Hsz, Zplus_mod_idemp_l.
  fold i5. change (u32 (0 + 65535)) with 65535.
  change 2%nat with (S 1). cbn [del_probe].
  rewrite Hb5k, Hb5p. change (65535 >? 65535) with false. cbv iota.
  assert (Hmatch : bucket_match (bucket_ref (hm_buckets T) i5) d k 8
                   = Done true).
  { unfold bucket_match. rewrite Hb5h, Hb5l, Hb5k, !Z.eqb_refl. cbn [andb].
    unfold memcmp_eq. rewrite (proj2 (bytes_eqb_eq _ _) eq_refl).
    reflexivity. }
  rewrite Hmatch. cbn [bind]. cbv zeta.
  rewrite Hn, Hl. change (u32 (65537 - 1)) with 65536.
  unfold shift_fuel. cbn [del_shift hm_buckets set_nitems].
  rewrite slot_is_mod by (try exact Hm; apply u32_range).
  cbn [hm_size set_nitems]. rewrite Hsz.
  rewrite (u32_small (i5 + 1)) by lia.
  assert (Hi56 : (i5 + 1) mod chain_size = i6).
  { unfold i5, i6. rewrite Zplus_mod_idemp_l. f_equal. lia. }
  rewrite Hi56.
  rewrite bucket_ref_set_ne by lia.
  rewrite Hb6k, Hb6p. change (0 =? 0) with true. cbv iota. cbn [bind].
  cbn [hm_nitems hm_minsize hm_size set_buckets set_nitems].
  change (APPROX_40_PERCENT chain_size) with 52352.
  change (65536 <? 52352) with false. rewrite andb_false_r.
  eexists. reflexivity.
Qed.

(** The key at distance 65536 is put again: the probe stops at the bucket
    the delete has emptied, one before the bucket that holds the key. *)
Lemma chain_put_again fl hk d ks T k v :
  chain_inv fl hk d ks T -> NoDup ks ->
  Forall (fun k => length k = 8%nat /\ digest8 murmurhash3 fl hk k = d) ks ->
  Z.of_nat (length ks) = 65537 ->
  ks !! Z.to_nat 65536 = Some k ->
  rhashmap_put murmurhash3 calm (chain_deleted d T) k 8 v
  = Done (calm, chain_reput d T k v, v).
Proof.
  intros (Hsz & Hdiv & Hfl & Hhk & Hn & Hlen & Hocc & Hemp) Hnd Hall Hl Hj.
  assert (HS : chain_size = 131072) by reflexivity.
  set (T1 := chain_deleted d T).
  assert (Hsz1 : hm_size T1 = chain_size) by exact Hsz.
  assert (Hm : modulus_ok T1).
  { split; [rewrite Hsz1, HS; lia | rewrite Hsz1; exact Hdiv]. }
  rewrite Forall_forall in Hall.
  destruct (Hall k (list_elem_of_lookup_2 _ _ _ Hj)) as [Hk8 Hkd].
  assert (Hdr : 0 <= d < 2 ^ 32) by (rewrite <- Hkd; apply compute_hash_range).
  set (i5 := (d + 65535) mod chain_size).
  assert (Hi5 : 0 <= i5 < chain_size) by (apply Z.mod_pos_bound; lia).
  assert (Hbs1 : hm_buckets T1
                 = bucket_set (hm_buckets T) i5
                     (clear_bucket (bucket_ref (hm_buckets T) i5)))
    by reflexivity.
  assert (Hfree : b_key (bucket_ref (hm_buckets T1) i5) = None).
  { rewrite Hbs1, bucket_ref_set_eq by lia. reflexivity. }
  set (e := mkBucket (Some k) v d 0 8).
  unfold rhashmap_put. rewrite Hsz1.
  change (APPROX_85_PERCENT chain_size) with 111360.
  change (hm_nitems T1) with 65536.
  change (65536 >? 111360) with false. cbv iota.
  unfold rhashmap_insert.
  rewrite (compute_hash_fields murmurhash3 T1 fl hk k 8 Hfl Hhk).
  fold (digest8 murmurhash3 fl hk k). rewrite Hkd.
  assert (Hsetup :
    (if Z.land (hm_flags T1) RHM_NOCOPY =? 0
     then let '(ok, w') := alloc calm in
          (w', if ok then Some (take (Z.to_nat 8) k) else None)
     else (calm, Some k)) = (calm, Some k)).
  { destruct (Z.land (hm_flags T1) RHM_NOCOPY =? 0); [| reflexivity].
    change (alloc calm) with (true, calm). cbv iota beta.
    rewrite take_ge by (rewrite Hk8; apply Nat.le_refl). reflexivity. }
  rewrite Hsetup. cbv iota beta.
  change (u16 8) with 8. fold e.
  rewrite slot_is_mod by assumption. rewrite Hsz1.
  assert (Hfuel : Z.to_nat chain_size
                  = (Z.to_nat 65535 + S (Z.to_nat 65536))%nat).
  { rewrite <- Z2Nat.inj_succ by lia. rewrite <- Z2Nat.inj_add by lia.
    f_equal. }
  rewrite Hfuel. generalize (Z.to_nat 65536). intros fuel.
  change e with (set_psl e (u16 0)) at 1.
  rewrite <- Hsz1.
  rewrite insert_probe_skip;
    [| exact Hm | | apply Z.mod_pos_bound; rewrite Hsz1, HS; lia].
  - rewrite (Z2Nat.id 65535) by lia.
    rewrite Hsz1, Zplus_mod_idemp_l. fold i5. cbn [insert_probe].
    rewrite Hfree. cbn [bind].
    change (hm_nitems T1) with 65536. reflexivity.
  - intros j Hjlt. cbv zeta. rewrite Hsz1, Zplus_mod_idemp_l.
    assert (Hjlen : (j < length ks)%nat) by lia.
    destruct (lookup_lt_is_Some_2 ks j Hjlen) as [kj Hkj].
    destruct (Hocc j kj Hkj) as (Hbk & Hbh & Hbp & Hbl).
    assert (Hne : i5 <> (d + Z.of_nat j) mod chain_size).
    { unfold i5. intros E. apply mod_add_inj in E; lia. }
    assert (Hjr : 0 <= (d + Z.of_nat j) mod chain_size)
      by (apply Z.mod_pos_bound; lia).
    rewrite Hbs1, bucket_ref_set_ne by lia.
    split; [rewrite Hbk; discriminate |]. split.
    + unfold bucket_match. rewrite Hbh, Hbl, Hbk, !Z.eqb_refl. cbn [andb].
      rewrite memcmp_eq_whole; [reflexivity | | exact Hk8 |].
      * apply (Hall kj (list_elem_of_lookup_2 _ _ _ Hkj)).
      * intros ->.
        assert (j = Z.to_nat 65536) by (eapply NoDup_lookup; eassumption).
        lia.
    + rewrite Hbp, Z.add_0_l. rewrite Z.gtb_ltb. apply Z.ltb_irrefl.
Qed.

Lemma run_app ops1 : forall ops2 w hmap w1 h1 r1 w2 h2 r2,
  run murmurhash3 w hmap ops1 = Done (w1, h1, r1) ->
  run murmurhash3 w1 h1 ops2 = Done (w2, h2, r2) ->
  run murmurhash3 w hmap (ops1 ++ ops2) = Done (w2, h2, r1 ++ r2).
Proof.
  induction ops1 as [| o ops1 IH]; intros ops2 w hmap w1 h1 r1 w2 h2 r2 H1 H2.
  - cbn [run] in H1. inversion H1; subst. exact H2.
  - cbn [run app] in H1 |- *. bind_case H1 E. destruct a as [[wa ha] ra].
    bind_case H1 E'. destruct a as [[wb hb] rb]. inversion H1; subst.
    cbn [bind]. rewrite (IH ops2 wa ha w1 h1 rb w2 h2 r2 E' H2).
    reflexivity.
Qed.

(** C8 at a failing input.  Whatever the hash function, there are 65537
    keys of 8 bytes with one digest.  They are put into a fresh table of
    131072 buckets, the key at distance 65535 is deleted and the key at
    distance 65536, whose [psl] has wrapped to 0, is put again; no
    allocation fails.  The put does not find the key and stores it a
    second time: the table holds it in two buckets, and the walk over its
    [nitems] entries returns it twice. *)
Theorem walk_returns_a_key_twice (flags : Z) :
  exists ks k1 k2 v hmap es iter,
    NoDup ks /\ Forall (fun k => length k = 8%nat) ks /\
    k1 ∈ ks /\ k2 ∈ ks /\
    rhashmap_create murmurhash3 calm chain_size flags
      = Done (calm, Some (chain_table flags)) /\
    run murmurhash3 calm (chain_table flags)
        (map (fun k => Put k 8 1) ks ++ [Del k1 8; Put k2 8 2])
      = Done (calm, hmap, map (fun _ => 1) ks ++ [v; 2]) /\
    reachable murmurhash3 hmap /\
    (exists (i j : nat) bi bj,
       i <> j /\
       hm_buckets hmap !! i = Some bi /\ hm_buckets hmap !! j = Some bj /\
       b_key bi = Some k2 /\ b_len bi = 8 /\
       b_key bj = Some k2 /\ b_len bj = 8) /\
    walk_iter (Z.to_nat (hm_nitems hmap)) hmap RHM_WALK_BEGIN = (es, iter) /\
    Z.of_nat (length es) = hm_nitems hmap /\
    rhashmap_walk hmap iter = (None, iter) /\
    ~ NoDup (map entry_key es).
Proof.
  destruct (colliding_keys (digest8 murmurhash3 flags 0) (Z.to_nat 65537))
    as (d & ks & Hlen & Hnd & Hall).
  { intros k. apply compute_hash_range. }
  { rewrite Z2Nat.id; lia. }
  assert (Hl : Z.of_nat (length ks) = 65537) by (rewrite Hlen; lia).
  destruct (chain_run murmurhash3 flags 0 d 1 ks [] (chain_table flags))
    as (T & Hrun & Hinv).
  { apply chain_table_inv. }
  { exact Hnd. }
  { exact Hall. }
  { cbn [app]. lia. }
  cbn [app] in Hinv.
  assert (H5 : (Z.to_nat 65535 < length ks)%nat) by lia.
  assert (H6 : (Z.to_nat 65536 < length ks)%nat) by lia.
  destruct (lookup_lt_is_Some_2 ks _ H5) as [k1 Hk1].
  destruct (lookup_lt_is_Some_2 ks _ H6) as [k2 Hk2].
  destruct (chain_del flags 0 d ks T k1 Hinv Hnd Hall Hl Hk1) as [v Hdel].
  pose proof (chain_put_again flags 0 d ks T k2 2 Hinv Hnd Hall Hl Hk2)
    as Hput.
  set (hmap := chain_reput d T k2 2) in *.
  assert (Hops : run murmurhash3 calm T [Del k1 8; Put k2 8 2]
                 = Done (calm, hmap, [v; 2])).
  { cbn [run step]. rewrite Hdel. cbn [bind]. rewrite Hput. reflexivity. }
  pose proof (run_app _ _ _ _ _ _ _ _ _ _ Hrun Hops) as Hall_run.
  assert (Hreach : reachable murmurhash3 hmap).
  { eapply run_reachable; [| exact Hall_run].
    eapply reach_create. apply chain_table_created. }
  pose proof (reachable_shape murmurhash3 hmap Hreach) as Hok.
  destruct (walk_all hmap Hok) as (Hcount & iter & Hit & Hend).
  pose proof Hinv as (Hsz & _ & _ & _ & _ & HlenT & Hocc & _).
  assert (HS : chain_size = 131072) by reflexivity.
  set (i5 := (d + 65535) mod chain_size).
  set (i6 := (d + 65536) mod chain_size).
  assert (Hi5 : 0 <= i5 < chain_size) by (apply Z.mod_pos_bound; lia).
  assert (Hi6 : 0 <= i6 < chain_size) by (apply Z.mod_pos_bound; lia).
  assert (Hne56 : i5 <> i6).
  { unfold i5, i6. intros E. apply mod_add_inj in E; lia. }
  pose proof (Hocc _ k2 Hk2) as Hb6. cbv zeta in Hb6.
  rewrite (Z2Nat.id 65536) in Hb6 by lia. fold i6 in Hb6.
  destruct Hb6 as (Hb6k & _ & _ & Hb6l).
  set (b5 := mkBucket (Some k2) 2 d 65535 8).
  assert (Hbs : hm_buckets hmap
                = bucket_set
                    (bucket_set (hm_buckets T) i5
                       (clear_bucket (bucket_ref (hm_buckets T) i5)))
                    i5 b5) by reflexivity.
  assert (Hlk5 : hm_buckets hmap !! Z.to_nat i5 = Some b5).
  { rewrite Hbs. unfold bucket_set. apply list_lookup_insert_eq.
    rewrite length_insert. lia. }
  assert (Hlk6 : hm_buckets hmap !! Z.to_nat i6
                 = Some (bucket_ref (hm_buckets T) i6)).
  { rewrite Hbs. unfold bucket_set.
    rewrite !list_lookup_insert_ne by lia.
    eapply lookup_of_bucket_ref. exact Hb6k. }
  exists ks, k1, k2, v, hmap, (stored hmap), iter.
  split; [exact Hnd |].
  split; [eapply Forall_impl; [exact Hall |]; intros k' [H8 _]; exact H8 |].
  split; [eapply list_elem_of_lookup_2; exact Hk1 |].
  split; [eapply list_elem_of_lookup_2; exact Hk2 |].
  split; [apply chain_table_created |].
  split; [exact Hall_run |]. split; [exact Hreach |].
  split.
  { exists (Z.to_nat i5), (Z.to_nat i6), b5, (bucket_ref (hm_buckets T) i6).
    split; [lia |]. split; [exact Hlk5 |]. split; [exact Hlk6 |].
    split; [reflexivity |]. split; [reflexivity |].
    split; [exact Hb6k | exact Hb6l]. }
  split; [exact Hit |]. split; [exact Hcount |]. split; [exact Hend |].
  intros Hnodup.
  assert (Z.to_nat i5 = Z.to_nat i6); [| lia].
  eapply (stored_NoDup_buckets (hm_buckets hmap) Hnodup
            (Z.to_nat i5) (Z.to_nat i6) b5 (bucket_ref (hm_buckets T) i6)
            (k2, 8, 2) (k2, 8, b_val (bucket_ref (hm_buckets T) i6))).
  - exact Hlk5.
  - exact Hlk6.
  - reflexivity.
  - unfold bucket_entry. rewrite Hb6k, Hb6l. reflexivity.
  - reflexivity.
Qed.

End Twice.
